(** * Product Attention Insights: job queue, worker and webhook gate

    A shallow embedding of
      - [app/insights/signals.server.ts]   (confidence score),
      - [app/jobs.server.ts]               (enqueue, claim, process, backoff),
      - [scripts/worker.ts]                (tick, run completion),
      - [app/routes/app.insights.tsx]      (the batch / generate action),
      - [app/routes/webhooks.app.uninstalled.tsx] (uninstall webhook),
    over an explicit model of the Prisma store.  Every awaited Prisma call
    is one atomic statement; an async function is a tree of such statements
    ([Proc]), which is run either alone ([run], recording every store a
    concurrent observer could see) or interleaved with other callers
    ([exec]). *)

From Stdlib Require Import ZArith List Ascii String Bool Lia.
From Stdlib Require Import Floats.PrimFloat.
Import ListNotations.
Open Scope string_scope.
Open Scope Z_scope.

Set Implicit Arguments.
Set Warnings "-inexact-float".

(** ** Data model *)

(** Row identities are generated by the store (never empty), so a
    truthiness test [if (runId)] on an optional identity is a presence
    test. *)
Definition Id := nat.
Bind Scope nat_scope with Id.

(** Timestamps, in milliseconds. *)
Definition Time := Z.

Inductive InsightJobStatus := QUEUED | RUNNING | SUCCEEDED | FAILED.

Inductive RunStatus := RUN_RUNNING | RUN_COMPLETED.

(** What a JavaScript [throw] carries: an [Error] with its message, or
    some other value. *)
Inductive Thrown := ErrorObj (message : string) | NonError.

Inductive Res (A : Type) : Type :=
| Ok (a : A)
| Err (e : Thrown).
Arguments Ok {A} a.
Arguments Err {A} e.

Record InsightJob := {
  job_id : Id;
  job_shop : string;
  job_productId : string;
  job_runId : option Id;
  job_status : InsightJobStatus;
  job_attempts : Z;
  job_lastError : option string;
  job_nextRetryAt : option Time;
  job_createdAt : Time;
  job_updatedAt : Time
}.

Record ProductInsight := {
  ins_id : Id;
  ins_shop : string;
  ins_productId : string;
  ins_productTitle : string;
  ins_status : string;
  ins_recommendation : string;
  ins_lastProductUpdatedAt : Time;
  ins_productStatus : option string;
  ins_hasFeaturedImage : option bool;
  ins_inventoryStatus : option string;
  ins_inventoryAvailable : option Z;
  (* the JSON text of the next steps, held as the list it encodes *)
  ins_reasonsJson : option (list string);
  ins_aiExplanation : option string;
  ins_aiActionType : option string;
  ins_aiGeneratedAt : option Time;
  ins_aiModel : option string;
  ins_aiStatus : option InsightJobStatus;
  ins_aiError : option string
}.

Record Run := {
  run_id : Id;
  run_shop : string;
  run_status : RunStatus;
  run_productsQueued : Z;
  run_succeeded : Z;
  run_failed : Z;
  run_createdAt : Time;
  run_completedAt : option Time
}.

Record WebhookEvent := {
  we_id : Id;
  we_webhookId : string;
  we_topic : string;
  we_shop : string;
  we_receivedAt : Time
}.

Record Session := {
  session_id : string;
  session_shop : string
}.

(** The tables; row order is insertion order. *)
Record Store := {
  insightJob : list InsightJob;
  productInsight : list ProductInsight;
  runT : list Run;
  webhookEvent : list WebhookEvent;
  sessionT : list Session
}.

(** The store together with the wall clock and the identity supply. *)
Record World := {
  clock : Time;
  nextId : Id;
  db : Store
}.

Definition with_jobs (f : list InsightJob -> list InsightJob) (w : World) : World :=
  {| clock := clock w; nextId := nextId w;
     db := {| insightJob := f (insightJob (db w));
              productInsight := productInsight (db w);
              runT := runT (db w);
              webhookEvent := webhookEvent (db w);
              sessionT := sessionT (db w) |} |}.

Definition with_insights (f : list ProductInsight -> list ProductInsight) (w : World) : World :=
  {| clock := clock w; nextId := nextId w;
     db := {| insightJob := insightJob (db w);
              productInsight := f (productInsight (db w));
              runT := runT (db w);
              webhookEvent := webhookEvent (db w);
              sessionT := sessionT (db w) |} |}.

Definition with_runs (f : list Run -> list Run) (w : World) : World :=
  {| clock := clock w; nextId := nextId w;
     db := {| insightJob := insightJob (db w);
              productInsight := productInsight (db w);
              runT := f (runT (db w));
              webhookEvent := webhookEvent (db w);
              sessionT := sessionT (db w) |} |}.

Definition with_events (f : list WebhookEvent -> list WebhookEvent) (w : World) : World :=
  {| clock := clock w; nextId := nextId w;
     db := {| insightJob := insightJob (db w);
              productInsight := productInsight (db w);
              runT := runT (db w);
              webhookEvent := f (webhookEvent (db w));
              sessionT := sessionT (db w) |} |}.

Definition with_sessions (f : list Session -> list Session) (w : World) : World :=
  {| clock := clock w; nextId := nextId w;
     db := {| insightJob := insightJob (db w);
              productInsight := productInsight (db w);
              runT := runT (db w);
              webhookEvent := webhookEvent (db w);
              sessionT := f (sessionT (db w)) |} |}.

Definition bump_id (w : World) : World :=
  {| clock := clock w; nextId := S (nextId w); db := db w |}.

Definition advance (d : Z) (w : World) : World :=
  {| clock := clock w + d; nextId := nextId w; db := db w |}.

(** ** Prisma statements

    A statement runs atomically against the world and either returns a
    value or throws, leaving the world as it was. *)

Definition Stmt (A : Type) : Type := World -> Res A * World.

Definition patch {A : Type} (new : option A) (old : A) : A :=
  match new with Some v => v | None => old end.

(** The [data] argument of an update: [None] leaves the column alone. *)
Record JobData := {
  jd_status : option InsightJobStatus;
  jd_attempts_increment : option Z;
  jd_lastError : option (option string);
  jd_nextRetryAt : option (option Time);
  jd_updatedAt : option Time
}.

Record InsightData := {
  nd_aiExplanation : option (option string);
  nd_aiActionType : option (option string);
  nd_aiGeneratedAt : option (option Time);
  nd_aiModel : option (option string);
  nd_aiStatus : option (option InsightJobStatus);
  nd_aiError : option (option string);
  nd_reasonsJson : option (option (list string))
}.

Record RunData := {
  rd_status : option RunStatus;
  rd_succeeded_increment : option Z;
  rd_failed_increment : option Z;
  rd_completedAt : option (option Time)
}.

(** Modelled from the spec: the Prisma schema is not among the sources.
    The migration declares [InsightJob.updatedAt] without a default and the
    spec calls it the Job's last-modified marker, so an update that does
    not set the column itself stamps it with the current time. *)
Definition job_apply (now : Time) (d : JobData) (j : InsightJob) : InsightJob :=
  {| job_id := job_id j;
     job_shop := job_shop j;
     job_productId := job_productId j;
     job_runId := job_runId j;
     job_status := patch (jd_status d) (job_status j);
     job_attempts :=
       match jd_attempts_increment d with
       | Some n => job_attempts j + n
       | None => job_attempts j
       end;
     job_lastError := patch (jd_lastError d) (job_lastError j);
     job_nextRetryAt := patch (jd_nextRetryAt d) (job_nextRetryAt j);
     job_createdAt := job_createdAt j;
     job_updatedAt := patch (jd_updatedAt d) now |}.

Definition insight_apply (d : InsightData) (i : ProductInsight) : ProductInsight :=
  {| ins_id := ins_id i;
     ins_shop := ins_shop i;
     ins_productId := ins_productId i;
     ins_productTitle := ins_productTitle i;
     ins_status := ins_status i;
     ins_recommendation := ins_recommendation i;
     ins_lastProductUpdatedAt := ins_lastProductUpdatedAt i;
     ins_productStatus := ins_productStatus i;
     ins_hasFeaturedImage := ins_hasFeaturedImage i;
     ins_inventoryStatus := ins_inventoryStatus i;
     ins_inventoryAvailable := ins_inventoryAvailable i;
     ins_reasonsJson := patch (nd_reasonsJson d) (ins_reasonsJson i);
     ins_aiExplanation := patch (nd_aiExplanation d) (ins_aiExplanation i);
     ins_aiActionType := patch (nd_aiActionType d) (ins_aiActionType i);
     ins_aiGeneratedAt := patch (nd_aiGeneratedAt d) (ins_aiGeneratedAt i);
     ins_aiModel := patch (nd_aiModel d) (ins_aiModel i);
     ins_aiStatus := patch (nd_aiStatus d) (ins_aiStatus i);
     ins_aiError := patch (nd_aiError d) (ins_aiError i) |}.

Definition run_apply (d : RunData) (r : Run) : Run :=
  {| run_id := run_id r;
     run_shop := run_shop r;
     run_status := patch (rd_status d) (run_status r);
     run_productsQueued := run_productsQueued r;
     run_succeeded :=
       match rd_succeeded_increment d with
       | Some n => run_succeeded r + n
       | None => run_succeeded r
       end;
     run_failed :=
       match rd_failed_increment d with
       | Some n => run_failed r + n
       | None => run_failed r
       end;
     run_createdAt := run_createdAt r;
     run_completedAt := patch (rd_completedAt d) (run_completedAt r) |}.

Definition status_eqb (a b : InsightJobStatus) : bool :=
  match a, b with
  | QUEUED, QUEUED | RUNNING, RUNNING | SUCCEEDED, SUCCEEDED | FAILED, FAILED => true
  | _, _ => false
  end.

Definition run_status_eqb (a b : RunStatus) : bool :=
  match a, b with
  | RUN_RUNNING, RUN_RUNNING | RUN_COMPLETED, RUN_COMPLETED => true
  | _, _ => false
  end.

Definition opt_id_eqb (a : option Id) (b : Id) : bool :=
  match a with Some x => Nat.eqb x b | None => false end.

(** Rows addressed by their primary key. *)
Section Table.
Variable Row : Type.
Variable key : Row -> Id.

Definition find_key (id : Id) (rows : list Row) : option Row :=
  find (fun r => Nat.eqb (key r) id) rows.

Definition update_key (id : Id) (f : Row -> Row) (rows : list Row) : list Row :=
  map (fun r => if Nat.eqb (key r) id then f r else r) rows.

Definition update_where (p : Row -> bool) (f : Row -> Row) (rows : list Row) : list Row :=
  map (fun r => if p r then f r else r) rows.

Definition delete_where (p : Row -> bool) (rows : list Row) : list Row :=
  filter (fun r => negb (p r)) rows.
End Table.

Definition job_row (w : World) (id : Id) : option InsightJob :=
  find_key job_id id (insightJob (db w)).

Definition insight_row (w : World) (id : Id) : option ProductInsight :=
  find_key ins_id id (productInsight (db w)).

Definition run_row (w : World) (id : Id) : option Run :=
  find_key run_id id (runT (db w)).

Definition not_found : Thrown := ErrorObj "Record to update not found.".
Definition unique_violation : Thrown := ErrorObj "Unique constraint failed.".
Definition foreign_key_violation : Thrown := ErrorObj "Foreign key constraint failed.".

(** The first row in ascending [createdAt] order (the earliest inserted
    among equals). *)
Fixpoint oldest (l : list InsightJob) : option InsightJob :=
  match l with
  | [] => None
  | j :: rest =>
      match oldest rest with
      | None => Some j
      | Some m => if job_createdAt j <=? job_createdAt m then Some j else Some m
      end
  end.

Definition in_active (s : InsightJobStatus) : bool :=
  match s with QUEUED | RUNNING => true | _ => false end.

Module Prisma.

(** [insightJob] *)

Definition job_findFirst (p : InsightJob -> bool) : Stmt (option InsightJob) :=
  fun w => (Ok (find p (insightJob (db w))), w).

Definition job_findFirst_orderBy_createdAt (p : InsightJob -> bool)
  : Stmt (option InsightJob) :=
  fun w => (Ok (oldest (filter p (insightJob (db w)))), w).

Definition job_findUnique (id : Id) : Stmt (option InsightJob) :=
  fun w => (Ok (find_key job_id id (insightJob (db w))), w).

Definition job_update (id : Id) (d : JobData) : Stmt InsightJob :=
  fun w =>
    match find_key job_id id (insightJob (db w)) with
    | None => (Err not_found, w)
    | Some j =>
        (Ok (job_apply (clock w) d j),
         with_jobs (update_key job_id id (job_apply (clock w) d)) w)
    end.

(** Returns the number of rows updated. *)
Definition job_updateMany (p : InsightJob -> bool) (d : JobData) : Stmt nat :=
  fun w =>
    (Ok (List.length (filter p (insightJob (db w)))),
     with_jobs (update_where p (job_apply (clock w) d)) w).

(** [runId] is a foreign key into [Run]. *)
Definition job_create (shop productId : string) (runId : option Id)
           (status : InsightJobStatus) : Stmt InsightJob :=
  fun w =>
    let j := {| job_id := nextId w;
                job_shop := shop;
                job_productId := productId;
                job_runId := runId;
                job_status := status;
                job_attempts := 0;
                job_lastError := None;
                job_nextRetryAt := None;
                job_createdAt := clock w;
                job_updatedAt := clock w |} in
    match runId with
    | Some r =>
        match find_key run_id r (runT (db w)) with
        | None => (Err foreign_key_violation, w)
        | Some _ => (Ok j, bump_id (with_jobs (fun l => (l ++ [j])%list) w))
        end
    | None => (Ok j, bump_id (with_jobs (fun l => (l ++ [j])%list) w))
    end.

Definition job_count (p : InsightJob -> bool) : Stmt nat :=
  fun w => (Ok (List.length (filter p (insightJob (db w)))), w).

Definition job_deleteMany (p : InsightJob -> bool) : Stmt nat :=
  fun w =>
    (Ok (List.length (filter p (insightJob (db w)))), with_jobs (delete_where p) w).

(** [productInsight]; [(shop, productId)] is a unique key. *)

Definition insight_findUnique (shop productId : string) : Stmt (option ProductInsight) :=
  fun w =>
    (Ok (find (fun i => String.eqb (ins_shop i) shop
                        && String.eqb (ins_productId i) productId)
              (productInsight (db w))), w).

Definition insight_update (id : Id) (d : InsightData) : Stmt ProductInsight :=
  fun w =>
    match find_key ins_id id (productInsight (db w)) with
    | None => (Err not_found, w)
    | Some i =>
        (Ok (insight_apply d i),
         with_insights (update_key ins_id id (insight_apply d)) w)
    end.

Definition insight_deleteMany (p : ProductInsight -> bool) : Stmt nat :=
  fun w =>
    (Ok (List.length (filter p (productInsight (db w)))),
     with_insights (delete_where p) w).

(** [run] *)

Definition run_create (shop : string) (status : RunStatus) (productsQueued : Z)
  : Stmt Run :=
  fun w =>
    let r := {| run_id := nextId w;
                run_shop := shop;
                run_status := status;
                run_productsQueued := productsQueued;
                run_succeeded := 0;
                run_failed := 0;
                run_createdAt := clock w;
                run_completedAt := None |} in
    (Ok r, bump_id (with_runs (fun l => (l ++ [r])%list) w)).

Definition run_update (id : Id) (d : RunData) : Stmt Run :=
  fun w =>
    match find_key run_id id (runT (db w)) with
    | None => (Err not_found, w)
    | Some r =>
        (Ok (run_apply d r), with_runs (update_key run_id id (run_apply d)) w)
    end.

Definition run_findMany (p : Run -> bool) : Stmt (list Run) :=
  fun w => (Ok (filter p (runT (db w))), w).

(** The migration declares [InsightJob.runId] with ON DELETE SET NULL. *)
Definition job_clear_run (j : InsightJob) : InsightJob :=
  {| job_id := job_id j; job_shop := job_shop j;
     job_productId := job_productId j; job_runId := None;
     job_status := job_status j; job_attempts := job_attempts j;
     job_lastError := job_lastError j; job_nextRetryAt := job_nextRetryAt j;
     job_createdAt := job_createdAt j; job_updatedAt := job_updatedAt j |}.

Definition refers_to_deleted (p : Run -> bool) (runs : list Run) (j : InsightJob) : bool :=
  match job_runId j with
  | Some r => existsb (fun x => Nat.eqb (run_id x) r && p x) runs
  | None => false
  end.

Definition run_deleteMany (p : Run -> bool) : Stmt nat :=
  fun w =>
    (Ok (List.length (filter p (runT (db w)))),
     with_runs (delete_where p)
       (with_jobs (update_where (refers_to_deleted p (runT (db w))) job_clear_run) w)).

(** [webhookEvent]; [webhookId] is a unique key. *)

Definition event_findUnique (webhookId : string) : Stmt (option WebhookEvent) :=
  fun w =>
    (Ok (find (fun e => String.eqb (we_webhookId e) webhookId)
              (webhookEvent (db w))), w).

Definition event_create (webhookId topic shop : string) : Stmt WebhookEvent :=
  fun w =>
    let e := {| we_id := nextId w;
                we_webhookId := webhookId;
                we_topic := topic;
                we_shop := shop;
                we_receivedAt := clock w |} in
    if existsb (fun x => String.eqb (we_webhookId x) webhookId) (webhookEvent (db w))
    then (Err unique_violation, w)
    else (Ok e, bump_id (with_events (fun l => (l ++ [e])%list) w)).

(** [session] *)

Definition session_deleteMany (p : Session -> bool) : Stmt nat :=
  fun w =>
    (Ok (List.length (filter p (sessionT (db w)))), with_sessions (delete_where p) w).

(** [$transaction([...])]: the statements in order, all or nothing. *)

Definition void {A : Type} (s : Stmt A) : Stmt unit :=
  fun w => match s w with
           | (Ok _, w') => (Ok tt, w')
           | (Err e, w') => (Err e, w')
           end.

Fixpoint sequence (ss : list (Stmt unit)) : Stmt unit :=
  fun w =>
    match ss with
    | [] => (Ok tt, w)
    | s :: rest =>
        match s w with
        | (Ok _, w') => sequence rest w'
        | (Err e, w') => (Err e, w')
        end
    end.

Definition transaction (ss : list (Stmt unit)) : Stmt unit :=
  fun w =>
    match sequence ss w with
    | (Ok _, w') => (Ok tt, w')
    | (Err e, _) => (Err e, w)
    end.

End Prisma.

(** ** The AI executor (an external collaborator) *)

Record AIInsightInput := {
  ai_productTitle : string;
  ai_vendor : option string;
  ai_productType : option string;
  ai_daysSinceUpdated : Z;
  ai_status : string;
  ai_recommendation : string;
  ai_updatedAt : Time;
  ai_productStatus : option string;
  ai_hasFeaturedImage : option bool;
  ai_inventoryStatus : option string;
  ai_inventoryAvailable : option Z
}.

Record AIInsightOutput := {
  summary : string;
  actionType : string;
  nextSteps : list string;
  caveats : option string
}.

(** What [generateProductInsightExplanation] resolves to: the output and
    the model identifier, or a thrown value. *)
Definition AiResult : Type := Res (AIInsightOutput * string).

(** ** Asynchronous functions *)

Inductive Model := InsightJobM | ProductInsightM | RunM | WebhookEventM | SessionM.

Inductive Action :=
  FindFirst | FindUnique | FindMany | Create | Update | UpdateMany | DeleteMany | Count.

(** What an awaited call is, for the record of an execution. *)
Inductive Label :=
| Call (m : Model) (a : Action)
| Transaction (ops : list (Model * Action))
| AuthenticateWebhook
| GenerateExplanation.

(** An async function body: a tree whose nodes are its awaited calls. *)
Inductive Proc (R : Type) : Type :=
| Ret (r : R)
| Throw (e : Thrown)
| Now (k : Time -> Proc R)
| Await (A : Type) (l : Label) (s : Stmt A) (k : Res A -> Proc R)
| Generate (input : AIInsightInput) (k : AiResult -> Proc R).
Arguments Ret {R} r.
Arguments Throw {R} e.
Arguments Now {R} k.
Arguments Await {R A} l s k.
Arguments Generate {R} input k.

Fixpoint bind {A B : Type} (p : Proc A) (f : A -> Proc B) : Proc B :=
  match p with
  | Ret a => f a
  | Throw e => Throw e
  | Now k => Now (fun t => bind (k t) f)
  | Await l s k => Await l s (fun r => bind (k r) f)
  | Generate i k => Generate i (fun r => bind (k r) f)
  end.

(** [try { p } catch (err) { h err }] *)
Fixpoint try_catch {A : Type} (p : Proc A) (h : Thrown -> Proc A) : Proc A :=
  match p with
  | Ret a => Ret a
  | Throw e => h e
  | Now k => Now (fun t => try_catch (k t) h)
  | Await l s k => Await l s (fun r => try_catch (k r) h)
  | Generate i k => Generate i (fun r => try_catch (k r) h)
  end.

Definition of_res {A : Type} (r : Res A) : Proc A :=
  match r with Ok a => Ret a | Err e => Throw e end.

(** [await s]: the value, or the rejection rethrown. *)
Definition await {A : Type} (l : Label) (s : Stmt A) : Proc A :=
  Await l s of_res.

Definition generateProductInsightExplanation (input : AIInsightInput)
  : Proc (AIInsightOutput * string) :=
  Generate input of_res.

(** [new Date()] / [Date.now()] *)
Definition new_Date : Proc Time := Now (fun t => Ret t).

Declare Scope proc_scope.
Delimit Scope proc_scope with proc.
Notation "x <- p ;; q" := (bind p (fun x => q))
  (at level 61, p at next level, right associativity) : proc_scope.
Notation "p ;; q" := (bind p (fun _ => q))
  (at level 61, right associativity) : proc_scope.
Open Scope proc_scope.

(** *** Running one function alone *)

(** The stores another client of the database could see during a call:
    one entry per awaited call, with the world right after it. *)
Definition Trace : Type := list (Label * World).

Fixpoint run {R : Type} (ai : AIInsightInput -> AiResult) (p : Proc R) (w : World)
  : Res R * World * Trace :=
  match p with
  | Ret r => (Ok r, w, [])
  | Throw e => (Err e, w, [])
  | Now k => run ai (k (clock w)) w
  | Await l s k =>
      let '(r, w1) := s w in
      let '(res, w2, tr) := run ai (k r) w1 in
      (res, w2, (l, w1) :: tr)
  | Generate i k =>
      let '(res, w2, tr) := run ai (k (ai i)) w in
      (res, w2, (GenerateExplanation, w) :: tr)
  end.

Definition result {R : Type} (x : Res R * World * Trace) : Res R := fst (fst x).
Definition final {R : Type} (x : Res R * World * Trace) : World := snd (fst x).
Definition trace {R : Type} (x : Res R * World * Trace) : Trace := snd x.

(** *** Running several callers against one store *)

(** Synchronous code up to the next awaited call. *)
Fixpoint settle {R : Type} (w : World) (p : Proc R) : Proc R :=
  match p with
  | Now k => settle w (k (clock w))
  | _ => p
  end.

(** One awaited call of one caller; [ai] is what the executor answers if
    the call is to it. *)
Definition step {R : Type} (ai : AiResult) (p : Proc R) (w : World)
  : Proc R * World * option Label :=
  match settle w p with
  | Await l s k => let '(r, w1) := s w in (k r, w1, Some l)
  | Generate i k => (k ai, w, Some GenerateExplanation)
  | q => (q, w, None)
  end.

Inductive Event :=
| Sched (i : nat) (ai : AiResult)   (* caller [i] makes its next call *)
| Tick (d : Z).                     (* [d] milliseconds pass *)

Record Sys (R : Type) : Type := {
  pool : list (Proc R);
  world : World;
  history : list (nat * Label)
}.

Fixpoint set_nth {A : Type} (i : nat) (x : A) (l : list A) : list A :=
  match l, i with
  | [], _ => []
  | _ :: r, O => x :: r
  | y :: r, S j => y :: set_nth j x r
  end.

Definition sys_step {R : Type} (s : Sys R) (ev : Event) : Sys R :=
  match ev with
  | Tick d =>
      {| pool := pool s;
         world := if 0 <=? d then advance d (world s) else world s;
         history := history s |}
  | Sched i ai =>
      match nth_error (pool s) i with
      | None => s
      | Some p =>
          let '(p1, w1, l) := step ai p (world s) in
          {| pool := set_nth i p1 (pool s);
             world := w1;
             history := match l with
                        | Some l => (history s ++ [(i, l)])%list
                        | None => history s
                        end |}
      end
  end.

Definition exec {R : Type} (s : Sys R) (evs : list Event) : Sys R :=
  fold_left sys_step evs s.

Definition start {R : Type} (ps : list (Proc R)) (w : World) : Sys R :=
  {| pool := ps; world := w; history := [] |}.

(** ** [app/insights/signals.server.ts] *)

Module Signals.

(** JavaScript numbers are IEEE 754 binary64 values; a decimal literal
    denotes the nearest one. *)
Set Warnings "-inexact-float".

Definition is_neg_zero (x : float) : bool :=
  PrimFloat.is_zero x && PrimFloat.get_sign x.

(** [Math.min] and [Math.max]: NaN if an argument is NaN, and -0 below +0. *)
Definition Math_min (a b : float) : float :=
  if PrimFloat.is_nan a || PrimFloat.is_nan b then PrimFloat.nan
  else if PrimFloat.ltb a b then a
  else if PrimFloat.ltb b a then b
  else if is_neg_zero a then a else b.

Definition Math_max (a b : float) : float :=
  if PrimFloat.is_nan a || PrimFloat.is_nan b then PrimFloat.nan
  else if PrimFloat.ltb a b then b
  else if PrimFloat.ltb b a then a
  else if is_neg_zero a then b else a.

Record ConfidenceInput := {
  hasStatus : bool;
  hasImage : bool;
  hasInventory : bool;
  daysSinceUpdated : float
}.

Definition computeConfidence (input : ConfidenceInput) : float :=
  let score := 0.5%float in
  let score := if hasStatus input then (score + 0.15)%float else score in
  let score := if hasImage input then (score + 0.15)%float else score in
  let score := if hasInventory input then (score + 0.15)%float else score in
  let score :=
    if PrimFloat.leb 0%float (daysSinceUpdated input)
       && PrimFloat.ltb (daysSinceUpdated input) 365%float
    then (score + 0.05)%float else score in
  Math_min 0.95%float (Math_max 0.1%float score).

(** The number of signal flags that are set. *)
Definition flags (input : ConfidenceInput) : nat :=
  (Nat.b2n (hasStatus input) + Nat.b2n (hasImage input)
   + Nat.b2n (hasInventory input))%nat.

End Signals.

(** ** [app/jobs.server.ts] *)

Module Jobs.
Import Prisma.

Definition MAX_ATTEMPTS : Z := 3.
Definition BACKOFF_MS : list Z := [2000; 5000; 10000].

(** [BACKOFF_MS[Math.min(attemptIndex, BACKOFF_MS.length - 1)] ?? 10000];
    an index outside the array reads [undefined]. *)
Definition getBackoffMs (attemptIndex : Z) : Z :=
  let i := Z.min attemptIndex (Z.of_nat (List.length BACKOFF_MS) - 1) in
  match (if i <? 0 then None else nth_error BACKOFF_MS (Z.to_nat i)) with
  | Some ms => ms
  | None => 10000
  end.

Definition is_active_for (shop productId : string) (j : InsightJob) : bool :=
  String.eqb (job_shop j) shop
  && String.eqb (job_productId j) productId
  && in_active (job_status j).

Definition superseded : JobData :=
  {| jd_status := Some FAILED;
     jd_attempts_increment := None;
     jd_lastError := Some (Some "Superseded by regenerate");
     jd_nextRetryAt := None;
     jd_updatedAt := None |}.

Definition mirror (status : InsightJobStatus) (error : option string) : InsightData :=
  {| nd_aiExplanation := None; nd_aiActionType := None;
     nd_aiGeneratedAt := None; nd_aiModel := None;
     nd_aiStatus := Some (Some status);
     nd_aiError := Some error;
     nd_reasonsJson := None |}.

Definition enqueueInsightJob (shop productId : string) (runId : option Id)
           (force : bool) : Proc (option Id) :=
  existing <- await (Call InsightJobM FindFirst)
                    (job_findFirst (is_active_for shop productId)) ;;
  match existing, force with
  | Some _, false => Ret None
  | _, _ =>
      match existing with
      | Some e =>
          if force
          then await (Call InsightJobM Update) (job_update (job_id e) superseded) ;;
               Ret tt
          else Ret tt
      | None => Ret tt
      end ;;
      job <- await (Call InsightJobM Create)
                   (job_create shop productId runId QUEUED) ;;
      insight <- await (Call ProductInsightM FindUnique)
                       (insight_findUnique shop productId) ;;
      match insight with
      | Some i =>
          await (Call ProductInsightM Update)
                (insight_update (ins_id i) (mirror QUEUED None)) ;;
          Ret tt
      | None => Ret tt
      end ;;
      Ret (Some (job_id job))
  end.

Fixpoint enqueueBatch_loop (enqueued : Z) (shop : string)
         (productIds : list string) (runId : Id) : Proc Z :=
  match productIds with
  | [] => Ret enqueued
  | productId :: rest =>
      id <- enqueueInsightJob shop productId (Some runId) false ;;
      enqueueBatch_loop
        (match id with Some _ => enqueued + 1 | None => enqueued end)
        shop rest runId
  end.

Definition enqueueBatch (shop : string) (productIds : list string) (runId : Id)
  : Proc Z :=
  enqueueBatch_loop 0 shop productIds runId.

Record ClaimedJob := {
  cj_id : Id;
  cj_shop : string;
  cj_productId : string;
  cj_runId : option Id
}.

Record InsightSnapshot := {
  sn_id : Id;
  sn_productTitle : string;
  sn_status : string;
  sn_recommendation : string;
  sn_lastProductUpdatedAt : Time;
  sn_productStatus : option string;
  sn_hasFeaturedImage : option bool;
  sn_inventoryStatus : option string;
  sn_inventoryAvailable : option Z
}.

Definition eligible (now : Time) (j : InsightJob) : bool :=
  status_eqb (job_status j) QUEUED
  && match job_nextRetryAt j with
     | None => true
     | Some t => t <=? now
     end.

Definition fence (candidate : InsightJob) (j : InsightJob) : bool :=
  Nat.eqb (job_id j) (job_id candidate)
  && status_eqb (job_status j) QUEUED
  && (job_updatedAt j =? job_updatedAt candidate).

Definition claimed (t : Time) : JobData :=
  {| jd_status := Some RUNNING;
     jd_attempts_increment := Some 1;
     jd_lastError := None;
     jd_nextRetryAt := Some None;
     jd_updatedAt := Some t |}.

Definition insight_missing : JobData :=
  {| jd_status := Some FAILED;
     jd_attempts_increment := None;
     jd_lastError := Some (Some "ProductInsight not found");
     jd_nextRetryAt := None;
     jd_updatedAt := None |}.

Definition snapshot (i : ProductInsight) : InsightSnapshot :=
  {| sn_id := ins_id i;
     sn_productTitle := ins_productTitle i;
     sn_status := ins_status i;
     sn_recommendation := ins_recommendation i;
     sn_lastProductUpdatedAt := ins_lastProductUpdatedAt i;
     sn_productStatus := ins_productStatus i;
     sn_hasFeaturedImage := ins_hasFeaturedImage i;
     sn_inventoryStatus := ins_inventoryStatus i;
     sn_inventoryAvailable := ins_inventoryAvailable i |}.

(** [{ ...candidate, attempts: candidate.attempts + 1 }] *)
Definition one_more_attempt (j : InsightJob) : InsightJob :=
  {| job_id := job_id j; job_shop := job_shop j;
     job_productId := job_productId j; job_runId := job_runId j;
     job_status := job_status j; job_attempts := job_attempts j + 1;
     job_lastError := job_lastError j; job_nextRetryAt := job_nextRetryAt j;
     job_createdAt := job_createdAt j; job_updatedAt := job_updatedAt j |}.

(** [claimNextJob], in the order of the source; each function below is
    the rest of the call from one awaited call on.  The two statements of
    the interactive transaction are two awaited calls: statements of
    other clients can run between them, which is the case the source
    answers with [updated.count === 0]. *)

(** What [claimNextJob] resolves to. *)
Definition ClaimResult : Type := option (ClaimedJob * InsightSnapshot).

Definition return_claimed (job : InsightJob) (insight : ProductInsight)
  : Proc ClaimResult :=
  await (Call ProductInsightM Update)
        (insight_update (ins_id insight) (mirror RUNNING None)) ;;
  Ret (Some ({| cj_id := job_id job; cj_shop := job_shop job;
                cj_productId := job_productId job;
                cj_runId := job_runId job |},
             snapshot insight)).

Definition fail_without_insight (job : InsightJob)
  : Proc ClaimResult :=
  await (Call InsightJobM Update) (job_update (job_id job) insight_missing) ;;
  Ret None.

Definition load_insight (job : InsightJob)
  : Proc ClaimResult :=
  insight <- await (Call ProductInsightM FindUnique)
                   (insight_findUnique (job_shop job) (job_productId job)) ;;
  match insight with
  | None => fail_without_insight job
  | Some insight => return_claimed job insight
  end.

Definition after_transaction (job : option InsightJob)
  : Proc ClaimResult :=
  match job with
  | None => Ret None
  | Some job => load_insight job
  end.

Definition claim_candidate (candidate : InsightJob) : Proc (option InsightJob) :=
  t <- new_Date ;;
  updated <- await (Call InsightJobM UpdateMany)
                   (job_updateMany (fence candidate) (claimed t)) ;;
  if Nat.eqb updated 0 then Ret None (* Another worker claimed it *)
  else Ret (Some (one_more_attempt candidate)).

Definition select_and_claim (now : Time) : Proc (option InsightJob) :=
  candidate <- await (Call InsightJobM FindFirst)
                     (job_findFirst_orderBy_createdAt (eligible now)) ;;
  match candidate with
  | None => Ret None
  | Some candidate => claim_candidate candidate
  end.

Definition claimNextJob : Proc ClaimResult :=
  now <- new_Date ;;
  job <- select_and_claim now ;;
  after_transaction job.

Definition truthy (s : string) : bool := negb (String.eqb s "").

(** [[output.summary, output.caveats].filter(Boolean).join(" ")] *)
Definition explanation (output : AIInsightOutput) : string :=
  String.concat " "
    (filter truthy
       (summary output :: match caveats output with Some c => [c] | None => [] end)).

(** [message.slice(0, 500)] *)
Definition slice500 (message : string) : string := substring 0 500 message.

Definition generated (output : AIInsightOutput) (model : string) (t : Time)
  : InsightData :=
  {| nd_aiExplanation := Some (Some (explanation output));
     nd_aiActionType := Some (Some (actionType output));
     nd_aiGeneratedAt := Some (Some t);
     nd_aiModel := Some (Some model);
     nd_aiStatus := Some (Some SUCCEEDED);
     nd_aiError := Some None;
     nd_reasonsJson :=
       Some (if Nat.ltb 0 (List.length (nextSteps output))
             then Some (nextSteps output) else None) |}.

Definition job_succeeded : JobData :=
  {| jd_status := Some SUCCEEDED;
     jd_attempts_increment := None;
     jd_lastError := Some None;
     jd_nextRetryAt := None;
     jd_updatedAt := None |}.

Definition job_failed (willRetry : bool) (message : string)
           (nextRetryAt : option Time) : JobData :=
  {| jd_status := Some (if willRetry then QUEUED else FAILED);
     jd_attempts_increment := None;
     jd_lastError := Some (Some (slice500 message));
     jd_nextRetryAt := Some nextRetryAt;
     jd_updatedAt := None |}.

Definition increment_succeeded : RunData :=
  {| rd_status := None; rd_succeeded_increment := Some 1;
     rd_failed_increment := None; rd_completedAt := None |}.

Definition increment_failed : RunData :=
  {| rd_status := None; rd_succeeded_increment := None;
     rd_failed_increment := Some 1; rd_completedAt := None |}.

Definition ai_input (insight : InsightSnapshot) (now : Time) : AIInsightInput :=
  {| ai_productTitle := sn_productTitle insight;
     ai_vendor := None;
     ai_productType := None;
     ai_daysSinceUpdated :=
       (now - sn_lastProductUpdatedAt insight) / (1000 * 60 * 60 * 24);
     ai_status := sn_status insight;
     ai_recommendation := sn_recommendation insight;
     ai_updatedAt := sn_lastProductUpdatedAt insight;
     ai_productStatus := sn_productStatus insight;
     ai_hasFeaturedImage := sn_hasFeaturedImage insight;
     ai_inventoryStatus := sn_inventoryStatus insight;
     ai_inventoryAvailable := sn_inventoryAvailable insight |}.

(** [err instanceof Error ? err.message : "AI generation failed."] *)
Definition message_of (err : Thrown) : string :=
  match err with
  | ErrorObj m => m
  | NonError => "AI generation failed."
  end.

Definition update_pair : Label :=
  Transaction [(ProductInsightM, Update); (InsightJobM, Update)].

Definition processJob (jobId : Id) (insight : InsightSnapshot)
           (shop productId : string) (runId : option Id) : Proc unit :=
  try_catch
    (now <- new_Date ;;
     r <- generateProductInsightExplanation (ai_input insight now) ;;
     let '(output, model) := r in
     t <- new_Date ;;
     await update_pair
           (transaction
              [void (insight_update (sn_id insight) (generated output model t));
               void (job_update jobId job_succeeded)]) ;;
     match runId with
     | Some runId =>
         await (Call RunM Update) (run_update runId increment_succeeded) ;;
         Ret tt
     | None => Ret tt
     end)
    (fun err =>
       let message := message_of err in
       job <- await (Call InsightJobM FindUnique) (job_findUnique jobId) ;;
       let attempts := match job with Some j => job_attempts j | None => 1 end in
       let willRetry := attempts <? MAX_ATTEMPTS in
       let backoffMs := getBackoffMs (attempts - 1) in
       now <- new_Date ;;
       let nextRetryAt := if willRetry then Some (now + backoffMs) else None in
       await update_pair
             (transaction
                [void (insight_update (sn_id insight)
                         (mirror (if willRetry then QUEUED else FAILED)
                                 (if willRetry then None else Some (slice500 message))));
                 void (job_update jobId (job_failed willRetry message nextRetryAt))]) ;;
       match runId with
       | Some runId =>
           if MAX_ATTEMPTS <=? attempts
           then await (Call RunM Update) (run_update runId increment_failed) ;;
                Ret tt
           else Ret tt
       | None => Ret tt
       end).

End Jobs.

(** ** [scripts/worker.ts] *)

Module Worker.
Import Prisma Jobs.

Definition tick : Proc bool :=
  claimed <- claimNextJob ;;
  match claimed with
  | None => Ret false
  | Some (job, insight) =>
      processJob (cj_id job) insight (cj_shop job) (cj_productId job) (cj_runId job) ;;
      Ret true
  end.

Definition pending_of (runId : Id) (j : InsightJob) : bool :=
  opt_id_eqb (job_runId j) runId && in_active (job_status j).

Definition completed (t : Time) : RunData :=
  {| rd_status := Some RUN_COMPLETED;
     rd_succeeded_increment := None;
     rd_failed_increment := None;
     rd_completedAt := Some (Some t) |}.

Fixpoint updateRunCompletion_loop (runs : list Run) : Proc unit :=
  match runs with
  | [] => Ret tt
  | run :: rest =>
      pending <- await (Call InsightJobM Count) (job_count (pending_of (run_id run))) ;;
      (if Nat.eqb pending 0
       then t <- new_Date ;;
            await (Call RunM Update) (run_update (run_id run) (completed t)) ;;
            Ret tt
       else Ret tt) ;;
      updateRunCompletion_loop rest
  end.

Definition updateRunCompletion : Proc unit :=
  runs <- await (Call RunM FindMany)
                (run_findMany (fun r => run_status_eqb (run_status r) RUN_RUNNING)) ;;
  updateRunCompletion_loop runs.

End Worker.

(** ** [app/routes/app.insights.tsx]: the form action *)

Module Insights.
Import Prisma Jobs.

Definition BATCH_MAX : nat := 10.

(** [raw.split(",")] *)
Fixpoint split_comma (s : string) : list string :=
  match s with
  | EmptyString => [""]
  | String c rest =>
      if Ascii.eqb c ","%char then "" :: split_comma rest
      else match split_comma rest with
           | x :: xs => String c x :: xs
           | [] => [String c ""]
           end
  end.

Record FormData := {
  fd_intent : option string;
  fd_productIds : option string;
  fd_productId : option string
}.

Inductive ActionResult :=
| BatchStarted (runId : Id) (enqueued : Z)
| JobEnqueued (productId : string) (jobId : Id)
| Failure (error : string).

Definition intent_is (formData : FormData) (s : string) : bool :=
  match fd_intent formData with Some i => String.eqb i s | None => false end.

(** [shop] is the shop of the authenticated admin session. *)
Definition action (shop : string) (formData : FormData) : Proc ActionResult :=
  if intent_is formData "batch" then
    let productIds :=
      match fd_productIds formData with
      | Some raw => firstn BATCH_MAX (filter truthy (split_comma raw))
      | None => []
      end in
    if Nat.eqb (List.length productIds) 0
    then Ret (Failure "No products selected for batch.")
    else
      run <- await (Call RunM Create)
                   (run_create shop RUN_RUNNING (Z.of_nat (List.length productIds))) ;;
      enqueued <- enqueueBatch shop productIds (run_id run) ;;
      Ret (BatchStarted (run_id run) enqueued)
  else
    match fd_productId formData with
    | None => Ret (Failure "Missing productId or intent.")
    | Some productId =>
        if negb (truthy productId)
           || negb (intent_is formData "generate" || intent_is formData "regenerate")
        then Ret (Failure "Missing productId or intent.")
        else
          insight <- await (Call ProductInsightM FindUnique)
                           (insight_findUnique shop productId) ;;
          match insight with
          | None => Ret (Failure "Product insight not found.")
          | Some _ =>
              let force := intent_is formData "regenerate" in
              jobId <- enqueueInsightJob shop productId None force ;;
              match jobId with
              | None => Ret (Failure "Job already queued or running.")
              | Some jobId => Ret (JobEnqueued productId jobId)
              end
          end
    end.

End Insights.

(** ** [app/routes/webhooks.app.uninstalled.tsx] *)

Module Webhook.
Import Prisma.

(** A request: its [x-shopify-webhook-id] header, and what
    [authenticate.webhook] makes of it (the shop and the topic, or a
    thrown response when the signature does not verify). *)
Record Request := {
  header_webhook_id : option string;
  authentication : Res (string * string)
}.

Definition authenticate_webhook (request : Request) : Proc (string * string) :=
  await AuthenticateWebhook (fun w => (authentication request, w)).

Definition purge : Label :=
  Transaction [(InsightJobM, DeleteMany); (RunM, DeleteMany);
               (ProductInsightM, DeleteMany); (SessionM, DeleteMany)].

Definition purge_shop (shop : string) : Stmt unit :=
  transaction
    [void (job_deleteMany (fun j => String.eqb (job_shop j) shop));
     void (run_deleteMany (fun r => String.eqb (run_shop r) shop));
     void (insight_deleteMany (fun i => String.eqb (ins_shop i) shop));
     void (session_deleteMany (fun s => String.eqb (session_shop s) shop))].

(** The header value when it is truthy (present and not empty). *)
Definition truthy_header (request : Request) : option string :=
  match header_webhook_id request with
  | Some id => if String.eqb id "" then None else Some id
  | None => None
  end.

(** The handler, in the order of the source: look the delivery up, then
    authenticate, then record the delivery, then purge.  Each function
    below is the rest of the handler from one awaited call on; all paths
    return the status of the response. *)

Definition purge_and_acknowledge (shop : string) : Proc Z :=
  await purge (purge_shop shop) ;;
  Ret 200.

Definition record_and_purge (webhookId : option string) (shop topic : string)
  : Proc Z :=
  recorded <- match webhookId with
              | Some id =>
                  try_catch
                    (await (Call WebhookEventM Create) (event_create id topic shop) ;;
                     Ret true)
                    (fun _ => Ret false)
              | None => Ret true
              end ;;
  if recorded then purge_and_acknowledge shop else Ret 200.

Definition authenticate_and_purge (request : Request) : Proc Z :=
  auth <- authenticate_webhook request ;;
  let '(shop, topic) := auth in
  record_and_purge (truthy_header request) shop topic.

Definition action (request : Request) : Proc Z :=
  let webhookId := truthy_header request in
  existing <- match webhookId with
              | Some id => await (Call WebhookEventM FindUnique) (event_findUnique id)
              | None => Ret None
              end ;;
  match existing with
  | Some _ => Ret 200
  | None => authenticate_and_purge request
  end.

End Webhook.

(** ** Vocabulary of the statements *)

(** The world after the failure branch of [processJob] has updated the
    Insight and the Job in one transaction. *)
Definition failure_world (w : World) (jobId : Id) (insightId : Id)
           (attempts : Z) (e : Thrown) : World :=
  let willRetry := attempts <? Jobs.MAX_ATTEMPTS in
  with_jobs
    (update_key job_id jobId
       (job_apply (clock w)
          (Jobs.job_failed willRetry (Jobs.message_of e)
             (if willRetry
              then Some (clock w + Jobs.getBackoffMs (attempts - 1))
              else None))))
    (with_insights
       (update_key ins_id insightId
          (insight_apply
             (Jobs.mirror (if willRetry then QUEUED else FAILED)
                          (if willRetry then None
                           else Some (Jobs.slice500 (Jobs.message_of e))))))
       w).

(** ** Sample data *)

Definition shop_a : string := "a.myshopify.com".

Definition a_job (id : Id) (productId : string) (runId : option Id)
           (status : InsightJobStatus) (attempts : Z) (createdAt : Time) : InsightJob :=
  {| job_id := id; job_shop := shop_a; job_productId := productId;
     job_runId := runId; job_status := status; job_attempts := attempts;
     job_lastError := None; job_nextRetryAt := None;
     job_createdAt := createdAt; job_updatedAt := createdAt |}.

Definition an_insight (id : Id) (productId : string) : ProductInsight :=
  {| ins_id := id; ins_shop := shop_a; ins_productId := productId;
     ins_productTitle := "Title"; ins_status := "NEGLECTED";
     ins_recommendation := "Update description, images, or pricing.";
     ins_lastProductUpdatedAt := 0;
     ins_productStatus := Some "ACTIVE"; ins_hasFeaturedImage := Some true;
     ins_inventoryStatus := Some "OK"; ins_inventoryAvailable := Some 25;
     ins_reasonsJson := None; ins_aiExplanation := None;
     ins_aiActionType := None; ins_aiGeneratedAt := None; ins_aiModel := None;
     ins_aiStatus := None; ins_aiError := None |}.

Definition a_run (id : Id) (productsQueued : Z) : Run :=
  {| run_id := id; run_shop := shop_a; run_status := RUN_RUNNING;
     run_productsQueued := productsQueued; run_succeeded := 0; run_failed := 0;
     run_createdAt := 0; run_completedAt := None |}.

Definition a_world (jobs : list InsightJob) (insights : list ProductInsight)
           (runs : list Run) : World :=
  {| clock := 100000; nextId := 100;
     db := {| insightJob := jobs; productInsight := insights; runT := runs;
              webhookEvent := []; sessionT := [] |} |}.

(** An executor that is down, and one that answers. *)
Definition ai_down : AIInsightInput -> AiResult :=
  fun _ => Err (ErrorObj "OpenAI returned no content.").

Definition an_output : AIInsightOutput :=
  {| summary := "Stale listing."; actionType := "COPY";
     nextSteps := ["Review the description"]; caveats := None |}.

Definition ai_up : AIInsightInput -> AiResult :=
  fun _ => Ok (an_output, "gpt-4o-mini").

(** ** Scenarios *)

Definition empty_world : World :=
  {| clock := 0; nextId := 0;
     db := {| insightJob := []; productInsight := []; runT := [];
              webhookEvent := []; sessionT := [] |} |}.

Definition batch_form (productIds : string) : Insights.FormData :=
  {| Insights.fd_intent := Some "batch";
     Insights.fd_productIds := Some productIds;
     Insights.fd_productId := None |}.

(** A batch for one product that has no Insight row, then one worker
    tick, then the run reconciliation. *)
Definition orphan_batch_world : World :=
  let w1 := final (run ai_up (Insights.action shop_a (batch_form "p9")) empty_world) in
  let w2 := final (run ai_up Worker.tick w1) in
  final (run ai_up Worker.updateRunCompletion w2).

(** The world after the purge of a shop. *)
Definition purged (shop : string) (w : World) : World :=
  snd (Webhook.purge_shop shop w).

(** How many purges an execution made. *)
Definition is_purge (l : Label) : bool :=
  match l with
  | Transaction [(InsightJobM, DeleteMany); (RunM, DeleteMany);
                 (ProductInsightM, DeleteMany); (SessionM, DeleteMany)] => true
  | _ => false
  end.

Definition purges (ls : list Label) : nat := List.length (filter is_purge ls).

Definition event_recorded (w : World) (webhookId : string) : bool :=
  existsb (fun e => String.eqb (we_webhookId e) webhookId) (webhookEvent (db w)).

Definition uninstall_request (webhookId : option string) : Webhook.Request :=
  {| Webhook.header_webhook_id := webhookId;
     Webhook.authentication := Ok (shop_a, "app/uninstalled") |}.

(** Where a delivery's handler stands: before its lookup, before the
    authentication, before the insert of the WebhookEvent, before the
    purge, or answered. *)
Inductive Phase := AtLookup | AtAuthenticate | AtRecord | AtPurge | Acknowledged.

Definition handler (request : Webhook.Request) (shop topic : string) (ph : Phase)
  : Proc Z :=
  match ph with
  | AtLookup => Webhook.action request
  | AtAuthenticate => Webhook.authenticate_and_purge request
  | AtRecord => Webhook.record_and_purge (Webhook.truthy_header request) shop topic
  | AtPurge => Webhook.purge_and_acknowledge shop
  | Acknowledged => Ret 200
  end.

Definition at_purge (ph : Phase) : bool :=
  match ph with AtPurge => true | _ => false end.

Definition acknowledged (ph : Phase) : bool :=
  match ph with Acknowledged => true | _ => false end.

Definition finished {R : Type} (p : Proc R) : bool :=
  match p with Ret _ | Throw _ => true | _ => false end.

(** What holds of concurrent deliveries of one webhook id at every
    point: the handlers stand at [phases]; a purge was made or is about
    to be made by exactly one of them once the WebhookEvent is recorded,
    and by none before; and a handler has answered only if the
    WebhookEvent is recorded. *)
Definition deliveries_inv (request : Webhook.Request) (shop topic id : string)
           (s : Sys Z) : Prop :=
  exists phases : list Phase,
    pool s = map (handler request shop topic) phases
    /\ (purges (map snd (history s)) + List.length (filter at_purge phases))%nat
       = Nat.b2n (event_recorded (world s) id)
    /\ (existsb acknowledged phases = true -> event_recorded (world s) id = true).

(** The world after the WebhookEvent of a delivery has been inserted. *)
Definition recorded_world (id topic shop : string) (w : World) : World :=
  snd (Prisma.event_create id topic shop w).

(** The world after the success branch of [processJob] has updated the
    Insight and the Job in one transaction. *)
Definition success_world (w : World) (jobId : Id) (insightId : Id)
           (output : AIInsightOutput) (model : string) : World :=
  with_jobs
    (update_key job_id jobId (job_apply (clock w) Jobs.job_succeeded))
    (with_insights
       (update_key ins_id insightId
          (insight_apply (Jobs.generated output model (clock w))))
       w).

(** A claimed Job of run 5 with its Insight, as [processJob] finds them. *)
Definition claimed_world : World :=
  a_world [a_job 1 "p1" (Some 5%nat) RUNNING 1 10] [an_insight 3 "p1"] [a_run 5 1].

(** ** Concurrent claims *)

(** Where a caller of [claimNextJob] stands: at the start; holding a
    candidate, before its conditional update; holding a claimed Job,
    before the Insight lookup, before marking it failed for want of an
    Insight, or before mirroring RUNNING; returned; or thrown. *)
Inductive ClaimPhase :=
| AtSelect
| AtFence (candidate : InsightJob)
| AtInsight (job : InsightJob)
| AtOrphan (job : InsightJob)
| AtMirror (job : InsightJob) (insight : ProductInsight)
| Returned (r : Jobs.ClaimResult)
| Thrown_ (e : Thrown).

Definition claimer (ph : ClaimPhase) : Proc Jobs.ClaimResult :=
  match ph with
  | AtSelect => Jobs.claimNextJob
  | AtFence c => job <- Jobs.claim_candidate c ;; Jobs.after_transaction job
  | AtInsight job => Jobs.load_insight job
  | AtOrphan job => Jobs.fail_without_insight job
  | AtMirror job insight => Jobs.return_claimed job insight
  | Returned r => Ret r
  | Thrown_ e => Throw e
  end.

(** The Job a caller has claimed and not given up. *)
Definition holds (ph : ClaimPhase) : option Id :=
  match ph with
  | AtInsight job | AtOrphan job | AtMirror job _ => Some (job_id job)
  | Returned (Some (cj, _)) => Some (Jobs.cj_id cj)
  | _ => None
  end.

(** The Job a call returned, if it returned one. *)
Definition claimed_id (p : Proc Jobs.ClaimResult) : option Id :=
  match p with
  | Ret (Some (cj, _)) => Some (Jobs.cj_id cj)
  | _ => None
  end.

Fixpoint claimed_ids (ps : list (Proc Jobs.ClaimResult)) : list Id :=
  match ps with
  | [] => []
  | p :: rest =>
      match claimed_id p with
      | Some id => id :: claimed_ids rest
      | None => claimed_ids rest
      end
  end.

Definition is_queued (j : InsightJob) : bool := status_eqb (job_status j) QUEUED.

(** Caller [a] holds the Job [id]. *)
Definition held_by (phases : list ClaimPhase) (a : nat) (id : Id) : Prop :=
  exists pa, nth_error phases a = Some pa /\ holds pa = Some id.

(** The Job [id] is QUEUED in the table [jobs]. *)
Definition queued_in (jobs : list InsightJob) (id : Id) : Prop :=
  exists j, In j jobs /\ job_id j = id /\ job_status j = QUEUED.

(** What holds of concurrent callers of [claimNextJob] started on the
    Job table [jobs0], at every point: the table has the same identities;
    no two callers hold the same Job; a held Job is not QUEUED and was
    QUEUED at the start; and a Job that is QUEUED was QUEUED at the
    start. *)
Definition claims_inv_on (jobs0 : list InsightJob) (phases : list ClaimPhase)
           (jobs : list InsightJob) : Prop :=
  map job_id jobs = map job_id jobs0
  /\ (forall a b id, held_by phases a id -> held_by phases b id -> a = b)
  /\ (forall a id j, held_by phases a id -> In j jobs -> job_id j = id ->
                     job_status j <> QUEUED)
  /\ (forall a id, held_by phases a id -> queued_in jobs0 id)
  /\ (forall j, In j jobs -> job_status j = QUEUED -> queued_in jobs0 (job_id j)).

Definition claims_inv (w0 : World) (s : Sys Jobs.ClaimResult) : Prop :=
  exists phases : list ClaimPhase,
    pool s = map claimer phases
    /\ claims_inv_on (insightJob (db w0)) phases (insightJob (db (world s))).

(** Two queued Jobs, each with its Insight. *)
Definition two_queued_world : World :=
  a_world [a_job 1 "p1" None QUEUED 0 10; a_job 2 "p2" None QUEUED 0 20]
          [an_insight 3 "p1"; an_insight 4 "p2"] [].

(** Both callers select before either updates. *)
Definition racing_schedule : list Event :=
  [Sched 0 (Err NonError); Sched 1 (Err NonError);
   Sched 0 (Err NonError); Sched 1 (Err NonError);
   Sched 0 (Err NonError); Sched 0 (Err NonError)].

(** The candidate [claimNextJob] selects in a world, and the world after
    its conditional update for a candidate. *)
Definition selected (w : World) : option InsightJob :=
  oldest (filter (Jobs.eligible (clock w)) (insightJob (db w))).

Definition fenced_count (c : InsightJob) (w : World) : nat :=
  List.length (filter (Jobs.fence c) (insightJob (db w))).

Definition fenced_world (c : InsightJob) (w : World) : World :=
  with_jobs (update_where (Jobs.fence c) (job_apply (clock w) (Jobs.claimed (clock w)))) w.

Definition insight_of (job : InsightJob) (w : World) : option ProductInsight :=
  find (fun i => String.eqb (ins_shop i) (job_shop job)
                 && String.eqb (ins_productId i) (job_productId job))
       (productInsight (db w)).

Definition returned_job (job : InsightJob) (insight : ProductInsight) : Jobs.ClaimResult :=
  Some ({| Jobs.cj_id := job_id job; Jobs.cj_shop := job_shop job;
           Jobs.cj_productId := job_productId job;
           Jobs.cj_runId := job_runId job |},
        Jobs.snapshot insight).

(** ** The processes that share the store *)

(** A form action of the Insights page, one tick of the worker, or one
    pass of the worker's run reconciliation. *)
Inductive Task :=
| FormAction (shop : string) (formData : Insights.FormData)
| WorkerTick
| Reconcile.

Definition task (t : Task) : Proc unit :=
  match t with
  | FormAction shop formData => Insights.action shop formData ;; Ret tt
  | WorkerTick => Worker.tick ;; Ret tt
  | Reconcile => Worker.updateRunCompletion
  end.

(** A batch for one product is submitted while the worker reconciles:
    the run is created, the worker lists it and counts no pending Job,
    the batch then enqueues its Job, and the worker completes the run. *)
Definition early_completion_schedule : list Event :=
  [Sched 0 (Err NonError);   (* action: run.create *)
   Sched 1 (Err NonError);   (* worker: run.findMany *)
   Sched 1 (Err NonError);   (* worker: insightJob.count *)
   Sched 0 (Err NonError);   (* action: insightJob.findFirst *)
   Sched 0 (Err NonError);   (* action: insightJob.create *)
   Sched 1 (Err NonError)].  (* worker: run.update *)

Definition early_completion : Sys unit :=
  exec (start [task (FormAction shop_a (batch_form "p1")); task Reconcile] empty_world)
       early_completion_schedule.

(** The same system one call earlier: the Job of the batch is enqueued,
    the worker has still to write the run. *)
Definition early_completion_before : Sys unit :=
  exec (start [task (FormAction shop_a (batch_form "p1")); task Reconcile] empty_world)
       (firstn 5 early_completion_schedule).

(** A form action, the reconciliation and a worker tick on an empty
    store. *)
Definition three_tasks : list Task :=
  [FormAction shop_a (batch_form "p1"); Reconcile; WorkerTick].

(** ** Accounting for the counters of a run

    Every unit that may still be added to [succeeded] or [failed] of a
    run is accounted for: a QUEUED child Job, a credit held by a process
    (a worker between claiming a child and recording its outcome, a batch
    that has not enqueued all of its products yet), or slack. *)

(** How many Jobs of run [r] are QUEUED. *)
Definition counts (r : Id) (j : InsightJob) : bool :=
  opt_id_eqb (job_runId j) r && is_queued j.

Definition queued_for (r : Id) (jobs : list InsightJob) : nat :=
  List.length (filter (counts r) jobs).

(** What a run can still take: [productsQueued] less what is counted
    and what is queued. *)
Definition slack (w : World) (r : Run) : Z :=
  run_productsQueued r - run_succeeded r - run_failed r
  - Z.of_nat (queued_for (run_id r) (insightJob (db w))).

(** The credits of a process: one occurrence of a run's identity per
    unit it may still add to that run. *)
Definition Credits : Type := list Id.

Definition credit (c : Credits) (r : Id) : Z := Z.of_nat (count_occ Nat.eq_dec c r).

(** What a process knows of Job rows it has read: identity and run. *)
Definition Knows : Type := list (Id * option Id).

Definition sat (k : Knows) (w : World) : Prop :=
  forall id rho, In (id, rho) k ->
    exists j, In j (insightJob (db w)) /\ job_id j = id /\ job_runId j = rho.

Definition run_known (w : World) (r : Id) : Prop := In r (map run_id (runT (db w))).

Definition credits_exist (c : Credits) (w : World) : Prop :=
  forall r, In r c -> run_known w r.

(** Primary keys, the identity supply and the foreign key of Jobs. *)
Definition store_wf (w : World) : Prop :=
  NoDup (map job_id (insightJob (db w)))
  /\ NoDup (map run_id (runT (db w)))
  /\ (forall j, In j (insightJob (db w)) -> (job_id j < nextId w)%nat)
  /\ (forall r, In r (runT (db w)) -> (run_id r < nextId w)%nat)
  /\ (forall j r, In j (insightJob (db w)) -> job_runId j = Some r -> run_known w r).

(** What no call ever undoes: a Job row keeps its identity and run, a
    run row stays. *)
Definition rely (w w' : World) : Prop :=
  (forall j, In j (insightJob (db w)) ->
     exists j', In j' (insightJob (db w')) /\ job_id j' = job_id j
                /\ job_runId j' = job_runId j)
  /\ (forall r, run_known w r -> run_known w' r).

(** The Job table, the Run table and the identity supply are the same. *)
Definition same_core (w w' : World) : Prop :=
  insightJob (db w') = insightJob (db w)
  /\ runT (db w') = runT (db w)
  /\ nextId w' = nextId w.

(** The Job rows are changed one by one by [g]; Runs and the identity
    supply are the same. *)
Definition jobs_mapped (g : InsightJob -> InsightJob) (w w' : World) : Prop :=
  insightJob (db w') = map g (insightJob (db w))
  /\ runT (db w') = runT (db w)
  /\ nextId w' = nextId w.

(** [g] changes neither the identity nor the run of a Job. *)
Definition keeps_key (g : InsightJob -> InsightJob) : Prop :=
  forall j, job_id (g j) = job_id j /\ job_runId (g j) = job_runId j.

(** A call that takes the world from [w] to [w'] and the caller's
    credits from [c] to [c'] does not create units: for a run that was
    there, slack less credits does not shrink; a new run covers the
    credits taken for it. *)
Definition balanced (w w' : World) (c c' : Credits) : Prop :=
  forall r', In r' (runT (db w')) ->
    (exists r, In r (runT (db w)) /\ run_id r = run_id r'
               /\ slack w r - credit c (run_id r) <= slack w' r' - credit c' (run_id r'))
    \/ (~ run_known w (run_id r') /\ credit c' (run_id r') <= slack w' r').

(** [owns Q p k c]: the process [p], knowing [k] and holding the credits
    [c], keeps the store well-formed and balanced at each of its calls,
    whatever the other processes do in between, and ends with [Q]. *)
Fixpoint owns {R : Type} (Q : R -> Knows -> Credits -> Prop) (p : Proc R)
         (k : Knows) (c : Credits) : Prop :=
  match p with
  | Ret a => Q a k c
  | Throw _ => True
  | Now f => forall t, owns Q (f t) k c
  | Generate _ f => forall r, owns Q (f r) k c
  | Await _ s f =>
      forall w, store_wf w -> sat k w -> credits_exist c w ->
        store_wf (snd (s w))
        /\ rely w (snd (s w))
        /\ exists k' c',
             sat k' (snd (s w))
             /\ credits_exist c' (snd (s w))
             /\ balanced w (snd (s w)) c c'
             /\ owns Q (f (fst (s w))) k' c'
  end.

(** What an update adds to the counters of a run. *)
Definition adds (d : RunData) : Z :=
  match rd_succeeded_increment d with Some n => n | None => 0 end
  + match rd_failed_increment d with Some n => n | None => 0 end.

(** One credit less for a run. *)
Fixpoint remove_one (r : Id) (c : Credits) : Credits :=
  match c with
  | [] => []
  | x :: rest => if Nat.eqb x r then rest else x :: remove_one r rest
  end.

(** What a call that was given the run [rho] leaves of the credits [c]. *)
Definition spent (rho : option Id) (c : Credits) : Credits :=
  match rho with Some r => remove_one r c | None => c end.

(** What a caller of [claimNextJob] knows and holds when a Job is
    returned to it. *)
Definition claim_post (r : Jobs.ClaimResult) (k : Knows) (c : Credits) : Prop :=
  match r with
  | None => True
  | Some (job, _) =>
      In (Jobs.cj_id job, Jobs.cj_runId job) k
      /\ forall r, Jobs.cj_runId job = Some r -> In r c
  end.

Definition any_end {R : Type} : R -> Knows -> Credits -> Prop := fun _ _ _ => True.

(** The ledger of a pool: for each process what it knows and holds. *)
Definition Ledger : Type := list (Knows * Credits).

Definition all_credits (g : Ledger) : Credits := List.concat (map snd g).

(** Every run has room for all the credits on it. *)
Definition covered (w : World) (g : Ledger) : Prop :=
  forall r, In r (runT (db w)) -> credit (all_credits g) (run_id r) <= slack w r.

Definition accounts_inv (s : Sys unit) : Prop :=
  exists g : Ledger,
    Forall2 (fun p e => owns any_end p (fst e) (snd e)
                        /\ sat (fst e) (world s)
                        /\ credits_exist (snd e) (world s))
            (pool s) g
    /\ store_wf (world s)
    /\ covered (world s) g.

(** A store as the system leaves it when no call is in flight. *)
Definition store_ok (w : World) : Prop :=
  store_wf w /\ forall r, In r (runT (db w)) -> 0 <= slack w r.

(** ** Reconciliation of runs *)

(** No child Job of the run is QUEUED or RUNNING. *)
Definition no_pending (w : World) (r : Run) : bool :=
  Nat.eqb (List.length (filter (Worker.pending_of (run_id r)) (insightJob (db w)))) 0.

(** A RUNNING run without pending children is COMPLETED at the time of
    the pass; every other run is left as it is. *)
Definition reconciled (w : World) (r : Run) : Run :=
  if run_status_eqb (run_status r) RUN_RUNNING && no_pending w r
  then run_apply (Worker.completed (clock w)) r
  else r.

(** The run is one of those listed for the pass. *)
Definition listed (runs : list Run) (r : Run) : bool :=
  existsb (fun x => Nat.eqb (run_id x) (run_id r)) runs.

From Stdlib Require DecimalString.

(** * Further code of the repository *)

(** ** [app/insights/signals.server.ts]: inventory status, confidence
       label and the explanation of a low confidence *)

Module SignalLabels.
Import Signals.

Inductive InventoryStatus := OUT_OF_STOCK | LOW | OK | UNKNOWN.

Definition LOW_INVENTORY_THRESHOLD : float := 10%float.

(** [totalAvailable] is a number, or [null] (here [None]). *)
Definition computeInventoryStatus (totalAvailable : option float) : InventoryStatus :=
  match totalAvailable with
  | None => UNKNOWN
  | Some totalAvailable =>
      if PrimFloat.leb totalAvailable 0%float then OUT_OF_STOCK
      else if PrimFloat.leb totalAvailable LOW_INVENTORY_THRESHOLD then LOW
      else OK
  end.

Inductive ConfidenceLabel := High | Medium | Low.

(** [score >= 0.8], [score >= 0.55] *)
Definition getConfidenceLabel (score : float) : ConfidenceLabel :=
  if PrimFloat.leb 0.8%float score then High
  else if PrimFloat.leb 0.55%float score then Medium
  else Low.

(** ["status" | "image" | "inventory"] *)
Inductive MissingSignal := status | image | inventory.

Definition MissingSignal_eqb (a b : MissingSignal) : bool :=
  match a, b with
  | status, status | image, image | inventory, inventory => true
  | _, _ => false
  end.

(** [missingSignals.includes(s)] *)
Definition includes (missingSignals : list MissingSignal) (s : MissingSignal) : bool :=
  existsb (MissingSignal_eqb s) missingSignals.

Definition buildConfidenceExplanation (missingSignals : list MissingSignal) : string :=
  if Nat.eqb (List.length missingSignals) 0 then ""
  else
    let parts := [] in
    let parts := if includes missingSignals status
                 then (parts ++ ["product status"])%list else parts in
    let parts := if includes missingSignals image
                 then (parts ++ ["featured image"])%list else parts in
    let parts := if includes missingSignals inventory
                 then (parts ++ ["inventory data"])%list else parts in
    "Low confidence: missing " ++ String.concat " and " parts ++ ".".

End SignalLabels.

(** ** [app/routes/app.insights.tsx]: the confidence of an Insight, as
       the loader works it out for one product (its lines 164 to 180) *)

Module InsightsLoader.
Import Signals SignalLabels.

Definition missingSignals (hasStatus hasImage hasInventory : bool)
  : list MissingSignal :=
  let missing := [] in
  let missing := if negb hasStatus then (missing ++ [status])%list else missing in
  let missing := if negb hasImage then (missing ++ [image])%list else missing in
  let missing := if negb hasInventory then (missing ++ [inventory])%list else missing in
  missing.

Definition confidenceLabel (hasStatus hasImage hasInventory : bool)
           (daysSinceUpdated : float) : ConfidenceLabel :=
  getConfidenceLabel
    (computeConfidence
       {| Signals.hasStatus := hasStatus; Signals.hasImage := hasImage;
          Signals.hasInventory := hasInventory;
          Signals.daysSinceUpdated := daysSinceUpdated |}).

(** [confidenceLabel === "Low" ? buildConfidenceExplanation(missingSignals)
    : null] *)
Definition confidenceExplanation (hasStatus hasImage hasInventory : bool)
           (daysSinceUpdated : float) : option string :=
  match confidenceLabel hasStatus hasImage hasInventory daysSinceUpdated with
  | Low => Some (buildConfidenceExplanation
                   (missingSignals hasStatus hasImage hasInventory))
  | _ => None
  end.

End InsightsLoader.

(** ** [app/ai-insight.server.ts]

    A string is the sequence of its code units; [length], [slice] and
    [indexOf] count them. *)

Module AiInsight.

Definition OPENAI_MODEL : string := "gpt-4o-mini".

Definition ACTION_TYPES : list string :=
  ["IMAGERY"; "PRICING"; "COPY"; "MERCHANDISING"; "SEO"; "INVENTORY"].

(** [ACTION_TYPES.includes(s)] *)
Definition isValidActionType (s : string) : bool :=
  existsb (String.eqb s) ACTION_TYPES.

(** A value as [JSON.parse] returns it; an object is the list of its
    members in the order of the text. *)
#[warnings="-register-all"] Inductive Json :=
| JNull
| JBool (b : bool)
| JNumber (x : float)
| JString (s : string)
| JArray (items : list Json)
| JObject (members : list (string * Json)).

(** [raw.key] for a value that is not [null] and a key that no array,
    string, number or boolean has ([summary], [actionType], [nextSteps],
    [caveats]): the member of an object, the last one if the text repeats
    the key; [undefined] ([None]) otherwise. *)
Definition member (key : string) (raw : Json) : option Json :=
  match raw with
  | JObject members =>
      option_map snd (find (fun kv => String.eqb (fst kv) key) (rev members))
  | _ => None
  end.

(** [items.filter((s) => typeof s === "string")] *)
Definition strings_of (items : list Json) : list string :=
  flat_map (fun x => match x with JString s => [s] | _ => [] end) items.

(** *** [extractJsonFromContent] *)

(** White space and line terminators, among the code units below 256. *)
Definition is_white (c : ascii) : bool :=
  existsb (Ascii.eqb c)
    [ascii_of_nat 9; ascii_of_nat 10; ascii_of_nat 11; ascii_of_nat 12;
     ascii_of_nat 13; ascii_of_nat 32; ascii_of_nat 160].

Fixpoint trimStart (s : list ascii) : list ascii :=
  match s with
  | c :: rest => if is_white c then trimStart rest else s
  | [] => []
  end.

Definition trim (s : list ascii) : list ascii :=
  rev (trimStart (rev (trimStart s))).

(** [s.indexOf(c)], [None] for -1 *)
Fixpoint indexOf (c : ascii) (s : list ascii) : option nat :=
  match s with
  | [] => None
  | x :: rest => if Ascii.eqb x c then Some 0%nat else option_map S (indexOf c rest)
  end.

(** [s.lastIndexOf(c)], [None] for -1 *)
Definition lastIndexOf (c : ascii) (s : list ascii) : option nat :=
  option_map (fun i => (List.length s - 1 - i)%nat) (indexOf c (rev s)).

(** [s.slice(start, end)] for indices within the string *)
Definition slice (start end_ : nat) (s : list ascii) : list ascii :=
  firstn (end_ - start) (skipn start s).

Definition extractJsonFromContent (content : string) : option string :=
  let trimmed := trim (list_ascii_of_string content) in
  match indexOf "{"%char trimmed, lastIndexOf "}"%char trimmed with
  | Some start, Some end_ =>
      if Nat.leb end_ start then None
      else Some (string_of_list_ascii (slice start (end_ + 1) trimmed))
  | _, _ => None
  end.

(** *** The response of the completion endpoint, as the code types it *)

Record Message := { content : option string }.
Record Choice := { message : option Message }.
Record Completion := { choices : option (list Choice); model : option string }.

(** [text()] and [json()] resolve or reject; [json()] may resolve to
    [null] ([None]). *)
Record Response := {
  ok : bool;
  status : Z;
  text : Res string;
  json : Res (option Completion)
}.

(** The environment of a call: the key, and what [fetch] resolves or
    rejects to for the request that the call sends for its input. *)
Record Env := {
  OPENAI_API_KEY : option string;
  fetch : AIInsightInput -> Res Response
}.

(** [`${response.status}`] *)
Definition status_text (n : Z) : string :=
  DecimalString.NilZero.string_of_int (Z.to_int n).

(** [data?.choices?.[0]?.message?.content] *)
Definition first_content (data : option Completion) : option string :=
  match data with
  | None => None
  | Some data =>
      match choices data with
      | Some (choice :: _) =>
          match message choice with
          | Some m => content m
          | None => None
          end
      | _ => None
      end
  end.

Section Parsing.

(** [JSON.parse]: the value, or [None] when it throws. *)
Variable JSON_parse : string -> option Json.

Definition parseAndValidate (jsonStr : string) (forceActionType : option string)
  : option AIInsightOutput :=
  match JSON_parse jsonStr with
  | None => None
  | Some JNull => None  (* [raw.summary] throws, and the throw is caught *)
  | Some raw =>
      let summary :=
        match member "summary" raw with Some (JString s) => s | _ => "" end in
      let actionType :=
        match member "actionType" raw with
        | Some (JString s) => s
        | _ => "MERCHANDISING"
        end in
      let actionType :=
        match forceActionType with
        | Some force => if Jobs.truthy force then force else actionType
        | None => actionType
        end in
      let nextSteps :=
        match member "nextSteps" raw with
        | Some (JArray items) => firstn 3 (strings_of items)
        | _ => []
        end in
      let caveats :=
        match member "caveats" raw with Some (JString s) => Some s | _ => None end in
      if negb (Jobs.truthy summary) || Nat.ltb 1000 (String.length summary)
      then None
      else Some {| summary := summary;
                   actionType := if isValidActionType actionType
                                 then actionType else "MERCHANDISING";
                   nextSteps := nextSteps;
                   caveats := caveats |}
  end.

Definition missing_key : Thrown :=
  ErrorObj "OPENAI_API_KEY is not set. Add it to your .env to enable AI insights.".

(** The request that [fetch] sends (the prompt of [buildPrompt]) is not
    modelled: [fetch env input] is what comes back for it. *)
Definition generateProductInsightExplanation (env : Env) (input : AIInsightInput)
  : AiResult :=
  match OPENAI_API_KEY env with
  | None => Err missing_key
  | Some apiKey =>
      if negb (Jobs.truthy apiKey) || Nat.ltb (String.length apiKey) 10
      then Err missing_key
      else
        match fetch env input with
        | Err e => Err e
        | Ok response =>
            if negb (ok response)
            then match text response with
                 | Err e => Err e
                 | Ok errBody =>
                     Err (ErrorObj ("OpenAI API error (" ++ status_text (status response)
                                    ++ "): " ++ substring 0 200 errBody))
                 end
            else
              match json response with
              | Err e => Err e
              | Ok data =>
                  match first_content data with
                  | None => Err (ErrorObj "OpenAI returned no content.")
                  | Some content =>
                      if negb (Jobs.truthy content)
                      then Err (ErrorObj "OpenAI returned no content.")
                      else
                        let jsonStr :=
                          match extractJsonFromContent content with
                          | Some s => s
                          | None => content
                          end in
                        let forceInventory :=
                          match ai_inventoryStatus input with
                          | Some s => String.eqb s "OUT_OF_STOCK"
                          | None => false
                          end in
                        match parseAndValidate jsonStr
                                (if forceInventory then Some "INVENTORY" else None) with
                        | None =>
                            Err (ErrorObj "AI response was invalid or too long. Try again.")
                        | Some output =>
                            Ok (output,
                                match data with
                                | Some d =>
                                    match model d with
                                    | Some m => m
                                    | None => OPENAI_MODEL
                                    end
                                | None => OPENAI_MODEL
                                end)
                        end
                  end
              end
        end
  end.

End Parsing.

End AiInsight.

(** ** [scripts/worker.ts]: the loop of [main] *)

Module WorkerLoop.
Import Worker.

Definition POLL_INTERVAL_MS : Z := 2000.

(** One turn of the [while (true)] loop, up to the pause: the [try]
    statement.  [consecutiveEmpty] is a variable of [main]; the turn
    resolves to what the variable holds after the statement, whether the
    block ran to its end or threw ([catch] logs the error and goes on):
    the increment made before [updateRunCompletion] stays when that call
    throws. *)
Definition turn (consecutiveEmpty : Z) : Proc Z :=
  try_catch
    (didWork <- tick ;;
     if didWork then Ret 0
     else
       let consecutiveEmpty := consecutiveEmpty + 1 in
       if (Z.rem consecutiveEmpty 5 =? 0) && (0 <? consecutiveEmpty)
       then try_catch (updateRunCompletion ;; Ret consecutiveEmpty)
                      (fun _ => Ret consecutiveEmpty)
       else Ret consecutiveEmpty)
    (fun _ => Ret consecutiveEmpty).

End WorkerLoop.

(** * Further properties: vocabulary *)

(** The row that [insightJob.create] writes in [w] (the columns not given
    take the defaults of the migration). *)
Definition new_job (w : World) (shop productId : string) (runId : option Id)
  : InsightJob :=
  {| job_id := nextId w; job_shop := shop; job_productId := productId;
     job_runId := runId; job_status := QUEUED; job_attempts := 0;
     job_lastError := None; job_nextRetryAt := None;
     job_createdAt := clock w; job_updatedAt := clock w |}.

(** [(shop, productId)] has a Job that is QUEUED or RUNNING. *)
Definition has_active (shop productId : string) (jobs : list InsightJob) : bool :=
  existsb (Jobs.is_active_for shop productId) jobs.

(** The Insight row of [(shop, productId)], by its unique key. *)
Definition insight_of_product (w : World) (shop productId : string)
  : option ProductInsight :=
  find (fun i => String.eqb (ins_shop i) shop && String.eqb (ins_productId i) productId)
       (productInsight (db w)).

(** The world after [claimNextJob] has claimed [c], whose Insight is [i]. *)
Definition claim_world (w : World) (c : InsightJob) (i : ProductInsight) : World :=
  with_insights
    (update_key ins_id (ins_id i) (insight_apply (Jobs.mirror RUNNING None)))
    (with_jobs
       (update_key job_id (job_id c) (job_apply (clock w) (Jobs.claimed (clock w))))
       w).

(** What [claimNextJob] hands to [processJob] for [c] and [i]. *)
Definition claim_of (c : InsightJob) (i : ProductInsight)
  : Jobs.ClaimedJob * Jobs.InsightSnapshot :=
  ({| Jobs.cj_id := job_id c; Jobs.cj_shop := job_shop c;
      Jobs.cj_productId := job_productId c; Jobs.cj_runId := job_runId c |},
   Jobs.snapshot i).

(** ** What the requests and the worker never undo *)

(** A Job row later on: the same Job of the same shop, product and run,
    with no fewer attempts. *)
Definition job_grows (j j' : InsightJob) : Prop :=
  job_id j' = job_id j
  /\ job_shop j' = job_shop j
  /\ job_productId j' = job_productId j
  /\ job_runId j' = job_runId j
  /\ job_createdAt j' = job_createdAt j
  /\ job_attempts j <= job_attempts j'.

(** A Run row later on: the same run with the same [productsQueued],
    counters that did not drop, still COMPLETED if it was, and with a
    [completedAt] if it had one. *)
Definition run_grows (r r' : Run) : Prop :=
  run_id r' = run_id r
  /\ run_shop r' = run_shop r
  /\ run_productsQueued r' = run_productsQueued r
  /\ run_createdAt r' = run_createdAt r
  /\ run_succeeded r <= run_succeeded r'
  /\ run_failed r <= run_failed r'
  /\ (run_status r = RUN_COMPLETED -> run_status r' = RUN_COMPLETED)
  /\ (run_completedAt r <> None -> run_completedAt r' <> None).

(** An Insight row later on: everything that describes the product is as
    it was; only the columns of the AI result may differ. *)
Definition insight_grows (i i' : ProductInsight) : Prop :=
  ins_id i' = ins_id i
  /\ ins_shop i' = ins_shop i
  /\ ins_productId i' = ins_productId i
  /\ ins_productTitle i' = ins_productTitle i
  /\ ins_status i' = ins_status i
  /\ ins_recommendation i' = ins_recommendation i
  /\ ins_lastProductUpdatedAt i' = ins_lastProductUpdatedAt i
  /\ ins_productStatus i' = ins_productStatus i
  /\ ins_hasFeaturedImage i' = ins_hasFeaturedImage i
  /\ ins_inventoryStatus i' = ins_inventoryStatus i
  /\ ins_inventoryAvailable i' = ins_inventoryAvailable i.

(** A table later on: every row is still there, in place and changed at
    most as [P] allows; rows may have been appended. *)
Definition rows_grow {Row : Type} (P : Row -> Row -> Prop) (l l' : list Row) : Prop :=
  exists kept new, l' = (kept ++ new)%list /\ Forall2 P l kept.

Definition grows (w w' : World) : Prop :=
  rows_grow job_grows (insightJob (db w)) (insightJob (db w'))
  /\ rows_grow run_grows (runT (db w)) (runT (db w'))
  /\ Forall2 insight_grows (productInsight (db w)) (productInsight (db w'))
  /\ webhookEvent (db w') = webhookEvent (db w)
  /\ sessionT (db w') = sessionT (db w).

(** Every call that [p] can come to make takes the world from [w] to a
    world related to it by [G], whatever the calls before it returned. *)
Fixpoint always {R : Type} (G : World -> World -> Prop) (p : Proc R) : Prop :=
  match p with
  | Ret _ => True
  | Throw _ => True
  | Now f => forall t, always G (f t)
  | Generate _ f => forall r, always G (f r)
  | Await _ s f => (forall w, G w (snd (s w))) /\ forall r, always G (f r)
  end.

(** Updates that do not take attempts or counts back. *)
Definition attempts_up (d : JobData) : Prop :=
  match jd_attempts_increment d with Some n => 0 <= n | None => True end.

Definition run_up (d : RunData) : Prop :=
  match rd_succeeded_increment d with Some n => 0 <= n | None => True end
  /\ match rd_failed_increment d with Some n => 0 <= n | None => True end
  /\ rd_status d <> Some RUN_RUNNING
  /\ match rd_completedAt d with Some None => False | _ => True end.

(** ** The uninstall webhook *)

(** Every Job that has a run has a run of its own shop. *)
Definition runs_of_own_shop (w : World) : Prop :=
  forall j x, In j (insightJob (db w)) -> In x (runT (db w)) ->
              job_runId j = Some (run_id x) -> run_shop x = job_shop j.

(** A request whose signature does not verify. *)
Definition forged_request (webhookId : option string) (e : Thrown) : Webhook.Request :=
  {| Webhook.header_webhook_id := webhookId; Webhook.authentication := Err e |}.

(** A world in which the delivery [webhookId] is on record. *)
Definition with_delivery (webhookId : string) (w : World) : World :=
  with_events (fun l => l ++ [{| we_id := 7; we_webhookId := webhookId;
                                 we_topic := "app/uninstalled"; we_shop := shop_a;
                                 we_receivedAt := 0 |}])%list w.

(** ** The form action *)

(** The products of a batch, as the action reads them from [productIds]. *)
Definition batch_selection (raw : string) : list string :=
  firstn Insights.BATCH_MAX (filter Jobs.truthy (Insights.split_comma raw)).

(** The run that the batch action creates in [w] for [n] products. *)
Definition new_run (w : World) (shop : string) (n : nat) : Run :=
  {| run_id := nextId w; run_shop := shop; run_status := RUN_RUNNING;
     run_productsQueued := Z.of_nat n; run_succeeded := 0; run_failed := 0;
     run_createdAt := clock w; run_completedAt := None |}.

(** [ids.join(",")], as the page fills the [productIds] field. *)
Definition join_comma (ids : list string) : string := String.concat "," ids.

(** The string has no comma. *)
Fixpoint comma_free (s : string) : bool :=
  match s with
  | EmptyString => true
  | String c rest => negb (Ascii.eqb c ","%char) && comma_free rest
  end.

(** The string is made of commas only. *)
Fixpoint only_commas (s : string) : bool :=
  match s with
  | EmptyString => true
  | String c rest => Ascii.eqb c ","%char && only_commas rest
  end.

Definition generate_form (intent productId : string) : Insights.FormData :=
  {| Insights.fd_intent := Some intent;
     Insights.fd_productIds := None;
     Insights.fd_productId := Some productId |}.

(** ** Confidence *)

(** The product was updated within the last 365 days (and not in the
    future), as [computeConfidence] tests it. *)
Definition updated_within_a_year (daysSinceUpdated : float) : bool :=
  PrimFloat.leb 0%float daysSinceUpdated && PrimFloat.ltb daysSinceUpdated 365%float.

(** How many of the three signals are present. *)
Definition present (hasStatus hasImage hasInventory : bool) : nat :=
  (Nat.b2n hasStatus + Nat.b2n hasImage + Nat.b2n hasInventory)%nat.

(** ** The AI result *)

(** An output as [parseAndValidate] lets it through. *)
Definition valid_output (output : AIInsightOutput) : Prop :=
  summary output <> ""
  /\ (String.length (summary output) <= 1000)%nat
  /\ In (actionType output) AiInsight.ACTION_TYPES
  /\ (List.length (nextSteps output) <= 3)%nat.

(** A parser that answers every text with the same value. *)
Definition parse_as (v : AiInsight.Json) : string -> option AiInsight.Json :=
  fun _ => Some v.

Definition a_reply : AiInsight.Json :=
  AiInsight.JObject
    [("summary", AiInsight.JString "Stale listing.");
     ("actionType", AiInsight.JString "REWRITE");
     ("nextSteps", AiInsight.JArray
                     [AiInsight.JString "a"; AiInsight.JNumber 1%float;
                      AiInsight.JString "b"; AiInsight.JString "c";
                      AiInsight.JString "d"])].

(** The character does not occur in the string. *)
Definition no_char (c : ascii) (s : string) : Prop :=
  ~ In c (list_ascii_of_string s).

(** A stretch of white space. *)
Definition white (l : list ascii) : Prop :=
  Forall (fun c => AiInsight.is_white c = true) l.

(** An environment with a key, whose endpoint answers [text]. *)
Definition env_answering (text : string) : AiInsight.Env :=
  {| AiInsight.OPENAI_API_KEY := Some "sk-0123456789";
     AiInsight.fetch := fun _ =>
       Ok {| AiInsight.ok := true; AiInsight.status := 200;
             AiInsight.text := Ok "";
             AiInsight.json :=
               Ok (Some {| AiInsight.choices :=
                             Some [{| AiInsight.message :=
                                        Some {| AiInsight.content := Some text |} |}];
                           AiInsight.model := None |}) |} |}.

(** The input of the executor for an out-of-stock product. *)
Definition out_of_stock_input : AIInsightInput :=
  {| ai_productTitle := "Title"; ai_vendor := None; ai_productType := None;
     ai_daysSinceUpdated := 3; ai_status := "NEGLECTED";
     ai_recommendation := "Out of stock.";
     ai_updatedAt := 0; ai_productStatus := Some "ACTIVE";
     ai_hasFeaturedImage := Some true;
     ai_inventoryStatus := Some "OUT_OF_STOCK"; ai_inventoryAvailable := Some 0 |}.

(** ** The loop of the worker *)

(** [n] turns of the loop of [main], alone on the store, from the
    counter [c] and the world [w]: after each turn the worker pauses for
    [POLL_INTERVAL_MS].  The counter and the world at the start of the
    next turn. *)
Fixpoint polls (ai : AIInsightInput -> AiResult) (n : nat) (c : Z) (w : World)
  : Z * World :=
  match n with
  | O => (c, w)
  | S n =>
      let out := run ai (WorkerLoop.turn c) w in
      polls ai n
            (match result out with Ok c' => c' | Err _ => c end)
            (advance WorkerLoop.POLL_INTERVAL_MS (final out))
  end.

(** No Job is QUEUED. *)
Definition nothing_queued (w : World) : Prop :=
  forall j, In j (insightJob (db w)) -> job_status j <> QUEUED.

(** ** Requests served one at a time *)

(** What the store is asked to serve: a form action, a tick of the
    worker or a reconciliation pass; a delivery of the uninstall
    webhook; or time that passes. *)
Inductive Served :=
| Request (t : Task)
| Uninstall (request : Webhook.Request)
| Wait (d : Z).

(** The world after the requests were served one after the other, each
    to its end before the next starts. *)
Fixpoint serve (ai : AIInsightInput -> AiResult) (requests : list Served) (w : World)
  : World :=
  match requests with
  | [] => w
  | Request t :: rest => serve ai rest (final (run ai (task t) w))
  | Uninstall request :: rest => serve ai rest (final (run ai (Webhook.action request) w))
  | Wait d :: rest => serve ai rest (if 0 <=? d then advance d w else w)
  end.

(** Job identities are unique and below the identity supply, and no
    product of a shop has two Jobs that are QUEUED or RUNNING. *)
Definition one_active (w : World) : Prop :=
  NoDup (map job_id (insightJob (db w)))
  /\ (forall j, In j (insightJob (db w)) -> (job_id j < nextId w)%nat)
  /\ forall shop productId,
       (List.length (filter (Jobs.is_active_for shop productId) (insightJob (db w))) <= 1)%nat.

(** [l'] is [l] with rows dropped and rows changed as [P] allows. *)
Inductive thins (P : InsightJob -> InsightJob -> Prop)
  : list InsightJob -> list InsightJob -> Prop :=
| thins_nil : thins P [] []
| thins_keep j j' l l' : P j j' -> thins P l l' -> thins P (j :: l) (j' :: l')
| thins_drop j l l' : thins P l l' -> thins P (j :: l) l'.

(** The same Job of the same shop and product. *)
Definition same_key (j j' : InsightJob) : Prop :=
  job_id j' = job_id j /\ job_shop j' = job_shop j /\ job_productId j' = job_productId j.

(** The row is not made active. *)
Definition calm (j j' : InsightJob) : Prop :=
  same_key j j' /\ (in_active (job_status j') = true -> in_active (job_status j) = true).

(** Only the row of [id] is changed. *)
Definition only_row (id : Id) (j j' : InsightJob) : Prop :=
  same_key j j' /\ (job_id j <> id -> j' = j).

(** From [w] to [w'] the Job table thins by [P] and the identity supply
    does not go back. *)
Definition thinned (P : InsightJob -> InsightJob -> Prop) (w w' : World) : Prop :=
  (nextId w <= nextId w')%nat /\ thins P (insightJob (db w)) (insightJob (db w')).

(** An update that does not make a Job active. *)
Definition settles (d : JobData) : Prop :=
  match jd_status d with
  | Some QUEUED | Some RUNNING => False
  | _ => True
  end.
(** * Properties *)

Unset Implicit Arguments.
Open Scope list_scope.

(** ** The confidence score *)

Module SignalsFacts.
Import Signals.

Lemma computeConfidence_by_cases (s i v : bool) (d : float) :
  computeConfidence
    {| hasStatus := s; hasImage := i; hasInventory := v; daysSinceUpdated := d |}
  = (if PrimFloat.leb 0%float d && PrimFloat.ltb d 365%float
     then computeConfidence
            {| hasStatus := s; hasImage := i; hasInventory := v;
               daysSinceUpdated := 1%float |}
     else computeConfidence
            {| hasStatus := s; hasImage := i; hasInventory := v;
               daysSinceUpdated := PrimFloat.nan |}).
Proof.
  unfold computeConfidence; cbn [hasStatus hasImage hasInventory daysSinceUpdated].
  destruct (PrimFloat.leb 0%float d && PrimFloat.ltb d 365%float); reflexivity.
Qed.

End SignalsFacts.

(** C8. For every input, [computeConfidence] lies in [0.10, 0.95] (as
    binary64 comparisons), and between two inputs of the same freshness
    the one with at least as many signal flags set scores at least as
    much; in particular switching one flag on never lowers the score. *)
Theorem computeConfidence_bounded_monotone :
  (forall input : Signals.ConfidenceInput,
      PrimFloat.leb 0.1%float (Signals.computeConfidence input) = true
      /\ PrimFloat.leb (Signals.computeConfidence input) 0.95%float = true)
  /\ (forall a b : Signals.ConfidenceInput,
         Signals.daysSinceUpdated a = Signals.daysSinceUpdated b ->
         (Signals.flags a <= Signals.flags b)%nat ->
         PrimFloat.leb (Signals.computeConfidence a) (Signals.computeConfidence b) = true).
Proof.
  split.
  - intros [s i v d]. rewrite SignalsFacts.computeConfidence_by_cases.
    destruct (PrimFloat.leb 0%float d && PrimFloat.ltb d 365%float);
      destruct s, i, v; split; vm_compute; reflexivity.
  - intros [s1 i1 v1 d1] [s2 i2 v2 d2]; cbn [Signals.daysSinceUpdated].
    intros <-. unfold Signals.flags; cbn [Signals.hasStatus Signals.hasImage Signals.hasInventory].
    intros Hle.
    rewrite (SignalsFacts.computeConfidence_by_cases s1 i1 v1 d1).
    rewrite (SignalsFacts.computeConfidence_by_cases s2 i2 v2 d1).
    destruct (PrimFloat.leb 0%float d1 && PrimFloat.ltb d1 365%float);
      destruct s1, i1, v1, s2, i2, v2; cbn [Nat.b2n Nat.add] in Hle;
      first [ exfalso; lia | vm_compute; reflexivity ].
Qed.

(** C8, at an input: with the image flag switched on the score does not drop. *)
Lemma computeConfidence_bounded_monotone_witness :
  PrimFloat.leb
    (Signals.computeConfidence
       {| Signals.hasStatus := true; Signals.hasImage := false;
          Signals.hasInventory := true; Signals.daysSinceUpdated := 400%float |})
    (Signals.computeConfidence
       {| Signals.hasStatus := true; Signals.hasImage := true;
          Signals.hasInventory := true; Signals.daysSinceUpdated := 400%float |})
  = true.
Proof.
  apply (proj2 computeConfidence_bounded_monotone); [reflexivity | cbn; lia].
Defined.

(** ** Rows and statements *)

Section TableFacts.
Variable Row : Type.
Variable key : Row -> Id.

Lemma find_key_update_key (id : Id) (f : Row -> Row) (rows : list Row) :
  (forall r, key (f r) = key r) ->
  find_key key id (update_key key id f rows) = option_map f (find_key key id rows).
Proof.
  intros Hk. unfold find_key, update_key.
  induction rows as [|r rows IH]; cbn; [reflexivity|].
  destruct (Nat.eqb (key r) id) eqn:E.
  - rewrite Hk, E. reflexivity.
  - rewrite E. exact IH.
Qed.

Lemma find_key_update_other (id id' : Id) (f : Row -> Row) (rows : list Row) :
  (forall r, key (f r) = key r) -> id' <> id ->
  find_key key id' (update_key key id f rows) = find_key key id' rows.
Proof.
  intros Hk Hne. unfold find_key, update_key.
  induction rows as [|r rows IH]; cbn; [reflexivity|].
  destruct (Nat.eqb (key r) id) eqn:E.
  - rewrite Hk. apply Nat.eqb_eq in E. rewrite E.
    destruct (Nat.eqb id id') eqn:E'; [apply Nat.eqb_eq in E'; congruence | exact IH].
  - destruct (Nat.eqb (key r) id'); [reflexivity | exact IH].
Qed.

Lemma find_key_key (id : Id) (rows : list Row) (r : Row) :
  find_key key id rows = Some r -> key r = id.
Proof.
  unfold find_key. intros H. apply find_some in H. apply Nat.eqb_eq, H.
Qed.

Lemma find_key_In (id : Id) (rows : list Row) (r : Row) :
  find_key key id rows = Some r -> In r rows.
Proof. unfold find_key. intros H. apply find_some in H. apply H. Qed.

End TableFacts.

Module PrismaFacts.
Import Prisma.

Lemma job_findUnique_eq w id : job_findUnique id w = (Ok (job_row w id), w).
Proof. reflexivity. Qed.

Lemma job_update_found w id d j :
  job_row w id = Some j ->
  job_update id d w
  = (Ok (job_apply (clock w) d j),
     with_jobs (update_key job_id id (job_apply (clock w) d)) w).
Proof. unfold job_update, job_row. intros ->. reflexivity. Qed.

Lemma job_update_missing w id d :
  job_row w id = None -> job_update id d w = (Err not_found, w).
Proof. unfold job_update, job_row. intros ->. reflexivity. Qed.

Lemma insight_update_found w id d i :
  insight_row w id = Some i ->
  insight_update id d w
  = (Ok (insight_apply d i),
     with_insights (update_key ins_id id (insight_apply d)) w).
Proof. unfold insight_update, insight_row. intros ->. reflexivity. Qed.

Lemma run_update_found w id d r :
  run_row w id = Some r ->
  run_update id d w
  = (Ok (run_apply d r), with_runs (update_key run_id id (run_apply d)) w).
Proof. unfold run_update, run_row. intros ->. reflexivity. Qed.

Lemma transaction_two (A B : Type) (a : Stmt A) (b : Stmt B) w x w1 y w2 :
  a w = (Ok x, w1) -> b w1 = (Ok y, w2) ->
  transaction [void a; void b] w = (Ok tt, w2).
Proof.
  intros Ha Hb. unfold transaction, sequence, void. rewrite Ha, Hb. reflexivity.
Qed.

Lemma job_row_updated w id d j :
  job_row w id = Some j ->
  job_row (with_jobs (update_key job_id id (job_apply (clock w) d)) w) id
  = Some (job_apply (clock w) d j).
Proof.
  unfold job_row. intros H. cbn [with_jobs db insightJob].
  rewrite find_key_update_key by reflexivity.
  rewrite H. reflexivity.
Qed.

Lemma insight_row_updated w id d i :
  insight_row w id = Some i ->
  insight_row (with_insights (update_key ins_id id (insight_apply d)) w) id
  = Some (insight_apply d i).
Proof.
  unfold insight_row. intros H. cbn [with_insights db productInsight].
  rewrite find_key_update_key by reflexivity.
  rewrite H. reflexivity.
Qed.

Lemma run_row_updated w id d r :
  run_row w id = Some r ->
  run_row (with_runs (update_key run_id id (run_apply d)) w) id
  = Some (run_apply d r).
Proof.
  unfold run_row. intros H. cbn [with_runs db runT].
  rewrite find_key_update_key by reflexivity.
  rewrite H. reflexivity.
Qed.

End PrismaFacts.

Arguments Prisma.transaction : simpl never.
Arguments Prisma.job_update : simpl never.
Arguments Prisma.insight_update : simpl never.
Arguments Prisma.run_update : simpl never.
Arguments Prisma.job_findUnique : simpl never.

(** ** Failure of the executor *)

Module JobsFacts.
Import Prisma Jobs PrismaFacts.

Lemma getBackoffMs_table :
  getBackoffMs 0 = 2000 /\ getBackoffMs 1 = 5000
  /\ forall i, 2 <= i -> getBackoffMs i = 10000.
Proof.
  split; [reflexivity | split; [reflexivity |]].
  intros i Hi. unfold getBackoffMs. cbn [BACKOFF_MS List.length Z.of_nat].
  replace (Z.min i (Z.pos (Pos.of_succ_nat 2) - 1)) with 2 by lia.
  reflexivity.
Qed.

(** The failure branch of [processJob], run alone. *)
Lemma processJob_failure_run ai w jobId insight shop productId runId j i e :
  job_row w jobId = Some j ->
  insight_row w (sn_id insight) = Some i ->
  ai (ai_input insight (clock w)) = Err e ->
  let willRetry := job_attempts j <? MAX_ATTEMPTS in
  let w1 :=
    with_jobs
      (update_key job_id jobId
         (job_apply (clock w)
            (job_failed willRetry (message_of e)
               (if willRetry
                then Some (clock w + getBackoffMs (job_attempts j - 1))
                else None))))
      (with_insights
         (update_key ins_id (sn_id insight)
            (insight_apply
               (mirror (if willRetry then QUEUED else FAILED)
                       (if willRetry then None else Some (slice500 (message_of e))))))
         w) in
  run ai (processJob jobId insight shop productId runId) w
  = let '(res, w2, tr) :=
      run ai
        (match runId with
         | Some runId =>
             if MAX_ATTEMPTS <=? job_attempts j
             then await (Call RunM Update) (run_update runId increment_failed) ;; Ret tt
             else Ret tt
         | None => Ret tt
         end) w1 in
    (res, w2,
     (GenerateExplanation, w) :: (Call InsightJobM FindUnique, w)
     :: (update_pair, w1) :: tr).
Proof.
  intros Hj Hi Hai willRetry w1.
  unfold processJob. cbn. rewrite Hai. cbn.
  rewrite job_findUnique_eq, Hj. cbn.
  erewrite transaction_two; cycle 1.
  - apply insight_update_found. exact Hi.
  - apply job_update_found. exact Hj.
  - cbn. subst w1 willRetry.
    destruct (run ai _ _) as [[res w2] tr]. reflexivity.
Qed.

Lemma slice500_length (message : string) :
  (String.length (slice500 message) <= 500)%nat.
Proof.
  unfold slice500. generalize 500%nat as n.
  intros n; revert message; induction n as [|n IH]; intros [|c s]; cbn; try lia.
  specialize (IH s). lia.
Qed.

Lemma processJob_failure_retry ai w jobId insight shop productId runId j i e :
  job_row w jobId = Some j ->
  insight_row w (sn_id insight) = Some i ->
  ai (ai_input insight (clock w)) = Err e ->
  job_attempts j < MAX_ATTEMPTS ->
  let w1 := failure_world w jobId (sn_id insight) (job_attempts j) e in
  run ai (processJob jobId insight shop productId runId) w
  = (Ok tt, w1,
     [(GenerateExplanation, w); (Call InsightJobM FindUnique, w); (update_pair, w1)]).
Proof.
  intros Hj Hi Hai Hlt w1.
  rewrite (processJob_failure_run ai w jobId insight shop productId runId j i e Hj Hi Hai).
  cbv zeta. fold (failure_world w jobId (sn_id insight) (job_attempts j) e). fold w1.
  assert (E : (MAX_ATTEMPTS <=? job_attempts j) = false) by (apply Z.leb_gt; exact Hlt).
  destruct runId; [rewrite E|]; reflexivity.
Qed.

Lemma processJob_failure_final ai w jobId insight shop productId j i e :
  job_row w jobId = Some j ->
  insight_row w (sn_id insight) = Some i ->
  ai (ai_input insight (clock w)) = Err e ->
  MAX_ATTEMPTS <= job_attempts j ->
  let w1 := failure_world w jobId (sn_id insight) (job_attempts j) e in
  run ai (processJob jobId insight shop productId None) w
  = (Ok tt, w1,
     [(GenerateExplanation, w); (Call InsightJobM FindUnique, w); (update_pair, w1)]).
Proof.
  intros Hj Hi Hai Hge w1.
  rewrite (processJob_failure_run ai w jobId insight shop productId None j i e Hj Hi Hai).
  reflexivity.
Qed.

Lemma processJob_failure_final_run ai w jobId insight shop productId r rn j i e :
  job_row w jobId = Some j ->
  insight_row w (sn_id insight) = Some i ->
  run_row w r = Some rn ->
  ai (ai_input insight (clock w)) = Err e ->
  MAX_ATTEMPTS <= job_attempts j ->
  let w1 := failure_world w jobId (sn_id insight) (job_attempts j) e in
  let w2 := with_runs (update_key run_id r (run_apply increment_failed)) w1 in
  run ai (processJob jobId insight shop productId (Some r)) w
  = (Ok tt, w2,
     [(GenerateExplanation, w); (Call InsightJobM FindUnique, w); (update_pair, w1);
      (Call RunM Update, w2)]).
Proof.
  intros Hj Hi Hr Hai Hge w1 w2.
  rewrite (processJob_failure_run ai w jobId insight shop productId (Some r) j i e Hj Hi Hai).
  cbv zeta. fold (failure_world w jobId (sn_id insight) (job_attempts j) e). fold w1.
  assert (E : (MAX_ATTEMPTS <=? job_attempts j) = true) by (apply Z.leb_le; exact Hge).
  rewrite E. cbn.
  erewrite run_update_found by exact Hr. reflexivity.
Qed.

Lemma failure_world_job w jobId insightId attempts e j :
  job_row w jobId = Some j ->
  job_row (failure_world w jobId insightId attempts e) jobId
  = Some (job_apply (clock w)
            (job_failed (attempts <? MAX_ATTEMPTS) (message_of e)
               (if attempts <? MAX_ATTEMPTS
                then Some (clock w + getBackoffMs (attempts - 1))
                else None)) j).
Proof.
  intros Hj. unfold failure_world, job_row in *. cbn [with_jobs with_insights db insightJob].
  rewrite find_key_update_key by reflexivity. rewrite Hj. reflexivity.
Qed.

Lemma failure_world_insight w jobId insightId attempts e i :
  insight_row w insightId = Some i ->
  insight_row (failure_world w jobId insightId attempts e) insightId
  = Some (insight_apply
            (mirror (if attempts <? MAX_ATTEMPTS then QUEUED else FAILED)
                    (if attempts <? MAX_ATTEMPTS then None
                     else Some (slice500 (message_of e)))) i).
Proof.
  intros Hi. unfold failure_world, insight_row in *.
  cbn [with_jobs with_insights db productInsight].
  rewrite find_key_update_key by reflexivity. rewrite Hi. reflexivity.
Qed.

End JobsFacts.

(** C3. When the executor fails on a claimed Job (the Job and Insight rows
    exist, and so does the run when the Job has one): with fewer than 3
    attempts the Job goes back to QUEUED with [nextRetryAt = now +
    getBackoffMs (attempts - 1)] and the truncated message, the Insight
    mirror goes to QUEUED with no error, and no run is touched; with 3 or
    more attempts Job and mirror become FAILED with the truncated message
    and the run of the Job, if any, has [failed] one higher, by a single
    update.  [getBackoffMs] is 2000, 5000, then 10000 from index 2 on. *)
Theorem processJob_failure
  (ai : AIInsightInput -> AiResult) (w : World) (jobId : Id)
  (insight : Jobs.InsightSnapshot) (shop productId : string) (runId : option Id)
  (j : InsightJob) (i : ProductInsight) (e : Thrown) :
  job_row w jobId = Some j ->
  insight_row w (Jobs.sn_id insight) = Some i ->
  (forall r, runId = Some r -> run_row w r <> None) ->
  ai (Jobs.ai_input insight (clock w)) = Err e ->
  let out := run ai (Jobs.processJob jobId insight shop productId runId) w in
  let error := Jobs.slice500 (Jobs.message_of e) in
  result out = Ok tt
  /\ (job_attempts j < 3 ->
      (exists j', job_row (final out) jobId = Some j'
                  /\ job_status j' = QUEUED
                  /\ job_nextRetryAt j'
                     = Some (clock w + Jobs.getBackoffMs (job_attempts j - 1))
                  /\ job_lastError j' = Some error
                  /\ job_attempts j' = job_attempts j)
      /\ (exists i', insight_row (final out) (Jobs.sn_id insight) = Some i'
                     /\ ins_aiStatus i' = Some QUEUED
                     /\ ins_aiError i' = None)
      /\ runT (db (final out)) = runT (db w))
  /\ (3 <= job_attempts j ->
      (exists j', job_row (final out) jobId = Some j'
                  /\ job_status j' = FAILED
                  /\ job_nextRetryAt j' = None
                  /\ job_lastError j' = Some error
                  /\ job_attempts j' = job_attempts j)
      /\ (exists i', insight_row (final out) (Jobs.sn_id insight) = Some i'
                     /\ ins_aiStatus i' = Some FAILED
                     /\ ins_aiError i' = Some error)
      /\ match runId with
         | Some r =>
             (forall rn, run_row w r = Some rn ->
                exists rn', run_row (final out) r = Some rn'
                            /\ run_failed rn' = run_failed rn + 1
                            /\ run_succeeded rn' = run_succeeded rn)
             /\ (forall r', r' <> r -> run_row (final out) r' = run_row w r')
             /\ List.length
                  (filter (fun l => match fst l with Call RunM Update => true | _ => false end)
                          (trace out)) = 1%nat
         | None => runT (db (final out)) = runT (db w)
         end)
  /\ (String.length error <= 500)%nat
  /\ (Jobs.getBackoffMs 0 = 2000 /\ Jobs.getBackoffMs 1 = 5000
      /\ forall n, 2 <= n -> Jobs.getBackoffMs n = 10000).
Proof.
  intros Hj Hi Hrun Hai out error.
  split; [| split; [| split; [| split]]].
  - subst out.
    destruct (Z.lt_ge_cases (job_attempts j) Jobs.MAX_ATTEMPTS) as [Hlt|Hge].
    + rewrite (JobsFacts.processJob_failure_retry ai w jobId insight shop productId runId
               j i e Hj Hi Hai Hlt).
      reflexivity.
    + destruct runId as [r|].
      * destruct (run_row w r) as [rn|] eqn:Hr; [| exfalso; exact (Hrun r eq_refl Hr)].
        rewrite (JobsFacts.processJob_failure_final_run ai w jobId insight shop productId
                 r rn j i e Hj Hi Hr Hai Hge).
        reflexivity.
      * rewrite (JobsFacts.processJob_failure_final ai w jobId insight shop productId
                 j i e Hj Hi Hai Hge).
        reflexivity.
  - intros Hlt. subst out.
    rewrite (JobsFacts.processJob_failure_retry ai w jobId insight shop productId runId
               j i e Hj Hi Hai Hlt).
    unfold final; cbn [fst snd].
    assert (E : (job_attempts j <? Jobs.MAX_ATTEMPTS) = true) by (apply Z.ltb_lt; exact Hlt).
    split; [| split].
    + eexists. split; [apply JobsFacts.failure_world_job; exact Hj |].
      rewrite E. cbn. auto.
    + eexists. split; [apply JobsFacts.failure_world_insight; exact Hi |].
      rewrite E. cbn. auto.
    + reflexivity.
  - intros Hge.
    assert (E : (job_attempts j <? Jobs.MAX_ATTEMPTS) = false) by (apply Z.ltb_ge; exact Hge).
    destruct runId as [r|].
    + destruct (run_row w r) as [rn|] eqn:Hr; [| exfalso; exact (Hrun r eq_refl Hr)].
      subst out.
      rewrite (JobsFacts.processJob_failure_final_run ai w jobId insight shop productId
                 r rn j i e Hj Hi Hr Hai Hge).
      unfold final, trace; cbn [fst snd].
      split; [| split; [| split; [| split]]].
      * eexists. split.
        -- unfold job_row; cbn [with_runs db insightJob].
           apply JobsFacts.failure_world_job; exact Hj.
        -- rewrite E. cbn. auto.
      * eexists. split.
        -- unfold insight_row; cbn [with_runs db productInsight].
           apply JobsFacts.failure_world_insight; exact Hi.
        -- rewrite E. cbn. auto.
      * intros rn0 Hrn0. injection Hrn0 as <-. eexists. split.
        -- apply PrismaFacts.run_row_updated. exact Hr.
        -- cbn. auto.
      * intros r' Hne. unfold run_row. cbn [with_runs db runT].
        rewrite find_key_update_other by (reflexivity || assumption).
        reflexivity.
      * reflexivity.
    + subst out.
      rewrite (JobsFacts.processJob_failure_final ai w jobId insight shop productId
                 j i e Hj Hi Hai Hge).
      unfold final; cbn [fst snd].
      split; [| split].
      * eexists. split; [apply JobsFacts.failure_world_job; exact Hj |].
        rewrite E. cbn. auto.
      * eexists. split; [apply JobsFacts.failure_world_insight; exact Hi |].
        rewrite E. cbn. auto.
      * reflexivity.
  - apply JobsFacts.slice500_length.
  - apply JobsFacts.getBackoffMs_table.
Qed.

(** C3, at a world: the third attempt of a run's Job fails. *)
Lemma processJob_failure_witness :
  result
    (run ai_down
         (Jobs.processJob 1 (Jobs.snapshot (an_insight 3 "p1")) shop_a "p1" (Some 5%nat))
         (a_world [a_job 1 "p1" (Some 5%nat) RUNNING 3 10] [an_insight 3 "p1"] [a_run 5 1]))
  = Ok tt.
Proof.
  refine (proj1 (processJob_failure ai_down
                   (a_world [a_job 1 "p1" (Some 5%nat) RUNNING 3 10] [an_insight 3 "p1"]
                            [a_run 5 1])
                   1 (Jobs.snapshot (an_insight 3 "p1")) shop_a "p1" (Some 5%nat)
                   (a_job 1 "p1" (Some 5%nat) RUNNING 3 10) (an_insight 3 "p1")
                   (ErrorObj "OpenAI returned no content.")
                   eq_refl eq_refl _ eq_refl)).
  intros r Hr. injection Hr as <-. discriminate.
Defined.

(** ** Enqueueing *)

Section MoreTableFacts.
Variable Row : Type.
Variable key : Row -> Id.

Lemma In_find_key (rows : list Row) (r : Row) :
  In r rows -> exists r0, find_key key (key r) rows = Some r0.
Proof.
  unfold find_key. induction rows as [|x rows IH]; cbn; [intros []|].
  intros [->|Hin].
  - rewrite Nat.eqb_refl. eauto.
  - destruct (Nat.eqb (key x) (key r)); eauto.
Qed.

Lemma In_update_key (id : Id) (f : Row -> Row) (rows : list Row) (r : Row) :
  In r rows -> key r = id -> In (f r) (update_key key id f rows).
Proof.
  intros Hin Hk. unfold update_key. apply in_map_iff. exists r. split; [| exact Hin].
  rewrite Hk, Nat.eqb_refl. reflexivity.
Qed.

Lemma update_key_length (id : Id) (f : Row -> Row) (rows : list Row) :
  List.length (update_key key id f rows) = List.length rows.
Proof. apply length_map. Qed.

End MoreTableFacts.

Module EnqueueFacts.
Import Prisma Jobs PrismaFacts.

Lemma job_create_ok w shop productId runId status :
  (forall r, runId = Some r -> run_row w r <> None) ->
  job_create shop productId runId status w
  = (Ok {| job_id := nextId w; job_shop := shop; job_productId := productId;
           job_runId := runId; job_status := status; job_attempts := 0;
           job_lastError := None; job_nextRetryAt := None;
           job_createdAt := clock w; job_updatedAt := clock w |},
     bump_id
       (with_jobs
          (fun l =>
             (l ++ [{| job_id := nextId w; job_shop := shop; job_productId := productId;
                       job_runId := runId; job_status := status; job_attempts := 0;
                       job_lastError := None; job_nextRetryAt := None;
                       job_createdAt := clock w; job_updatedAt := clock w |}])%list) w)).
Proof.
  intros Hrun. unfold job_create. destruct runId as [r|]; [| reflexivity].
  specialize (Hrun r eq_refl). unfold run_row in Hrun.
  destruct (find_key run_id r (runT (db w))); [reflexivity | contradiction].
Qed.

Arguments Prisma.job_create : simpl never.
Arguments Prisma.job_findFirst : simpl never.
Arguments Prisma.insight_findUnique : simpl never.

Lemma insight_findUnique_found w shop productId i :
  insight_findUnique shop productId w = (Ok (Some i), w) ->
  exists i0, insight_row w (ins_id i) = Some i0.
Proof.
  unfold insight_findUnique. intros H. injection H as H.
  apply find_some in H. destruct H as [Hin _].
  exact (In_find_key ProductInsight ins_id _ _ Hin).
Qed.

Lemma insight_findUnique_world w shop productId :
  snd (insight_findUnique shop productId w) = w.
Proof. reflexivity. Qed.

End EnqueueFacts.

(** C4. When [(shop, productId)] has an active Job [e] (and the run, if
    one is given, exists): without [force] the call changes nothing and
    returns no id; with [force] it first marks the active Job FAILED with
    "Superseded by regenerate", then appends exactly one new QUEUED Job,
    whose id it returns. *)
Theorem enqueueInsightJob_active
  (ai : AIInsightInput -> AiResult) (w : World) (shop productId : string)
  (runId : option Id) (e : InsightJob) :
  find (Jobs.is_active_for shop productId) (insightJob (db w)) = Some e ->
  (forall r, runId = Some r -> run_row w r <> None) ->
  (let out := run ai (Jobs.enqueueInsightJob shop productId runId false) w in
   result out = Ok None /\ final out = w)
  /\ (let out := run ai (Jobs.enqueueInsightJob shop productId runId true) w in
      let new := {| job_id := nextId w; job_shop := shop; job_productId := productId;
                    job_runId := runId; job_status := QUEUED; job_attempts := 0;
                    job_lastError := None; job_nextRetryAt := None;
                    job_createdAt := clock w; job_updatedAt := clock w |} in
      result out = Ok (Some (nextId w))
      /\ insightJob (db (final out))
         = (update_key job_id (job_id e) (job_apply (clock w) Jobs.superseded)
                       (insightJob (db w)) ++ [new])%list
      /\ In (job_apply (clock w) Jobs.superseded e) (insightJob (db (final out)))
      /\ job_status (job_apply (clock w) Jobs.superseded e) = FAILED
      /\ job_lastError (job_apply (clock w) Jobs.superseded e)
         = Some "Superseded by regenerate"
      /\ firstn 3 (map fst (trace out))
         = [Call InsightJobM FindFirst; Call InsightJobM Update;
            Call InsightJobM Create]).
Proof.
  intros He Hrun. split.
  - unfold Jobs.enqueueInsightJob. cbn. unfold Prisma.job_findFirst. rewrite He.
    cbn. auto.
  - pose proof (find_some _ _ He) as [Hin _].
    destruct (In_find_key InsightJob job_id _ _ Hin) as [e0 He0].
    unfold Jobs.enqueueInsightJob. cbn. unfold Prisma.job_findFirst. rewrite He. cbn.
    erewrite PrismaFacts.job_update_found by exact He0. cbn.
    rewrite EnqueueFacts.job_create_ok by exact Hrun. cbn.
    set (w2 := bump_id _).
    destruct (Prisma.insight_findUnique shop productId w2) as [r w3] eqn:Hfind.
    pose proof (EnqueueFacts.insight_findUnique_world w2 shop productId) as Hw3.
    rewrite Hfind in Hw3. cbn in Hw3. subst w3.
    assert (Hjobs : insightJob (db w2)
                    = (update_key job_id (job_id e) (job_apply (clock w) Jobs.superseded)
                                  (insightJob (db w)) ++ _)%list) by reflexivity.
    assert (Hsup : In (job_apply (clock w) Jobs.superseded e) (insightJob (db w2))).
    { rewrite Hjobs. apply in_or_app. left. apply In_update_key; [exact Hin | reflexivity]. }
    destruct r as [[i|]|err].
    + destruct (EnqueueFacts.insight_findUnique_found _ _ _ _ Hfind) as [i0 Hi0].
      cbn. erewrite PrismaFacts.insight_update_found by exact Hi0. cbn.
      repeat split; assumption || reflexivity.
    + cbn. repeat split; assumption || reflexivity.
    + unfold Prisma.insight_findUnique in Hfind. discriminate Hfind.
Qed.

(** C4, at a world: a queued Job for "p1" is superseded by a regenerate. *)
Lemma enqueueInsightJob_active_witness :
  result
    (run ai_up (Jobs.enqueueInsightJob shop_a "p1" None true)
         (a_world [a_job 1 "p1" None QUEUED 0 10] [an_insight 3 "p1"] []))
  = Ok (Some 100%nat).
Proof.
  refine (proj1 (proj2 (enqueueInsightJob_active ai_up
            (a_world [a_job 1 "p1" None QUEUED 0 10] [an_insight 3 "p1"] [])
            shop_a "p1" None (a_job 1 "p1" None QUEUED 0 10) eq_refl _))).
  intros r Hr. discriminate Hr.
Defined.

(** ** Claiming *)

Module ClaimFacts.
Import Prisma Jobs PrismaFacts.

Lemma oldest_In (l : list InsightJob) (c : InsightJob) :
  oldest l = Some c -> In c l.
Proof.
  revert c. induction l as [|j l IH]; cbn; [discriminate|].
  intros c. destruct (oldest l) as [m|].
  - destruct (job_createdAt j <=? job_createdAt m); intros [= <-]; auto.
  - intros [= <-]. auto.
Qed.

Lemma oldest_le (l : list InsightJob) (c : InsightJob) :
  oldest l = Some c -> forall j, In j l -> job_createdAt c <= job_createdAt j.
Proof.
  revert c. induction l as [|x l IH]; cbn; [discriminate|].
  intros c Hc j [<-|Hin].
  - destruct (oldest l) as [m|].
    + destruct (job_createdAt x <=? job_createdAt m) eqn:E; injection Hc as <-;
        [lia | apply Z.leb_gt in E; lia].
    + injection Hc as <-. lia.
  - destruct (oldest l) as [m|] eqn:Hm.
    + specialize (IH m eq_refl j Hin).
      destruct (job_createdAt x <=? job_createdAt m) eqn:E; injection Hc as <-;
        [apply Z.leb_le in E; lia | exact IH].
    + destruct l; [destruct Hin | cbn in Hm; destruct (oldest l); [destruct (_ <=? _)|]; discriminate].
Qed.

Lemma oldest_some (l : list InsightJob) :
  l <> [] -> exists c, oldest l = Some c.
Proof.
  destruct l as [|j l]; [congruence|]. intros _. cbn.
  destruct (oldest l) as [m|]; [destruct (_ <=? _)|]; eauto.
Qed.

Lemma find_key_NoDup (jobs : list InsightJob) (c : InsightJob) :
  NoDup (map job_id jobs) -> In c jobs -> find_key job_id (job_id c) jobs = Some c.
Proof.
  unfold find_key. induction jobs as [|x jobs IH]; cbn; [intros _ []|].
  intros Hnd [->|Hin].
  - rewrite Nat.eqb_refl. reflexivity.
  - inversion Hnd as [|? ? Hnot Hnd']; subst.
    destruct (Nat.eqb (job_id x) (job_id c)) eqn:E.
    + apply Nat.eqb_eq in E. exfalso. apply Hnot. rewrite E.
      apply in_map. exact Hin.
    + apply IH; assumption.
Qed.

(** With unique identities the fence addresses the candidate's row alone. *)
Lemma fence_update (jobs : list InsightJob) (c : InsightJob) (f : InsightJob -> InsightJob) :
  NoDup (map job_id jobs) -> In c jobs -> job_status c = QUEUED ->
  update_where (fence c) f jobs = update_key job_id (job_id c) f jobs
  /\ List.length (filter (fence c) jobs) = 1%nat.
Proof.
  unfold update_where, update_key.
  induction jobs as [|x jobs IH]; cbn; [intros _ []|].
  intros Hnd Hin Hq. inversion Hnd as [|? ? Hnot Hnd']; subst.
  assert (Hrest : forall y, In y jobs -> job_id x <> job_id y).
  { intros y Hy Heq. apply Hnot. rewrite Heq. apply in_map. exact Hy. }
  destruct Hin as [->|Hin].
  - assert (Hf : fence c c = true).
    { unfold fence. rewrite Nat.eqb_refl, Hq, Z.eqb_refl. reflexivity. }
    rewrite Hf, Nat.eqb_refl.
    assert (Hno : forall y, In y jobs -> fence c y = false /\ Nat.eqb (job_id y) (job_id c) = false).
    { intros y Hy. assert (E : Nat.eqb (job_id y) (job_id c) = false).
      { apply Nat.eqb_neq. intros Heq. exact (Hrest y Hy (eq_sym Heq)). }
      unfold fence. rewrite E. auto. }
    split.
    + f_equal. apply map_ext_in. intros y Hy. destruct (Hno y Hy) as [-> ->]. reflexivity.
    + cbn. f_equal. clear - Hno. induction jobs as [|y jobs IH]; [reflexivity|].
      cbn. destruct (Hno y (or_introl eq_refl)) as [-> _].
      apply IH. intros z Hz. apply Hno. right. exact Hz.
  - destruct (IH Hnd' Hin Hq) as [IHu IHl].
    assert (E : Nat.eqb (job_id x) (job_id c) = false).
    { apply Nat.eqb_neq. exact (Hrest c Hin). }
    assert (Hf : fence c x = false) by (unfold fence; rewrite E; reflexivity).
    rewrite Hf, E. split; [f_equal; exact IHu | exact IHl].
Qed.

End ClaimFacts.

Arguments Prisma.job_updateMany : simpl never.
Arguments Prisma.job_findFirst_orderBy_createdAt : simpl never.

(** C7. Run alone on a store with unique Job identities, [claimNextJob]
    picks a Job [c] that is QUEUED with [nextRetryAt] unset or not after
    now and whose creation time is least among such Jobs; its second
    call turns exactly that row to RUNNING with [attempts] one higher,
    [nextRetryAt] cleared and [updatedAt] set to now; when the Insight of
    [c] exists the call returns [c]. *)
Theorem claimNextJob_claims_oldest
  (ai : AIInsightInput -> AiResult) (w : World) (c : InsightJob) :
  NoDup (map job_id (insightJob (db w))) ->
  oldest (filter (Jobs.eligible (clock w)) (insightJob (db w))) = Some c ->
  let out := run ai Jobs.claimNextJob w in
  let c' := job_apply (clock w) (Jobs.claimed (clock w)) c in
  (In c (insightJob (db w))
   /\ job_status c = QUEUED
   /\ match job_nextRetryAt c with None => True | Some t => t <= clock w end
   /\ forall j, In j (insightJob (db w)) -> Jobs.eligible (clock w) j = true ->
                job_createdAt c <= job_createdAt j)
  /\ (exists w1,
        nth_error (trace out) 1 = Some (Call InsightJobM UpdateMany, w1)
        /\ insightJob (db w1)
           = update_key job_id (job_id c) (job_apply (clock w) (Jobs.claimed (clock w)))
                        (insightJob (db w))
        /\ job_row w1 (job_id c) = Some c')
  /\ (job_status c' = RUNNING
      /\ job_attempts c' = job_attempts c + 1
      /\ job_nextRetryAt c' = None
      /\ job_updatedAt c' = clock w)
  /\ (forall i,
        find (fun i => String.eqb (ins_shop i) (job_shop c)
                       && String.eqb (ins_productId i) (job_productId c))
             (productInsight (db w)) = Some i ->
        result out
        = Ok (Some ({| Jobs.cj_id := job_id c; Jobs.cj_shop := job_shop c;
                       Jobs.cj_productId := job_productId c;
                       Jobs.cj_runId := job_runId c |}, Jobs.snapshot i))
        /\ job_row (final out) (job_id c) = Some c').
Proof.
  intros Hnd Hc out c'.
  pose proof (ClaimFacts.oldest_In _ _ Hc) as Hin.
  apply filter_In in Hin. destruct Hin as [Hin Hel].
  assert (Hq : job_status c = QUEUED).
  { unfold Jobs.eligible in Hel. apply andb_prop in Hel.
    destruct Hel as [Hs _]. destruct (job_status c); (reflexivity || discriminate). }
  destruct (ClaimFacts.fence_update (insightJob (db w)) c
              (job_apply (clock w) (Jobs.claimed (clock w))) Hnd Hin Hq) as [Hupd Hcount].
  assert (Hrow : find_key job_id (job_id c)
                   (update_key job_id (job_id c)
                      (job_apply (clock w) (Jobs.claimed (clock w))) (insightJob (db w)))
                 = Some c').
  { rewrite find_key_update_key by reflexivity.
    rewrite (ClaimFacts.find_key_NoDup _ _ Hnd Hin). reflexivity. }
  assert (Hout : exists r wf tr,
             out = (r, wf,
                    (Call InsightJobM FindFirst, w)
                    :: (Call InsightJobM UpdateMany,
                        with_jobs (update_where (Jobs.fence c)
                                     (job_apply (clock w) (Jobs.claimed (clock w)))) w)
                    :: tr)
             /\ forall i,
                 find (fun i => String.eqb (ins_shop i) (job_shop c)
                                && String.eqb (ins_productId i) (job_productId c))
                      (productInsight (db w)) = Some i ->
                 r = Ok (Some ({| Jobs.cj_id := job_id c; Jobs.cj_shop := job_shop c;
                                  Jobs.cj_productId := job_productId c;
                                  Jobs.cj_runId := job_runId c |}, Jobs.snapshot i))
                 /\ insightJob (db wf)
                    = update_key job_id (job_id c)
                                 (job_apply (clock w) (Jobs.claimed (clock w)))
                                 (insightJob (db w))).
  { subst out. unfold Jobs.claimNextJob. cbn.
    unfold Prisma.job_findFirst_orderBy_createdAt. rewrite Hc. cbn.
    unfold Prisma.job_updateMany. rewrite Hcount. cbn.
    unfold Prisma.insight_findUnique. cbn.
    destruct (find _ (productInsight (db w))) as [i|] eqn:Hf; cbn.
    - pose proof (find_some _ _ Hf) as [Hini _].
      destruct (In_find_key ProductInsight ins_id _ _ Hini) as [i0 Hi0].
      unfold Prisma.insight_update. cbn.
      unfold find_key in Hi0. rewrite Hi0. cbn.
      do 3 eexists. split; [reflexivity |].
      intros i' [= <-]. split; [reflexivity | exact Hupd].
    - destruct (Prisma.job_update _ _ _) as [r0 w0].
      destruct (run ai _ w0) as [[r1 w1] tr1].
      do 3 eexists. split; [reflexivity |]. intros i' Hi'. discriminate Hi'. }
  destruct Hout as (r & wf & tr & Hout & Hfound). clearbody out. subst out.
  split; [| split; [| split]].
  - split; [exact Hin | split; [exact Hq | split]].
    + unfold Jobs.eligible in Hel. apply andb_prop in Hel. destruct Hel as [_ Ht].
      destruct (job_nextRetryAt c); [apply Z.leb_le; exact Ht | exact I].
    + intros j Hj Hej. apply (ClaimFacts.oldest_le _ _ Hc).
      apply filter_In. split; assumption.
  - eexists. split; [reflexivity |]. split.
    + cbn [with_jobs db insightJob]. exact Hupd.
    + unfold job_row. cbn [with_jobs db insightJob]. rewrite Hupd. exact Hrow.
  - cbn. auto.
  - intros i Hi. destruct (Hfound i Hi) as [-> Hjobs]. split; [reflexivity |].
    unfold job_row, final. cbn [fst snd]. rewrite Hjobs. exact Hrow.
Qed.

(** C7, at a world: of two queued Jobs the one created first is claimed. *)
Lemma claimNextJob_claims_oldest_witness :
  job_row (final (run ai_up Jobs.claimNextJob
                      (a_world [a_job 1 "p1" None QUEUED 0 20; a_job 2 "p2" None QUEUED 0 10]
                               [an_insight 3 "p1"; an_insight 4 "p2"] [])))
          2%nat
  = Some (job_apply 100000 (Jobs.claimed 100000) (a_job 2 "p2" None QUEUED 0 10)).
Proof.
  refine (proj2 (proj2 (proj2 (proj2
            (claimNextJob_claims_oldest ai_up
               (a_world [a_job 1 "p1" None QUEUED 0 20; a_job 2 "p2" None QUEUED 0 10]
                        [an_insight 3 "p1"; an_insight 4 "p2"] [])
               (a_job 2 "p2" None QUEUED 0 10) _ eq_refl)))
            (an_insight 4 "p2") eq_refl)).
  cbn. repeat constructor; cbn; intuition discriminate.
Defined.


(** C10. Run alone on a store with unique Job identities, when the Job
    [c] that [claimNextJob] claims has no Insight row, the call marks the
    Job FAILED with "ProductInsight not found", returns no job, and
    leaves the Run table as it was.  A run can therefore be COMPLETED
    with [succeeded + failed] below [productsQueued]: a batch for a
    product without an Insight, one tick and one reconciliation end so. *)
Theorem claimNextJob_insight_missing
  (ai : AIInsightInput -> AiResult) (w : World) (c : InsightJob) :
  NoDup (map job_id (insightJob (db w))) ->
  oldest (filter (Jobs.eligible (clock w)) (insightJob (db w))) = Some c ->
  find (fun i => String.eqb (ins_shop i) (job_shop c)
                 && String.eqb (ins_productId i) (job_productId c))
       (productInsight (db w)) = None ->
  let out := run ai Jobs.claimNextJob w in
  (result out = Ok None
   /\ (exists c', job_row (final out) (job_id c) = Some c'
                  /\ job_status c' = FAILED
                  /\ job_lastError c' = Some "ProductInsight not found")
   /\ runT (db (final out)) = runT (db w))
  /\ (exists r, runT (db orphan_batch_world) = [r]
                /\ run_status r = RUN_COMPLETED
                /\ run_succeeded r + run_failed r < run_productsQueued r).
Proof.
  intros Hnd Hc Hnone out. split.
  - pose proof (ClaimFacts.oldest_In _ _ Hc) as Hin.
    apply filter_In in Hin. destruct Hin as [Hin Hel].
    assert (Hq : job_status c = QUEUED).
    { unfold Jobs.eligible in Hel. apply andb_prop in Hel.
      destruct Hel as [Hs _]. destruct (job_status c); (reflexivity || discriminate). }
    destruct (ClaimFacts.fence_update (insightJob (db w)) c
                (job_apply (clock w) (Jobs.claimed (clock w))) Hnd Hin Hq) as [Hupd Hcount].
    subst out. unfold Jobs.claimNextJob. cbn.
    unfold Prisma.job_findFirst_orderBy_createdAt. rewrite Hc. cbn.
    unfold Prisma.job_updateMany. rewrite Hcount. cbn.
    unfold Prisma.insight_findUnique. cbn. rewrite Hnone. cbn.
    set (w1 := with_jobs _ w).
    assert (Hrow : job_row w1 (job_id c)
                   = Some (job_apply (clock w) (Jobs.claimed (clock w)) c)).
    { unfold job_row, w1. cbn [with_jobs db insightJob]. rewrite Hupd.
      rewrite find_key_update_key by reflexivity.
      rewrite (ClaimFacts.find_key_NoDup _ _ Hnd Hin). reflexivity. }
    rewrite (PrismaFacts.job_update_found _ _ _ _ Hrow).
    set (w2 := with_jobs _ w1).
    cbn [run bind of_res result final trace fst snd].
    split; [reflexivity | split; [| reflexivity]].
    eexists. split.
    + apply PrismaFacts.job_row_updated. exact Hrow.
    + cbn. auto.
  - eexists. split; [vm_compute; reflexivity | cbn; repeat split; lia].
Qed.

(** C10, at a world: the only queued Job has no Insight. *)
Lemma claimNextJob_insight_missing_witness :
  result (run ai_up Jobs.claimNextJob
              (a_world [a_job 1 "p9" (Some 5%nat) QUEUED 0 10] [] [a_run 5 1]))
  = Ok None.
Proof.
  refine (proj1 (proj1
            (claimNextJob_insight_missing ai_up
               (a_world [a_job 1 "p9" (Some 5%nat) QUEUED 0 10] [] [a_run 5 1])
               (a_job 1 "p9" (Some 5%nat) QUEUED 0 10) _ eq_refl eq_refl))).
  cbn. repeat constructor; cbn; intuition discriminate.
Defined.

(** ** The uninstall webhook *)

Module WebhookFacts.
Import Prisma Webhook.

Lemma purge_shop_ok (shop : string) (w : World) :
  purge_shop shop w = (Ok tt, purged shop w).
Proof. reflexivity. Qed.

Lemma purged_tables (shop : string) (w : World) :
  insightJob (db (purged shop w))
  = update_where
      (refers_to_deleted (fun r => String.eqb (run_shop r) shop) (runT (db w)))
      job_clear_run
      (delete_where (fun j => String.eqb (job_shop j) shop) (insightJob (db w)))
  /\ runT (db (purged shop w))
     = delete_where (fun r => String.eqb (run_shop r) shop) (runT (db w))
  /\ productInsight (db (purged shop w))
     = delete_where (fun i => String.eqb (ins_shop i) shop) (productInsight (db w))
  /\ sessionT (db (purged shop w))
     = delete_where (fun s => String.eqb (session_shop s) shop) (sessionT (db w))
  /\ webhookEvent (db (purged shop w)) = webhookEvent (db w).
Proof. repeat split. Qed.

Lemma delete_where_gone (Row : Type) (p : Row -> bool) (rows : list Row) (r : Row) :
  In r (delete_where p rows) -> p r = false.
Proof.
  unfold delete_where. intros H. apply filter_In in H.
  destruct H as [_ H]. destruct (p r); [discriminate | reflexivity].
Qed.

Lemma purged_no_shop_rows (shop : string) (w : World) :
  (forall j, In j (insightJob (db (purged shop w))) -> job_shop j <> shop)
  /\ (forall r, In r (runT (db (purged shop w))) -> run_shop r <> shop)
  /\ (forall i, In i (productInsight (db (purged shop w))) -> ins_shop i <> shop)
  /\ (forall s, In s (sessionT (db (purged shop w))) -> session_shop s <> shop).
Proof.
  destruct (purged_tables shop w) as (Hj & Hr & Hi & Hs & _).
  rewrite Hj, Hr, Hi, Hs. repeat split.
  - intros j Hin. unfold update_where in Hin. apply in_map_iff in Hin.
    destruct Hin as (j0 & Hj0 & Hin). apply delete_where_gone in Hin.
    apply String.eqb_neq in Hin.
    destruct (refers_to_deleted _ _ j0); subst j; exact Hin.
  - intros r Hin. apply delete_where_gone in Hin. apply String.eqb_neq. exact Hin.
  - intros i Hin. apply delete_where_gone in Hin. apply String.eqb_neq. exact Hin.
  - intros s Hin. apply delete_where_gone in Hin. apply String.eqb_neq. exact Hin.
Qed.

(** A delivery without the header, run alone. *)
Lemma action_without_header ai w request shop topic :
  header_webhook_id request = None ->
  authentication request = Ok (shop, topic) ->
  run ai (action request) w
  = (Ok 200, purged shop w, [(AuthenticateWebhook, w); (purge, purged shop w)]).
Proof.
  intros Hh Ha.
  unfold action, authenticate_and_purge, record_and_purge, truthy_header.
  rewrite Hh. cbn. rewrite Ha. reflexivity.
Qed.

End WebhookFacts.

Arguments purged : simpl never.

(** C9. A delivery without the [x-shopify-webhook-id] header that
    authenticates makes two calls only, the authentication and the purge
    transaction: no lookup of a WebhookEvent, no WebhookEvent row written.
    The shop's Jobs, Runs, Insights and sessions are deleted and the
    delivery is acknowledged; a repeated delivery does the same again. *)
Theorem uninstall_without_webhook_id
  (ai : AIInsightInput -> AiResult) (w : World) (request : Webhook.Request)
  (shop topic : string) :
  Webhook.header_webhook_id request = None ->
  Webhook.authentication request = Ok (shop, topic) ->
  let out := run ai (Webhook.action request) w in
  let again := run ai (Webhook.action request) (final out) in
  result out = Ok 200
  /\ map fst (trace out) = [AuthenticateWebhook; Webhook.purge]
  /\ final out = purged shop w
  /\ webhookEvent (db (final out)) = webhookEvent (db w)
  /\ ((forall j, In j (insightJob (db (final out))) -> job_shop j <> shop)
      /\ (forall r, In r (runT (db (final out))) -> run_shop r <> shop)
      /\ (forall i, In i (productInsight (db (final out))) -> ins_shop i <> shop)
      /\ (forall s, In s (sessionT (db (final out))) -> session_shop s <> shop))
  /\ result again = Ok 200
  /\ map fst (trace again) = [AuthenticateWebhook; Webhook.purge]
  /\ purges (map fst (trace out ++ trace again)) = 2%nat.
Proof.
  intros Hh Ha out again. subst again out.
  rewrite !(WebhookFacts.action_without_header ai _ request shop topic Hh Ha).
  unfold result, final, trace; cbn [fst snd].
  repeat split; try apply WebhookFacts.purged_no_shop_rows.
Qed.

(** C9, at a world: a shop with one Job, one Insight and one Run. *)
Lemma uninstall_without_webhook_id_witness :
  final (run ai_up (Webhook.action (uninstall_request None))
             (a_world [a_job 1 "p1" (Some 5%nat) QUEUED 0 10] [an_insight 3 "p1"]
                      [a_run 5 1]))
  = purged shop_a
           (a_world [a_job 1 "p1" (Some 5%nat) QUEUED 0 10] [an_insight 3 "p1"]
                    [a_run 5 1]).
Proof.
  exact (proj1 (proj2 (proj2
           (uninstall_without_webhook_id ai_up
              (a_world [a_job 1 "p1" (Some 5%nat) QUEUED 0 10] [an_insight 3 "p1"]
                       [a_run 5 1])
              (uninstall_request None) shop_a "app/uninstalled" eq_refl eq_refl)))).
Defined.

(** ** Deliveries of one webhook id *)

Section Lists.
Variable A : Type.

Lemma set_nth_length (i : nat) (x : A) (l : list A) :
  List.length (set_nth i x l) = List.length l.
Proof.
  revert i. induction l as [|y l IH]; intros [|i]; cbn; auto.
Qed.

Lemma set_nth_map (B : Type) (f : A -> B) (i : nat) (x : A) (l : list A) :
  set_nth i (f x) (map f l) = map f (set_nth i x l).
Proof.
  revert i. induction l as [|y l IH]; intros [|i]; cbn; auto.
  f_equal. apply IH.
Qed.

Lemma nth_error_map_some (B : Type) (f : A -> B) (i : nat) (l : list A) (y : B) :
  nth_error (map f l) i = Some y -> exists x, nth_error l i = Some x /\ y = f x.
Proof.
  rewrite nth_error_map. destruct (nth_error l i) as [x|]; cbn; [|discriminate].
  intros [= <-]. eauto.
Qed.

Lemma count_set_nth (p : A -> bool) (i : nat) (x y : A) (l : list A) :
  nth_error l i = Some x ->
  (List.length (filter p (set_nth i y l)) + Nat.b2n (p x)
   = List.length (filter p l) + Nat.b2n (p y))%nat.
Proof.
  revert i. induction l as [|z l IH]; intros [|i]; cbn; try discriminate.
  - intros [= ->]. destruct (p x), (p y); cbn; lia.
  - intros H. specialize (IH i H). destruct (p z); cbn; lia.
Qed.

Lemma existsb_set_nth (p : A -> bool) (i : nat) (x y : A) (l : list A) :
  nth_error l i = Some x ->
  existsb p (set_nth i y l) = true -> p y = true \/ existsb p l = true.
Proof.
  revert i. induction l as [|z l IH]; intros [|i]; cbn; try discriminate.
  - intros [= ->] H. apply orb_prop in H. destruct H as [H|H]; auto.
    right. rewrite H. apply orb_true_r.
  - intros Hn H. apply orb_prop in H. destruct H as [H|H].
    + right. rewrite H. reflexivity.
    + destruct (IH i Hn H) as [H'|H']; auto. right. rewrite H'. apply orb_true_r.
Qed.

Lemma find_existsb (p : A -> bool) (l : list A) :
  existsb p l = match find p l with Some _ => true | None => false end.
Proof.
  induction l as [|x l IH]; cbn; [reflexivity|]. destruct (p x); auto.
Qed.

End Lists.

Module DeliveryFacts.
Import Prisma Webhook.

Section OneWebhookId.
Variable request : Request.
Variables shop topic id : string.
Hypothesis Hid : truthy_header request = Some id.
Hypothesis Hauth : authentication request = Ok (shop, topic).

Lemma step_lookup (ai : AiResult) (w : World) :
  step ai (handler request shop topic AtLookup) w
  = (handler request shop topic
       (if event_recorded w id then Acknowledged else AtAuthenticate),
     w, Some (Call WebhookEventM FindUnique)).
Proof.
  unfold handler, action, step. rewrite Hid. cbn.
  unfold event_recorded. rewrite find_existsb.
  destruct (find _ (webhookEvent (db w))); reflexivity.
Qed.

Lemma step_authenticate (ai : AiResult) (w : World) :
  step ai (handler request shop topic AtAuthenticate) w
  = (handler request shop topic AtRecord, w, Some AuthenticateWebhook).
Proof.
  unfold handler, authenticate_and_purge, step. cbn. rewrite Hauth. reflexivity.
Qed.

Lemma step_record (ai : AiResult) (w : World) :
  step ai (handler request shop topic AtRecord) w
  = if event_recorded w id
    then (handler request shop topic Acknowledged, w, Some (Call WebhookEventM Create))
    else (handler request shop topic AtPurge, recorded_world id topic shop w,
          Some (Call WebhookEventM Create)).
Proof.
  unfold handler, record_and_purge, step, recorded_world. rewrite Hid. cbn.
  unfold event_create, event_recorded.
  destruct (existsb _ (webhookEvent (db w))); reflexivity.
Qed.

Lemma step_purge (ai : AiResult) (w : World) :
  step ai (handler request shop topic AtPurge) w
  = (handler request shop topic Acknowledged, purged shop w, Some purge).
Proof. reflexivity. Qed.

Lemma step_acknowledged (ai : AiResult) (w : World) :
  step ai (handler request shop topic Acknowledged) w
  = (handler request shop topic Acknowledged, w, None).
Proof. reflexivity. Qed.

Lemma recorded_after_create (w : World) :
  event_recorded w id = false -> event_recorded (recorded_world id topic shop w) id = true.
Proof.
  unfold recorded_world, event_create, event_recorded. intros H. rewrite H.
  cbn. rewrite existsb_app. cbn. rewrite String.eqb_refl.
  rewrite orb_true_r. reflexivity.
Qed.

Lemma recorded_after_purge (w : World) :
  event_recorded (purged shop w) id = event_recorded w id.
Proof. reflexivity. Qed.

Lemma purges_app (l : list Label) (x : Label) :
  purges (l ++ [x]) = (purges l + Nat.b2n (is_purge x))%nat.
Proof.
  unfold purges. rewrite filter_app, length_app. cbn.
  destruct (is_purge x); reflexivity.
Qed.

Ltac count_after Hcnt ph Hph Hcount :=
  cbn [pool history world]; rewrite map_app; cbn [map snd]; rewrite purges_app;
  specialize (Hcnt ph _ Hph);
  try (match goal with H : event_recorded _ _ = _ |- _ => rewrite H end);
  try (match goal with H : event_recorded _ _ = _ |- _ => rewrite H in Hcount end);
  cbn in Hcnt, Hcount |- *; lia.

Lemma deliveries_inv_step (s : Sys Z) (ev : Event) :
  deliveries_inv request shop topic id s ->
  deliveries_inv request shop topic id (sys_step s ev).
Proof.
  intros (phases & Hpool & Hcount & Hack).
  destruct ev as [i ai|d]; cbn [sys_step].
  2:{ exists phases. cbn [pool history world].
      assert (E : event_recorded (if 0 <=? d then advance d (world s) else world s) id
                  = event_recorded (world s) id) by (destruct (0 <=? d); reflexivity).
      rewrite E. auto. }
  destruct (nth_error (pool s) i) as [p|] eqn:Hp; [| exists phases; auto].
  rewrite Hpool in Hp. apply nth_error_map_some in Hp.
  destruct Hp as (ph & Hph & ->).
  pose proof (count_set_nth Phase at_purge i ph) as Hcnt.
  pose proof (existsb_set_nth Phase acknowledged i ph) as Hex.
  destruct ph.
  - rewrite step_lookup. cbn [pool history world].
    destruct (event_recorded (world s) id) eqn:Hrec.
    + exists (set_nth i Acknowledged phases). rewrite Hpool, set_nth_map.
      split; [reflexivity | split; [| auto]].
      count_after Hcnt Acknowledged Hph Hcount.
    + exists (set_nth i AtAuthenticate phases). rewrite Hpool, set_nth_map.
      split; [reflexivity | split].
      * count_after Hcnt AtAuthenticate Hph Hcount.
      * intros H. destruct (Hex AtAuthenticate phases Hph H) as [H'|H'];
          [discriminate | cbn [world]; rewrite ?Hrec; auto].
  - rewrite step_authenticate. cbn [pool history world].
    exists (set_nth i AtRecord phases). rewrite Hpool, set_nth_map.
    split; [reflexivity | split].
    + count_after Hcnt AtRecord Hph Hcount.
    + intros H. destruct (Hex AtRecord phases Hph H) as [H'|H'];
        [discriminate | cbn [world]; rewrite ?Hrec; auto].
  - rewrite step_record.
    destruct (event_recorded (world s) id) eqn:Hrec; cbn [pool history world].
    + exists (set_nth i Acknowledged phases). rewrite Hpool, set_nth_map.
      split; [reflexivity | split; [| auto]].
      count_after Hcnt Acknowledged Hph Hcount.
    + exists (set_nth i AtPurge phases). rewrite Hpool, set_nth_map.
      split; [reflexivity |]. cbn [pool history world].
      rewrite (recorded_after_create _ Hrec). split; [| auto].
      count_after Hcnt AtPurge Hph Hcount.
  - rewrite step_purge. cbn [pool history world].
    exists (set_nth i Acknowledged phases). rewrite Hpool, set_nth_map.
    cbn [pool history world]. rewrite recorded_after_purge.
    assert (Hrec : event_recorded (world s) id = true).
    { destruct (event_recorded (world s) id); [reflexivity|].
      exfalso. assert (Hin : In AtPurge phases) by (eapply nth_error_In; exact Hph).
      assert (0 < List.length (filter at_purge phases))%nat.
      { destruct (filter at_purge phases) eqn:Hf; cbn; [| lia].
        assert (Hin' : In AtPurge (filter at_purge phases))
          by (apply filter_In; split; [exact Hin | reflexivity]).
        rewrite Hf in Hin'. destruct Hin'. }
      cbn in Hcount. lia. }
    split; [reflexivity | split; [| auto]].
    count_after Hcnt Acknowledged Hph Hcount.
  - rewrite step_acknowledged. cbn [pool history world].
    exists (set_nth i Acknowledged phases). rewrite Hpool, set_nth_map.
    split; [reflexivity | split].
    + cbn [pool history world]. specialize (Hcnt Acknowledged phases Hph).
      cbn in Hcnt. lia.
    + intros _. apply Hack. rewrite find_existsb.
      assert (Hin : In Acknowledged phases) by (eapply nth_error_In; exact Hph).
      destruct (find acknowledged phases) eqn:Hf; [reflexivity|].
      pose proof (find_none _ _ Hf _ Hin) as Hc. discriminate Hc.
Qed.

Lemma deliveries_inv_exec (evs : list Event) (s : Sys Z) :
  deliveries_inv request shop topic id s ->
  deliveries_inv request shop topic id (exec s evs).
Proof.
  revert s. induction evs as [|ev evs IH]; intros s H; [exact H|].
  change (exec s (ev :: evs)) with (exec (sys_step s ev) evs).
  apply IH. apply deliveries_inv_step. exact H.
Qed.

Lemma deliveries_inv_start (n : nat) (w : World) :
  event_recorded w id = false ->
  deliveries_inv request shop topic id (start (repeat (action request) n) w).
Proof.
  intros Hrec. exists (repeat AtLookup n). cbn [start pool history world].
  split; [| split].
  - rewrite map_repeat. reflexivity.
  - rewrite Hrec. induction n; cbn; auto.
  - intros H. exfalso. induction n; cbn in H; [discriminate | cbn [world]; rewrite ?Hrec; auto].
Qed.

Lemma handler_finished (ph : Phase) :
  finished (handler request shop topic ph) = true -> ph = Acknowledged.
Proof.
  destruct ph; cbn; try reflexivity.
  - unfold action. rewrite Hid. cbn. discriminate.
  - unfold authenticate_and_purge. cbn. discriminate.
  - unfold record_and_purge. rewrite Hid. cbn. discriminate.
  - discriminate.
Qed.

Lemma all_acknowledged (phases : list Phase) :
  forallb finished (map (handler request shop topic) phases) = true ->
  phases = repeat Acknowledged (List.length phases).
Proof.
  induction phases as [|ph phases IH]; cbn; [reflexivity|].
  intros H. apply andb_prop in H. destruct H as [H1 H2].
  rewrite (handler_finished ph H1). f_equal. apply IH. exact H2.
Qed.

(** The first delivery of an id, run alone. *)
Lemma action_first_delivery ai (w : World) :
  event_recorded w id = false ->
  run ai (action request) w
  = (Ok 200, purged shop (recorded_world id topic shop w),
     [(Call WebhookEventM FindUnique, w); (AuthenticateWebhook, w);
      (Call WebhookEventM Create, recorded_world id topic shop w);
      (purge, purged shop (recorded_world id topic shop w))]).
Proof.
  intros Hrec.
  unfold action, authenticate_and_purge, record_and_purge. rewrite Hid. cbn.
  pose proof Hrec as Hfind. unfold event_recorded in Hfind. rewrite find_existsb in Hfind.
  destruct (find _ (webhookEvent (db w))); [discriminate|]. cbn.
  rewrite Hauth. cbn. unfold recorded_world, event_create.
  unfold event_recorded in Hrec. rewrite Hrec. reflexivity.
Qed.

(** A delivery of an id that is recorded, run alone. *)
Lemma action_redelivery ai (w : World) :
  event_recorded w id = true ->
  run ai (action request) w = (Ok 200, w, [(Call WebhookEventM FindUnique, w)]).
Proof.
  intros Hrec. unfold action. rewrite Hid. cbn.
  unfold event_recorded in Hrec. rewrite find_existsb in Hrec.
  destruct (find _ (webhookEvent (db w))); [reflexivity | discriminate].
Qed.

End OneWebhookId.

Lemma exec_pool_length (R : Type) (evs : list Event) (s : Sys R) :
  List.length (pool (exec s evs)) = List.length (pool s).
Proof.
  revert s. induction evs as [|ev evs IH]; intros s; [reflexivity|].
  change (exec s (ev :: evs)) with (exec (sys_step s ev) evs).
  rewrite IH. destruct ev as [i ai|d]; cbn; [| reflexivity].
  destruct (nth_error (pool s) i); [| reflexivity].
  destruct (step ai p (world s)) as [[p1 w1] l]. cbn. apply set_nth_length.
Qed.

End DeliveryFacts.

(** C5. For a delivery id that is not yet recorded (header present and
    not empty, authentication passing): delivered twice in a row, both
    deliveries are acknowledged with 200, the first makes the one purge
    and the second makes only its lookup and changes nothing; delivered
    twice at once, in any interleaving of the two handlers' calls, at
    most one purge is ever made, and once both handlers have returned
    both returned 200 and exactly one purge was made. *)
Theorem uninstall_delivered_twice
  (ai : AIInsightInput -> AiResult) (w : World) (request : Webhook.Request)
  (shop topic id : string) :
  Webhook.header_webhook_id request = Some id ->
  id <> "" ->
  Webhook.authentication request = Ok (shop, topic) ->
  event_recorded w id = false ->
  (let first := run ai (Webhook.action request) w in
   let second := run ai (Webhook.action request) (final first) in
   result first = Ok 200
   /\ result second = Ok 200
   /\ purges (map fst (trace first ++ trace second)) = 1%nat
   /\ map fst (trace second) = [Call WebhookEventM FindUnique]
   /\ final second = final first)
  /\ (forall evs : list Event,
        let s := exec (start [Webhook.action request; Webhook.action request] w) evs in
        (purges (map snd (history s)) <= 1)%nat
        /\ (forallb finished (pool s) = true ->
            pool s = [Ret 200; Ret 200]
            /\ purges (map snd (history s)) = 1%nat)).
Proof.
  intros Hh Hne Hauth Hrec.
  assert (Hid : Webhook.truthy_header request = Some id).
  { unfold Webhook.truthy_header. rewrite Hh.
    destruct (String.eqb id "") eqn:E; [apply String.eqb_eq in E; contradiction |].
    reflexivity. }
  split.
  - cbv zeta.
    rewrite (DeliveryFacts.action_first_delivery request shop topic id Hid Hauth ai w Hrec).
    unfold final, result, trace; cbn [fst snd].
    assert (Hrec' : event_recorded (purged shop (recorded_world id topic shop w)) id = true).
    { rewrite DeliveryFacts.recorded_after_purge.
      apply DeliveryFacts.recorded_after_create. exact Hrec. }
    rewrite (DeliveryFacts.action_redelivery request id Hid ai _ Hrec').
    cbn [fst snd]. repeat split.
  - intros evs s.
    pose proof (DeliveryFacts.deliveries_inv_exec request shop topic id Hid Hauth evs _
                  (DeliveryFacts.deliveries_inv_start request shop topic id 2 w Hrec))
      as (phases & Hpool & Hcount & Hack).
    pose proof (DeliveryFacts.exec_pool_length Z evs
                  (start [Webhook.action request; Webhook.action request] w)) as Hl.
    cbn [repeat] in Hpool, Hcount, Hack.
    fold s in Hpool, Hcount, Hack, Hl. clearbody s. cbn in Hl.
    split.
    + destruct (event_recorded (world s) id); cbn [Nat.b2n] in Hcount; lia.
    + intros Hfin. rewrite Hpool in Hfin.
      pose proof (DeliveryFacts.all_acknowledged request shop topic id Hid phases Hfin) as Hall.
      rewrite Hpool, length_map in Hl.
      rewrite Hl in Hall. cbn in Hall. subst phases.
      split; [exact Hpool |].
      rewrite (Hack eq_refl) in Hcount. cbn [Nat.b2n filter at_purge List.length] in Hcount. lia.
Qed.

(** C5, at a world: the delivery "d-1" arrives twice, the second while
    the first is between its insert and its purge. *)
Lemma uninstall_delivered_twice_witness :
  pool (exec (start [Webhook.action (uninstall_request (Some "d-1"));
                     Webhook.action (uninstall_request (Some "d-1"))]
                    (a_world [a_job 1 "p1" None QUEUED 0 10] [] []))
             [Sched 0 (Err NonError); Sched 0 (Err NonError); Sched 0 (Err NonError);
              Sched 1 (Err NonError); Sched 0 (Err NonError)])
  = [Ret 200; Ret 200].
Proof.
  refine (proj1 (proj2 (proj2
            (uninstall_delivered_twice ai_up
               (a_world [a_job 1 "p1" None QUEUED 0 10] [] [])
               (uninstall_request (Some "d-1")) shop_a "app/uninstalled" "d-1"
               eq_refl _ eq_refl eq_refl)
            [Sched 0 (Err NonError); Sched 0 (Err NonError); Sched 0 (Err NonError);
             Sched 1 (Err NonError); Sched 0 (Err NonError)])
            eq_refl)).
  discriminate.
Defined.

(** ** Success of the executor *)

Module SuccessFacts.
Import Prisma Jobs PrismaFacts.

Lemma processJob_success_run ai w jobId insight shop productId runId j i output model :
  job_row w jobId = Some j ->
  insight_row w (sn_id insight) = Some i ->
  ai (ai_input insight (clock w)) = Ok (output, model) ->
  let w1 := success_world w jobId (sn_id insight) output model in
  run ai (processJob jobId insight shop productId runId) w
  = match runId with
    | None => (Ok tt, w1, [(GenerateExplanation, w); (update_pair, w1)])
    | Some r =>
        match run_row w r with
        | Some rn =>
            (Ok tt, with_runs (update_key run_id r (run_apply increment_succeeded)) w1,
             [(GenerateExplanation, w); (update_pair, w1);
              (Call RunM Update,
               with_runs (update_key run_id r (run_apply increment_succeeded)) w1)])
        | None => run ai (processJob jobId insight shop productId runId) w
        end
    end.
Proof.
  intros Hj Hi Hai w1.
  destruct runId as [r|]; [destruct (run_row w r) as [rn|] eqn:Hr; [| reflexivity] |].
  - unfold processJob. cbn. rewrite Hai. cbn.
    erewrite transaction_two; cycle 1.
    + apply insight_update_found. exact Hi.
    + apply job_update_found. exact Hj.
    + cbn. fold (success_world w jobId (sn_id insight) output model). fold w1.
      erewrite run_update_found by exact Hr. reflexivity.
  - unfold processJob. cbn. rewrite Hai. cbn.
    erewrite transaction_two; cycle 1.
    + apply insight_update_found. exact Hi.
    + apply job_update_found. exact Hj.
    + reflexivity.
Qed.

Lemma success_world_job w jobId insightId output model j :
  job_row w jobId = Some j ->
  job_row (success_world w jobId insightId output model) jobId
  = Some (job_apply (clock w) job_succeeded j).
Proof.
  intros Hj. unfold success_world, job_row in *.
  cbn [with_jobs with_insights db insightJob].
  rewrite find_key_update_key by reflexivity. rewrite Hj. reflexivity.
Qed.

Lemma success_world_insight w jobId insightId output model i :
  insight_row w insightId = Some i ->
  insight_row (success_world w jobId insightId output model) insightId
  = Some (insight_apply (generated output model (clock w)) i).
Proof.
  intros Hi. unfold success_world, insight_row in *.
  cbn [with_jobs with_insights db productInsight].
  rewrite find_key_update_key by reflexivity. rewrite Hi. reflexivity.
Qed.

End SuccessFacts.

(** C2 as stated does not hold: the run's counter is not part of the
    atomic unit.  In [claimed_world] the call observes, right after the
    transaction, a world in which Job and Insight mirror are SUCCEEDED
    while [succeeded] of run 5 is still 0; it is 1 only after the next
    call. *)
Lemma processJob_success_counter_lags :
  exists w1 : World,
    In (Jobs.update_pair, w1)
       (trace (run ai_up
                   (Jobs.processJob 1 (Jobs.snapshot (an_insight 3 "p1")) shop_a "p1"
                                    (Some 5%nat))
                   claimed_world))
    /\ option_map job_status (job_row w1 1) = Some SUCCEEDED
    /\ option_map ins_aiStatus (insight_row w1 3) = Some (Some SUCCEEDED)
    /\ option_map run_succeeded (run_row w1 5) = Some 0
    /\ option_map run_succeeded
         (run_row (final (run ai_up
                              (Jobs.processJob 1 (Jobs.snapshot (an_insight 3 "p1"))
                                               shop_a "p1" (Some 5%nat))
                              claimed_world)) 5)
       = Some 1.
Proof.
  eexists. split; [| split; [| split; [| split]]].
  - vm_compute. right. left. reflexivity.
  - vm_compute. reflexivity.
  - vm_compute. reflexivity.
  - vm_compute. reflexivity.
  - vm_compute. reflexivity.
Qed.

(** C2, amended. When the executor succeeds on a claimed Job (the Job
    and Insight rows exist, and so does the run when the Job has one),
    the Insight update (explanation, action type, generation time, model,
    mirror SUCCEEDED, error cleared) and the Job update (SUCCEEDED, error
    cleared) are one call: every world observable during [processJob]
    has both rows as before or both rows updated.  The increment of the
    run's [succeeded] is a later call of its own: after the transaction
    the run row is still as before, and at the end it is one higher. *)
Theorem processJob_success_pair_atomic
  (ai : AIInsightInput -> AiResult) (w : World) (jobId : Id)
  (insight : Jobs.InsightSnapshot) (shop productId : string) (runId : option Id)
  (j : InsightJob) (i : ProductInsight) (output : AIInsightOutput) (model : string) :
  job_row w jobId = Some j ->
  insight_row w (Jobs.sn_id insight) = Some i ->
  (forall r, runId = Some r -> run_row w r <> None) ->
  ai (Jobs.ai_input insight (clock w)) = Ok (output, model) ->
  let out := run ai (Jobs.processJob jobId insight shop productId runId) w in
  let j' := job_apply (clock w) Jobs.job_succeeded j in
  let i' := insight_apply (Jobs.generated output model (clock w)) i in
  result out = Ok tt
  /\ (forall l w', In (l, w') (trace out) ->
        (job_row w' jobId = Some j /\ insight_row w' (Jobs.sn_id insight) = Some i)
        \/ (job_row w' jobId = Some j' /\ insight_row w' (Jobs.sn_id insight) = Some i'))
  /\ (job_row (final out) jobId = Some j'
      /\ insight_row (final out) (Jobs.sn_id insight) = Some i')
  /\ (job_status j' = SUCCEEDED /\ job_lastError j' = None)
  /\ (ins_aiExplanation i' = Some (Jobs.explanation output)
      /\ ins_aiActionType i' = Some (actionType output)
      /\ ins_aiGeneratedAt i' = Some (clock w)
      /\ ins_aiModel i' = Some model
      /\ ins_aiStatus i' = Some SUCCEEDED
      /\ ins_aiError i' = None)
  /\ match runId with
     | Some r =>
         forall rn, run_row w r = Some rn ->
           (exists w1, In (Jobs.update_pair, w1) (trace out)
                       /\ job_row w1 jobId = Some j'
                       /\ insight_row w1 (Jobs.sn_id insight) = Some i'
                       /\ run_row w1 r = Some rn)
           /\ (exists rn', run_row (final out) r = Some rn'
                           /\ run_succeeded rn' = run_succeeded rn + 1
                           /\ run_failed rn' = run_failed rn)
     | None => runT (db (final out)) = runT (db w)
     end.
Proof.
  intros Hj Hi Hrun Hai out j' i'.
  pose proof (SuccessFacts.processJob_success_run ai w jobId insight shop productId
                runId j i output model Hj Hi Hai) as Hout.
  cbv zeta in Hout. fold out in Hout. clearbody out.
  pose proof (SuccessFacts.success_world_job w jobId (Jobs.sn_id insight) output model j Hj)
    as Hj1.
  pose proof (SuccessFacts.success_world_insight w jobId (Jobs.sn_id insight) output model
                i Hi) as Hi1.
  destruct runId as [r|].
  - destruct (run_row w r) as [rn|] eqn:Hr; [| exfalso; exact (Hrun r eq_refl Hr)].
    subst out. unfold result, final, trace; cbn [fst snd].
    split; [reflexivity | split; [| split; [| split; [| split]]]].
    + intros l w' [H|[H|[H|[]]]]; injection H as <- <-; auto.
    + split; assumption.
    + cbn. auto.
    + cbn. repeat split.
    + intros rn0 [= <-]. split.
      * eexists. split; [right; left; reflexivity |]. repeat split; assumption.
      * eexists. split; [apply PrismaFacts.run_row_updated; exact Hr | cbn; auto].
  - subst out. unfold result, final, trace; cbn [fst snd].
    split; [reflexivity | split; [| split; [| split; [| split]]]].
    + intros l w' [H|[H|[]]]; injection H as <- <-; auto.
    + split; assumption.
    + cbn. auto.
    + cbn. repeat split.
    + reflexivity.
Qed.

(** C2 amended, at a world: a claimed Job of run 5 succeeds. *)
Lemma processJob_success_pair_atomic_witness :
  result (run ai_up
              (Jobs.processJob 1 (Jobs.snapshot (an_insight 3 "p1")) shop_a "p1"
                               (Some 5%nat))
              claimed_world)
  = Ok tt.
Proof.
  refine (proj1 (processJob_success_pair_atomic ai_up claimed_world 1
                   (Jobs.snapshot (an_insight 3 "p1")) shop_a "p1" (Some 5%nat)
                   (a_job 1 "p1" (Some 5%nat) RUNNING 1 10) (an_insight 3 "p1")
                   an_output "gpt-4o-mini" eq_refl eq_refl _ eq_refl)).
  intros r Hr. injection Hr as <-. discriminate.
Defined.

(** ** Concurrent claims *)

Module RaceFacts.
Import Prisma Jobs.

Lemma step_select (ai : AiResult) (w : World) :
  step ai (claimer AtSelect) w
  = (claimer (match selected w with
              | Some c => AtFence c
              | None => Returned None
              end),
     w, Some (Call InsightJobM FindFirst)).
Proof.
  unfold step, selected. cbn.
  unfold job_findFirst_orderBy_createdAt.
  destruct (oldest _); reflexivity.
Qed.

Lemma step_fence (ai : AiResult) (w : World) (c : InsightJob) :
  step ai (claimer (AtFence c)) w
  = (claimer (if Nat.eqb (fenced_count c w) 0 then Returned None
              else AtInsight (one_more_attempt c)),
     fenced_world c w, Some (Call InsightJobM UpdateMany)).
Proof.
  unfold step, fenced_count, fenced_world. cbn.
  unfold job_updateMany. cbn.
  destruct (Nat.eqb _ 0); reflexivity.
Qed.

Lemma step_insight (ai : AiResult) (w : World) (job : InsightJob) :
  step ai (claimer (AtInsight job)) w
  = (claimer (match insight_of job w with
              | Some i => AtMirror job i
              | None => AtOrphan job
              end),
     w, Some (Call ProductInsightM FindUnique)).
Proof.
  unfold step, insight_of. cbn. unfold insight_findUnique.
  destruct (find _ _); reflexivity.
Qed.

Lemma step_orphan (ai : AiResult) (w : World) (job : InsightJob) :
  step ai (claimer (AtOrphan job)) w
  = match job_row w (job_id job) with
    | Some _ =>
        (claimer (Returned None),
         with_jobs (update_key job_id (job_id job)
                               (job_apply (clock w) insight_missing)) w,
         Some (Call InsightJobM Update))
    | None => (claimer (Thrown_ not_found), w, Some (Call InsightJobM Update))
    end.
Proof.
  unfold step, job_row. cbn. unfold job_update.
  destruct (find_key _ _ _); reflexivity.
Qed.

Lemma step_mirror (ai : AiResult) (w : World) (job : InsightJob) (i : ProductInsight) :
  step ai (claimer (AtMirror job i)) w
  = match insight_row w (ins_id i) with
    | Some _ =>
        (claimer (Returned (returned_job job i)),
         with_insights (update_key ins_id (ins_id i)
                                   (insight_apply (mirror RUNNING None))) w,
         Some (Call ProductInsightM Update))
    | None => (claimer (Thrown_ not_found), w, Some (Call ProductInsightM Update))
    end.
Proof.
  unfold step, insight_row. cbn. unfold insight_update.
  destruct (find_key _ _ _); reflexivity.
Qed.

Lemma step_returned (ai : AiResult) (w : World) (r : Jobs.ClaimResult) :
  step ai (claimer (Returned r)) w = (claimer (Returned r), w, None).
Proof. reflexivity. Qed.

Lemma step_thrown (ai : AiResult) (w : World) (e : Thrown) :
  step ai (claimer (Thrown_ e)) w = (claimer (Thrown_ e), w, None).
Proof. reflexivity. Qed.

End RaceFacts.

Section SetNth.
Variable A : Type.

Lemma nth_error_set_nth_eq (i : nat) (x y : A) (l : list A) :
  nth_error l i = Some x -> nth_error (set_nth i y l) i = Some y.
Proof.
  revert i. induction l as [|z l IH]; intros [|i]; cbn; try discriminate; auto.
Qed.

Lemma nth_error_set_nth_neq (i a : nat) (y : A) (l : list A) :
  a <> i -> nth_error (set_nth i y l) a = nth_error l a.
Proof.
  revert i a. induction l as [|z l IH]; intros [|i] [|a]; cbn; auto; congruence.
Qed.

End SetNth.

Module ClaimsInv.
Import Prisma Jobs.

Lemma held_by_set_nth (phases : list ClaimPhase) (i a : nat) (ph ph' : ClaimPhase) (id : Id) :
  nth_error phases i = Some ph ->
  held_by (set_nth i ph' phases) a id ->
  (a = i /\ holds ph' = Some id) \/ (a <> i /\ held_by phases a id).
Proof.
  intros Hi (pa & Hpa & Hh). destruct (Nat.eq_dec a i) as [->|Hne].
  - left. rewrite (nth_error_set_nth_eq _ i ph ph' phases Hi) in Hpa.
    injection Hpa as <-. auto.
  - right. rewrite nth_error_set_nth_neq in Hpa by exact Hne.
    split; [exact Hne | exists pa; auto].
Qed.

Lemma same_id_same_row (jobs : list InsightJob) (a b : InsightJob) :
  NoDup (map job_id jobs) -> In a jobs -> In b jobs -> job_id a = job_id b -> a = b.
Proof.
  induction jobs as [|x jobs IH]; cbn; [intros _ []|].
  intros Hnd Ha Hb Heq. inversion Hnd as [|? ? Hnot Hnd']; subst.
  destruct Ha as [->|Ha], Hb as [->|Hb]; auto.
  - exfalso. apply Hnot. rewrite Heq. apply in_map. exact Hb.
  - exfalso. apply Hnot. rewrite <- Heq. apply in_map. exact Ha.
Qed.

Lemma update_where_ids (p : InsightJob -> bool) (t : Time) (d : JobData)
      (jobs : list InsightJob) :
  map job_id (update_where p (job_apply t d) jobs) = map job_id jobs.
Proof.
  unfold update_where. rewrite map_map. apply map_ext.
  intros j. destruct (p j); reflexivity.
Qed.

Lemma update_key_ids (id : Id) (t : Time) (d : JobData) (jobs : list InsightJob) :
  map job_id (update_key job_id id (job_apply t d) jobs) = map job_id jobs.
Proof.
  unfold update_key. rewrite map_map. apply map_ext.
  intros j. destruct (Nat.eqb (job_id j) id); reflexivity.
Qed.

Lemma In_update_where (p : InsightJob -> bool) (f : InsightJob -> InsightJob)
      (jobs : list InsightJob) (j' : InsightJob) :
  In j' (update_where p f jobs) ->
  exists j, In j jobs /\ j' = (if p j then f j else j).
Proof.
  unfold update_where. intros H. apply in_map_iff in H.
  destruct H as (j & <- & Hin). eauto.
Qed.

(** One step of one caller, seen from the invariant: the caller moves
    from [ph] to [ph'], the table from [jobs] to [jobs']. *)
Lemma claims_inv_move (jobs0 : list InsightJob) (phases : list ClaimPhase)
      (jobs jobs' : list InsightJob) (i : nat) (ph ph' : ClaimPhase) :
  NoDup (map job_id jobs0) ->
  nth_error phases i = Some ph ->
  claims_inv_on jobs0 phases jobs ->
  map job_id jobs' = map job_id jobs ->
  (forall j', In j' jobs' -> In j' jobs \/ job_status j' <> QUEUED) ->
  (holds ph' = None
   \/ holds ph' = holds ph
   \/ exists h, holds ph' = Some h /\ queued_in jobs h
                /\ forall j', In j' jobs' -> job_id j' = h -> job_status j' <> QUEUED) ->
  claims_inv_on jobs0 (set_nth i ph' phases) jobs'.
Proof.
  intros Hnd Hi (Hids & Huniq & Hnotq & Hwas & Hq) Hids' Hmono Hcase.
  assert (Hold : forall a id, a <> i -> held_by phases a id ->
                   forall j', In j' jobs' -> job_id j' = id -> job_status j' <> QUEUED).
  { intros a id _ Ha j' Hin Hid. destruct (Hmono j' Hin) as [Hin0|Hs]; [| exact Hs].
    exact (Hnotq a id j' Ha Hin0 Hid). }
  assert (Hself : forall id, holds ph = Some id -> held_by phases i id)
    by (intros id H; exists ph; auto).
  split; [congruence |]. split; [| split; [| split]].
  - intros a b id Ha Hb.
    destruct (held_by_set_nth phases i a ph ph' id Hi Ha) as [[-> Ha']|[Hna Ha']];
      destruct (held_by_set_nth phases i b ph ph' id Hi Hb) as [[-> Hb']|[Hnb Hb']];
      auto.
    + exfalso. destruct Hcase as [Hc|[Hc|(h & Hc & (m & Hm & Hmid & Hmq) & _)]].
      * congruence.
      * rewrite Hc in Ha'. apply Hnb. symmetry. exact (Huniq i b id (Hself id Ha') Hb').
      * rewrite Hc in Ha'. injection Ha' as ->.
        exact (Hnotq b id m Hb' Hm Hmid Hmq).
    + exfalso. destruct Hcase as [Hc|[Hc|(h & Hc & (m & Hm & Hmid & Hmq) & _)]].
      * congruence.
      * rewrite Hc in Hb'. apply Hna. symmetry. exact (Huniq i a id (Hself id Hb') Ha').
      * rewrite Hc in Hb'. injection Hb' as ->.
        exact (Hnotq a id m Ha' Hm Hmid Hmq).
    + exact (Huniq a b id Ha' Hb').
  - intros a id j' Ha Hin Hid.
    destruct (held_by_set_nth phases i a ph ph' id Hi Ha) as [[-> Ha']|[Hna Ha']].
    + destruct Hcase as [Hc|[Hc|(h & Hc & _ & Hall)]].
      * congruence.
      * rewrite Hc in Ha'. destruct (Hmono j' Hin) as [Hin0|Hs]; [| exact Hs].
        exact (Hnotq i id j' (Hself id Ha') Hin0 Hid).
      * rewrite Hc in Ha'. injection Ha' as ->. exact (Hall j' Hin Hid).
    + exact (Hold a id Hna Ha' j' Hin Hid).
  - intros a id Ha.
    destruct (held_by_set_nth phases i a ph ph' id Hi Ha) as [[-> Ha']|[Hna Ha']].
    + destruct Hcase as [Hc|[Hc|(h & Hc & (m & Hm & Hmid & Hmq) & _)]].
      * congruence.
      * rewrite Hc in Ha'. exact (Hwas i id (Hself id Ha')).
      * rewrite Hc in Ha'. injection Ha' as ->. rewrite <- Hmid. exact (Hq m Hm Hmq).
    + exact (Hwas a id Ha').
  - intros j' Hin Hs. destruct (Hmono j' Hin) as [Hin0|Hns]; [| contradiction].
    exact (Hq j' Hin0 Hs).
Qed.


Lemma fenced_row (c : InsightJob) (jobs : list InsightJob) :
  Nat.eqb (List.length (filter (fence c) jobs)) 0 = false ->
  exists m, In m jobs /\ fence c m = true.
Proof.
  destruct (filter (fence c) jobs) as [|m l] eqn:Hf; [discriminate|].
  intros _. exists m. apply filter_In. rewrite Hf. left. reflexivity.
Qed.

Lemma fence_true (c m : InsightJob) :
  fence c m = true -> job_id m = job_id c /\ job_status m = QUEUED.
Proof.
  unfold fence. intros H. apply andb_prop in H. destruct H as [H _].
  apply andb_prop in H. destruct H as [H1 H2]. apply Nat.eqb_eq in H1.
  split; [exact H1 |]. destruct (job_status m); (reflexivity || discriminate).
Qed.

Section Started.
Variable w0 : World.
Hypothesis Hnd : NoDup (map job_id (insightJob (db w0))).

Lemma claims_inv_step (s : Sys Jobs.ClaimResult) (ev : Event) :
  claims_inv w0 s -> claims_inv w0 (sys_step s ev).
Proof.
  intros (phases & Hpool & Hinv).
  destruct ev as [i ai|d]; cbn [sys_step].
  2:{ exists phases. cbn [pool world]. split; [exact Hpool |].
      destruct (0 <=? d); exact Hinv. }
  destruct (nth_error (pool s) i) as [p|] eqn:Hp; [| exists phases; auto].
  rewrite Hpool in Hp. apply nth_error_map_some in Hp.
  destruct Hp as (ph & Hph & ->).
  assert (Hsame : forall ph', holds ph' = None \/ holds ph' = holds ph ->
            claims_inv_on (insightJob (db w0)) (set_nth i ph' phases)
                          (insightJob (db (world s)))).
  { intros ph' Hc.
    apply (claims_inv_move (insightJob (db w0)) phases _ _ i ph ph' Hnd Hph Hinv);
      [reflexivity | auto | tauto]. }
  destruct ph as [|c|job|job|job ins|r|e].
  - rewrite RaceFacts.step_select.
    exists (set_nth i (match selected (world s) with
                       | Some c => AtFence c | None => Returned None end) phases).
    cbn [pool world]. rewrite Hpool, set_nth_map. split; [reflexivity |].
    apply Hsame. left. destruct (selected (world s)); reflexivity.
  - rewrite RaceFacts.step_fence.
    exists (set_nth i (if Nat.eqb (fenced_count c (world s)) 0 then Returned None
                       else AtInsight (one_more_attempt c)) phases).
    cbn [pool world]. rewrite Hpool, set_nth_map. split; [reflexivity |].
    unfold fenced_world. cbn [with_jobs db insightJob].
    assert (Hjobs : NoDup (map job_id (insightJob (db (world s)))))
      by (destruct Hinv as (Hids & _); rewrite Hids; exact Hnd).
    apply (claims_inv_move (insightJob (db w0)) phases _ _ i (AtFence c) _ Hnd Hph Hinv).
    + apply update_where_ids.
    + intros j' Hin. apply In_update_where in Hin. destruct Hin as (j & Hj & ->).
      destruct (fence c j); [right; cbn; discriminate | left; exact Hj].
    + unfold fenced_count. destruct (Nat.eqb _ 0) eqn:Hcount; [left; reflexivity |].
      right. right. exists (job_id c).
      destruct (fenced_row c _ Hcount) as (m & Hm & Hfm).
      destruct (fence_true c m Hfm) as [Hmid Hmq].
      split; [reflexivity | split].
      * exists m. auto.
      * intros j' Hin Hid. apply In_update_where in Hin. destruct Hin as (j & Hj & ->).
        assert (Hjid : job_id j = job_id c) by (destruct (fence c j); exact Hid).
        assert (j = m) by (apply (same_id_same_row _ j m Hjobs Hj Hm); congruence).
        subst j. rewrite Hfm. cbn. discriminate.
  - rewrite RaceFacts.step_insight.
    exists (set_nth i (match insight_of job (world s) with
                       | Some ins => AtMirror job ins | None => AtOrphan job end) phases).
    cbn [pool world]. rewrite Hpool, set_nth_map. split; [reflexivity |].
    apply Hsame. right. destruct (insight_of job (world s)); reflexivity.
  - rewrite RaceFacts.step_orphan.
    destruct (job_row (world s) (job_id job)) as [row|].
    + exists (set_nth i (Returned None) phases).
      cbn [pool world]. rewrite Hpool, set_nth_map. split; [reflexivity |].
      cbn [with_jobs db insightJob].
      apply (claims_inv_move (insightJob (db w0)) phases _ _ i (AtOrphan job) _ Hnd Hph Hinv).
      * apply update_key_ids.
      * intros j' Hin. apply In_update_where in Hin. destruct Hin as (j & Hj & ->).
        destruct (Nat.eqb (job_id j) (job_id job)); [right; cbn; discriminate | left; exact Hj].
      * left. reflexivity.
    + exists (set_nth i (Thrown_ not_found) phases).
      cbn [pool world]. rewrite Hpool, set_nth_map. split; [reflexivity |].
      apply Hsame. left. reflexivity.
  - rewrite RaceFacts.step_mirror.
    destruct (insight_row (world s) (ins_id ins)) as [row|].
    + exists (set_nth i (Returned (returned_job job ins)) phases).
      cbn [pool world]. rewrite Hpool, set_nth_map. split; [reflexivity |].
      cbn [with_insights db insightJob]. apply Hsame. right. reflexivity.
    + exists (set_nth i (Thrown_ not_found) phases).
      cbn [pool world]. rewrite Hpool, set_nth_map. split; [reflexivity |].
      apply Hsame. left. reflexivity.
  - rewrite RaceFacts.step_returned.
    exists (set_nth i (Returned r) phases).
    cbn [pool world]. rewrite Hpool, set_nth_map. split; [reflexivity |].
    apply Hsame. right. reflexivity.
  - rewrite RaceFacts.step_thrown.
    exists (set_nth i (Thrown_ e) phases).
    cbn [pool world]. rewrite Hpool, set_nth_map. split; [reflexivity |].
    apply Hsame. right. reflexivity.
Qed.

Lemma claims_inv_exec (evs : list Event) (s : Sys Jobs.ClaimResult) :
  claims_inv w0 s -> claims_inv w0 (exec s evs).
Proof.
  revert s. induction evs as [|ev evs IH]; intros s H; [exact H|].
  change (exec s (ev :: evs)) with (exec (sys_step s ev) evs).
  apply IH. apply claims_inv_step. exact H.
Qed.

Lemma claims_inv_start (n : nat) :
  claims_inv w0 (start (repeat claimNextJob n) w0).
Proof.
  exists (repeat AtSelect n). cbn [start pool world]. split.
  - rewrite map_repeat. reflexivity.
  - assert (Hnone : forall a id, ~ held_by (repeat AtSelect n) a id).
    { intros a id (pa & Hpa & Hh). apply nth_error_In, repeat_spec in Hpa.
      subst pa. discriminate Hh. }
    split; [reflexivity | split; [| split; [| split]]].
    + intros a b id Ha. destruct (Hnone a id Ha).
    + intros a id j Ha. destruct (Hnone a id Ha).
    + intros a id Ha. destruct (Hnone a id Ha).
    + intros j Hin Hq. exists j. auto.
Qed.

End Started.

End ClaimsInv.

Module ClaimedIds.
Import Jobs.

Lemma claimed_id_holds (ph : ClaimPhase) (id : Id) :
  claimed_id (claimer ph) = Some id -> holds ph = Some id.
Proof.
  destruct ph as [|c|job|job|job ins|[[cj sn]|]|e]; cbn; try discriminate; auto.
Qed.

Lemma claimed_ids_held (phases : list ClaimPhase) (id : Id) :
  In id (claimed_ids (map claimer phases)) -> exists a, held_by phases a id.
Proof.
  induction phases as [|ph phases IH]; cbn [map claimed_ids]; [intros []|].
  destruct (claimed_id (claimer ph)) as [h|] eqn:Hc.
  - intros [<-|Hin].
    + exists 0%nat, ph. split; [reflexivity | apply claimed_id_holds; exact Hc].
    + destruct (IH Hin) as (a & pa & Hpa & Hh). exists (S a), pa. auto.
  - intros Hin. destruct (IH Hin) as (a & pa & Hpa & Hh). exists (S a), pa. auto.
Qed.

Lemma claimed_ids_NoDup (phases : list ClaimPhase) :
  (forall a b id, held_by phases a id -> held_by phases b id -> a = b) ->
  NoDup (claimed_ids (map claimer phases)).
Proof.
  induction phases as [|ph phases IH]; cbn [map claimed_ids]; intros Huniq;
    [constructor|].
  assert (Hrest : NoDup (claimed_ids (map claimer phases))).
  { apply IH. intros a b id (pa & Hpa & Ha) (pb & Hpb & Hb).
    assert (E : S a = S b)
      by (apply (Huniq (S a) (S b) id); [exists pa | exists pb]; auto).
    congruence. }
  destruct (claimed_id (claimer ph)) as [h|] eqn:Hc; [| exact Hrest].
  constructor; [| exact Hrest].
  intros Hin. destruct (claimed_ids_held phases h Hin) as (a & pa & Hpa & Hh).
  assert (E : 0%nat = S a).
  { apply (Huniq 0%nat (S a) h); [exists ph | exists pa]; auto.
    split; [reflexivity | apply claimed_id_holds; exact Hc]. }
  discriminate E.
Qed.

Lemma claimed_ids_length (ps : list (Proc Jobs.ClaimResult)) :
  (List.length (claimed_ids ps) <= List.length ps)%nat.
Proof.
  induction ps as [|p ps IH]; cbn; [lia|].
  destruct (claimed_id p); cbn; lia.
Qed.

End ClaimedIds.

(** C1 as stated does not hold: two callers against two queued Jobs
    (each with its Insight) can end with one claim.  When both select
    before either updates, both select Job 1; the update of the second
    caller matches no row, it returns no job, and Job 2 stays QUEUED. *)
Lemma claimNextJob_race_one_claim :
  let s := exec (start [Jobs.claimNextJob; Jobs.claimNextJob] two_queued_world)
                racing_schedule in
  List.length (filter is_queued (insightJob (db two_queued_world))) = 2%nat
  /\ forallb finished (pool s) = true
  /\ claimed_ids (pool s) = [1%nat]
  /\ List.length (claimed_ids (pool s)) = 1%nat
  /\ Nat.min 2 2 = 2%nat
  /\ map job_status (insightJob (db (world s))) = [RUNNING; QUEUED].
Proof. vm_compute. repeat split. Qed.

(** C1, amended. For any number [n] of concurrent callers of
    [claimNextJob] started on a store [w] with unique Job identities, and
    any interleaving of their calls: no Job is returned to two callers,
    every returned Job was QUEUED in [w], and the number of successful
    claims is at most the minimum of [n] and the number of QUEUED Jobs. *)
Theorem claimNextJob_no_double_claim (w : World) (n : nat) (evs : list Event) :
  NoDup (map job_id (insightJob (db w))) ->
  let s := exec (start (repeat Jobs.claimNextJob n) w) evs in
  let m := List.length (filter is_queued (insightJob (db w))) in
  NoDup (claimed_ids (pool s))
  /\ (forall id, In id (claimed_ids (pool s)) -> queued_in (insightJob (db w)) id)
  /\ (List.length (claimed_ids (pool s)) <= Nat.min n m)%nat.
Proof.
  intros Hnd s m.
  pose proof (ClaimsInv.claims_inv_exec w Hnd evs _ (ClaimsInv.claims_inv_start w n))
    as (phases & Hpool & Hids & Huniq & Hnotq & Hwas & Hq).
  pose proof (DeliveryFacts.exec_pool_length Jobs.ClaimResult evs
                (start (repeat Jobs.claimNextJob n) w)) as Hlen.
  fold s in Hpool, Hlen. clearbody s. cbn [start pool] in Hlen.
  rewrite repeat_length in Hlen.
  assert (Hnodup : NoDup (claimed_ids (pool s)))
    by (rewrite Hpool; apply ClaimedIds.claimed_ids_NoDup; exact Huniq).
  assert (Hqueued : forall id, In id (claimed_ids (pool s)) ->
                               queued_in (insightJob (db w)) id).
  { intros id Hin. rewrite Hpool in Hin.
    destruct (ClaimedIds.claimed_ids_held phases id Hin) as (a & Ha).
    exact (Hwas a id Ha). }
  split; [exact Hnodup | split; [exact Hqueued |]].
  apply Nat.min_glb.
  - rewrite <- Hlen. apply ClaimedIds.claimed_ids_length.
  - subst m. rewrite <- (length_map job_id (filter is_queued (insightJob (db w)))).
    apply NoDup_incl_length; [exact Hnodup |].
    intros id Hin. destruct (Hqueued id Hin) as (j & Hj & <- & Hs).
    apply in_map. apply filter_In. split; [exact Hj |].
    unfold is_queued. rewrite Hs. reflexivity.
Qed.

(** C1 amended, at a world: the two racing callers of the scenario. *)
Lemma claimNextJob_no_double_claim_witness :
  NoDup (claimed_ids
           (pool (exec (start (repeat Jobs.claimNextJob 2) two_queued_world)
                       racing_schedule))).
Proof.
  refine (proj1 (claimNextJob_no_double_claim two_queued_world 2 racing_schedule _)).
  cbn. repeat constructor; cbn; intuition discriminate.
Defined.

(** ** The counters and the completion of a run *)

Module Accounting.

Lemma owns_settle (R : Type) (Q : R -> Knows -> Credits -> Prop) (w : World)
      (p : Proc R) (k : Knows) (c : Credits) :
  owns Q p k c -> owns Q (settle w p) k c.
Proof.
  induction p as [a|e|f IH|A l s f IH|i f IH]; cbn; auto.
Qed.

Lemma sat_rely (k : Knows) (w w' : World) : rely w w' -> sat k w -> sat k w'.
Proof.
  intros [Hjobs _] Hsat id rho Hin.
  destruct (Hsat id rho Hin) as (j & Hj & Hid & Hrho).
  destruct (Hjobs j Hj) as (j' & Hj' & Hid' & Hrho').
  exists j'. repeat split; congruence.
Qed.

Lemma credits_exist_rely (c : Credits) (w w' : World) :
  rely w w' -> credits_exist c w -> credits_exist c w'.
Proof. intros [_ Hruns] Hc r Hin. apply Hruns, Hc, Hin. Qed.

Lemma credit_app (c1 c2 : Credits) (r : Id) :
  credit (c1 ++ c2) r = credit c1 r + credit c2 r.
Proof. unfold credit. rewrite count_occ_app, Nat2Z.inj_add. reflexivity. Qed.

Lemma credit_nonneg (c : Credits) (r : Id) : 0 <= credit c r.
Proof. unfold credit. lia. Qed.

Lemma credit_absent (c : Credits) (r : Id) : ~ In r c -> credit c r = 0.
Proof.
  intros H. unfold credit.
  rewrite (proj1 (count_occ_not_In Nat.eq_dec c r) H). reflexivity.
Qed.

Lemma all_credits_set_nth (g : Ledger) (i : nat) (e e' : Knows * Credits) (r : Id) :
  nth_error g i = Some e ->
  credit (all_credits (set_nth i e' g)) r + credit (snd e) r
  = credit (all_credits g) r + credit (snd e') r.
Proof.
  unfold all_credits. revert i. induction g as [|x g IH]; intros [|i]; cbn;
    try discriminate.
  - intros [= ->]. rewrite !credit_app. lia.
  - intros H. specialize (IH i H). rewrite !credit_app. lia.
Qed.

Lemma all_credits_absent (g : Ledger) (w : World) (r : Id) :
  Forall (fun e => credits_exist (snd e) w) g ->
  ~ run_known w r -> credit (all_credits g) r = 0.
Proof.
  intros Hall Hnot. unfold all_credits.
  induction Hall as [|e g He Hall IH]; cbn; [reflexivity|].
  rewrite credit_app, IH, (credit_absent (snd e) r); [lia|].
  intros Hin. apply Hnot. exact (He r Hin).
Qed.

Section Forall2Facts.
Variables A B : Type.
Variable P : A -> B -> Prop.

Lemma Forall2_nth_error_l (l : list A) (g : list B) (i : nat) (x : A) :
  Forall2 P l g -> nth_error l i = Some x ->
  exists y, nth_error g i = Some y /\ P x y.
Proof.
  intros H. revert i. induction H as [|a b l g Hab H IH]; intros [|i]; cbn;
    try discriminate.
  - intros [= ->]. eauto.
  - apply IH.
Qed.

Lemma Forall2_set_nth (l : list A) (g : list B) (i : nat) (x : A) (y : B) :
  Forall2 P l g -> P x y -> Forall2 P (set_nth i x l) (set_nth i y g).
Proof.
  intros H Hxy. revert i. induction H as [|a b l g Hab H IH]; intros [|i]; cbn;
    constructor; auto.
Qed.

Lemma Forall2_right (Q : B -> Prop) (l : list A) (g : list B) :
  Forall2 P l g -> (forall a b, P a b -> Q b) -> Forall Q g.
Proof. intros H HQ. induction H; constructor; eauto. Qed.

End Forall2Facts.

Lemma accounts_inv_step (s : Sys unit) (ev : Event) :
  accounts_inv s -> accounts_inv (sys_step s ev).
Proof.
  intros (g & Hpool & Hwf & Hcov).
  destruct ev as [i ai|d]; cbn [sys_step].
  2:{ exists g. cbn [pool world]. destruct (0 <=? d); auto. }
  destruct (nth_error (pool s) i) as [p|] eqn:Hp; [| exists g; auto].
  destruct (Forall2_nth_error_l _ _ _ _ _ i p Hpool Hp) as ([k c] & Hg & Hown & Hsat & Hex).
  cbn [fst snd] in Hown, Hsat, Hex.
  apply (owns_settle unit any_end (world s)) in Hown.
  unfold step. destruct (settle (world s) p) as [a|e|f|A l st f|inp f] eqn:Hset.
  - exists (set_nth i (k, c) g). cbn [pool world]. split; [| split; [exact Hwf |]].
    + apply Forall2_set_nth; auto.
    + intros r Hr. pose proof (all_credits_set_nth g i (k, c) (k, c) (run_id r) Hg).
      specialize (Hcov r Hr). lia.
  - exists (set_nth i (k, c) g). cbn [pool world]. split; [| split; [exact Hwf |]].
    + apply Forall2_set_nth; auto.
    + intros r Hr. pose proof (all_credits_set_nth g i (k, c) (k, c) (run_id r) Hg).
      specialize (Hcov r Hr). lia.
  - exists (set_nth i (k, c) g). cbn [pool world]. split; [| split; [exact Hwf |]].
    + apply Forall2_set_nth; auto.
    + intros r Hr. pose proof (all_credits_set_nth g i (k, c) (k, c) (run_id r) Hg).
      specialize (Hcov r Hr). lia.
  - cbn [owns] in Hown. specialize (Hown (world s) Hwf Hsat Hex).
    destruct (st (world s)) as [res w1] eqn:Hst. cbn [fst snd] in Hown.
    destruct Hown as (Hwf1 & Hrely & k' & c' & Hsat' & Hex' & Hbal & Hown').
    exists (set_nth i (k', c') g). cbn [pool world]. split; [| split; [exact Hwf1 |]].
    + apply Forall2_set_nth; [| cbn [fst snd]; auto].
      eapply Forall2_impl; [| exact Hpool].
      intros q e (Ho & Hs & He). split; [exact Ho | split].
      * exact (sat_rely _ _ _ Hrely Hs).
      * exact (credits_exist_rely _ _ _ Hrely He).
    + intros r' Hr'.
      pose proof (all_credits_set_nth g i (k, c) (k', c') (run_id r') Hg) as Hsum.
      cbn [snd] in Hsum.
      destruct (Hbal r' Hr') as [(r & Hr & Hid & Hle)|[Hnew Hle]].
      * specialize (Hcov r Hr). rewrite Hid in Hcov, Hle. lia.
      * assert (Hall : Forall (fun e => credits_exist (snd e) (world s)) g).
        { eapply Forall2_right; [exact Hpool |]. intros q e (_ & _ & He). exact He. }
        rewrite (all_credits_absent g (world s) (run_id r') Hall Hnew) in Hsum.
        assert (credit c (run_id r') = 0).
        { apply credit_absent. intros Hin. apply Hnew. exact (Hex _ Hin). }
        lia.
  - cbn [owns] in Hown. specialize (Hown ai).
    exists (set_nth i (k, c) g). cbn [pool world]. split; [| split; [exact Hwf |]].
    + apply Forall2_set_nth; auto.
    + intros r Hr. pose proof (all_credits_set_nth g i (k, c) (k, c) (run_id r) Hg).
      specialize (Hcov r Hr). lia.
Qed.

Lemma accounts_inv_exec (evs : list Event) (s : Sys unit) :
  accounts_inv s -> accounts_inv (exec s evs).
Proof.
  revert s. induction evs as [|ev evs IH]; intros s H; [exact H|].
  change (exec s (ev :: evs)) with (exec (sys_step s ev) evs).
  apply IH. apply accounts_inv_step. exact H.
Qed.

(** The bound on a run's counters follows from the accounts. *)
Lemma accounts_bound (s : Sys unit) (r : Run) :
  accounts_inv s -> In r (runT (db (world s))) ->
  run_succeeded r + run_failed r <= run_productsQueued r.
Proof.
  intros (g & _ & _ & Hcov) Hr. specialize (Hcov r Hr).
  pose proof (credit_nonneg (all_credits g) (run_id r)).
  unfold slack in Hcov. lia.
Qed.

End Accounting.

Module Guarantees.
Import Prisma Accounting.

(** *** Counting QUEUED children *)

Lemma queued_for_app (r : Id) (l1 l2 : list InsightJob) :
  queued_for r (l1 ++ l2) = (queued_for r l1 + queued_for r l2)%nat.
Proof. unfold queued_for. rewrite filter_app, length_app. reflexivity. Qed.

(** A row-wise change that never makes a row count lowers no count's
    complement: the count does not grow. *)
Lemma queued_for_map_le (r : Id) (g : InsightJob -> InsightJob) (jobs : list InsightJob) :
  (forall j, In j jobs -> counts r (g j) = true -> counts r j = true) ->
  (queued_for r (map g jobs) <= queued_for r jobs)%nat.
Proof.
  unfold queued_for. induction jobs as [|j jobs IH]; cbn; [lia|].
  intros H. assert (IH' := IH (fun x Hx => H x (or_intror Hx))).
  specialize (H j (or_introl eq_refl)).
  destruct (counts r (g j)) eqn:E1, (counts r j) eqn:E2; cbn; try lia;
    discriminate (H eq_refl).
Qed.

(** ... and it drops when some counted row stops counting. *)
Lemma queued_for_map_lt (r : Id) (g : InsightJob -> InsightJob) (jobs : list InsightJob)
      (m : InsightJob) :
  (forall j, In j jobs -> counts r (g j) = true -> counts r j = true) ->
  In m jobs -> counts r m = true -> counts r (g m) = false ->
  (queued_for r (map g jobs) + 1 <= queued_for r jobs)%nat.
Proof.
  unfold queued_for. induction jobs as [|j jobs IH]; cbn; [intros _ []|].
  intros H Hm Hc Hg.
  pose proof (queued_for_map_le r g jobs (fun x Hx => H x (or_intror Hx))) as Hle.
  unfold queued_for in Hle.
  destruct Hm as [->|Hm].
  - rewrite Hc, Hg. cbn. lia.
  - specialize (IH (fun x Hx => H x (or_intror Hx)) Hm Hc Hg).
    specialize (H j (or_introl eq_refl)).
    destruct (counts r (g j)) eqn:E1, (counts r j) eqn:E2; cbn; try lia;
      discriminate (H eq_refl).
Qed.

(** With unique identities, a change of the row [id] alone adds at most
    one to the count of its run. *)
Lemma queued_for_update_key_le (r : Id) (id : Id) (g : InsightJob -> InsightJob)
      (jobs : list InsightJob) (m : InsightJob) :
  NoDup (map job_id jobs) -> In m jobs -> job_id m = id ->
  (queued_for r (update_key job_id id g jobs)
   <= queued_for r jobs + Nat.b2n (counts r (g m)))%nat.
Proof.
  unfold queued_for, update_key.
  induction jobs as [|j jobs IH]; cbn; [intros _ []|].
  intros Hnd Hm Hid. inversion Hnd as [|? ? Hnot Hnd']; subst.
  destruct Hm as [->|Hm].
  - rewrite Nat.eqb_refl.
    assert (Hrest : map (fun x => if Nat.eqb (job_id x) (job_id m) then g x else x) jobs
                    = jobs).
    { rewrite <- (map_id jobs) at 2. apply map_ext_in. intros x Hx.
      destruct (Nat.eqb (job_id x) (job_id m)) eqn:E; [| reflexivity].
      apply Nat.eqb_eq in E. exfalso. apply Hnot. rewrite <- E. apply in_map. exact Hx. }
    rewrite Hrest.
    destruct (counts r (g m)), (counts r m); cbn; lia.
  - specialize (IH Hnd' Hm eq_refl).
    assert (E : Nat.eqb (job_id j) (job_id m) = false).
    { apply Nat.eqb_neq. intros Heq. apply Hnot. rewrite Heq. apply in_map. exact Hm. }
    rewrite E. destruct (counts r j); cbn; lia.
Qed.

Lemma counts_status (r : Id) (j : InsightJob) :
  counts r j = true -> job_status j = QUEUED.
Proof.
  unfold counts, is_queued. intros H. apply andb_prop in H. destruct H as [_ H].
  destruct (job_status j); (reflexivity || discriminate).
Qed.

Lemma counts_intro (r : Id) (j : InsightJob) :
  job_runId j = Some r -> job_status j = QUEUED -> counts r j = true.
Proof.
  unfold counts, is_queued, opt_id_eqb. intros -> ->. rewrite Nat.eqb_refl. reflexivity.
Qed.

Lemma counts_other_run (r : Id) (j : InsightJob) :
  job_runId j <> Some r -> counts r j = false.
Proof.
  unfold counts, opt_id_eqb. intros H. destruct (job_runId j) as [x|]; [| reflexivity].
  destruct (Nat.eqb x r) eqn:E; [| reflexivity].
  apply Nat.eqb_eq in E. subst. contradiction.
Qed.

(** *** Credits *)

Lemma credit_cons (c : Credits) (r r' : Id) :
  credit (r :: c) r' = credit c r' + (if Nat.eqb r r' then 1 else 0).
Proof.
  unfold credit. cbn. destruct (Nat.eq_dec r r') as [->|Hne].
  - rewrite Nat.eqb_refl. lia.
  - apply Nat.eqb_neq in Hne. rewrite Hne. lia.
Qed.

Lemma credit_remove_one (c : Credits) (r r' : Id) :
  In r c ->
  credit (remove_one r c) r' + (if Nat.eqb r r' then 1 else 0) = credit c r'.
Proof.
  induction c as [|x c IH]; cbn [remove_one]; [intros []|].
  intros Hin. destruct (Nat.eqb x r) eqn:E.
  - apply Nat.eqb_eq in E. subst x. rewrite credit_cons. reflexivity.
  - destruct Hin as [->|Hin]; [rewrite Nat.eqb_refl in E; discriminate|].
    specialize (IH Hin). rewrite !credit_cons. lia.
Qed.

Lemma In_remove_one (c : Credits) (r x : Id) : In x (remove_one r c) -> In x c.
Proof.
  induction c as [|y c IH]; cbn [remove_one]; [intros []|].
  destruct (Nat.eqb y r); cbn; intuition.
Qed.

Lemma credits_exist_remove_one (c : Credits) (r : Id) (w : World) :
  credits_exist c w -> credits_exist (remove_one r c) w.
Proof. intros H x Hx. apply H. exact (In_remove_one c r x Hx). Qed.

Lemma credit_repeat (r r' : Id) (n : nat) :
  credit (repeat r n) r' = if Nat.eqb r r' then Z.of_nat n else 0.
Proof.
  induction n as [|n IH]; cbn [repeat].
  - destruct (Nat.eqb r r'); reflexivity.
  - rewrite credit_cons, IH. destruct (Nat.eqb r r'); lia.
Qed.

(** *** Calls that leave Jobs, Runs and the identity supply alone *)

Lemma same_core_wf (w w' : World) : same_core w w' -> store_wf w -> store_wf w'.
Proof.
  intros (Hj & Hr & Hn) (H1 & H2 & H3 & H4 & H5).
  unfold store_wf, run_known. rewrite Hj, Hr, Hn. auto.
Qed.

Lemma same_core_rely (w w' : World) : same_core w w' -> rely w w'.
Proof.
  intros (Hj & Hr & Hn). unfold rely, run_known. rewrite Hj, Hr. split; eauto.
Qed.

Lemma same_core_balanced (w w' : World) (c : Credits) :
  same_core w w' -> balanced w w' c c.
Proof.
  intros (Hj & Hr & Hn) r' Hr'. left. exists r'. rewrite Hr in Hr'.
  split; [exact Hr' | split; [reflexivity |]].
  unfold slack. rewrite Hj. lia.
Qed.

Lemma same_core_refl (w : World) : same_core w w.
Proof. repeat split. Qed.

Lemma owns_quiet (R A : Type) (Q : R -> Knows -> Credits -> Prop) (l : Label)
      (s : Stmt A) (f : Res A -> Proc R) (k : Knows) (c : Credits) :
  (forall w, same_core w (snd (s w))) ->
  (forall w, store_wf w -> sat k w ->
             exists k', sat k' w /\ owns Q (f (fst (s w))) k' c) ->
  owns Q (Await l s f) k c.
Proof.
  intros Hsame Hnext w Hwf Hsat Hex. specialize (Hsame w).
  split; [exact (same_core_wf _ _ Hsame Hwf) |].
  split; [exact (same_core_rely _ _ Hsame) |].
  destruct (Hnext w Hwf Hsat) as (k' & Hsat' & Hown).
  exists k', c. split; [| split; [| split; [| exact Hown]]].
  - exact (sat_rely _ _ _ (same_core_rely _ _ Hsame) Hsat').
  - exact (credits_exist_rely _ _ _ (same_core_rely _ _ Hsame) Hex).
  - exact (same_core_balanced _ _ c Hsame).
Qed.

Lemma sat_nil (w : World) : sat [] w.
Proof. intros id rho []. Qed.

(** *** Calls that change Job rows in place *)

Lemma jobs_mapped_wf (g : InsightJob -> InsightJob) (w w' : World) :
  keeps_key g -> jobs_mapped g w w' -> store_wf w -> store_wf w' /\ rely w w'.
Proof.
  intros Hg (Hj & Hr & Hn) (H1 & H2 & H3 & H4 & H5).
  assert (Hids : map job_id (map g (insightJob (db w))) = map job_id (insightJob (db w))).
  { rewrite map_map. apply map_ext. intros j. apply Hg. }
  split; [| split].
  - unfold store_wf, run_known. rewrite Hj, Hr, Hn, Hids.
    split; [exact H1 | split; [exact H2 | split; [| split; [exact H4 |]]]].
    + intros j' Hin. apply in_map_iff in Hin. destruct Hin as (j & <- & Hin).
      rewrite (proj1 (Hg j)). exact (H3 j Hin).
    + intros j' r Hin Hrun. apply in_map_iff in Hin. destruct Hin as (j & <- & Hin).
      rewrite (proj2 (Hg j)) in Hrun. exact (H5 j r Hin Hrun).
  - intros j Hin. exists (g j). rewrite Hj.
    split; [apply in_map; exact Hin | apply Hg].
  - unfold run_known. rewrite Hr. auto.
Qed.

Lemma balanced_jobs (w w' : World) (c c' : Credits) :
  runT (db w') = runT (db w) ->
  (forall r, In r (runT (db w)) ->
     Z.of_nat (queued_for (run_id r) (insightJob (db w'))) + credit c' (run_id r)
     <= Z.of_nat (queued_for (run_id r) (insightJob (db w))) + credit c (run_id r)) ->
  balanced w w' c c'.
Proof.
  intros Hr H r' Hr'. left. exists r'. rewrite Hr in Hr'.
  split; [exact Hr' | split; [reflexivity |]].
  specialize (H r' Hr'). unfold slack. lia.
Qed.

(** Dropping credits is always allowed. *)
Lemma balanced_drop (w : World) (c c' : Credits) :
  (forall r, credit c' r <= credit c r) -> balanced w w c c'.
Proof.
  intros H. apply balanced_jobs; [reflexivity |].
  intros r _. specialize (H (run_id r)). lia.
Qed.

(** No row starts to count: the credits can stay. *)
Lemma jobs_mapped_down (g : InsightJob -> InsightJob) (w w' : World) (c : Credits) :
  jobs_mapped g w w' ->
  (forall r j, counts r (g j) = true -> counts r j = true) ->
  balanced w w' c c.
Proof.
  intros (Hj & Hr & Hn) Hdown. apply balanced_jobs; [exact Hr |].
  intros r _. rewrite Hj.
  pose proof (queued_for_map_le (run_id r) g (insightJob (db w))
                (fun j _ => Hdown (run_id r) j)).
  lia.
Qed.

(** The row [id] may start to count: the credit for its run pays. *)
Lemma jobs_mapped_requeue (g : InsightJob -> InsightJob) (w w' : World)
      (id : Id) (rho : option Id) (k : Knows) (c : Credits) :
  store_wf w -> sat k w -> In (id, rho) k ->
  keeps_key g ->
  insightJob (db w') = update_key job_id id g (insightJob (db w)) ->
  runT (db w') = runT (db w) ->
  (forall r, rho = Some r -> In r c) ->
  balanced w w' c (match rho with Some r => remove_one r c | None => c end).
Proof.
  intros (Hnd & _) Hsat Hk Hg Hj Hr Hc.
  destruct (Hsat id rho Hk) as (m & Hm & Hmid & Hmrho).
  apply balanced_jobs; [exact Hr |].
  intros r _. rewrite Hj.
  pose proof (queued_for_update_key_le (run_id r) id g (insightJob (db w)) m Hnd Hm Hmid)
    as Hle.
  assert (Hcount : counts (run_id r) (g m) = true -> rho = Some (run_id r)).
  { unfold counts, opt_id_eqb. rewrite (proj2 (Hg m)), Hmrho.
    destruct rho as [x|]; [| discriminate]. intros H. apply andb_prop in H.
    destruct H as [H _]. apply Nat.eqb_eq in H. congruence. }
  destruct rho as [x|].
  - pose proof (credit_remove_one c x (run_id r) (Hc x eq_refl)) as Hrem.
    destruct (counts (run_id r) (g m)) eqn:E.
    + specialize (Hcount eq_refl). injection Hcount as ->.
      rewrite Nat.eqb_refl in Hrem. cbn in Hle. lia.
    + cbn in Hle. destruct (Nat.eqb x (run_id r)); lia.
  - destruct (counts (run_id r) (g m)) eqn:E; [discriminate (Hcount eq_refl) |].
    cbn in Hle. lia.
Qed.

Lemma update_key_is_map (id : Id) (g : InsightJob -> InsightJob) (jobs : list InsightJob) :
  update_key job_id id g jobs
  = map (fun j => if Nat.eqb (job_id j) id then g j else j) jobs.
Proof. reflexivity. Qed.

Lemma keeps_key_job_apply (t : Time) (d : JobData) : keeps_key (job_apply t d).
Proof. intros j. split; reflexivity. Qed.

Lemma keeps_key_if (p : InsightJob -> bool) (g : InsightJob -> InsightJob) :
  keeps_key g -> keeps_key (fun j => if p j then g j else j).
Proof. intros Hg j. destruct (p j); [apply Hg | split; reflexivity]. Qed.

Lemma counts_down_if (p : InsightJob -> bool) (t : Time) (d : JobData) :
  jd_status d <> Some QUEUED ->
  forall r j, counts r (if p j then job_apply t d j else j) = true -> counts r j = true.
Proof.
  intros Hd r j. destruct (p j); [| auto].
  unfold counts, is_queued. cbn [job_apply job_runId job_status].
  destruct (jd_status d) as [st|]; cbn [patch]; [| auto].
  destruct st; try (rewrite andb_false_r; discriminate). congruence.
Qed.

End Guarantees.

Lemma NoDup_snoc (A : Type) (l : list A) (x : A) :
  NoDup l -> ~ In x l -> NoDup (l ++ [x]).
Proof.
  induction l as [|y l IH]; cbn; intros Hnd Hnot.
  - constructor; [intros [] | constructor].
  - inversion Hnd as [|? ? Hy Hnd']; subst. constructor.
    + intros Hin. apply in_app_or in Hin. destruct Hin as [Hin|[->|[]]]; auto.
    + apply IH; auto.
Qed.

Module Nodes.
Import Prisma Accounting Guarantees.

Section Node.
Variable R : Type.
Variable Q : R -> Knows -> Credits -> Prop.

(** A Job update that does not queue the row. *)
Lemma owns_job_update_down (A := InsightJob) (l : Label) (id : Id) (d : JobData)
      (f : Res A -> Proc R) (k : Knows) (c : Credits) :
  jd_status d <> Some QUEUED ->
  (forall res, owns Q (f res) k c) ->
  owns Q (Await l (job_update id d) f) k c.
Proof.
  intros Hd Hnext w Hwf Hsat Hex. unfold job_update.
  destruct (find_key job_id id (insightJob (db w))) as [j|]; cbn [fst snd].
  - set (g := fun j => if Nat.eqb (job_id j) id then job_apply (clock w) d j else j).
    assert (Hmap : jobs_mapped g w (with_jobs (update_key job_id id (job_apply (clock w) d)) w))
      by (repeat split).
    assert (Hg : keeps_key g) by (apply keeps_key_if, keeps_key_job_apply).
    destruct (jobs_mapped_wf g _ _ Hg Hmap Hwf) as [Hwf' Hrely].
    split; [exact Hwf' | split; [exact Hrely |]].
    exists k, c. split; [exact (sat_rely _ _ _ Hrely Hsat) |].
    split; [exact (credits_exist_rely _ _ _ Hrely Hex) |].
    split; [| apply Hnext].
    apply (jobs_mapped_down g _ _ c Hmap). apply counts_down_if. exact Hd.
  - split; [exact Hwf | split; [apply same_core_rely, same_core_refl |]].
    exists k, c. split; [exact Hsat | split; [exact Hex |]].
    split; [apply same_core_balanced, same_core_refl | apply Hnext].
Qed.

(** The transaction of [processJob]: Insight and Job, all or nothing. *)
Lemma tx_pair_cases (iid : Id) (nd : InsightData) (jid : Id) (jd : JobData) (w : World) :
  snd (transaction [void (insight_update iid nd); void (job_update jid jd)] w) = w
  \/ (insightJob (db (snd (transaction [void (insight_update iid nd);
                                        void (job_update jid jd)] w)))
      = update_key job_id jid (job_apply (clock w) jd) (insightJob (db w))
      /\ runT (db (snd (transaction [void (insight_update iid nd);
                                     void (job_update jid jd)] w))) = runT (db w)
      /\ nextId (snd (transaction [void (insight_update iid nd);
                                   void (job_update jid jd)] w)) = nextId w).
Proof.
  unfold transaction, sequence, void, insight_update.
  destruct (find_key ins_id iid (productInsight (db w))) as [i|]; [| left; reflexivity].
  unfold job_update. cbn.
  destruct (find _ (insightJob (db w))) as [j|]; [| left; reflexivity].
  right. repeat split.
Qed.

Lemma owns_tx_pair_down (l : Label) (iid : Id) (nd : InsightData) (jid : Id)
      (jd : JobData) (f : Res unit -> Proc R) (k : Knows) (c : Credits) :
  jd_status jd <> Some QUEUED ->
  (forall res, owns Q (f res) k c) ->
  owns Q (Await l (transaction [void (insight_update iid nd); void (job_update jid jd)]) f)
       k c.
Proof.
  intros Hd Hnext w Hwf Hsat Hex.
  destruct (tx_pair_cases iid nd jid jd w) as [Hw|(Hj & Hr & Hn)].
  - rewrite Hw. split; [exact Hwf | split; [apply same_core_rely, same_core_refl |]].
    exists k, c. split; [exact Hsat | split; [exact Hex |]].
    split; [apply same_core_balanced, same_core_refl | apply Hnext].
  - set (w' := snd (transaction _ w)) in *.
    set (g := fun j => if Nat.eqb (job_id j) jid then job_apply (clock w) jd j else j).
    assert (Hmap : jobs_mapped g w w') by (repeat split; assumption).
    assert (Hg : keeps_key g) by (apply keeps_key_if, keeps_key_job_apply).
    destruct (jobs_mapped_wf g _ _ Hg Hmap Hwf) as [Hwf' Hrely].
    split; [exact Hwf' | split; [exact Hrely |]].
    exists k, c. split; [exact (sat_rely _ _ _ Hrely Hsat) |].
    split; [exact (credits_exist_rely _ _ _ Hrely Hex) |].
    split; [| apply Hnext].
    apply (jobs_mapped_down g _ _ c Hmap). apply counts_down_if. exact Hd.
Qed.

Lemma owns_tx_pair_requeue (l : Label) (iid : Id) (nd : InsightData) (jid : Id)
      (jd : JobData) (rho : option Id) (f : Res unit -> Proc R) (k : Knows)
      (c : Credits) :
  In (jid, rho) k ->
  (forall r, rho = Some r -> In r c) ->
  (forall res, owns Q (f res) k (match rho with Some r => remove_one r c | None => c end)) ->
  owns Q (Await l (transaction [void (insight_update iid nd); void (job_update jid jd)]) f)
       k c.
Proof.
  intros Hk Hc Hnext w Hwf Hsat Hex.
  assert (Hex' : credits_exist (match rho with Some r => remove_one r c | None => c end) w).
  { destruct rho; [apply credits_exist_remove_one |]; exact Hex. }
  destruct (tx_pair_cases iid nd jid jd w) as [Hw|(Hj & Hr & Hn)].
  - rewrite Hw. split; [exact Hwf | split; [apply same_core_rely, same_core_refl |]].
    exists k, (match rho with Some r => remove_one r c | None => c end).
    split; [exact Hsat | split; [exact Hex' |]].
    split; [| apply Hnext].
    apply balanced_drop. intros r. destruct rho as [x|]; [| lia].
    pose proof (credit_remove_one c x r (Hc x eq_refl)).
    destruct (Nat.eqb x r); lia.
  - set (w' := snd (transaction _ w)) in *.
    set (g := fun j => if Nat.eqb (job_id j) jid then job_apply (clock w) jd j else j).
    assert (Hmap : jobs_mapped g w w') by (repeat split; assumption).
    assert (Hg : keeps_key g) by (apply keeps_key_if, keeps_key_job_apply).
    destruct (jobs_mapped_wf g _ _ Hg Hmap Hwf) as [Hwf' Hrely].
    split; [exact Hwf' | split; [exact Hrely |]].
    exists k, (match rho with Some r => remove_one r c | None => c end).
    split; [exact (sat_rely _ _ _ Hrely Hsat) |].
    split; [exact (credits_exist_rely _ _ _ Hrely Hex') |].
    split; [| apply Hnext].
    apply (jobs_mapped_requeue (job_apply (clock w) jd) w w' jid rho k c Hwf Hsat Hk);
      [apply keeps_key_job_apply | exact Hj | exact Hr | exact Hc].
Qed.

(** The conditional update of [claimNextJob]: a row that matches stops
    being QUEUED, and the caller takes the credit for its run. *)
Lemma owns_fence (l : Label) (c0 : InsightJob) (t : Time)
      (f : Res nat -> Proc R) (k : Knows) (c : Credits) :
  In (job_id c0, job_runId c0) k ->
  owns Q (f (Ok 0%nat)) k c ->
  (forall n, owns Q (f (Ok (S n))) k
                  (match job_runId c0 with Some r => r :: c | None => c end)) ->
  owns Q (Await l (job_updateMany (Jobs.fence c0) (Jobs.claimed t)) f) k c.
Proof.
  intros Hk Hzero Hsome w Hwf Hsat Hex. unfold job_updateMany. cbn [fst snd].
  set (g := fun j => if Jobs.fence c0 j then job_apply (clock w) (Jobs.claimed t) j else j).
  set (w' := with_jobs _ w).
  assert (Hmap : jobs_mapped g w w') by (repeat split).
  assert (Hg : keeps_key g) by (apply keeps_key_if, keeps_key_job_apply).
  destruct (jobs_mapped_wf g _ _ Hg Hmap Hwf) as [Hwf' Hrely].
  assert (Hdown : forall r j, counts r (g j) = true -> counts r j = true)
    by (apply counts_down_if; discriminate).
  split; [exact Hwf' | split; [exact Hrely |]].
  destruct (filter (Jobs.fence c0) (insightJob (db w))) as [|m ms] eqn:Hf.
  - exists k, c. split; [exact (sat_rely _ _ _ Hrely Hsat) |].
    split; [exact (credits_exist_rely _ _ _ Hrely Hex) |].
    split; [exact (jobs_mapped_down g _ _ c Hmap Hdown) | exact Hzero].
  - assert (Hm : In m (insightJob (db w)) /\ Jobs.fence c0 m = true).
    { apply filter_In. rewrite Hf. left. reflexivity. }
    destruct Hm as [Hm Hfm].
    destruct (ClaimsInv.fence_true c0 m Hfm) as [Hmid Hmq].
    destruct (Hsat _ _ Hk) as (m' & Hm' & Hmid' & Hmrho).
    assert (m' = m).
    { destruct Hwf as (Hnd & _).
      apply (ClaimsInv.same_id_same_row _ m' m Hnd Hm' Hm). congruence. }
    subst m'.
    exists k, (match job_runId c0 with Some r => r :: c | None => c end).
    split; [exact (sat_rely _ _ _ Hrely Hsat) |].
    split; [| split; [| apply Hsome]].
    + destruct (job_runId c0) as [r|] eqn:Hrho.
      * intros x [<-|Hx].
        -- apply (proj2 Hrely). destruct Hwf as (_ & _ & _ & _ & Hfk).
           exact (Hfk m r Hm Hmrho).
        -- exact (credits_exist_rely _ _ _ Hrely Hex x Hx).
      * exact (credits_exist_rely _ _ _ Hrely Hex).
    + apply balanced_jobs; [reflexivity |].
      intros r _. destruct Hmap as (Hj & _). rewrite Hj.
      pose proof (queued_for_map_le (run_id r) g (insightJob (db w))
                    (fun j _ => Hdown (run_id r) j)) as Hle.
      destruct (job_runId c0) as [x|] eqn:Hrho; [| lia].
      rewrite credit_cons. destruct (Nat.eqb x (run_id r)) eqn:E; [| lia].
      apply Nat.eqb_eq in E. subst x.
      assert (Hgm : counts (run_id r) (g m) = false).
      { unfold g. rewrite Hfm. unfold counts, is_queued. cbn. apply andb_false_r. }
      pose proof (queued_for_map_lt (run_id r) g (insightJob (db w)) m
                    (fun j _ => Hdown (run_id r) j) Hm
                    (counts_intro _ _ Hmrho Hmq) Hgm).
      lia.
Qed.

Lemma run_known_row (w : World) (r : Id) (x : Run) :
  find_key run_id r (runT (db w)) = Some x -> run_known w r.
Proof.
  intros H. unfold run_known. rewrite <- (find_key_key _ _ _ _ _ H).
  apply in_map. exact (find_key_In _ _ _ _ _ H).
Qed.

Lemma counts_new (r : Id) (rho : option Id) (j : InsightJob) :
  job_runId j = rho -> job_status j = QUEUED ->
  counts r j = match rho with Some x => Nat.eqb x r | None => false end.
Proof.
  intros <- Hq. unfold counts, is_queued, opt_id_eqb. rewrite Hq.
  destruct (job_runId j); [apply andb_true_r | reflexivity].
Qed.

(** A new QUEUED Job of a run is paid for by a credit for that run. *)
Lemma owns_job_create (l : Label) (shop productId : string) (rho : option Id)
      (f : Res InsightJob -> Proc R) (k : Knows) (c : Credits) :
  (forall r, rho = Some r -> In r c) ->
  (forall j, owns Q (f (Ok j)) k (match rho with Some r => remove_one r c | None => c end)) ->
  (forall e, owns Q (f (Err e)) k c) ->
  owns Q (Await l (job_create shop productId rho QUEUED) f) k c.
Proof.
  intros Hc Hok Herr w Hwf Hsat Hex. unfold job_create.
  set (j := {| job_id := nextId w; job_shop := shop; job_productId := productId;
               job_runId := rho; job_status := QUEUED; job_attempts := 0;
               job_lastError := None; job_nextRetryAt := None;
               job_createdAt := clock w; job_updatedAt := clock w |}).
  assert (Hfail : store_wf w /\ rely w w /\
                  exists k' c', sat k' w /\ credits_exist c' w /\ balanced w w c c'
                                /\ owns Q (f (Err foreign_key_violation)) k' c').
  { split; [exact Hwf | split; [apply same_core_rely, same_core_refl |]].
    exists k, c. split; [exact Hsat | split; [exact Hex |]].
    split; [apply same_core_balanced, same_core_refl | apply Herr]. }
  assert (Hdone : (forall r, rho = Some r -> run_known w r) ->
            store_wf (bump_id (with_jobs (fun l0 => l0 ++ [j]) w))
            /\ rely w (bump_id (with_jobs (fun l0 => l0 ++ [j]) w))
            /\ exists k' c',
                 sat k' (bump_id (with_jobs (fun l0 => l0 ++ [j]) w))
                 /\ credits_exist c' (bump_id (with_jobs (fun l0 => l0 ++ [j]) w))
                 /\ balanced w (bump_id (with_jobs (fun l0 => l0 ++ [j]) w)) c c'
                 /\ owns Q (f (Ok j)) k' c').
  { intros Hknown. set (w' := bump_id _).
    assert (Hrely : rely w w').
    { split; [| auto]. intros x Hx. exists x.
      split; [| auto]. cbn. apply in_or_app. left. exact Hx. }
    split; [| split; [exact Hrely |]].
    - destruct Hwf as (H1 & H2 & H3 & H4 & H5).
      unfold store_wf. cbn [w' bump_id with_jobs db insightJob runT nextId].
      split; [| split; [exact H2 | split; [| split]]].
      + rewrite map_app. cbn. apply NoDup_snoc; [exact H1 |].
        intros Hin. apply in_map_iff in Hin. destruct Hin as (x & Hxid & Hx).
        specialize (H3 x Hx). lia.
      + intros x Hx. apply in_app_or in Hx. destruct Hx as [Hx|[<-|[]]].
        * specialize (H3 x Hx). lia.
        * cbn. lia.
      + intros x Hx. specialize (H4 x Hx). lia.
      + intros x r Hx Hr. apply in_app_or in Hx. destruct Hx as [Hx|[<-|[]]].
        * exact (H5 x r Hx Hr).
        * exact (Hknown r Hr).
    - exists k, (match rho with Some r => remove_one r c | None => c end).
      split; [exact (sat_rely _ _ _ Hrely Hsat) |].
      split; [| split; [| apply Hok]].
      + apply (credits_exist_rely _ w w' Hrely).
        destruct rho; [apply credits_exist_remove_one |]; exact Hex.
      + apply balanced_jobs; [reflexivity |].
        intros r _. cbn [w' bump_id with_jobs db insightJob].
        rewrite queued_for_app. unfold queued_for at 2. cbn [filter].
        rewrite (counts_new (run_id r) rho j eq_refl eq_refl).
        destruct rho as [x|]; [| cbn; lia].
        pose proof (credit_remove_one c x (run_id r) (Hc x eq_refl)).
        destruct (Nat.eqb x (run_id r)); cbn; lia. }
  destruct rho as [r|].
  - destruct (find_key run_id r (runT (db w))) as [x|] eqn:Hrun; cbn [fst snd].
    + apply Hdone. intros r0 [= <-]. exact (run_known_row _ _ _ Hrun).
    + exact Hfail.
  - cbn [fst snd]. apply Hdone. discriminate.
Qed.

Lemma queued_for_unknown (w : World) (r : Id) :
  store_wf w -> ~ run_known w r -> queued_for r (insightJob (db w)) = 0%nat.
Proof.
  intros (_ & _ & _ & _ & Hfk) Hnot. unfold queued_for.
  destruct (filter (counts r) (insightJob (db w))) as [|j js] eqn:Hf; [reflexivity|].
  exfalso. assert (Hj : In j (insightJob (db w)) /\ counts r j = true).
  { apply filter_In. rewrite Hf. left. reflexivity. }
  destruct Hj as [Hj Hc]. apply Hnot. apply (Hfk j r Hj).
  unfold counts, opt_id_eqb in Hc. apply andb_prop in Hc. destruct Hc as [Hc _].
  destruct (job_runId j) as [x|]; [| discriminate].
  apply Nat.eqb_eq in Hc. congruence.
Qed.

Lemma fresh_run_unknown (w : World) : store_wf w -> ~ run_known w (nextId w).
Proof.
  intros (_ & _ & _ & Hlt & _) Hin. unfold run_known in Hin.
  apply in_map_iff in Hin. destruct Hin as (r & Hid & Hr).
  specialize (Hlt r Hr). lia.
Qed.

(** A new run of [n] products gives its creator [n] credits. *)
Lemma owns_run_create (l : Label) (shop : string) (st : RunStatus) (n : nat)
      (f : Res Run -> Proc R) (k : Knows) (c : Credits) :
  (forall run, owns Q (f (Ok run)) k (c ++ repeat (run_id run) n)) ->
  owns Q (Await l (run_create shop st (Z.of_nat n)) f) k c.
Proof.
  intros Hnext w Hwf Hsat Hex. unfold run_create. cbn [fst snd].
  set (run := {| run_id := nextId w; run_shop := shop; run_status := st;
                 run_productsQueued := Z.of_nat n; run_succeeded := 0;
                 run_failed := 0; run_createdAt := clock w;
                 run_completedAt := None |}).
  set (w' := bump_id _).
  pose proof (fresh_run_unknown w Hwf) as Hfresh.
  assert (Hrely : rely w w').
  { split; [intros j Hj; exists j; auto |].
    intros r Hr. unfold run_known in *. cbn. rewrite map_app.
    apply in_or_app. left. exact Hr. }
  split; [| split; [exact Hrely |]].
  - destruct Hwf as (H1 & H2 & H3 & H4 & H5).
    unfold store_wf. cbn [w' bump_id with_runs db insightJob runT nextId].
    split; [exact H1 | split; [| split; [| split]]].
    + rewrite map_app. cbn. apply NoDup_snoc; [exact H2 | exact Hfresh].
    + intros x Hx. specialize (H3 x Hx). lia.
    + intros x Hx. apply in_app_or in Hx. destruct Hx as [Hx|[<-|[]]].
      * specialize (H4 x Hx). lia.
      * cbn. lia.
    + intros x r Hx Hr. apply (proj2 Hrely). exact (H5 x r Hx Hr).
  - exists k, (c ++ repeat (nextId w) n).
    split; [exact (sat_rely _ _ _ Hrely Hsat) |].
    split; [| split; [| apply (Hnext run)]].
    + intros r Hr. apply in_app_or in Hr. destruct Hr as [Hr|Hr].
      * exact (credits_exist_rely _ _ _ Hrely Hex r Hr).
      * apply repeat_spec in Hr. subst r. unfold run_known. cbn.
        rewrite map_app. apply in_or_app. right. left. reflexivity.
    + intros r' Hr'. cbn [w' bump_id with_runs db runT] in Hr'.
      apply in_app_or in Hr'. destruct Hr' as [Hr'|[<-|[]]].
      * left. exists r'. split; [exact Hr' | split; [reflexivity |]].
        rewrite credit_app, credit_repeat.
        assert (E : Nat.eqb (nextId w) (run_id r') = false).
        { apply Nat.eqb_neq. destruct Hwf as (_ & _ & _ & Hlt & _).
          specialize (Hlt r' Hr'). lia. }
        rewrite E. unfold slack. cbn [w' bump_id with_runs db insightJob]. lia.
      * right. split; [exact Hfresh |].
        rewrite credit_app, credit_repeat. cbn [run run_id].
        rewrite Nat.eqb_refl.
        rewrite (credit_absent c (nextId w)) by (intros Hin; exact (Hfresh (Hex _ Hin))).
        unfold slack. cbn [w' bump_id with_runs db insightJob run run_id
                             run_productsQueued run_succeeded run_failed].
        rewrite (queued_for_unknown w (nextId w) Hwf Hfresh). lia.
Qed.

Lemma owns_run_update (l : Label) (r : Id) (d : RunData)
      (f : Res Run -> Proc R) (k : Knows) (c : Credits) :
  adds d = 0 \/ (adds d = 1 /\ In r c) ->
  (forall run, owns Q (f (Ok run)) k (if adds d =? 0 then c else remove_one r c)) ->
  (forall e, owns Q (f (Err e)) k c) ->
  owns Q (Await l (run_update r d) f) k c.
Proof.
  intros Hd Hok Herr w Hwf Hsat Hex. unfold run_update.
  destruct (find_key run_id r (runT (db w))) as [x|] eqn:Hrun; cbn [fst snd].
  2:{ split; [exact Hwf | split; [apply same_core_rely, same_core_refl |]].
      exists k, c. split; [exact Hsat | split; [exact Hex |]].
      split; [apply same_core_balanced, same_core_refl | apply Herr]. }
  set (w' := with_runs _ w).
  set (h := fun y => if Nat.eqb (run_id y) r then run_apply d y else y).
  assert (Hruns : runT (db w') = map h (runT (db w))) by reflexivity.
  assert (Hh : forall y, run_id (h y) = run_id y)
    by (intros y; unfold h; destruct (Nat.eqb (run_id y) r); reflexivity).
  assert (Hids : map run_id (runT (db w')) = map run_id (runT (db w))).
  { rewrite Hruns, map_map. apply map_ext. exact Hh. }
  assert (Hrely : rely w w').
  { split; [intros j Hj; exists j; auto |].
    intros y Hy. unfold run_known in *. rewrite Hids. exact Hy. }
  split; [| split; [exact Hrely |]].
  - destruct Hwf as (H1 & H2 & H3 & H4 & H5).
    unfold store_wf, run_known. rewrite Hids.
    split; [exact H1 | split; [exact H2 | split; [exact H3 | split; [| exact H5]]]].
    intros y Hy. rewrite Hruns in Hy. apply in_map_iff in Hy.
    destruct Hy as (y0 & <- & Hy0). rewrite Hh. exact (H4 y0 Hy0).
  - exists k, (if adds d =? 0 then c else remove_one r c).
    split; [exact (sat_rely _ _ _ Hrely Hsat) |].
    split; [| split; [| apply Hok]].
    + apply (credits_exist_rely _ w w' Hrely).
      destruct (adds d =? 0); [| apply credits_exist_remove_one]; exact Hex.
    + intros r' Hr'. rewrite Hruns in Hr'. apply in_map_iff in Hr'.
      destruct Hr' as (y & <- & Hy). left. exists y.
      split; [exact Hy | split; [symmetry; apply Hh |]].
      rewrite Hh. unfold slack, h. cbn [w' with_runs db insightJob].
      destruct (Nat.eqb (run_id y) r) eqn:E.
      * apply Nat.eqb_eq in E. unfold adds in *.
        cbn [run_apply run_productsQueued run_succeeded run_failed run_id].
        destruct Hd as [Hz|[Hone Hin]].
        -- rewrite Hz. cbn.
           destruct (rd_succeeded_increment d), (rd_failed_increment d); lia.
        -- rewrite Hone. cbn.
           pose proof (credit_remove_one c r (run_id y) Hin) as Hrem.
           rewrite <- E, Nat.eqb_refl in Hrem. rewrite <- E.
           destruct (rd_succeeded_increment d), (rd_failed_increment d); lia.
      * destruct (adds d =? 0); [lia |].
        destruct Hd as [Hz|[Hone Hin]].
        -- pose proof (In_remove_one c r) as Hsub.
           assert (credit (remove_one r c) (run_id y) <= credit c (run_id y)).
           { destruct (in_dec Nat.eq_dec r c) as [Hin|Hnot].
             - pose proof (credit_remove_one c r (run_id y) Hin) as Hrem.
               destruct (Nat.eqb r (run_id y)); lia.
             - clear - Hnot. induction c as [|z c IH]; cbn [remove_one]; [lia|].
               destruct (Nat.eqb z r) eqn:Ez.
               + apply Nat.eqb_eq in Ez. subst z. exfalso. apply Hnot. left. reflexivity.
               + rewrite !credit_cons.
                 assert (~ In r c) by (intros H; apply Hnot; right; exact H).
                 specialize (IH H). lia. }
           lia.
        -- pose proof (credit_remove_one c r (run_id y) Hin) as Hrem.
           assert (Er : Nat.eqb r (run_id y) = false).
           { apply Nat.eqb_neq. apply Nat.eqb_neq in E. congruence. }
           rewrite Er in Hrem. lia.
Qed.

End Node.
End Nodes.

Arguments Prisma.run_create : simpl never.
Arguments Prisma.job_count : simpl never.
Arguments Prisma.run_findMany : simpl never.
Arguments owns : simpl never.

Create HintDb quiet.

Module Quiet.
Import Prisma Guarantees.

Lemma quiet_job_findFirst p w : same_core w (snd (job_findFirst p w)).
Proof. apply same_core_refl. Qed.

Lemma quiet_job_findFirst_orderBy p w :
  same_core w (snd (job_findFirst_orderBy_createdAt p w)).
Proof. apply same_core_refl. Qed.

Lemma quiet_job_findUnique id w : same_core w (snd (job_findUnique id w)).
Proof. apply same_core_refl. Qed.

Lemma quiet_job_count p w : same_core w (snd (job_count p w)).
Proof. apply same_core_refl. Qed.

Lemma quiet_run_findMany p w : same_core w (snd (run_findMany p w)).
Proof. apply same_core_refl. Qed.

Lemma quiet_insight_findUnique shop productId w :
  same_core w (snd (insight_findUnique shop productId w)).
Proof. apply same_core_refl. Qed.

Lemma quiet_insight_update id d w : same_core w (snd (insight_update id d w)).
Proof.
  unfold insight_update. destruct (find_key ins_id id (productInsight (db w)));
    repeat split.
Qed.

End Quiet.

#[export] Hint Resolve Quiet.quiet_job_findFirst Quiet.quiet_job_findFirst_orderBy
  Quiet.quiet_job_findUnique Quiet.quiet_job_count Quiet.quiet_run_findMany
  Quiet.quiet_insight_findUnique Quiet.quiet_insight_update : quiet.

Module Owned.
Import Prisma Jobs Accounting Guarantees Nodes.

(** The reconciliation pass holds no credit and adds to no counter. *)
Lemma owns_updateRunCompletion_loop (runs : list Run) (k : Knows) :
  owns any_end (Worker.updateRunCompletion_loop runs) k [].
Proof.
  induction runs as [|run rest IH]; cbn; [exact I|].
  apply owns_quiet; [auto with quiet |].
  intros w _ Hsat. exists k. split; [exact Hsat |].
  unfold job_count. cbn.
  destruct (Nat.eqb _ 0); cbn.
  - intros t. apply owns_run_update.
    + left. reflexivity.
    + intros r. cbn. exact IH.
    + intros e. exact I.
  - exact IH.
Qed.

Lemma owns_updateRunCompletion : owns any_end (task Reconcile) [] [].
Proof.
  cbn. apply owns_quiet; [auto with quiet |].
  intros w _ Hsat. exists []. split; [exact Hsat |].
  unfold run_findMany. cbn. apply owns_updateRunCompletion_loop.
Qed.

End Owned.

Module Enqueued.
Import Prisma Jobs Accounting Guarantees Nodes.

Lemma credit_pos_In (c : Credits) (r : Id) : 0 < credit c r -> In r c.
Proof.
  unfold credit. intros H. apply (count_occ_In Nat.eq_dec). lia.
Qed.

(** [superseded] and [insight_missing] take a Job out of the queue. *)
Lemma superseded_down : jd_status superseded <> Some QUEUED.
Proof. discriminate. Qed.

Lemma insight_missing_down : jd_status insight_missing <> Some QUEUED.
Proof. discriminate. Qed.

(** The rules of sequencing and of consequence. *)
Lemma owns_bind (R S : Type) (Q : R -> Knows -> Credits -> Prop) (f : S -> Proc R)
      (p : Proc S) :
  forall (k : Knows) (c : Credits),
  owns (fun a k' c' => owns Q (f a) k' c') p k c -> owns Q (bind p f) k c.
Proof.
  induction p as [a|e|g IH|A l s g IH|i g IH]; intros k c H; cbn [bind].
  - exact H.
  - exact I.
  - intros t. apply IH, H.
  - intros w Hwf Hsat Hex.
    destruct (H w Hwf Hsat Hex) as (Hwf' & Hrely & k' & c' & Hsat' & Hex' & Hbal & Hnext).
    split; [exact Hwf' | split; [exact Hrely |]].
    exists k', c'. repeat split; try assumption. apply IH, Hnext.
  - intros r. apply IH, H.
Qed.

Lemma owns_weaken (R : Type) (Q Q' : R -> Knows -> Credits -> Prop) (p : Proc R) :
  (forall a k c, Q a k c -> Q' a k c) ->
  forall (k : Knows) (c : Credits), owns Q p k c -> owns Q' p k c.
Proof.
  intros HQ. induction p as [a|e|g IH|A l s g IH|i g IH]; intros k c H.
  - apply HQ, H.
  - exact I.
  - intros t. apply IH, H.
  - intros w Hwf Hsat Hex.
    destruct (H w Hwf Hsat Hex) as (Hwf' & Hrely & k' & c' & Hsat' & Hex' & Hbal & Hnext).
    split; [exact Hwf' | split; [exact Hrely |]].
    exists k', c'. repeat split; try assumption. apply IH, Hnext.
  - intros r. apply IH, H.
Qed.

(** [enqueueInsightJob] spends at most one credit, on the run it is
    given. *)
Lemma owns_enqueueInsightJob (shop productId : string) (rho : option Id)
      (force : bool) (k : Knows) (c : Credits) :
  (forall r, rho = Some r -> In r c) ->
  owns (fun _ k' c' => k' = k /\ (c' = c \/ c' = spent rho c))
       (enqueueInsightJob shop productId rho force) k c.
Proof.
  intros Hc. unfold enqueueInsightJob. cbn.
  assert (Hcreate : forall f : Res InsightJob -> Proc (option Id),
    (forall j, f (Ok j) =
       Await (Call ProductInsightM FindUnique) (insight_findUnique shop productId)
         (fun r0 => insight <- of_res r0 ;;
            match insight with
            | Some i =>
                Await (Call ProductInsightM Update)
                      (insight_update (ins_id i) (mirror QUEUED None))
                      (fun r1 => of_res r1 ;; Ret tt)
            | None => Ret tt
            end ;; Ret (Some (job_id j)))) ->
    (forall e, f (Err e) = Throw e) ->
    owns (fun _ k' c' => k' = k /\ (c' = c \/ c' = spent rho c))
         (Await (Call InsightJobM Create) (job_create shop productId rho QUEUED) f) k c).
  { intros f Hok Herr.
    apply owns_job_create; [exact Hc | | intros e; rewrite Herr; exact I].
    intros j. rewrite Hok. apply owns_quiet; [auto with quiet |].
    intros w _ Hsat. exists k. split; [exact Hsat |].
    destruct (fst (insight_findUnique shop productId w)) as [[i|]|e]; cbn.
    - apply owns_quiet; [auto with quiet |].
      intros w' _ Hsat'. exists k. split; [exact Hsat' |].
      destruct (fst (insight_update _ _ w')); cbn; [| exact I].
      split; [reflexivity | right; reflexivity].
    - split; [reflexivity | right; reflexivity].
    - exact I. }
  apply owns_quiet; [auto with quiet |].
  intros w _ Hsat. exists k. split; [exact Hsat |].
  destruct (fst (job_findFirst _ w)) as [[e|]|err]; [destruct force | |]; cbn.
  - apply owns_job_update_down; [exact superseded_down |].
    intros [u|err]; cbn; [| exact I].
    apply Hcreate; intros; reflexivity.
  - split; [reflexivity | left; reflexivity].
  - apply Hcreate; intros; reflexivity.
  - exact I.
Qed.

(** [enqueueBatch] needs one credit on its run for each product. *)
Lemma owns_enqueueBatch_loop (shop : string) (runId : Id) (productIds : list string) :
  forall (enqueued : Z) (k : Knows) (c : Credits),
  Z.of_nat (List.length productIds) <= credit c runId ->
  owns any_end (enqueueBatch_loop enqueued shop productIds runId) k c.
Proof.
  induction productIds as [|productId rest IH]; intros enqueued k c Hlen.
  - exact I.
  - cbn [enqueueBatch_loop]. cbn [List.length] in Hlen.
    assert (Hin : In runId c) by (apply credit_pos_In; lia).
    pose proof (credit_remove_one c runId runId Hin) as Hrem.
    rewrite Nat.eqb_refl in Hrem.
    apply owns_bind.
    refine (owns_weaken _ _ _ _ _ k c
              (owns_enqueueInsightJob shop productId (Some runId) false k c _)).
    + intros id k' c' [-> [-> | ->]]; apply IH; cbn [spent]; lia.
    + intros r [= <-]. exact Hin.
Qed.

Lemma owns_action (shop : string) (formData : Insights.FormData) :
  owns any_end (task (FormAction shop formData)) [] [].
Proof.
  cbn [task]. unfold Insights.action.
  destruct (Insights.intent_is formData "batch").
  - cbv zeta.
    set (productIds := match Insights.fd_productIds formData with
                       | Some raw => _ | None => [] end).
    clearbody productIds.
    destruct (Nat.eqb (List.length productIds) 0); cbn [bind]; [exact I |].
    apply owns_run_create. intros run. cbn [bind of_res app].
    apply owns_bind, owns_bind.
    refine (owns_weaken _ _ _ _ _ _ _
              (owns_enqueueBatch_loop shop (run_id run) productIds 0 [] _ _)).
    + intros n k c _. exact I.
    + rewrite credit_repeat, Nat.eqb_refl. lia.
  - destruct (Insights.fd_productId formData) as [productId|]; [| exact I].
    destruct (_ || _); [exact I |]. cbn [bind await of_res].
    apply owns_quiet; [auto with quiet |].
    intros w _ Hsat. exists []. split; [exact Hsat |].
    destruct (fst (insight_findUnique shop productId w)) as [[i|]|e]; cbn [bind of_res];
      [| exact I | exact I].
    apply owns_bind, owns_bind.
    refine (owns_weaken _ _ _ _ _ _ _
              (owns_enqueueInsightJob shop productId None _ [] [] _)).
    + intros [id|] k c _; exact I.
    + intros r [=].
Qed.

End Enqueued.

Module Worked.
Import Prisma Jobs Accounting Guarantees Nodes Enqueued.

Ltac run_proc :=
  cbn [bind await of_res try_catch new_Date generateProductInsightExplanation].

(** A claim leaves the caller with the credit the Job had in the queue. *)
Lemma owns_claimNextJob : owns claim_post claimNextJob [] [].
Proof.
  unfold claimNextJob, select_and_claim. run_proc. intros now.
  apply owns_quiet; [auto with quiet |].
  intros w _ _. unfold job_findFirst_orderBy_createdAt. cbn [fst].
  destruct (oldest _) as [c0|] eqn:E.
  2:{ exists []. split; [intros id rho []| exact I]. }
  exists [(job_id c0, job_runId c0)]. split.
  { intros id rho [[= <- <-]|[]]. exists c0.
    apply ClaimFacts.oldest_In, filter_In in E. tauto. }
  unfold claim_candidate. run_proc. intros t.
  apply owns_fence; [left; reflexivity | exact I |].
  intros n. cbn [Nat.eqb bind after_transaction]. unfold load_insight. run_proc.
  apply owns_quiet; [auto with quiet |].
  intros w' _ Hsat'. eexists. split; [exact Hsat' |].
  destruct (fst (insight_findUnique _ _ w')) as [[i|]|e]; run_proc; [| | exact I].
  - unfold return_claimed. run_proc.
    apply owns_quiet; [auto with quiet |].
    intros w'' _ Hsat''. eexists. split; [exact Hsat'' |].
    destruct (fst (insight_update _ _ w'')); run_proc; [| exact I].
    split; [left; reflexivity |].
    cbn. intros r ->. left. reflexivity.
  - unfold fail_without_insight. run_proc.
    apply owns_job_update_down; [exact insight_missing_down |].
    intros [u|e]; exact I.
Qed.

Lemma job_succeeded_down : jd_status job_succeeded <> Some QUEUED.
Proof. discriminate. Qed.

(** [processJob] spends the credit of its Job once: on a counter of the
    run, or on putting the Job back in the queue. *)
Lemma owns_processJob (jobId : Id) (insight : InsightSnapshot)
      (shop productId : string) (rho : option Id) (k : Knows) (c : Credits) :
  In (jobId, rho) k ->
  (forall r, rho = Some r -> In r c) ->
  owns any_end (processJob jobId insight shop productId rho) k c.
Proof.
  intros Hk Hc. unfold processJob.
  match goal with
  | |- owns _ (try_catch _ ?h) _ _ =>
      assert (Hh : forall err, owns any_end (h err) k c); [| generalize h Hh; intros h' Hh']
  end.
  { intros err. cbv zeta. run_proc.
    apply owns_quiet; [auto with quiet |].
    intros w _ Hsat. exists k. split; [exact Hsat |].
    destruct (fst (job_findUnique jobId w)) as [job|e]; run_proc; [| exact I].
    set (attempts := match job with Some j => job_attempts j | None => 1 end).
    clearbody attempts. intros now.
    destruct (attempts <? MAX_ATTEMPTS) eqn:E.
    - apply (owns_tx_pair_requeue _ _ _ _ _ _ _ rho); [exact Hk | exact Hc |].
      intros [u|e]; run_proc; [| exact I].
      destruct rho as [r|]; [| exact I].
      apply Z.ltb_lt in E. apply Z.leb_gt in E. rewrite E. exact I.
    - apply owns_tx_pair_down; [discriminate |].
      intros [u|e]; run_proc; [| exact I].
      destruct rho as [r|]; [| exact I].
      apply Z.ltb_ge in E. apply Z.leb_le in E. rewrite E. run_proc.
      apply owns_run_update.
      + right. split; [reflexivity | exact (Hc r eq_refl)].
      + intros run. exact I.
      + intros e. exact I. }
  run_proc. intros now [[output model]|e]; run_proc; [| apply Hh'].
  intros t. apply owns_tx_pair_down; [exact job_succeeded_down |].
  intros [u|e]; run_proc; [| apply Hh'].
  destruct rho as [r|]; run_proc; [| exact I].
  apply owns_run_update.
  - right. split; [reflexivity | exact (Hc r eq_refl)].
  - intros run. exact I.
  - intros e. run_proc. apply Hh'.
Qed.

Lemma owns_tick : owns any_end (task WorkerTick) [] [].
Proof.
  cbn [task]. unfold Worker.tick. apply owns_bind, owns_bind.
  refine (owns_weaken _ _ _ _ _ _ _ owns_claimNextJob).
  intros [[job insight]|] k c H; [| exact I].
  destruct H as [Hk Hc]. apply owns_bind.
  refine (owns_weaken _ _ _ _ _ _ _
            (owns_processJob (cj_id job) insight (cj_shop job) (cj_productId job)
                             (cj_runId job) k c Hk Hc)).
  intros; exact I.
Qed.

(** Every task of the system keeps its accounts. *)
Lemma owns_task (t : Task) : owns any_end (task t) [] [].
Proof.
  destruct t as [shop formData| |].
  - apply owns_action.
  - apply owns_tick.
  - apply Owned.owns_updateRunCompletion.
Qed.

End Worked.

Module Reconciliation.
Import Prisma.

Lemma completed_twice (t : Time) (r : Run) :
  run_apply (Worker.completed t) (run_apply (Worker.completed t) r)
  = run_apply (Worker.completed t) r.
Proof. reflexivity. Qed.

Lemma run_id_find (runs : list Run) (id : Id) :
  In id (map run_id runs) -> exists r, find_key run_id id runs = Some r.
Proof.
  intros H. apply in_map_iff in H. destruct H as (r & <- & Hr).
  exact (In_find_key Run run_id runs r Hr).
Qed.

(** One pass over the listed runs, alone on the store. *)
Lemma updateRunCompletion_loop_run (ai : AIInsightInput -> AiResult) (runs : list Run) :
  forall w,
  (forall r, In r runs -> In (run_id r) (map run_id (runT (db w)))) ->
  result (run ai (Worker.updateRunCompletion_loop runs) w) = Ok tt
  /\ insightJob (db (final (run ai (Worker.updateRunCompletion_loop runs) w)))
     = insightJob (db w)
  /\ clock (final (run ai (Worker.updateRunCompletion_loop runs) w)) = clock w
  /\ runT (db (final (run ai (Worker.updateRunCompletion_loop runs) w)))
     = map (fun r => if listed runs r && no_pending w r
                     then run_apply (Worker.completed (clock w)) r else r)
           (runT (db w)).
Proof.
  induction runs as [|x rest IH]; intros w Hin.
  - cbn. rewrite map_id. repeat split.
  - cbn [Worker.updateRunCompletion_loop]. unfold job_count.
    cbn [run bind await of_res fst snd].
    destruct (run_id_find _ _ (Hin x (or_introl eq_refl))) as (r0 & Hr0).
    destruct (Nat.eqb _ 0) eqn:E.
    + cbn [run bind await of_res new_Date]. unfold run_update. rewrite Hr0.
      cbn [run bind await of_res fst snd].
      set (w1 := with_runs _ w).
      assert (Hin1 : forall r, In r rest -> In (run_id r) (map run_id (runT (db w1)))).
      { intros r Hr. subst w1. cbn [with_runs db runT]. unfold update_key.
        rewrite map_map.
        rewrite (map_ext _ run_id); [apply Hin; right; exact Hr |].
        intros a. destruct (Nat.eqb (run_id a) (run_id x)); reflexivity. }
      specialize (IH w1 Hin1).
      destruct (run ai (Worker.updateRunCompletion_loop rest) w1) as [[res w2] tr].
      cbn [result final fst snd] in *.
      destruct IH as (-> & Hj & Hc & Hr).
      split; [reflexivity |]. split; [exact Hj |]. split; [exact Hc |].
      rewrite Hr. subst w1. cbn [with_runs db runT clock]. unfold update_key.
      rewrite map_map. apply map_ext. intros a.
      unfold listed, no_pending. cbn [existsb with_runs db insightJob run_apply run_id].
      rewrite (Nat.eqb_sym (run_id x) (run_id a)).
      destruct (Nat.eqb (run_id a) (run_id x)) eqn:Ea; cbn [orb andb run_apply run_id].
      * apply Nat.eqb_eq in Ea. rewrite Ea, E.
        destruct (existsb _ rest); reflexivity.
      * reflexivity.
    + cbn [run bind await of_res].
      specialize (IH w (fun r Hr => Hin r (or_intror Hr))).
      destruct (run ai (Worker.updateRunCompletion_loop rest) w) as [[res w2] tr].
      cbn [result final fst snd] in *.
      destruct IH as (-> & Hj & Hc & Hr).
      split; [reflexivity |]. split; [exact Hj |]. split; [exact Hc |].
      rewrite Hr. apply map_ext_in. intros a Ha.
      unfold listed, no_pending. cbn [existsb].
      rewrite (Nat.eqb_sym (run_id x) (run_id a)).
      destruct (Nat.eqb (run_id a) (run_id x)) eqn:Ea; cbn [orb andb]; [| reflexivity].
      apply Nat.eqb_eq in Ea. rewrite Ea, E.
      rewrite Bool.andb_false_r. reflexivity.
Qed.

Lemma same_run_row (runs : list Run) (a b : Run) :
  NoDup (map run_id runs) -> In a runs -> In b runs -> run_id a = run_id b -> a = b.
Proof.
  induction runs as [|x runs IH]; cbn; [intros _ []|].
  intros Hnd Ha Hb Heq. inversion Hnd as [|? ? Hnot Hnd']; subst.
  destruct Ha as [->|Ha], Hb as [->|Hb]; auto.
  - exfalso. apply Hnot. rewrite Heq. apply in_map. exact Hb.
  - exfalso. apply Hnot. rewrite <- Heq. apply in_map. exact Ha.
Qed.

(** With unique identities, the listed runs are the RUNNING ones. *)
Lemma listed_running (runs : list Run) (r : Run) :
  NoDup (map run_id runs) -> In r runs ->
  listed (filter (fun x => run_status_eqb (run_status x) RUN_RUNNING) runs) r
  = run_status_eqb (run_status r) RUN_RUNNING.
Proof.
  intros Hnd Hr. unfold listed.
  destruct (run_status_eqb (run_status r) RUN_RUNNING) eqn:E.
  - apply existsb_exists. exists r. split; [| apply Nat.eqb_refl].
    apply filter_In. split; assumption.
  - destruct (existsb _ _) eqn:Ex; [| reflexivity].
    apply existsb_exists in Ex. destruct Ex as (y & Hy & Hid).
    apply filter_In in Hy. destruct Hy as [Hy Hrun]. apply Nat.eqb_eq in Hid.
    rewrite (same_run_row runs y r Hnd Hy Hr Hid) in Hrun. congruence.
Qed.

(** [updateRunCompletion], alone on the store. *)
Lemma updateRunCompletion_run (ai : AIInsightInput -> AiResult) (w : World) :
  NoDup (map run_id (runT (db w))) ->
  result (run ai Worker.updateRunCompletion w) = Ok tt
  /\ insightJob (db (final (run ai Worker.updateRunCompletion w))) = insightJob (db w)
  /\ clock (final (run ai Worker.updateRunCompletion w)) = clock w
  /\ runT (db (final (run ai Worker.updateRunCompletion w)))
     = map (reconciled w) (runT (db w)).
Proof.
  intros Hnd. unfold Worker.updateRunCompletion, run_findMany.
  cbn [run bind await of_res fst snd].
  set (runs := filter _ (runT (db w))).
  assert (Hin : forall r, In r runs -> In (run_id r) (map run_id (runT (db w)))).
  { intros r Hr. apply in_map. apply filter_In in Hr. apply Hr. }
  pose proof (updateRunCompletion_loop_run ai runs w Hin) as H.
  destruct (run ai (Worker.updateRunCompletion_loop runs) w) as [[res w2] tr].
  cbn [result final fst snd] in *.
  destruct H as (-> & Hj & Hc & Hr).
  split; [reflexivity |]. split; [exact Hj |]. split; [exact Hc |].
  rewrite Hr. apply map_ext_in. intros a Ha. unfold reconciled. subst runs.
  rewrite (listed_running _ a Hnd Ha). reflexivity.
Qed.

(** A reconciled run is not reconciled again. *)
Lemma reconciled_twice (w w' : World) (r : Run) :
  insightJob (db w') = insightJob (db w) ->
  reconciled w' (reconciled w r) = reconciled w r.
Proof.
  intros Hj. unfold reconciled.
  destruct (run_status_eqb (run_status r) RUN_RUNNING && no_pending w r) eqn:E.
  - reflexivity.
  - unfold no_pending in *. rewrite Hj, E. reflexivity.
Qed.

Lemma reconciled_id (w : World) (r : Run) : run_id (reconciled w r) = run_id r.
Proof. unfold reconciled. destruct (_ && _); reflexivity. Qed.

End Reconciliation.

Module Started.
Import Accounting Reconciliation.

Lemma all_credits_start (tasks : list Task) :
  all_credits (map (fun _ : Task => (@nil (Id * option Id), @nil Id)) tasks) = [].
Proof. induction tasks as [|t tasks IH]; [reflexivity | exact IH]. Qed.

(** Before any call is made no process knows or holds anything. *)
Lemma accounts_inv_start (tasks : list Task) (w : World) :
  store_ok w -> accounts_inv (start (map task tasks) w).
Proof.
  intros [Hwf Hslack].
  exists (map (fun _ : Task => (@nil (Id * option Id), @nil Id)) tasks).
  cbn [start pool world]. split; [| split; [exact Hwf |]].
  - induction tasks as [|t tasks IH]; cbn [map]; constructor; [| exact IH].
    cbn [fst snd]. split; [apply Worked.owns_task |].
    split; [intros id rho [] | intros r []].
  - intros r Hr. rewrite all_credits_start. exact (Hslack r Hr).
Qed.

Lemma store_ok_empty : store_ok empty_world.
Proof.
  split.
  - unfold store_wf. cbn.
    split; [apply NoDup_nil |]. split; [apply NoDup_nil |].
    split; [intros j [] |]. split; [intros r [] | intros j r []].
  - intros r [].
Qed.

End Started.

(** C6 as stated does not hold: [completedAt] can be set while a child
    Job is QUEUED.  A batch for one product is submitted on an empty store
    while the worker reconciles.  After five calls the Job 1 of run 0 is
    QUEUED and the run has no [completedAt]; the worker, which counted
    the pending Jobs before the Job was created, then makes its
    [run.update]: run 0 is COMPLETED with [completedAt] set, and Job 1 is
    still QUEUED. *)
Lemma updateRunCompletion_completes_early :
  option_map job_status (job_row (world early_completion_before) 1) = Some QUEUED
  /\ option_map job_runId (job_row (world early_completion_before) 1) = Some (Some 0%nat)
  /\ option_map run_completedAt (run_row (world early_completion_before) 0) = Some None
  /\ history early_completion
     = (history early_completion_before ++ [(1%nat, Call RunM Update)])%list
  /\ option_map run_status (run_row (world early_completion) 0) = Some RUN_COMPLETED
  /\ option_map run_completedAt (run_row (world early_completion) 0) = Some (Some 0)
  /\ option_map job_status (job_row (world early_completion) 1) = Some QUEUED
  /\ option_map job_runId (job_row (world early_completion) 1) = Some (Some 0%nat).
Proof. vm_compute. repeat split. Qed.

(** C6 amended.  From a store in which, for every run, the counters and
    the QUEUED children do not exceed [productsQueued], and whatever form
    actions, worker ticks and reconciliation passes run against it, in
    every interleaving of their store calls and at every point of it:
    [succeeded + failed <= productsQueued] for every run.  A
    reconciliation pass that runs alone on the store returns, leaves the
    Jobs as they are, completes at the time of the pass exactly the
    RUNNING runs that have no QUEUED or RUNNING child, and a second pass
    writes nothing. *)
Theorem run_counters_bounded (tasks : list Task) (w : World) (evs : list Event)
        (ai : AIInsightInput -> AiResult) (Hok : store_ok w) :
  (forall r, In r (runT (db (world (exec (start (map task tasks) w) evs)))) ->
             run_succeeded r + run_failed r <= run_productsQueued r)
  /\ result (run ai Worker.updateRunCompletion w) = Ok tt
  /\ insightJob (db (final (run ai Worker.updateRunCompletion w))) = insightJob (db w)
  /\ runT (db (final (run ai Worker.updateRunCompletion w)))
     = map (reconciled w) (runT (db w))
  /\ runT (db (final (run ai Worker.updateRunCompletion
                          (final (run ai Worker.updateRunCompletion w)))))
     = runT (db (final (run ai Worker.updateRunCompletion w))).
Proof.
  split.
  { intros r Hr.
    apply (Accounting.accounts_bound (exec (start (map task tasks) w) evs) r); [| exact Hr].
    apply Accounting.accounts_inv_exec, Started.accounts_inv_start, Hok. }
  destruct Hok as [(_ & Hnd & _) _].
  destruct (Reconciliation.updateRunCompletion_run ai w Hnd) as (Hres & Hj & Hc & Hr).
  split; [exact Hres |]. split; [exact Hj |]. split; [exact Hr |].
  set (w' := final (run ai Worker.updateRunCompletion w)) in *.
  assert (Hnd' : NoDup (map run_id (runT (db w')))).
  { rewrite Hr, map_map.
    rewrite (map_ext _ run_id); [exact Hnd |].
    intros a. apply Reconciliation.reconciled_id. }
  destruct (Reconciliation.updateRunCompletion_run ai w' Hnd') as (_ & _ & _ & Hr').
  rewrite Hr', Hr, map_map. apply map_ext. intros a.
  apply Reconciliation.reconciled_twice. exact Hj.
Qed.

(** C6 amended, at a system: a batch, a reconciliation pass and a worker
    tick on the empty store, in the order in which the run is completed
    early. *)
Lemma run_counters_bounded_witness :
  store_ok empty_world
  /\ (forall r,
        In r (runT (db (world (exec (start (map task three_tasks) empty_world)
                                    early_completion_schedule)))) ->
        run_succeeded r + run_failed r <= run_productsQueued r).
Proof.
  split; [exact Started.store_ok_empty |].
  exact (proj1 (run_counters_bounded three_tasks empty_world early_completion_schedule
                                     ai_up Started.store_ok_empty)).
Defined.

(** * Further properties of the code *)

(** ** Running a sequence of calls *)

Module RunFacts.

Lemma run_bind (A B : Type) (ai : AIInsightInput -> AiResult) (p : Proc A)
      (f : A -> Proc B) :
  forall w,
  run ai (bind p f) w
  = match run ai p w with
    | (Ok a, w1, tr) =>
        let '(res, w2, tr2) := run ai (f a) w1 in (res, w2, tr ++ tr2)
    | (Err e, w1, tr) => (Err e, w1, tr)
    end.
Proof.
  induction p as [a|e|g IH|X l s g IH|i g IH]; intros w; cbn [bind run].
  - destruct (run ai (f a) w) as [[res w2] tr2]. reflexivity.
  - reflexivity.
  - apply IH.
  - destruct (s w) as [r w1]. rewrite IH.
    destruct (run ai (g r) w1) as [[[a|e] w2] tr]; [| reflexivity].
    destruct (run ai (f a) w2) as [[res w3] tr2]. reflexivity.
  - rewrite IH.
    destruct (run ai (g (ai i)) w) as [[[a|e] w2] tr]; [| reflexivity].
    destruct (run ai (f a) w2) as [[res w3] tr2]. reflexivity.
Qed.

Lemma run_try_catch (A : Type) (ai : AIInsightInput -> AiResult) (p : Proc A)
      (h : Thrown -> Proc A) :
  forall w,
  run ai (try_catch p h) w
  = match run ai p w with
    | (Ok a, w1, tr) => (Ok a, w1, tr)
    | (Err e, w1, tr) =>
        let '(res, w2, tr2) := run ai (h e) w1 in (res, w2, tr ++ tr2)
    end.
Proof.
  induction p as [a|e|g IH|X l s g IH|i g IH]; intros w; cbn [try_catch run].
  - reflexivity.
  - destruct (run ai (h e) w) as [[res w2] tr2]. reflexivity.
  - apply IH.
  - destruct (s w) as [r w1]. rewrite IH.
    destruct (run ai (g r) w1) as [[[a|e] w2] tr]; [reflexivity |].
    destruct (run ai (h e) w2) as [[res w3] tr2]. reflexivity.
  - rewrite IH.
    destruct (run ai (g (ai i)) w) as [[[a|e] w2] tr]; [reflexivity |].
    destruct (run ai (h e) w2) as [[res w3] tr2]. reflexivity.
Qed.

(** The same, by result and final world. *)
Lemma result_bind (A B : Type) (ai : AIInsightInput -> AiResult) (p : Proc A)
      (f : A -> Proc B) (w : World) :
  result (run ai (bind p f) w)
  = match result (run ai p w) with
    | Ok a => result (run ai (f a) (final (run ai p w)))
    | Err e => Err e
    end.
Proof.
  rewrite run_bind. unfold result, final.
  destruct (run ai p w) as [[[a|e] w1] tr]; cbn [fst snd]; [| reflexivity].
  destruct (run ai (f a) w1) as [[res w2] tr2]. reflexivity.
Qed.

Lemma final_bind (A B : Type) (ai : AIInsightInput -> AiResult) (p : Proc A)
      (f : A -> Proc B) (w : World) :
  final (run ai (bind p f) w)
  = match result (run ai p w) with
    | Ok a => final (run ai (f a) (final (run ai p w)))
    | Err e => final (run ai p w)
    end.
Proof.
  rewrite run_bind. unfold result, final.
  destruct (run ai p w) as [[[a|e] w1] tr]; cbn [fst snd]; [| reflexivity].
  destruct (run ai (f a) w1) as [[res w2] tr2]. reflexivity.
Qed.

Lemma result_try_catch (A : Type) (ai : AIInsightInput -> AiResult) (p : Proc A)
      (h : Thrown -> Proc A) (w : World) :
  result (run ai (try_catch p h) w)
  = match result (run ai p w) with
    | Ok a => Ok a
    | Err e => result (run ai (h e) (final (run ai p w)))
    end.
Proof.
  rewrite run_try_catch. unfold result, final.
  destruct (run ai p w) as [[[a|e] w1] tr]; cbn [fst snd]; [reflexivity |].
  destruct (run ai (h e) w1) as [[res w2] tr2]. reflexivity.
Qed.

Lemma final_try_catch (A : Type) (ai : AIInsightInput -> AiResult) (p : Proc A)
      (h : Thrown -> Proc A) (w : World) :
  final (run ai (try_catch p h) w)
  = match result (run ai p w) with
    | Ok a => final (run ai p w)
    | Err e => final (run ai (h e) (final (run ai p w)))
    end.
Proof.
  rewrite run_try_catch. unfold result, final.
  destruct (run ai p w) as [[[a|e] w1] tr]; cbn [fst snd]; [reflexivity |].
  destruct (run ai (h e) w1) as [[res w2] tr2]. reflexivity.
Qed.

End RunFacts.

(** ** Enqueueing *)

Module EnqueueMore.
Import Prisma Jobs PrismaFacts.

Lemma has_active_find (shop productId : string) (jobs : list InsightJob) :
  has_active shop productId jobs = false ->
  find (is_active_for shop productId) jobs = None.
Proof.
  unfold has_active. intros H.
  destruct (find _ jobs) as [e|] eqn:E; [| reflexivity].
  apply find_some in E. destruct E as [Hin He].
  assert (Hex : existsb (is_active_for shop productId) jobs = true).
  { apply existsb_exists. exists e. auto. }
  congruence.
Qed.

Lemma find_has_active (shop productId : string) (jobs : list InsightJob) (e : InsightJob) :
  find (is_active_for shop productId) jobs = Some e ->
  has_active shop productId jobs = true.
Proof.
  intros E. apply find_some in E. apply existsb_exists. exists e. exact E.
Qed.

(** The call on a product without an active Job. *)
Lemma enqueueInsightJob_fresh_run ai w shop productId runId force :
  find (is_active_for shop productId) (insightJob (db w)) = None ->
  (forall r, runId = Some r -> run_row w r <> None) ->
  result (run ai (enqueueInsightJob shop productId runId force) w) = Ok (Some (nextId w))
  /\ insightJob (db (final (run ai (enqueueInsightJob shop productId runId force) w)))
     = insightJob (db w) ++ [new_job w shop productId runId]
  /\ productInsight (db (final (run ai (enqueueInsightJob shop productId runId force) w)))
     = match insight_of_product w shop productId with
       | Some i => update_key ins_id (ins_id i) (insight_apply (mirror QUEUED None))
                              (productInsight (db w))
       | None => productInsight (db w)
       end
  /\ runT (db (final (run ai (enqueueInsightJob shop productId runId force) w)))
     = runT (db w)
  /\ nextId (final (run ai (enqueueInsightJob shop productId runId force) w))
     = S (nextId w)
  /\ clock (final (run ai (enqueueInsightJob shop productId runId force) w)) = clock w.
Proof.
  intros Hnone Hrun.
  unfold enqueueInsightJob. cbn. unfold job_findFirst. rewrite Hnone. cbn.
  rewrite EnqueueFacts.job_create_ok by exact Hrun. cbn.
  set (w2 := bump_id _).
  unfold insight_of_product.
  change (productInsight (db w)) with (productInsight (db w2)).
  unfold insight_findUnique. cbn [fst snd].
  destruct (find _ (productInsight (db w2))) as [i|] eqn:Hfind; cbn.
  - pose proof (find_some _ _ Hfind) as [Hin _].
    destruct (In_find_key ProductInsight ins_id _ _ Hin) as [i0 Hi0].
    erewrite insight_update_found by exact Hi0. cbn.
    repeat split.
  - repeat split.
Qed.

End EnqueueMore.

(** X1 (enqueueInsightJob).  When [(shop, productId)] has no QUEUED or
    RUNNING Job (and the run, if one is given, exists), the call, forced
    or not, appends exactly one QUEUED Job with no attempts for the
    product and the run and returns its id; the product's Insight row, if
    there is one, has its mirror set to QUEUED with the error cleared;
    no other Job and no Run is changed. *)
Theorem enqueueInsightJob_fresh
  (ai : AIInsightInput -> AiResult) (w : World) (shop productId : string)
  (runId : option Id) (force : bool) :
  has_active shop productId (insightJob (db w)) = false ->
  (forall r, runId = Some r -> run_row w r <> None) ->
  let out := run ai (Jobs.enqueueInsightJob shop productId runId force) w in
  result out = Ok (Some (nextId w))
  /\ insightJob (db (final out)) = insightJob (db w) ++ [new_job w shop productId runId]
  /\ productInsight (db (final out))
     = match insight_of_product w shop productId with
       | Some i => update_key ins_id (ins_id i) (insight_apply (Jobs.mirror QUEUED None))
                              (productInsight (db w))
       | None => productInsight (db w)
       end
  /\ (forall i, insight_of_product w shop productId = Some i ->
        exists i', insight_row (final out) (ins_id i) = Some i'
                   /\ ins_aiStatus i' = Some QUEUED /\ ins_aiError i' = None)
  /\ runT (db (final out)) = runT (db w).
Proof.
  intros Hact Hrun out.
  destruct (EnqueueMore.enqueueInsightJob_fresh_run ai w shop productId runId force
              (EnqueueMore.has_active_find _ _ _ Hact) Hrun)
    as (Hres & Hjobs & Hins & Hruns & _).
  fold out in Hres, Hjobs, Hins, Hruns.
  split; [exact Hres |]. split; [exact Hjobs |]. split; [exact Hins |].
  split; [| exact Hruns].
  intros i Hi. rewrite Hi in Hins.
  unfold insight_of_product in Hi. apply find_some in Hi. destruct Hi as [Hin _].
  destruct (In_find_key ProductInsight ins_id _ _ Hin) as [i0 Hi0].
  exists (insight_apply (Jobs.mirror QUEUED None) i0).
  split; [| split; reflexivity].
  unfold insight_row. rewrite Hins.
  rewrite (find_key_update_key ProductInsight ins_id) by (intros r; reflexivity).
  rewrite Hi0. reflexivity.
Qed.

(** X1, at a world: a first request for "p1". *)
Lemma enqueueInsightJob_fresh_witness :
  result (run ai_up (Jobs.enqueueInsightJob shop_a "p1" None false)
              (a_world [] [an_insight 3 "p1"] []))
  = Ok (Some 100%nat).
Proof.
  refine (proj1 (enqueueInsightJob_fresh ai_up (a_world [] [an_insight 3 "p1"] [])
                   shop_a "p1" None false eq_refl _)).
  intros r Hr. discriminate Hr.
Defined.

Module BatchFacts.
Import Prisma Jobs PrismaFacts EnqueueMore.

Lemma has_active_app (shop productId : string) (a b : list InsightJob) :
  has_active shop productId (a ++ b)
  = has_active shop productId a || has_active shop productId b.
Proof. apply existsb_app. Qed.

Lemma has_active_some (shop productId : string) (jobs : list InsightJob) :
  has_active shop productId jobs = true ->
  exists e, find (is_active_for shop productId) jobs = Some e.
Proof.
  intros H. destruct (find _ jobs) as [e|] eqn:E; [eauto |].
  apply existsb_exists in H. destruct H as (x & Hx & Hact).
  pose proof (find_none _ _ E x Hx). congruence.
Qed.

Lemma new_job_active (w : World) (shop productId : string) (runId : option Id) :
  is_active_for shop productId (new_job w shop productId runId) = true.
Proof.
  unfold is_active_for, new_job. cbn. rewrite !String.eqb_refl. reflexivity.
Qed.

(** Without [force] a product with an active Job is passed over. *)
Lemma enqueueInsightJob_skip_run ai w shop productId runId :
  has_active shop productId (insightJob (db w)) = true ->
  result (run ai (enqueueInsightJob shop productId runId false) w) = Ok None
  /\ final (run ai (enqueueInsightJob shop productId runId false) w) = w.
Proof.
  intros H. destruct (has_active_some _ _ _ H) as [e He].
  unfold enqueueInsightJob. cbn. unfold job_findFirst. rewrite He. cbn. auto.
Qed.

Lemma enqueueBatch_loop_run ai shop runId (productIds : list string) :
  forall (w : World) (enqueued : Z),
  run_row w runId <> None ->
  exists new : list InsightJob,
    insightJob (db (final (run ai (enqueueBatch_loop enqueued shop productIds runId) w)))
    = insightJob (db w) ++ new
    /\ result (run ai (enqueueBatch_loop enqueued shop productIds runId) w)
       = Ok (enqueued + Z.of_nat (List.length new))
    /\ (List.length new <= List.length productIds)%nat
    /\ NoDup (map job_productId new)
    /\ (forall j, In j new ->
          job_shop j = shop /\ In (job_productId j) productIds
          /\ job_runId j = Some runId /\ job_status j = QUEUED /\ job_attempts j = 0
          /\ has_active shop (job_productId j) (insightJob (db w)) = false)
    /\ (forall p, In p productIds ->
          has_active shop p
            (insightJob (db (final (run ai (enqueueBatch_loop enqueued shop productIds runId) w))))
          = true)
    /\ runT (db (final (run ai (enqueueBatch_loop enqueued shop productIds runId) w)))
       = runT (db w).
Proof.
  induction productIds as [|p rest IH]; intros w enqueued Hrun.
  - exists []. cbn. rewrite app_nil_r, Z.add_0_r.
    repeat split; try constructor; try (intros ? []); lia.
  - cbn [enqueueBatch_loop]. rewrite RunFacts.result_bind, RunFacts.final_bind.
    destruct (has_active shop p (insightJob (db w))) eqn:Hact.
    + destruct (enqueueInsightJob_skip_run ai w shop p (Some runId) Hact) as [-> ->].
      destruct (IH w enqueued Hrun) as (new & Hjobs & Hres & Hlen & Hnd & Hnew & Hall & Hruns).
      exists new. split; [exact Hjobs |]. split; [exact Hres |].
      split; [cbn [List.length]; lia |]. split; [exact Hnd |].
      split; [| split; [| exact Hruns]].
      * intros j Hj. destruct (Hnew j Hj) as (H1 & H2 & H3). repeat split; try tauto.
        right. exact H2.
      * intros q [<-|Hq]; [| exact (Hall q Hq)].
        rewrite Hjobs, has_active_app, Hact. reflexivity.
    + assert (Hr : forall r, Some runId = Some r -> run_row w r <> None)
        by (intros r [= <-]; exact Hrun).
      destruct (enqueueInsightJob_fresh_run ai w shop p (Some runId) false
                  (has_active_find _ _ _ Hact) Hr)
        as (Hres1 & Hjobs1 & _ & Hruns1 & _).
      rewrite Hres1.
      set (w1 := final (run ai (enqueueInsightJob shop p (Some runId) false) w)) in *.
      assert (Hrun1 : run_row w1 runId <> None).
      { unfold run_row in *. rewrite Hruns1. exact Hrun. }
      destruct (IH w1 (enqueued + 1) Hrun1)
        as (new & Hjobs & Hres & Hlen & Hnd & Hnew & Hall & Hruns).
      exists (new_job w shop p (Some runId) :: new).
      split; [rewrite Hjobs, Hjobs1, <- app_assoc; reflexivity |].
      split; [rewrite Hres; cbn [List.length]; f_equal; lia |].
      split; [cbn [List.length]; lia |].
      split; [| split; [| split; [| rewrite Hruns; exact Hruns1]]].
      * cbn [map]. constructor; [| exact Hnd].
        intros Hin. apply in_map_iff in Hin. destruct Hin as (j & Hp & Hj).
        destruct (Hnew j Hj) as (_ & _ & _ & _ & _ & Hfalse).
        rewrite Hp, Hjobs1, has_active_app in Hfalse.
        apply Bool.orb_false_elim in Hfalse. destruct Hfalse as [_ Hfalse].
        unfold has_active in Hfalse. cbn [existsb] in Hfalse.
        change (job_productId (new_job w shop p (Some runId))) with p in Hfalse.
        rewrite new_job_active in Hfalse. discriminate Hfalse.
      * intros j [<-|Hj].
        -- repeat split; try reflexivity; [left; reflexivity | exact Hact].
        -- destruct (Hnew j Hj) as (H1 & H2 & H3 & H4 & H5 & H6).
           repeat split; try assumption; [right; exact H2 |].
           rewrite Hjobs1, has_active_app in H6.
           apply Bool.orb_false_elim in H6. apply H6.
      * intros q [<-|Hq]; [| exact (Hall q Hq)].
        rewrite Hjobs, Hjobs1, !has_active_app.
        unfold has_active at 2. cbn [existsb]. rewrite new_job_active.
        rewrite Bool.orb_true_r. reflexivity.
Qed.

End BatchFacts.

(** X2 (enqueueBatch).  Run alone for a run that exists, [enqueueBatch]
    only appends Jobs: one QUEUED Job of that run per listed product that
    had no QUEUED or RUNNING Job, and none twice for a product listed
    twice; it returns how many it appended, which is at most the number
    of products listed; afterwards every listed product has an active
    Job; no Run is changed. *)
Theorem enqueueBatch_enqueues_once
  (ai : AIInsightInput -> AiResult) (w : World) (shop : string)
  (productIds : list string) (runId : Id) :
  run_row w runId <> None ->
  let out := run ai (Jobs.enqueueBatch shop productIds runId) w in
  exists new : list InsightJob,
    insightJob (db (final out)) = insightJob (db w) ++ new
    /\ result out = Ok (Z.of_nat (List.length new))
    /\ (List.length new <= List.length productIds)%nat
    /\ NoDup (map job_productId new)
    /\ (forall j, In j new ->
          job_shop j = shop /\ In (job_productId j) productIds
          /\ job_runId j = Some runId /\ job_status j = QUEUED /\ job_attempts j = 0
          /\ has_active shop (job_productId j) (insightJob (db w)) = false)
    /\ (forall p, In p productIds ->
          has_active shop p (insightJob (db (final out))) = true)
    /\ runT (db (final out)) = runT (db w).
Proof.
  intros Hrun out.
  exact (BatchFacts.enqueueBatch_loop_run ai shop runId productIds w 0 Hrun).
Qed.

(** X2, at a world: "p1" is listed twice and "p2" has a RUNNING Job; one
    Job is appended. *)
Lemma enqueueBatch_enqueues_once_witness :
  exists new : list InsightJob,
    insightJob (db (final (run ai_up (Jobs.enqueueBatch shop_a ["p1"; "p2"; "p1"] 5)
                               (a_world [a_job 1 "p2" None RUNNING 1 10] []
                                        [a_run 5 3]))))
    = [a_job 1 "p2" None RUNNING 1 10] ++ new
    /\ result (run ai_up (Jobs.enqueueBatch shop_a ["p1"; "p2"; "p1"] 5)
                   (a_world [a_job 1 "p2" None RUNNING 1 10] [] [a_run 5 3]))
       = Ok (Z.of_nat (List.length new)).
Proof.
  destruct (enqueueBatch_enqueues_once ai_up
              (a_world [a_job 1 "p2" None RUNNING 1 10] [] [a_run 5 3])
              shop_a ["p1"; "p2"; "p1"] 5)
    as (new & Hjobs & Hres & _).
  - discriminate.
  - exists new. split; [exact Hjobs | exact Hres].
Defined.

(** ** One tick of the worker *)

Module TickFacts.
Import Prisma Jobs PrismaFacts.

(** No Job to claim: one lookup, nothing written. *)
Lemma claimNextJob_idle_run ai w :
  (forall j, In j (insightJob (db w)) -> eligible (clock w) j = false) ->
  run ai claimNextJob w = (Ok None, w, [(Call InsightJobM FindFirst, w)]).
Proof.
  intros Hno.
  assert (Hf : filter (eligible (clock w)) (insightJob (db w)) = []).
  { induction (insightJob (db w)) as [|j l IH]; [reflexivity |].
    cbn. rewrite (Hno j (or_introl eq_refl)). apply IH.
    intros x Hx. apply Hno. right. exact Hx. }
  unfold claimNextJob. cbn. unfold job_findFirst_orderBy_createdAt. rewrite Hf.
  reflexivity.
Qed.

(** A claim that finds the Insight. *)
Lemma claimNextJob_found_run ai w c i :
  NoDup (map job_id (insightJob (db w))) ->
  oldest (filter (eligible (clock w)) (insightJob (db w))) = Some c ->
  insight_of_product w (job_shop c) (job_productId c) = Some i ->
  result (run ai claimNextJob w) = Ok (Some (claim_of c i))
  /\ final (run ai claimNextJob w) = claim_world w c i.
Proof.
  intros Hnd Hc Hi.
  pose proof (ClaimFacts.oldest_In _ _ Hc) as Hin.
  apply filter_In in Hin. destruct Hin as [Hin Hel].
  assert (Hq : job_status c = QUEUED).
  { unfold eligible in Hel. apply andb_prop in Hel.
    destruct Hel as [Hs _]. destruct (job_status c); (reflexivity || discriminate). }
  destruct (ClaimFacts.fence_update (insightJob (db w)) c
              (job_apply (clock w) (claimed (clock w))) Hnd Hin Hq) as [Hupd Hcount].
  unfold claimNextJob. cbn.
  unfold job_findFirst_orderBy_createdAt. rewrite Hc. cbn.
  unfold job_updateMany. rewrite Hcount. cbn.
  unfold insight_findUnique. cbn.
  unfold insight_of_product in Hi. rewrite Hi. cbn.
  pose proof (find_some _ _ Hi) as [Hini _].
  destruct (In_find_key ProductInsight ins_id _ _ Hini) as [i0 Hi0].
  unfold insight_update. cbn. unfold find_key in Hi0. rewrite Hi0. cbn.
  split; [reflexivity |].
  unfold final, claim_world, with_insights, with_jobs. cbn. rewrite Hupd. reflexivity.
Qed.

Lemma claim_world_job w c i :
  NoDup (map job_id (insightJob (db w))) ->
  In c (insightJob (db w)) ->
  job_row (claim_world w c i) (job_id c)
  = Some (job_apply (clock w) (claimed (clock w)) c).
Proof.
  intros Hnd Hin. unfold job_row, claim_world.
  cbn [with_jobs with_insights db insightJob].
  rewrite find_key_update_key by reflexivity.
  rewrite (ClaimFacts.find_key_NoDup _ _ Hnd Hin). reflexivity.
Qed.

Lemma claim_world_insight w c i :
  In i (productInsight (db w)) ->
  exists i0, insight_row (claim_world w c i) (ins_id i)
             = Some (insight_apply (mirror RUNNING None) i0).
Proof.
  intros Hin. destruct (In_find_key ProductInsight ins_id _ _ Hin) as [i0 Hi0].
  exists i0. unfold insight_row, claim_world.
  cbn [with_jobs with_insights db productInsight].
  rewrite find_key_update_key by reflexivity. rewrite Hi0. reflexivity.
Qed.

(** [tick] after a claim is [processJob] on the claimed Job. *)
Lemma tick_claimed ai w c i :
  NoDup (map job_id (insightJob (db w))) ->
  oldest (filter (eligible (clock w)) (insightJob (db w))) = Some c ->
  insight_of_product w (job_shop c) (job_productId c) = Some i ->
  result (run ai Worker.tick w)
  = match result (run ai (processJob (job_id c) (snapshot i) (job_shop c)
                                     (job_productId c) (job_runId c))
                      (claim_world w c i)) with
    | Ok _ => Ok true
    | Err e => Err e
    end
  /\ final (run ai Worker.tick w)
     = final (run ai (processJob (job_id c) (snapshot i) (job_shop c)
                                 (job_productId c) (job_runId c))
                  (claim_world w c i)).
Proof.
  intros Hnd Hc Hi.
  destruct (claimNextJob_found_run ai w c i Hnd Hc Hi) as [Hres Hfin].
  unfold Worker.tick.
  rewrite RunFacts.result_bind, RunFacts.final_bind, Hres, Hfin.
  cbn [claim_of cj_id cj_shop cj_productId cj_runId].
  rewrite RunFacts.result_bind, RunFacts.final_bind.
  destruct (result (run ai (processJob _ _ _ _ _) (claim_world w c i))); split; reflexivity.
Qed.

End TickFacts.

(** X3 (tick, claimNextJob).  When no Job is QUEUED with [nextRetryAt]
    unset or due, a tick makes the one lookup, writes nothing and reports
    that it did no work: a Job that waits for its retry time is left
    alone. *)
Theorem tick_idle (ai : AIInsightInput -> AiResult) (w : World) :
  (forall j, In j (insightJob (db w)) -> job_status j = QUEUED ->
             exists t, job_nextRetryAt j = Some t /\ clock w < t) ->
  let out := run ai Worker.tick w in
  result out = Ok false
  /\ final out = w
  /\ map fst (trace out) = [Call InsightJobM FindFirst].
Proof.
  intros Hwait out. subst out.
  assert (Hno : forall j, In j (insightJob (db w)) -> Jobs.eligible (clock w) j = false).
  { intros j Hj. unfold Jobs.eligible.
    destruct (job_status j) eqn:Hs; try reflexivity.
    destruct (Hwait j Hj Hs) as (t & -> & Hlt). cbn.
    apply Z.leb_gt. exact Hlt. }
  unfold Worker.tick. rewrite RunFacts.run_bind.
  rewrite (TickFacts.claimNextJob_idle_run ai w Hno). cbn. auto.
Qed.

(** X3, at a world: the only Job is QUEUED for a retry 2000 ms ahead. *)
Lemma tick_idle_witness :
  final (run ai_down Worker.tick
             (a_world [job_apply 100000
                         (Jobs.job_failed true "no" (Some 102000))
                         (a_job 1 "p1" None RUNNING 1 10)]
                      [an_insight 3 "p1"] []))
  = a_world [job_apply 100000 (Jobs.job_failed true "no" (Some 102000))
                       (a_job 1 "p1" None RUNNING 1 10)]
            [an_insight 3 "p1"] [].
Proof.
  refine (proj1 (proj2 (tick_idle ai_down _ _))).
  intros j [<-|[]] _. exists 102000. split; [reflexivity |].
  vm_compute. reflexivity.
Defined.

(** X4 (tick, claimNextJob, processJob).  A tick that claims the Job
    [c] (its Insight and, if it has one, its run exist) and whose
    generation fails counts the attempt and decides on that count: when
    this was the first or second attempt the Job is QUEUED again with
    [nextRetryAt = now + getBackoffMs (attempts before the claim)] and
    no run is touched; when it was the third (or a later one) the Job is
    FAILED with no retry time and [failed] of its run is one higher.
    Either way the tick reports work done and the Job keeps the
    truncated message. *)
Theorem tick_failed_attempt
  (ai : AIInsightInput -> AiResult) (w : World) (c : InsightJob)
  (i : ProductInsight) (e : Thrown) :
  NoDup (map job_id (insightJob (db w))) ->
  oldest (filter (Jobs.eligible (clock w)) (insightJob (db w))) = Some c ->
  insight_of_product w (job_shop c) (job_productId c) = Some i ->
  (forall r, job_runId c = Some r -> run_row w r <> None) ->
  ai (Jobs.ai_input (Jobs.snapshot i) (clock w)) = Err e ->
  let out := run ai Worker.tick w in
  result out = Ok true
  /\ exists c',
       job_row (final out) (job_id c) = Some c'
       /\ job_attempts c' = job_attempts c + 1
       /\ job_lastError c' = Some (Jobs.slice500 (Jobs.message_of e))
       /\ (job_attempts c + 1 < 3 ->
           job_status c' = QUEUED
           /\ job_nextRetryAt c' = Some (clock w + Jobs.getBackoffMs (job_attempts c))
           /\ runT (db (final out)) = runT (db w))
       /\ (3 <= job_attempts c + 1 ->
           job_status c' = FAILED
           /\ job_nextRetryAt c' = None
           /\ forall r rn, job_runId c = Some r -> run_row w r = Some rn ->
                run_row (final out) r = Some (run_apply Jobs.increment_failed rn)).
Proof.
  intros Hnd Hc Hi Hrun Hai out. subst out.
  pose proof (ClaimFacts.oldest_In _ _ Hc) as Hin.
  apply filter_In in Hin. destruct Hin as [Hin _].
  pose proof (find_some _ _ Hi) as [Hini _].
  destruct (TickFacts.tick_claimed ai w c i Hnd Hc Hi) as [Hres Hfin].
  rewrite Hres, Hfin. clear Hres Hfin.
  set (w1 := claim_world w c i).
  set (j := job_apply (clock w) (Jobs.claimed (clock w)) c).
  assert (Hj : job_row w1 (job_id c) = Some j)
    by exact (TickFacts.claim_world_job w c i Hnd Hin).
  destruct (TickFacts.claim_world_insight w c i Hini) as [i0 Hi0].
  fold w1 in Hi0.
  change (ins_id i) with (Jobs.sn_id (Jobs.snapshot i)) in Hi0.
  assert (Hai1 : ai (Jobs.ai_input (Jobs.snapshot i) (clock w1)) = Err e) by exact Hai.
  assert (Hatt : job_attempts j = job_attempts c + 1) by reflexivity.
  destruct (Z_lt_le_dec (job_attempts j) Jobs.MAX_ATTEMPTS) as [Hlt|Hge].
  - rewrite (JobsFacts.processJob_failure_retry ai w1 (job_id c) (Jobs.snapshot i)
               (job_shop c) (job_productId c) (job_runId c) j _ e Hj Hi0 Hai1 Hlt).
    unfold result, final; cbn [fst snd]. split; [reflexivity |].
    eexists. split; [apply JobsFacts.failure_world_job; exact Hj |].
    assert (E : (job_attempts j <? Jobs.MAX_ATTEMPTS) = true) by (apply Z.ltb_lt; exact Hlt).
    rewrite E. split; [reflexivity |]. split; [reflexivity |]. split.
    + intros _. split; [reflexivity |]. split; [| reflexivity].
      cbn. rewrite Z.add_simpl_r. reflexivity.
    + intros H3. unfold Jobs.MAX_ATTEMPTS in Hlt. lia.
  - assert (E : (job_attempts j <? Jobs.MAX_ATTEMPTS) = false) by (apply Z.ltb_ge; exact Hge).
    destruct (job_runId c) as [r|] eqn:Hr.
    + destruct (run_row w r) as [rn|] eqn:Hrn; [| exfalso; exact (Hrun r eq_refl Hrn)].
      assert (Hrn1 : run_row w1 r = Some rn) by exact Hrn.
      rewrite (JobsFacts.processJob_failure_final_run ai w1 (job_id c) (Jobs.snapshot i)
                 (job_shop c) (job_productId c) r rn j _ e Hj Hi0 Hrn1 Hai1 Hge).
      unfold result, final; cbn [fst snd]. split; [reflexivity |].
      eexists. split.
      { unfold job_row. cbn [with_runs db insightJob].
        apply JobsFacts.failure_world_job. exact Hj. }
      rewrite E. split; [reflexivity |]. split; [reflexivity |]. split.
      * intros H3. unfold Jobs.MAX_ATTEMPTS in Hge. lia.
      * intros _. split; [reflexivity |]. split; [reflexivity |].
        intros r' rn' [= <-] Hrn'. rewrite Hrn in Hrn'. injection Hrn' as <-.
        unfold run_row. cbn [with_runs db runT].
        rewrite find_key_update_key by reflexivity.
        unfold run_row in Hrn. cbn [failure_world with_jobs with_insights db runT].
        change (runT (db w1)) with (runT (db w)). rewrite Hrn. reflexivity.
    + rewrite (JobsFacts.processJob_failure_final ai w1 (job_id c) (Jobs.snapshot i)
                 (job_shop c) (job_productId c) j _ e Hj Hi0 Hai1 Hge).
      unfold result, final; cbn [fst snd]. split; [reflexivity |].
      eexists. split; [apply JobsFacts.failure_world_job; exact Hj |].
      rewrite E. split; [reflexivity |]. split; [reflexivity |]. split.
      * intros H3. unfold Jobs.MAX_ATTEMPTS in Hge. lia.
      * intros _. split; [reflexivity |]. split; [reflexivity |].
        intros r' rn' Hr'. discriminate Hr'.
Qed.

(** X4, at a world: the Job of run 5 fails on its third attempt. *)
Lemma tick_failed_attempt_witness :
  result (run ai_down Worker.tick
              (a_world [a_job 1 "p1" (Some 5%nat) QUEUED 2 10] [an_insight 3 "p1"]
                       [a_run 5 1]))
  = Ok true.
Proof.
  refine (proj1 (tick_failed_attempt ai_down
                   (a_world [a_job 1 "p1" (Some 5%nat) QUEUED 2 10] [an_insight 3 "p1"]
                            [a_run 5 1])
                   (a_job 1 "p1" (Some 5%nat) QUEUED 2 10) (an_insight 3 "p1")
                   (ErrorObj "OpenAI returned no content.") _ eq_refl eq_refl _ eq_refl)).
  - repeat constructor. intros [].
  - intros r Hr. injection Hr as <-. discriminate.
Defined.

(** X5 (tick, claimNextJob, processJob).  A tick that claims the Job
    [c] (its Insight and, if it has one, its run exist) and whose
    generation succeeds reports work done and leaves the Job SUCCEEDED
    with the attempt counted and no error, the Insight with the
    explanation, the action type, the model and the mirror SUCCEEDED,
    and [succeeded] of the Job's run one higher. *)
Theorem tick_succeeded
  (ai : AIInsightInput -> AiResult) (w : World) (c : InsightJob)
  (i : ProductInsight) (output : AIInsightOutput) (model : string) :
  NoDup (map job_id (insightJob (db w))) ->
  oldest (filter (Jobs.eligible (clock w)) (insightJob (db w))) = Some c ->
  insight_of_product w (job_shop c) (job_productId c) = Some i ->
  (forall r, job_runId c = Some r -> run_row w r <> None) ->
  ai (Jobs.ai_input (Jobs.snapshot i) (clock w)) = Ok (output, model) ->
  let out := run ai Worker.tick w in
  result out = Ok true
  /\ (exists c',
        job_row (final out) (job_id c) = Some c'
        /\ job_status c' = SUCCEEDED
        /\ job_attempts c' = job_attempts c + 1
        /\ job_lastError c' = None
        /\ job_nextRetryAt c' = None)
  /\ (exists i',
        insight_row (final out) (ins_id i) = Some i'
        /\ ins_aiStatus i' = Some SUCCEEDED
        /\ ins_aiError i' = None
        /\ ins_aiExplanation i' = Some (Jobs.explanation output)
        /\ ins_aiActionType i' = Some (actionType output)
        /\ ins_aiModel i' = Some model
        /\ ins_aiGeneratedAt i' = Some (clock w))
  /\ (forall r rn, job_runId c = Some r -> run_row w r = Some rn ->
        run_row (final out) r = Some (run_apply Jobs.increment_succeeded rn))
  /\ (job_runId c = None -> runT (db (final out)) = runT (db w)).
Proof.
  intros Hnd Hc Hi Hrun Hai out. subst out.
  pose proof (ClaimFacts.oldest_In _ _ Hc) as Hin.
  apply filter_In in Hin. destruct Hin as [Hin _].
  pose proof (find_some _ _ Hi) as [Hini _].
  destruct (TickFacts.tick_claimed ai w c i Hnd Hc Hi) as [Hres Hfin].
  rewrite Hres, Hfin. clear Hres Hfin.
  set (w1 := claim_world w c i).
  set (j := job_apply (clock w) (Jobs.claimed (clock w)) c).
  assert (Hj : job_row w1 (job_id c) = Some j)
    by exact (TickFacts.claim_world_job w c i Hnd Hin).
  destruct (TickFacts.claim_world_insight w c i Hini) as [i0 Hi0].
  fold w1 in Hi0.
  change (ins_id i) with (Jobs.sn_id (Jobs.snapshot i)) in Hi0.
  assert (Hai1 : ai (Jobs.ai_input (Jobs.snapshot i) (clock w1)) = Ok (output, model))
    by exact Hai.
  pose proof (SuccessFacts.processJob_success_run ai w1 (job_id c) (Jobs.snapshot i)
                (job_shop c) (job_productId c) (job_runId c) j _ output model
                Hj Hi0 Hai1) as Hp.
  cbv zeta in Hp.
  pose proof (SuccessFacts.success_world_job w1 (job_id c)
                (Jobs.sn_id (Jobs.snapshot i)) output model j Hj) as Hjob.
  pose proof (SuccessFacts.success_world_insight w1 (job_id c)
                (Jobs.sn_id (Jobs.snapshot i)) output model _ Hi0) as Hins.
  destruct (job_runId c) as [r|] eqn:Hr.
  - destruct (run_row w r) as [rn|] eqn:Hrn; [| exfalso; exact (Hrun r eq_refl Hrn)].
    change (run_row w1 r) with (run_row w r) in Hp. rewrite Hrn in Hp. rewrite Hp.
    unfold result, final; cbn [fst snd]. split; [reflexivity |].
    split; [eexists; split; [exact Hjob | repeat split] |].
    split; [eexists; split; [exact Hins | repeat split] |].
    split; [| intros Hnone; discriminate Hnone].
    intros r' rn' [= <-] Hrn'. rewrite Hrn in Hrn'. injection Hrn' as <-.
    unfold run_row. cbn [with_runs db runT].
    rewrite find_key_update_key by reflexivity.
    unfold run_row in Hrn. change (runT (db (success_world w1 _ _ _ _))) with (runT (db w)).
    rewrite Hrn. reflexivity.
  - rewrite Hp. unfold result, final; cbn [fst snd]. split; [reflexivity |].
    split; [eexists; split; [exact Hjob | repeat split] |].
    split; [eexists; split; [exact Hins | repeat split] |].
    split; [intros r' rn' Hr'; discriminate Hr' | intros _; reflexivity].
Qed.

(** X5, at a world: the Job of run 5 succeeds at its first attempt. *)
Lemma tick_succeeded_witness :
  result (run ai_up Worker.tick
              (a_world [a_job 1 "p1" (Some 5%nat) QUEUED 0 10] [an_insight 3 "p1"]
                       [a_run 5 1]))
  = Ok true.
Proof.
  refine (proj1 (tick_succeeded ai_up
                   (a_world [a_job 1 "p1" (Some 5%nat) QUEUED 0 10] [an_insight 3 "p1"]
                            [a_run 5 1])
                   (a_job 1 "p1" (Some 5%nat) QUEUED 0 10) (an_insight 3 "p1")
                   an_output "gpt-4o-mini" _ eq_refl eq_refl _ eq_refl)).
  - repeat constructor. intros [].
  - intros r Hr. injection Hr as <-. discriminate.
Defined.

(** ** What the requests and the worker never undo *)

Module History.
Import Prisma Jobs.

Section Rows.
Variable Row : Type.
Variable P : Row -> Row -> Prop.
Hypothesis P_refl : forall x, P x x.
Hypothesis P_trans : forall x y z, P x y -> P y z -> P x z.

Lemma Forall2_same (l : list Row) : Forall2 P l l.
Proof. induction l; constructor; auto. Qed.

Lemma Forall2_chain (l1 l2 l3 : list Row) :
  Forall2 P l1 l2 -> Forall2 P l2 l3 -> Forall2 P l1 l3.
Proof.
  intros H. revert l3. induction H as [|x y l1 l2 Hxy H IH]; intros l3 H3.
  - inversion H3. constructor.
  - inversion H3 as [|? z ? l3' Hyz H3']; subst. constructor; eauto.
Qed.

Lemma Forall2_mapped (g : Row -> Row) (l : list Row) :
  (forall x, P x (g x)) -> Forall2 P l (map g l).
Proof. intros Hg. induction l; cbn; constructor; auto. Qed.

Lemma rows_grow_refl (l : list Row) : rows_grow P l l.
Proof. exists l, []. rewrite app_nil_r. split; [reflexivity | apply Forall2_same]. Qed.

Lemma rows_grow_trans (l1 l2 l3 : list Row) :
  rows_grow P l1 l2 -> rows_grow P l2 l3 -> rows_grow P l1 l3.
Proof.
  intros (k1 & n1 & -> & H1) (k2 & n2 & -> & H2).
  apply Forall2_app_inv_l in H2. destruct H2 as (a & b & Ha & Hb & ->).
  exists a, (b ++ n2). split; [symmetry; apply app_assoc |].
  exact (Forall2_chain _ _ _ H1 Ha).
Qed.

Lemma rows_grow_mapped (g : Row -> Row) (l : list Row) :
  (forall x, P x (g x)) -> rows_grow P l (map g l).
Proof.
  intros Hg. exists (map g l), []. rewrite app_nil_r.
  split; [reflexivity | apply Forall2_mapped, Hg].
Qed.

Lemma rows_grow_appended (l new : list Row) : rows_grow P l (l ++ new).
Proof. exists l, new. split; [reflexivity | apply Forall2_same]. Qed.

End Rows.

Lemma job_grows_refl (j : InsightJob) : job_grows j j.
Proof. unfold job_grows. repeat split; lia. Qed.

Lemma job_grows_trans (a b c : InsightJob) : job_grows a b -> job_grows b c -> job_grows a c.
Proof. unfold job_grows. intuition (try congruence; try lia). Qed.

Lemma run_grows_refl (r : Run) : run_grows r r.
Proof. unfold run_grows. repeat split; auto; lia. Qed.

Lemma run_grows_trans (a b c : Run) : run_grows a b -> run_grows b c -> run_grows a c.
Proof. unfold run_grows. intuition (try congruence; try lia). Qed.

Lemma insight_grows_refl (i : ProductInsight) : insight_grows i i.
Proof. unfold insight_grows. repeat split. Qed.

Lemma insight_grows_trans (a b c : ProductInsight) :
  insight_grows a b -> insight_grows b c -> insight_grows a c.
Proof. unfold insight_grows. intuition congruence. Qed.

Lemma grows_refl (w : World) : grows w w.
Proof.
  repeat split.
  - apply rows_grow_refl, job_grows_refl.
  - apply rows_grow_refl, run_grows_refl.
  - apply Forall2_same, insight_grows_refl.
Qed.

Lemma grows_trans (a b c : World) : grows a b -> grows b c -> grows a c.
Proof.
  intros (Hj & Hr & Hi & He & Hs) (Hj' & Hr' & Hi' & He' & Hs').
  split; [exact (rows_grow_trans _ _ job_grows_trans _ _ _ Hj Hj') |].
  split; [exact (rows_grow_trans _ _ run_grows_trans _ _ _ Hr Hr') |].
  split; [exact (Forall2_chain _ _ insight_grows_trans _ _ _ Hi Hi') |].
  split; congruence.
Qed.

(** The tables only: the clock and the identity supply do not matter. *)
Lemma grows_tables (w w' : World) :
  db w' = db w -> grows w w'.
Proof.
  intros H. unfold grows. rewrite H.
  repeat split.
  - apply rows_grow_refl, job_grows_refl.
  - apply rows_grow_refl, run_grows_refl.
  - apply Forall2_same, insight_grows_refl.
Qed.

Lemma grows_jobs (g : InsightJob -> InsightJob) (w : World) :
  (forall j, job_grows j (g j)) -> grows w (with_jobs (map g) w).
Proof.
  intros Hg. repeat split; cbn.
  - apply rows_grow_mapped, Hg.
  - apply rows_grow_refl, run_grows_refl.
  - apply Forall2_same, insight_grows_refl.
Qed.

Lemma grows_insights (g : ProductInsight -> ProductInsight) (w : World) :
  (forall i, insight_grows i (g i)) -> grows w (with_insights (map g) w).
Proof.
  intros Hg. repeat split; cbn.
  - apply rows_grow_refl, job_grows_refl.
  - apply rows_grow_refl, run_grows_refl.
  - apply Forall2_mapped, Hg.
Qed.

Lemma grows_runs (g : Run -> Run) (w : World) :
  (forall r, run_grows r (g r)) -> grows w (with_runs (map g) w).
Proof.
  intros Hg. repeat split; cbn.
  - apply rows_grow_refl, job_grows_refl.
  - apply rows_grow_mapped, Hg.
  - apply Forall2_same, insight_grows_refl.
Qed.

Lemma job_grows_apply (t : Time) (d : JobData) (j : InsightJob) :
  attempts_up d -> job_grows j (job_apply t d j).
Proof.
  unfold attempts_up, job_grows. intros H. cbn.
  repeat split. destruct (jd_attempts_increment d); lia.
Qed.

Lemma run_grows_apply (d : RunData) (r : Run) :
  run_up d -> run_grows r (run_apply d r).
Proof.
  unfold run_up, run_grows. intros (Hs & Hf & Hst & Hc). cbn.
  repeat split.
  - destruct (rd_succeeded_increment d); lia.
  - destruct (rd_failed_increment d); lia.
  - intros Hdone. destruct (rd_status d) as [[|]|]; cbn; congruence.
  - intros Hset. destruct (rd_completedAt d) as [[t|]|]; cbn; [discriminate | contradiction | exact Hset].
Qed.

Lemma insight_grows_apply (d : InsightData) (i : ProductInsight) :
  insight_grows i (insight_apply d i).
Proof. unfold insight_grows. cbn. repeat split. Qed.

(** *** The calls *)

Lemma grows_job_update (id : Id) (d : JobData) (w : World) :
  attempts_up d -> grows w (snd (job_update id d w)).
Proof.
  intros Hd. unfold job_update.
  destruct (find_key job_id id (insightJob (db w))); cbn [snd]; [| apply grows_refl].
  apply grows_jobs. intros x. destruct (Nat.eqb (job_id x) id);
    [apply job_grows_apply, Hd | apply job_grows_refl].
Qed.

Lemma grows_job_updateMany (p : InsightJob -> bool) (d : JobData) (w : World) :
  attempts_up d -> grows w (snd (job_updateMany p d w)).
Proof.
  intros Hd. unfold job_updateMany. cbn [snd].
  apply grows_jobs. intros j. destruct (p j);
    [apply job_grows_apply, Hd | apply job_grows_refl].
Qed.

Lemma grows_job_create (shop productId : string) (runId : option Id)
      (status : InsightJobStatus) (w : World) :
  grows w (snd (job_create shop productId runId status w)).
Proof.
  assert (Happ : forall j, grows w (bump_id (with_jobs (fun l => l ++ [j]) w))).
  { intros j. repeat split; cbn.
    - apply rows_grow_appended, job_grows_refl.
    - apply rows_grow_refl, run_grows_refl.
    - apply Forall2_same, insight_grows_refl. }
  unfold job_create. destruct runId as [r|]; [| apply Happ].
  destruct (find_key run_id r (runT (db w))); [apply Happ | apply grows_refl].
Qed.

Lemma grows_insight_update (id : Id) (d : InsightData) (w : World) :
  grows w (snd (insight_update id d w)).
Proof.
  unfold insight_update.
  destruct (find_key ins_id id (productInsight (db w))); cbn [snd]; [| apply grows_refl].
  apply grows_insights. intros x. destruct (Nat.eqb (ins_id x) id);
    [apply insight_grows_apply | apply insight_grows_refl].
Qed.

Lemma grows_run_create (shop : string) (status : RunStatus) (n : Z) (w : World) :
  grows w (snd (run_create shop status n w)).
Proof.
  unfold run_create. cbn [snd]. repeat split; cbn.
  - apply rows_grow_refl, job_grows_refl.
  - apply rows_grow_appended, run_grows_refl.
  - apply Forall2_same, insight_grows_refl.
Qed.

Lemma grows_run_update (id : Id) (d : RunData) (w : World) :
  run_up d -> grows w (snd (run_update id d w)).
Proof.
  intros Hd. unfold run_update.
  destruct (find_key run_id id (runT (db w))); cbn [snd]; [| apply grows_refl].
  apply grows_runs. intros x. destruct (Nat.eqb (run_id x) id);
    [apply run_grows_apply, Hd | apply run_grows_refl].
Qed.

Lemma snd_void (A : Type) (s : Stmt A) (w : World) : snd (void s w) = snd (s w).
Proof. unfold void. destruct (s w) as [[a|e] w']; reflexivity. Qed.

(** A transaction of two: both, or nothing. *)
Lemma grows_transaction_two (a b : Stmt unit) (w : World) :
  (forall w, grows w (snd (a w))) -> (forall w, grows w (snd (b w))) ->
  grows w (snd (transaction [a; b] w)).
Proof.
  intros Ha Hb. unfold transaction. cbn [sequence].
  specialize (Ha w). destruct (a w) as [[x|e] w1]; cbn [snd] in *; [| apply grows_refl].
  specialize (Hb w1). destruct (b w1) as [[y|e] w2]; cbn [snd] in *; [| apply grows_refl].
  exact (grows_trans _ _ _ Ha Hb).
Qed.

Lemma grows_update_pair (iid : Id) (nd : InsightData) (jid : Id) (jd : JobData) (w : World) :
  attempts_up jd ->
  grows w (snd (transaction [void (insight_update iid nd); void (job_update jid jd)] w)).
Proof.
  intros Hd. apply grows_transaction_two; intros w0; rewrite snd_void.
  - apply grows_insight_update.
  - apply grows_job_update, Hd.
Qed.

(** *** The rules of [always] *)

Section Always.
Variable G : World -> World -> Prop.

Lemma always_bind (A B : Type) (p : Proc A) (f : A -> Proc B) :
  always G p -> (forall a, always G (f a)) -> always G (bind p f).
Proof.
  intros Hp Hf. induction p as [a|e|g IH|X l s g IH|i g IH]; cbn [bind always] in *.
  - apply Hf.
  - exact I.
  - intros t. apply IH, Hp.
  - destruct Hp as [Hs Hg]. split; [exact Hs |]. intros r. apply IH, Hg.
  - intros r. apply IH, Hp.
Qed.

Lemma always_try_catch (A : Type) (p : Proc A) (h : Thrown -> Proc A) :
  always G p -> (forall e, always G (h e)) -> always G (try_catch p h).
Proof.
  intros Hp Hh. induction p as [a|e|g IH|X l s g IH|i g IH]; cbn [try_catch always] in *.
  - exact I.
  - apply Hh.
  - intros t. apply IH, Hp.
  - destruct Hp as [Hs Hg]. split; [exact Hs |]. intros r. apply IH, Hg.
  - intros r. apply IH, Hp.
Qed.

Lemma always_of_res (A : Type) (r : Res A) : always G (of_res r).
Proof. destruct r; exact I. Qed.

Lemma always_await (A : Type) (l : Label) (s : Stmt A) :
  (forall w, G w (snd (s w))) -> always G (await l s).
Proof. intros Hs. split; [exact Hs | intros r; apply always_of_res]. Qed.

Lemma always_new_Date : always G new_Date.
Proof. intros t. exact I. Qed.

Lemma always_generate (input : AIInsightInput) :
  always G (generateProductInsightExplanation input).
Proof. intros r. apply always_of_res. Qed.

Lemma always_settle (R : Type) (w : World) (p : Proc R) :
  always G p -> always G (settle w p).
Proof.
  induction p as [a|e|g IH|X l s g IH|i g IH]; cbn [settle]; auto.
Qed.

Hypothesis G_refl : forall w, G w w.
Hypothesis G_trans : forall a b c, G a b -> G b c -> G a c.
Hypothesis G_advance : forall d w, G w (advance d w).

Lemma Forall_set_nth (A : Type) (Q : A -> Prop) (i : nat) (x : A) (l : list A) :
  Forall Q l -> Q x -> Forall Q (set_nth i x l).
Proof.
  intros Hl Hx. revert i. induction Hl as [|y l Hy Hl IH]; intros i; cbn.
  - destruct i; constructor.
  - destruct i; constructor; auto.
Qed.

Lemma always_step (R : Type) (s : Sys R) (ev : Event) :
  Forall (always G) (pool s) ->
  Forall (always G) (pool (sys_step s ev)) /\ G (world s) (world (sys_step s ev)).
Proof.
  intros Hpool. destruct ev as [i ai|d]; cbn [sys_step].
  2:{ cbn [pool world]. split; [exact Hpool |].
      destruct (0 <=? d); [apply G_advance | apply G_refl]. }
  destruct (nth_error (pool s) i) as [p|] eqn:Hp; [| split; [exact Hpool | apply G_refl]].
  assert (Hal : always G p).
  { apply nth_error_In in Hp. rewrite Forall_forall in Hpool. exact (Hpool p Hp). }
  apply (always_settle R (world s)) in Hal.
  unfold step. destruct (settle (world s) p) as [a|e|g|X l st g|inp g] eqn:Hset.
  - cbn [pool world]. split; [| apply G_refl]. apply Forall_set_nth; [exact Hpool | exact I].
  - cbn [pool world]. split; [| apply G_refl]. apply Forall_set_nth; [exact Hpool | exact I].
  - cbn [pool world]. split; [| apply G_refl]. apply Forall_set_nth; [exact Hpool | exact Hal].
  - destruct Hal as [Hs Hg]. specialize (Hs (world s)).
    destruct (st (world s)) as [r w1]. cbn [pool world snd] in *.
    split; [| exact Hs]. apply Forall_set_nth; [exact Hpool | apply Hg].
  - cbn [pool world]. split; [| apply G_refl]. apply Forall_set_nth; [exact Hpool | apply Hal].
Qed.

Lemma always_exec (R : Type) (evs : list Event) :
  forall s : Sys R,
  Forall (always G) (pool s) -> G (world s) (world (exec s evs)).
Proof.
  induction evs as [|ev evs IH]; intros s Hpool; [apply G_refl |].
  change (exec s (ev :: evs)) with (exec (sys_step s ev) evs).
  destruct (always_step R s ev Hpool) as [Hpool' Hstep].
  exact (G_trans _ _ _ Hstep (IH _ Hpool')).
Qed.

End Always.

End History.

Module Grows.
Import Prisma Jobs History.

Ltac side :=
  first [ exact I
        | unfold attempts_up; cbn; first [exact I | lia]
        | unfold run_up; cbn; repeat split; first [exact I | lia | discriminate] ].

Ltac call :=
  first [ apply grows_job_update; side
        | apply grows_job_updateMany; side
        | apply grows_job_create
        | apply grows_insight_update
        | apply grows_run_create
        | apply grows_run_update; side
        | apply grows_update_pair; side
        | apply grows_refl ].

Ltac walk :=
  repeat first
    [ exact I
    | apply always_new_Date
    | apply always_generate
    | apply always_await; [intros ?w; call]
    | apply always_bind; [| intros ?a]
    | apply always_try_catch; [| intros ?e]
    | match goal with
      | |- always _ (match ?x with _ => _ end) => destruct x
      end ].

Lemma always_enqueueInsightJob (shop productId : string) (runId : option Id) (force : bool) :
  always grows (enqueueInsightJob shop productId runId force).
Proof. unfold enqueueInsightJob. walk. Qed.

Lemma always_enqueueBatch_loop (shop : string) (runId : Id) (productIds : list string) :
  forall enqueued, always grows (enqueueBatch_loop enqueued shop productIds runId).
Proof.
  induction productIds as [|p rest IH]; intros enqueued; cbn [enqueueBatch_loop].
  - exact I.
  - apply always_bind; [apply always_enqueueInsightJob | intros id; apply IH].
Qed.

Lemma always_action (shop : string) (formData : Insights.FormData) :
  always grows (Insights.action shop formData).
Proof.
  unfold Insights.action. cbv zeta.
  destruct (Insights.intent_is formData "batch").
  - destruct (Nat.eqb _ 0); [exact I |].
    apply always_bind; [apply always_await; intros w; call | intros run].
    apply always_bind; [apply always_enqueueBatch_loop | intros n; exact I].
  - destruct (Insights.fd_productId formData) as [productId|]; [| exact I].
    destruct (_ || _); [exact I |].
    apply always_bind; [apply always_await; intros w; call | intros [i|]]; [| exact I].
    apply always_bind; [apply always_enqueueInsightJob | intros [id|]; exact I].
Qed.

Lemma always_claimNextJob : always grows claimNextJob.
Proof.
  unfold claimNextJob, select_and_claim, claim_candidate, after_transaction,
    load_insight, fail_without_insight, return_claimed.
  walk.
Qed.

Lemma always_processJob (jobId : Id) (insight : InsightSnapshot)
      (shop productId : string) (runId : option Id) :
  always grows (processJob jobId insight shop productId runId).
Proof. unfold processJob. cbv zeta. walk. Qed.

Lemma always_tick : always grows Worker.tick.
Proof.
  unfold Worker.tick.
  apply always_bind; [apply always_claimNextJob | intros [[job insight]|]; [| exact I]].
  apply always_bind; [apply always_processJob | intros u; exact I].
Qed.

Lemma always_updateRunCompletion_loop (runs : list Run) :
  always grows (Worker.updateRunCompletion_loop runs).
Proof.
  induction runs as [|r rest IH]; cbn [Worker.updateRunCompletion_loop]; [exact I |].
  apply always_bind; [apply always_await; intros w; call | intros pending].
  apply always_bind; [| intros u; exact IH].
  destruct (Nat.eqb pending 0); [| exact I].
  apply always_bind; [apply always_new_Date | intros t].
  apply always_bind; [apply always_await; intros w; call | intros x; exact I].
Qed.

Lemma always_task (t : Task) : always grows (task t).
Proof.
  destruct t as [shop formData| |]; cbn [task].
  - apply always_bind; [apply always_action | intros x; exact I].
  - apply always_bind; [apply always_tick | intros x; exact I].
  - unfold Worker.updateRunCompletion.
    apply always_bind; [apply always_await; intros w; call | intros runs].
    apply always_updateRunCompletion_loop.
Qed.

End Grows.

(** X6 (action, enqueueInsightJob, enqueueBatch, claimNextJob, processJob,
    tick, updateRunCompletion).  Whatever form actions, worker ticks and
    reconciliation passes run against a store, in every interleaving of
    their calls and at every point of it: no Job, Run or Insight row has
    been deleted or reordered; a Job still has its shop, product, run
    and creation time and no fewer attempts; a Run still has its shop and
    [productsQueued], counters that did not drop, is still COMPLETED if it
    was and still has a [completedAt] if it had one; an Insight still has
    every column that describes the product (only the columns of the AI
    result change); WebhookEvent rows and sessions are as they were. *)
Theorem requests_and_worker_only_add
  (tasks : list Task) (w : World) (evs : list Event) :
  grows w (world (exec (start (map task tasks) w) evs)).
Proof.
  apply (History.always_exec grows History.grows_refl History.grows_trans).
  - intros d w0. apply History.grows_tables. reflexivity.
  - cbn [start pool]. apply Forall_forall. intros p Hp.
    apply in_map_iff in Hp. destruct Hp as (t & <- & _). apply Grows.always_task.
Qed.

(** ** The uninstall webhook *)

(** X7 (action of webhooks.app.uninstalled).  A request that carries the
    id of a delivery already on record is acknowledged with 200 after
    the one lookup: [authenticate.webhook] is not called, so the answer
    does not depend on whether the request is authentic, and nothing is
    written. *)
Theorem uninstall_known_id_not_authenticated
  (ai : AIInsightInput -> AiResult) (w : World) (request : Webhook.Request)
  (id : string) :
  Webhook.header_webhook_id request = Some id ->
  id <> "" ->
  event_recorded w id = true ->
  let out := run ai (Webhook.action request) w in
  result out = Ok 200
  /\ final out = w
  /\ map fst (trace out) = [Call WebhookEventM FindUnique].
Proof.
  intros Hh Hne Hrec out. subst out.
  assert (Hid : Webhook.truthy_header request = Some id).
  { unfold Webhook.truthy_header. rewrite Hh.
    destruct (String.eqb id "") eqn:E; [apply String.eqb_eq in E; contradiction |].
    reflexivity. }
  unfold Webhook.action. rewrite Hid. cbn.
  unfold event_recorded in Hrec. rewrite find_existsb in Hrec.
  unfold Prisma.event_findUnique. cbn.
  destruct (find _ (webhookEvent (db w))); [| discriminate].
  cbn. auto.
Qed.

(** X7, at a world: a forged request with the id of a recorded delivery. *)
Lemma uninstall_known_id_not_authenticated_witness :
  result (run ai_up (Webhook.action (forged_request (Some "d-1") NonError))
              (with_delivery "d-1" empty_world))
  = Ok 200.
Proof.
  refine (proj1 (uninstall_known_id_not_authenticated ai_up
                   (with_delivery "d-1" empty_world)
                   (forged_request (Some "d-1") NonError) "d-1" eq_refl _ eq_refl)).
  discriminate.
Defined.

(** X8 (action of webhooks.app.uninstalled).  A request that does not
    authenticate and whose delivery id, if it has one, is not on record
    is rejected with what [authenticate.webhook] threw: no WebhookEvent
    is recorded for it and nothing is deleted, so the same delivery id
    can still be processed later. *)
Theorem uninstall_not_authentic_rejected
  (ai : AIInsightInput -> AiResult) (w : World) (request : Webhook.Request)
  (e : Thrown) :
  Webhook.authentication request = Err e ->
  (forall id, Webhook.truthy_header request = Some id -> event_recorded w id = false) ->
  let out := run ai (Webhook.action request) w in
  result out = Err e
  /\ final out = w
  /\ purges (map fst (trace out)) = 0%nat
  /\ forall id, event_recorded (final out) id = event_recorded w id.
Proof.
  intros Ha Hrec out. subst out.
  unfold Webhook.action, Webhook.authenticate_and_purge, Webhook.authenticate_webhook.
  destruct (Webhook.truthy_header request) as [id|] eqn:Hid; cbn.
  - specialize (Hrec id eq_refl). unfold event_recorded in Hrec.
    rewrite find_existsb in Hrec. unfold Prisma.event_findUnique. cbn.
    destruct (find _ (webhookEvent (db w))); [discriminate |].
    cbn. rewrite Ha. cbn. auto.
  - rewrite Ha. cbn. auto.
Qed.

(** X8, at a world: a forged first delivery of "d-1". *)
Lemma uninstall_not_authentic_rejected_witness :
  result (run ai_up (Webhook.action (forged_request (Some "d-1") NonError)) empty_world)
  = Err NonError.
Proof.
  refine (proj1 (uninstall_not_authentic_rejected ai_up empty_world
                   (forged_request (Some "d-1") NonError) NonError eq_refl _)).
  intros id _. reflexivity.
Defined.

Module PurgeFacts.
Import Prisma Webhook.

Lemma update_where_none (Row : Type) (p : Row -> bool) (f : Row -> Row) (rows : list Row) :
  (forall r, In r rows -> p r = false) -> update_where p f rows = rows.
Proof.
  intros H. unfold update_where. rewrite <- (map_id rows) at 2.
  apply map_ext_in. intros r Hr. rewrite (H r Hr). reflexivity.
Qed.

End PurgeFacts.

(** X9 (action of webhooks.app.uninstalled).  In a store where every Job
    that has a run has a run of its own shop, the purge of a shop deletes
    exactly the rows of that shop from Jobs, Runs, Insights and sessions:
    the rows of every other shop stay, unchanged and in their order
    (no Job of another shop loses its run), and the WebhookEvent rows,
    those of the purged shop too, are all kept. *)
Theorem purge_other_shops_untouched (shop : string) (w : World) :
  runs_of_own_shop w ->
  insightJob (db (purged shop w))
  = filter (fun j => negb (String.eqb (job_shop j) shop)) (insightJob (db w))
  /\ runT (db (purged shop w))
     = filter (fun r => negb (String.eqb (run_shop r) shop)) (runT (db w))
  /\ productInsight (db (purged shop w))
     = filter (fun i => negb (String.eqb (ins_shop i) shop)) (productInsight (db w))
  /\ sessionT (db (purged shop w))
     = filter (fun s => negb (String.eqb (session_shop s) shop)) (sessionT (db w))
  /\ webhookEvent (db (purged shop w)) = webhookEvent (db w).
Proof.
  intros Hown.
  destruct (WebhookFacts.purged_tables shop w) as (Hj & Hr & Hi & Hs & He).
  rewrite Hj, Hr, Hi, Hs, He. repeat split.
  apply PurgeFacts.update_where_none.
  intros j Hin. unfold delete_where in Hin. apply filter_In in Hin.
  destruct Hin as [Hin Hshop]. unfold Prisma.refers_to_deleted.
  destruct (job_runId j) as [r|] eqn:Hrun; [| reflexivity].
  destruct (existsb _ (runT (db w))) eqn:Hex; [| reflexivity].
  apply existsb_exists in Hex. destruct Hex as (x & Hx & Hcond).
  apply andb_prop in Hcond. destruct Hcond as [Hid Hxs].
  apply Nat.eqb_eq in Hid. apply String.eqb_eq in Hxs.
  assert (Hsame : run_shop x = job_shop j).
  { apply (Hown j x Hin Hx). rewrite Hrun, Hid. reflexivity. }
  rewrite <- Hsame, Hxs, String.eqb_refl in Hshop. discriminate Hshop.
Qed.

(** X9, at a world: the shop of the sample data is purged. *)
Lemma purge_other_shops_untouched_witness :
  insightJob (db (purged shop_a
                         (a_world [a_job 1 "p1" (Some 5%nat) QUEUED 0 10] []
                                  [a_run 5 1])))
  = filter (fun j => negb (String.eqb (job_shop j) shop_a))
           [a_job 1 "p1" (Some 5%nat) QUEUED 0 10].
Proof.
  refine (proj1 (purge_other_shops_untouched shop_a
                   (a_world [a_job 1 "p1" (Some 5%nat) QUEUED 0 10] [] [a_run 5 1]) _)).
  intros j x [<-|[]] [<-|[]] _. reflexivity.
Defined.

(** ** The form action *)

Module ActionFacts.
Import Prisma Jobs PrismaFacts.

(** [enqueueInsightJob] resolves to no id only when it has written
    nothing. *)
Ltac from_create :=
  destruct (job_create _ _ _ _ _) as [[?j|?e] ?w2]; cbn; [| discriminate];
  unfold insight_findUnique; cbn;
  destruct (find _ (productInsight (db _))) as [?i|]; cbn; [| discriminate];
  destruct (insight_update _ _ _) as [[?i'|?e] ?w3]; cbn; discriminate.

Lemma enqueueInsightJob_none ai w shop productId runId force :
  result (run ai (enqueueInsightJob shop productId runId force) w) = Ok None ->
  final (run ai (enqueueInsightJob shop productId runId force) w) = w.
Proof.
  unfold enqueueInsightJob. cbn. unfold job_findFirst. cbn.
  destruct (find _ (insightJob (db w))) as [e|]; [destruct force |]; cbn.
  - destruct (job_update _ _ w) as [[u|err] w1]; cbn; [| discriminate]. from_create.
  - reflexivity.
  - from_create.
Qed.

End ActionFacts.

(** X10 (action of app.insights).  Whenever the form action answers
    with an error ("No products selected for batch.", "Missing productId
    or intent.", "Product insight not found." or "Job already queued or
    running."), it has written nothing: the store is as it was. *)
Theorem action_failure_writes_nothing
  (ai : AIInsightInput -> AiResult) (w : World) (shop : string)
  (formData : Insights.FormData) (error : string) :
  result (run ai (Insights.action shop formData) w) = Ok (Insights.Failure error) ->
  final (run ai (Insights.action shop formData) w) = w.
Proof.
  unfold Insights.action. cbv zeta.
  destruct (Insights.intent_is formData "batch").
  - destruct (Nat.eqb _ 0); [reflexivity |].
    intros H. exfalso. rewrite RunFacts.result_bind in H.
    unfold Prisma.run_create in H. cbn [run await of_res result final fst snd bind] in H.
    rewrite RunFacts.result_bind in H.
    destruct (result (run ai (Jobs.enqueueBatch _ _ _) _)); discriminate H.
  - destruct (Insights.fd_productId formData) as [productId|]; [| reflexivity].
    destruct (_ || _); [reflexivity |].
    rewrite RunFacts.result_bind, RunFacts.final_bind.
    unfold Prisma.insight_findUnique. cbn [run await of_res result final fst snd bind].
    destruct (find _ (productInsight (db w))) as [i|]; [| reflexivity].
    rewrite RunFacts.result_bind, RunFacts.final_bind.
    destruct (result (run ai (Jobs.enqueueInsightJob _ _ _ _) w)) as [[id|]|e] eqn:E;
      cbn [run result final fst snd]; try discriminate.
    intros _. exact (ActionFacts.enqueueInsightJob_none ai w _ _ _ _ E).
Qed.

(** X10, at a world: a second "generate" for a product whose Job is
    QUEUED. *)
Lemma action_failure_writes_nothing_witness :
  final (run ai_up (Insights.action shop_a (generate_form "generate" "p1"))
             (a_world [a_job 1 "p1" None QUEUED 0 10] [an_insight 3 "p1"] []))
  = a_world [a_job 1 "p1" None QUEUED 0 10] [an_insight 3 "p1"] [].
Proof.
  exact (action_failure_writes_nothing ai_up
           (a_world [a_job 1 "p1" None QUEUED 0 10] [an_insight 3 "p1"] [])
           shop_a (generate_form "generate" "p1") "Job already queued or running."
           eq_refl).
Defined.

(** X11 (action of app.insights, enqueueBatch).  A batch request whose
    [productIds] field names at least one product, run alone, creates
    one RUNNING run for the shop with [productsQueued] the number of
    products read from the field, which is between 1 and 10, and zero
    counters; it appends only Jobs of that run and that shop, QUEUED, for
    products of the field, at most one per product read; and it answers
    with the id of the run and the number of Jobs appended, which can be
    less than [productsQueued]. *)
Theorem action_batch_creates_run
  (ai : AIInsightInput -> AiResult) (w : World) (shop : string)
  (formData : Insights.FormData) (raw : string) :
  Insights.intent_is formData "batch" = true ->
  Insights.fd_productIds formData = Some raw ->
  batch_selection raw <> [] ->
  let out := run ai (Insights.action shop formData) w in
  let n := List.length (batch_selection raw) in
  exists new : list InsightJob,
    result out = Ok (Insights.BatchStarted (nextId w) (Z.of_nat (List.length new)))
    /\ runT (db (final out)) = runT (db w) ++ [new_run w shop n]
    /\ insightJob (db (final out)) = insightJob (db w) ++ new
    /\ (1 <= n <= 10)%nat
    /\ (List.length new <= n)%nat
    /\ NoDup (map job_productId new)
    /\ forall j, In j new ->
         job_shop j = shop /\ job_runId j = Some (nextId w)
         /\ job_status j = QUEUED /\ In (job_productId j) (batch_selection raw).
Proof.
  intros Hintent Hraw Hsel out n. subst out n.
  unfold Insights.action. rewrite Hintent, Hraw. cbv zeta.
  change (firstn Insights.BATCH_MAX (filter Jobs.truthy (Insights.split_comma raw)))
    with (batch_selection raw).
  assert (Hpos : (1 <= List.length (batch_selection raw))%nat).
  { destruct (batch_selection raw); [contradiction | cbn; lia]. }
  assert (Hnz : Nat.eqb (List.length (batch_selection raw)) 0 = false)
    by (apply Nat.eqb_neq; lia).
  rewrite Hnz.
  rewrite RunFacts.result_bind, RunFacts.final_bind.
  unfold Prisma.run_create. cbn [run await of_res result final fst snd bind run_id].
  fold (new_run w shop (List.length (batch_selection raw))).
  set (w1 := bump_id _).
  assert (Hrun : run_row w1 (nextId w) <> None).
  { unfold run_row. subst w1. cbn [bump_id with_runs db runT].
    destruct (In_find_key Run run_id
                (runT (db w) ++ [new_run w shop (List.length (batch_selection raw))])
                (new_run w shop (List.length (batch_selection raw)))) as [r0 Hr0].
    - apply in_or_app. right. left. reflexivity.
    - change (run_id (new_run w shop (List.length (batch_selection raw))))
        with (nextId w) in Hr0.
      rewrite Hr0. discriminate. }
  destruct (BatchFacts.enqueueBatch_loop_run ai shop (nextId w) (batch_selection raw)
              w1 0 Hrun)
    as (new & Hjobs & Hres & Hlen & Hnd & Hnew & _ & Hruns).
  rewrite RunFacts.result_bind, RunFacts.final_bind.
  unfold Jobs.enqueueBatch. rewrite Hres.
  cbn [run result final fst snd].
  exists new. split; [reflexivity |].
  split; [rewrite Hruns; reflexivity |]. split; [exact Hjobs |].
  split.
  { split; [exact Hpos |].
    unfold batch_selection. rewrite length_firstn. unfold Insights.BATCH_MAX. lia. }
  split; [exact Hlen |]. split; [exact Hnd |].
  intros j Hj. destruct (Hnew j Hj) as (H1 & H2 & H3 & H4 & _). auto.
Qed.

(** X11, at a world: a batch for "p1" and "p2" on the empty store. *)
Lemma action_batch_creates_run_witness :
  exists new : list InsightJob,
    result (run ai_up (Insights.action shop_a (batch_form "p1,p2")) empty_world)
    = Ok (Insights.BatchStarted 0 (Z.of_nat (List.length new))).
Proof.
  destruct (action_batch_creates_run ai_up empty_world shop_a (batch_form "p1,p2")
              "p1,p2" eq_refl eq_refl) as (new & Hres & _).
  - discriminate.
  - exists new. exact Hres.
Defined.

Module SplitFacts.
Import Insights.

Lemma split_comma_cons (s : string) : exists x xs, split_comma s = x :: xs.
Proof.
  induction s as [|c rest IH]; cbn; [eauto |].
  destruct (Ascii.eqb c ","%char); [eauto |].
  destruct IH as (x & xs & ->). eauto.
Qed.

Lemma split_comma_free (s : string) : comma_free s = true -> split_comma s = [s].
Proof.
  induction s as [|c rest IH]; cbn; [reflexivity |].
  destruct (Ascii.eqb c ","%char); cbn; [discriminate |].
  intros H. rewrite (IH H). reflexivity.
Qed.

Lemma split_comma_app (a rest : string) :
  comma_free a = true ->
  split_comma (a ++ String ","%char rest)%string = a :: split_comma rest.
Proof.
  induction a as [|c a IH]; cbn.
  - intros _. reflexivity.
  - destruct (Ascii.eqb c ","%char); cbn; [discriminate |].
    intros H. rewrite (IH H). reflexivity.
Qed.

Lemma split_join (ids : list string) :
  ids <> [] -> (forall id, In id ids -> comma_free id = true) ->
  split_comma (join_comma ids) = ids.
Proof.
  unfold join_comma.
  induction ids as [|a l IH]; [contradiction |]. intros _ Hfree.
  destruct l as [|b l].
  - cbn. apply split_comma_free, Hfree. left. reflexivity.
  - change (String.concat "," (a :: b :: l))
      with (a ++ String ","%char (String.concat "," (b :: l)))%string.
    rewrite split_comma_app by (apply Hfree; left; reflexivity).
    f_equal. apply IH; [discriminate |].
    intros id Hid. apply Hfree. right. exact Hid.
Qed.

Lemma filter_truthy_all (ids : list string) :
  (forall id, In id ids -> id <> "") -> filter Jobs.truthy ids = ids.
Proof.
  induction ids as [|a l IH]; intros H; [reflexivity |]. cbn.
  assert (Ha : Jobs.truthy a = true).
  { unfold Jobs.truthy. destruct (String.eqb a "") eqn:E; [| reflexivity].
    apply String.eqb_eq in E. exfalso. exact (H a (or_introl eq_refl) E). }
  rewrite Ha. f_equal. apply IH. intros id Hid. apply H. right. exact Hid.
Qed.

(** Nothing but empty parts exactly when there is nothing but commas. *)
Lemma filter_split_nil (raw : string) :
  filter Jobs.truthy (split_comma raw) = [] <-> only_commas raw = true.
Proof.
  induction raw as [|c rest IH]; cbn.
  - split; reflexivity.
  - destruct (Ascii.eqb c ","%char); cbn.
    + exact IH.
    + destruct (split_comma_cons rest) as (x & xs & ->). cbn. split; discriminate.
Qed.

Lemma batch_selection_nil (raw : string) :
  batch_selection raw = [] <-> only_commas raw = true.
Proof.
  rewrite <- filter_split_nil. unfold batch_selection, BATCH_MAX.
  destruct (filter Jobs.truthy (split_comma raw)); cbn; split; (reflexivity || discriminate).
Qed.

End SplitFacts.

(** X12 (InsightsPage, action of app.insights).  What the page puts in
    the [productIds] field, the ids joined by commas, is read back by
    the action as the same ids in the same order, cut to the first 10,
    provided no id is empty or contains a comma. *)
Theorem batch_selection_of_join (ids : list string) :
  (forall id, In id ids -> id <> "" /\ comma_free id = true) ->
  batch_selection (join_comma ids) = firstn Insights.BATCH_MAX ids.
Proof.
  intros H. unfold batch_selection. f_equal.
  destruct ids as [|a l]; [reflexivity |].
  rewrite SplitFacts.split_join; [| discriminate | intros id Hid; apply (H id Hid)].
  apply SplitFacts.filter_truthy_all. intros id Hid. apply (H id Hid).
Qed.

(** X12, at an input: two product ids. *)
Lemma batch_selection_of_join_witness :
  batch_selection (join_comma ["gid://shopify/Product/1"; "gid://shopify/Product/2"])
  = firstn Insights.BATCH_MAX ["gid://shopify/Product/1"; "gid://shopify/Product/2"].
Proof.
  apply batch_selection_of_join.
  intros id [<-|[<-|[]]]; split; (discriminate || reflexivity).
Defined.

(** X13 (action of app.insights).  A batch request is answered with "No
    products selected for batch.", with no call made and nothing
    written, exactly when its [productIds] field is empty or holds
    nothing but commas. *)
Theorem action_batch_nothing_selected
  (ai : AIInsightInput -> AiResult) (w : World) (shop : string)
  (formData : Insights.FormData) (raw : string) :
  Insights.intent_is formData "batch" = true ->
  Insights.fd_productIds formData = Some raw ->
  (only_commas raw = true
   <-> run ai (Insights.action shop formData) w
       = (Ok (Insights.Failure "No products selected for batch."), w, [])).
Proof.
  intros Hintent Hraw. unfold Insights.action. rewrite Hintent, Hraw. cbv zeta.
  change (firstn Insights.BATCH_MAX (filter Jobs.truthy (Insights.split_comma raw)))
    with (batch_selection raw).
  rewrite <- SplitFacts.batch_selection_nil.
  destruct (batch_selection raw) as [|p ps] eqn:Hsel.
  - cbn. split; reflexivity.
  - cbn [List.length Nat.eqb]. split; [discriminate |].
    intros H. exfalso.
    assert (Hr : result (run ai
                (run <- await (Call RunM Create)
                          (Prisma.run_create shop RUN_RUNNING
                             (Z.of_nat (S (List.length ps)))) ;;
                 enqueued <- Jobs.enqueueBatch shop (p :: ps) (run_id run) ;;
                 Ret (Insights.BatchStarted (run_id run) enqueued)) w)
              = Ok (Insights.Failure "No products selected for batch."))
      by (rewrite H; reflexivity).
    clear H. rewrite RunFacts.result_bind in Hr.
    unfold Prisma.run_create in Hr.
    cbn [run await of_res result final fst snd bind] in Hr.
    rewrite RunFacts.result_bind in Hr.
    destruct (result (run ai (Jobs.enqueueBatch _ _ _) _)); discriminate Hr.
Qed.

(** X13, at a world: the field holds three commas. *)
Lemma action_batch_nothing_selected_witness :
  run ai_up (Insights.action shop_a (batch_form ",,,")) empty_world
  = (Ok (Insights.Failure "No products selected for batch."), empty_world, []).
Proof.
  exact (proj1 (action_batch_nothing_selected ai_up empty_world shop_a
                  (batch_form ",,,") ",,," eq_refl eq_refl) eq_refl).
Defined.

(** ** Confidence labels *)

Module LabelFacts.
Import Signals SignalLabels InsightsLoader.

Lemma confidenceLabel_by_cases (s i v : bool) (d : float) :
  confidenceLabel s i v d
  = if updated_within_a_year d then confidenceLabel s i v 1%float
    else confidenceLabel s i v PrimFloat.nan.
Proof.
  unfold confidenceLabel. rewrite SignalsFacts.computeConfidence_by_cases.
  unfold updated_within_a_year.
  destruct (PrimFloat.leb 0%float d && PrimFloat.ltb d 365%float); reflexivity.
Qed.

Lemma includes_In (l : list MissingSignal) (s : MissingSignal) :
  includes l s = true <-> In s l.
Proof.
  unfold includes. rewrite existsb_exists. split.
  - intros (x & Hx & E). destruct s, x; (exact Hx || discriminate E).
  - intros H. exists s. split; [exact H | destruct s; reflexivity].
Qed.

Lemma includes_ext (l l' : list MissingSignal) (s : MissingSignal) :
  (In s l <-> In s l') -> includes l s = includes l' s.
Proof.
  intros H. destruct (includes l s) eqn:E, (includes l' s) eqn:E'; try reflexivity.
  - apply includes_In, H, includes_In in E. congruence.
  - apply includes_In, H, includes_In in E'. congruence.
Qed.

End LabelFacts.

(** X14 (loader of app.insights, computeConfidence, getConfidenceLabel,
    buildConfidenceExplanation).  The confidence label that the loader
    stores for a product is High when at least two of the three signals
    (status, image, inventory) are present, Medium when one is, or when
    none is but the product was updated within the last 365 days, and
    Low otherwise, in binary64 arithmetic (two signals give exactly the
    0.8 of the High threshold).  So an explanation is stored only for a
    product with no signal at all, and it is always the one that names
    all three. *)
Theorem loader_confidence (hasStatus hasImage hasInventory : bool) (daysSinceUpdated : float) :
  InsightsLoader.confidenceLabel hasStatus hasImage hasInventory daysSinceUpdated
  = (if Nat.leb 2 (present hasStatus hasImage hasInventory) then SignalLabels.High
     else if Nat.leb 1 (present hasStatus hasImage hasInventory)
             || updated_within_a_year daysSinceUpdated
          then SignalLabels.Medium
          else SignalLabels.Low)
  /\ InsightsLoader.confidenceExplanation hasStatus hasImage hasInventory daysSinceUpdated
     = (if Nat.eqb (present hasStatus hasImage hasInventory) 0
           && negb (updated_within_a_year daysSinceUpdated)
        then Some "Low confidence: missing product status and featured image and inventory data."
        else None).
Proof.
  unfold InsightsLoader.confidenceExplanation.
  rewrite LabelFacts.confidenceLabel_by_cases.
  destruct (updated_within_a_year daysSinceUpdated);
    destruct hasStatus, hasImage, hasInventory; split; vm_compute; reflexivity.
Qed.

(** X15 (buildConfidenceExplanation).  The explanation is empty exactly
    for an empty list of missing signals, and otherwise depends only on
    which signals the list holds, not on their order or on
    repetitions. *)
Theorem buildConfidenceExplanation_by_membership :
  (forall l, SignalLabels.buildConfidenceExplanation l = "" <-> l = [])
  /\ (forall l l', (forall s, In s l <-> In s l') ->
        SignalLabels.buildConfidenceExplanation l
        = SignalLabels.buildConfidenceExplanation l').
Proof.
  split.
  - intros l. unfold SignalLabels.buildConfidenceExplanation.
    destruct l as [|s l]; cbn [List.length Nat.eqb]; [split; reflexivity |].
    split; [| discriminate]. cbn. discriminate.
  - intros l l' H. unfold SignalLabels.buildConfidenceExplanation. cbv zeta.
    rewrite (LabelFacts.includes_ext l l' SignalLabels.status (H _)).
    rewrite (LabelFacts.includes_ext l l' SignalLabels.image (H _)).
    rewrite (LabelFacts.includes_ext l l' SignalLabels.inventory (H _)).
    assert (Hlen : Nat.eqb (List.length l) 0 = Nat.eqb (List.length l') 0).
    { destruct l as [|a l], l' as [|b l']; try reflexivity.
      - destruct (proj2 (H b) (or_introl eq_refl)).
      - destruct (proj1 (H a) (or_introl eq_refl)). }
    rewrite Hlen. reflexivity.
Qed.

(** ** The AI client *)

Module AiFacts.
Import AiInsight.

Lemma isValidActionType_In (s : string) :
  isValidActionType s = true -> In s ACTION_TYPES.
Proof.
  unfold isValidActionType. intros H. apply existsb_exists in H.
  destruct H as (x & Hx & E). apply String.eqb_eq in E. subst x. exact Hx.
Qed.

Lemma truthy_valid (s : string) : isValidActionType s = true -> Jobs.truthy s = true.
Proof. destruct s; [discriminate | reflexivity]. Qed.

Lemma truthy_nonempty (s : string) : Jobs.truthy s = true -> s <> "".
Proof. destruct s; [discriminate | discriminate]. Qed.

(** What [parseAndValidate] lets through. *)
Lemma parseAndValidate_valid
  (JSON_parse : string -> option Json) (jsonStr : string)
  (forceActionType : option string) (output : AIInsightOutput) :
  parseAndValidate JSON_parse jsonStr forceActionType = Some output ->
  valid_output output
  /\ (forall force, forceActionType = Some force ->
        isValidActionType force = true -> actionType output = force).
Proof.
  unfold parseAndValidate.
  destruct (JSON_parse jsonStr) as [raw|]; [| discriminate].
  set (s := match member "summary" raw with
            | Some (JString s) => s | _ => "" end).
  set (a := match forceActionType with
            | Some force => if Jobs.truthy force then force else _
            | None => _ end).
  set (steps := match member "nextSteps" raw with
                | Some (JArray items) => firstn 3 (strings_of items)
                | _ => [] end).
  set (cv := match member "caveats" raw with
             | Some (JString s) => Some s | _ => None end).
  assert (Hbody :
    (if negb (Jobs.truthy s) || Nat.ltb 1000 (String.length s) then None
     else Some {| summary := s;
                  actionType := if isValidActionType a then a
                                else "MERCHANDISING";
                  nextSteps := steps; caveats := cv |}) = Some output ->
    valid_output output
    /\ (forall force, forceActionType = Some force ->
          isValidActionType force = true -> actionType output = force)).
  { destruct (Jobs.truthy s) eqn:Hs; [| discriminate].
    destruct (Nat.ltb 1000 (String.length s)) eqn:Hlen; [discriminate |].
    cbn [negb orb]. intros [= <-]. cbn [summary actionType nextSteps]. split.
    - split; [exact (truthy_nonempty s Hs) |].
      split; [apply Nat.ltb_ge in Hlen; exact Hlen |].
      split.
      + destruct (isValidActionType a) eqn:Ha;
          [exact (isValidActionType_In a Ha) |].
        cbn. tauto.
      + subst steps. destruct (member "nextSteps" raw) as [[| | | |items|]|];
          try (cbn; lia).
        apply firstn_le_length.
    - intros force -> Hvalid. subst a.
      rewrite (truthy_valid force Hvalid), Hvalid. reflexivity. }
  destruct raw; [discriminate | exact Hbody ..].
Qed.

End AiFacts.

(** X16 (parseAndValidate, isValidActionType).  Whatever [JSON.parse]
    makes of the text, an output that [parseAndValidate] returns has a
    summary that is not empty and at most 1000 long, an action type that
    is one of the six of [ACTION_TYPES], and at most 3 next steps; and
    when an action type of [ACTION_TYPES] is forced, the output has that
    one, whatever the text says. *)
Theorem parseAndValidate_output_valid
  (JSON_parse : string -> option AiInsight.Json) (jsonStr : string)
  (forceActionType : option string) (output : AIInsightOutput) :
  AiInsight.parseAndValidate JSON_parse jsonStr forceActionType = Some output ->
  valid_output output
  /\ (forall force, forceActionType = Some force ->
        AiInsight.isValidActionType force = true -> actionType output = force).
Proof.
  intros H.
  destruct (AiFacts.parseAndValidate_valid JSON_parse jsonStr forceActionType output H)
    as [Hvalid Hforced].
  split.
  - exact Hvalid.
  - intros force Hforce Hin. exact (Hforced force Hforce Hin).
Qed.

(** X16, at an input: a reply with an unknown action type and five next
    steps, one of them not a string. *)
Lemma parseAndValidate_output_valid_witness :
  valid_output
    {| summary := "Stale listing."; actionType := "MERCHANDISING";
       nextSteps := ["a"; "b"; "c"]; caveats := None |}.
Proof.
  exact (proj1 (parseAndValidate_output_valid (parse_as a_reply) "{}" None _ eq_refl)).
Defined.

Module ExtractFacts.
Import AiInsight.

Lemma trimStart_split (l : list ascii) :
  exists ws, l = ws ++ trimStart l /\ white ws.
Proof.
  induction l as [|c l IH]; cbn [trimStart].
  - exists []. split; [reflexivity | constructor].
  - destruct (is_white c) eqn:E.
    + destruct IH as (ws & Hl & Hws). exists (c :: ws). split.
      * cbn. f_equal. exact Hl.
      * constructor; assumption.
    + exists []. split; [reflexivity | constructor].
Qed.

Lemma white_rev (l : list ascii) : white l -> white (rev l).
Proof. unfold white. rewrite !Forall_forall. intros H c Hc. apply H, in_rev, Hc. Qed.

Lemma trim_split (l : list ascii) :
  exists ws1 ws2, l = ws1 ++ trim l ++ ws2 /\ white ws1 /\ white ws2.
Proof.
  destruct (trimStart_split l) as (ws1 & Hl & H1).
  destruct (trimStart_split (rev (trimStart l))) as (ws2 & Hr & H2).
  exists ws1, (rev ws2). split; [| split; [exact H1 | exact (white_rev _ H2)]].
  unfold trim. rewrite <- rev_app_distr, <- Hr, rev_involutive. exact Hl.
Qed.

Lemma white_not_in (c : ascii) (ws : list ascii) :
  is_white c = false -> white ws -> ~ In c ws.
Proof.
  intros Hc Hws Hin. unfold white in Hws. rewrite Forall_forall in Hws.
  rewrite (Hws c Hin) in Hc. discriminate Hc.
Qed.

Lemma indexOf_spec (c : ascii) (l : list ascii) (a : nat) :
  indexOf c l = Some a
  <-> exists p r, l = p ++ c :: r /\ ~ In c p /\ List.length p = a.
Proof.
  revert a. induction l as [|x l IH]; intros a; cbn [indexOf].
  - split; [discriminate |]. intros (p & r & H & _). destruct p; discriminate H.
  - destruct (Ascii.eqb x c) eqn:E.
    + apply Ascii.eqb_eq in E. subst x. split.
      * intros [= <-]. exists [], l. repeat split. intros [].
      * intros (p & r & H & Hno & Hlen). destruct p as [|y p].
        -- cbn in Hlen. congruence.
        -- injection H as -> _. exfalso. apply Hno. left. reflexivity.
    + apply Ascii.eqb_neq in E. split.
      * destruct (indexOf c l) as [i|]; [| discriminate]. cbn. intros [= <-].
        destruct (proj1 (IH i) eq_refl) as (p & r & -> & Hno & Hlen).
        exists (x :: p), r. split; [reflexivity |]. split; [| cbn; congruence].
        intros [Hx|Hp]; [exact (E Hx) | exact (Hno Hp)].
      * intros (p & r & H & Hno & Hlen). destruct p as [|y p].
        -- injection H as Hx _. contradiction.
        -- injection H as -> ->. cbn in Hlen. subst a.
           assert (Hi : indexOf c (p ++ c :: r) = Some (List.length p)).
           { apply IH. exists p, r. repeat split.
             intros Hp. apply Hno. right. exact Hp. }
           rewrite Hi. reflexivity.
Qed.

Lemma lastIndexOf_spec (c : ascii) (l : list ascii) (b : nat) :
  lastIndexOf c l = Some b
  <-> exists f q, l = f ++ c :: q /\ ~ In c q /\ List.length f = b.
Proof.
  unfold lastIndexOf. split.
  - destruct (indexOf c (rev l)) as [i|] eqn:Hi; [| discriminate]. cbn. intros [= <-].
    apply indexOf_spec in Hi. destruct Hi as (p & r & Hrev & Hno & Hlen).
    assert (Hl : l = rev r ++ c :: rev p).
    { rewrite <- (rev_involutive l), Hrev, rev_app_distr. cbn.
      rewrite <- app_assoc. reflexivity. }
    exists (rev r), (rev p). split; [exact Hl |].
    split; [intros Hin; apply Hno, in_rev, Hin |].
    rewrite Hl, length_app, length_rev. cbn [List.length]. rewrite length_rev. lia.
  - intros (f & q & -> & Hno & Hlen).
    assert (Hi : indexOf c (rev (f ++ c :: q)) = Some (List.length q)).
    { apply indexOf_spec. exists (rev q), (rev f). split.
      - rewrite rev_app_distr. cbn. rewrite <- app_assoc. reflexivity.
      - split; [intros Hin; apply Hno, in_rev, Hin | apply length_rev]. }
    rewrite Hi. cbn. f_equal. rewrite length_app. cbn [List.length]. lia.
Qed.

(** The span from the first [c] to the last [d], when the last [d] is
    after the first [c]. *)
Lemma span (c d : ascii) (l : list ascii) (a b : nat) :
  indexOf c l = Some a -> lastIndexOf d l = Some b -> (a < b)%nat ->
  exists p mid q,
    l = p ++ c :: mid ++ d :: q /\ ~ In c p /\ ~ In d q
    /\ slice a (b + 1) l = c :: mid ++ [d].
Proof.
  intros Ha Hb Hlt.
  apply indexOf_spec in Ha. destruct Ha as (p & r & Hl & Hnc & Hpa).
  apply lastIndexOf_spec in Hb. destruct Hb as (f & q & Hl' & Hnd & Hfb).
  assert (Hf : f = firstn b l).
  { rewrite Hl', <- Hfb, firstn_app, Nat.sub_diag, firstn_all. cbn [firstn].
    rewrite app_nil_r. reflexivity. }
  assert (Hmid : exists mid, f = p ++ c :: mid).
  { exists (firstn (b - S a) r). rewrite Hf, Hl, firstn_app, Hpa.
    rewrite firstn_all2 by lia.
    destruct (b - a)%nat as [|n] eqn:E; [lia |]. cbn [firstn].
    do 3 f_equal. lia. }
  destruct Hmid as (mid & Hmid).
  assert (Hr : r = mid ++ d :: q).
  { rewrite Hmid, Hl in Hl'. rewrite <- app_assoc in Hl'. cbn in Hl'.
    apply app_inv_head in Hl'. injection Hl' as Hl'. exact Hl'. }
  exists p, mid, q. split; [rewrite Hl, Hr; reflexivity |].
  split; [exact Hnc |]. split; [exact Hnd |].
  unfold slice. rewrite Hl, Hr, <- Hpa.
  rewrite skipn_app, Nat.sub_diag, skipn_all. cbn [skipn app].
  assert (Hb' : (b + 1 - List.length p = S (List.length mid + 1))%nat).
  { subst b. rewrite Hmid, length_app. cbn [List.length]. lia. }
  rewrite Hb'. cbn [firstn]. f_equal.
  rewrite firstn_app, firstn_all2 by lia.
  replace (List.length mid + 1 - List.length mid)%nat with 1%nat by lia.
  reflexivity.
Qed.

Lemma white_prefix (ws pre x y : list ascii) (c : ascii) :
  white ws -> is_white c = false -> ws ++ x = pre ++ c :: y ->
  exists p, pre = ws ++ p /\ x = p ++ c :: y.
Proof.
  intros Hws Hc. revert pre. induction Hws as [|w ws Hw Hws IH]; intros pre H.
  - exists pre. split; [reflexivity | exact H].
  - destruct pre as [|z pre]; cbn in H.
    + injection H as -> _. congruence.
    + injection H as -> H. destruct (IH pre H) as (p & -> & Hx).
      exists p. split; [reflexivity | exact Hx].
Qed.

Lemma white_suffix (ws post x y : list ascii) (c : ascii) :
  white ws -> is_white c = false -> x ++ ws = y ++ c :: post ->
  exists q, post = q ++ ws /\ x = y ++ c :: q.
Proof.
  intros Hws Hc H.
  assert (Hrev : rev ws ++ rev x = rev post ++ c :: rev y).
  { rewrite <- rev_app_distr, H, rev_app_distr. cbn. rewrite <- app_assoc. reflexivity. }
  destruct (white_prefix (rev ws) (rev post) (rev x) (rev y) c (white_rev _ Hws) Hc Hrev)
    as (p & Hpost & Hx).
  exists (rev p). split.
  - rewrite <- (rev_involutive post), Hpost, rev_app_distr, rev_involutive. reflexivity.
  - rewrite <- (rev_involutive x), Hx, rev_app_distr. cbn.
    rewrite rev_involutive, <- app_assoc. reflexivity.
Qed.

Lemma string_of_app (a b : list ascii) :
  string_of_list_ascii (a ++ b)
  = (string_of_list_ascii a ++ string_of_list_ascii b)%string.
Proof. induction a as [|c a IH]; cbn; [reflexivity | rewrite IH; reflexivity]. Qed.

Lemma list_of_app (a b : string) :
  list_ascii_of_string (a ++ b)%string
  = list_ascii_of_string a ++ list_ascii_of_string b.
Proof. induction a as [|c a IH]; cbn; [reflexivity | rewrite IH; reflexivity]. Qed.

Lemma slice_span (c d : ascii) (p mid q : list ascii) :
  slice (List.length p) (List.length (p ++ c :: mid) + 1) (p ++ c :: mid ++ d :: q)
  = c :: mid ++ [d].
Proof.
  unfold slice. rewrite skipn_app, Nat.sub_diag, skipn_all. cbn [skipn app].
  rewrite length_app. cbn [List.length].
  replace (List.length p + S (List.length mid) + 1 - List.length p)%nat
    with (S (List.length mid + 1)) by lia.
  cbn [firstn]. f_equal.
  rewrite firstn_app, firstn_all2 by lia.
  replace (List.length mid + 1 - List.length mid)%nat with 1%nat by lia.
  reflexivity.
Qed.

Lemma brace_not_white :
  is_white "{"%char = false /\ is_white "}"%char = false.
Proof. split; reflexivity. Qed.

End ExtractFacts.

(** X17 (extractJsonFromContent).  The function returns the stretch of
    the content from its first opening brace to its last closing brace,
    both included, when that closing brace comes after that opening one,
    and [null] otherwise; the trimming that the function starts with
    makes no difference to this.  What it returns begins and ends with
    a brace. *)
Theorem extractJsonFromContent_span (content j : string) :
  AiInsight.extractJsonFromContent content = Some j
  <-> exists pre mid post,
        content = (pre ++ String "{"%char (mid ++ String "}"%char post))%string
        /\ no_char "{"%char pre
        /\ no_char "}"%char post
        /\ j = String "{"%char (mid ++ "}")%string.
Proof.
  destruct ExtractFacts.brace_not_white as [Hopen Hclose].
  unfold AiInsight.extractJsonFromContent. cbv zeta.
  set (L := list_ascii_of_string content).
  destruct (ExtractFacts.trim_split L) as (ws1 & ws2 & HL & Hw1 & Hw2).
  set (T := AiInsight.trim L) in *.
  split.
  - destruct (AiInsight.indexOf "{"%char T) as [a|] eqn:Ha; [| discriminate].
    destruct (AiInsight.lastIndexOf "}"%char T) as [b|] eqn:Hb; [| discriminate].
    destruct (Nat.leb b a) eqn:Hle; [discriminate |]. intros [= <-].
    apply Nat.leb_gt in Hle.
    destruct (ExtractFacts.span _ _ T a b Ha Hb Hle) as (p & mid & q & HT & Hnp & Hnq & Hs).
    exists (string_of_list_ascii (ws1 ++ p)), (string_of_list_ascii mid),
           (string_of_list_ascii (q ++ ws2)).
    split; [| split; [| split]].
    + rewrite <- (string_of_list_ascii_of_string content). fold L.
      rewrite HL, HT.
      replace (ws1 ++ (p ++ "{"%char :: mid ++ "}"%char :: q) ++ ws2)
        with ((ws1 ++ p) ++ "{"%char :: mid ++ "}"%char :: q ++ ws2)
        by (rewrite <- !app_assoc; cbn; rewrite <- !app_assoc; reflexivity).
      repeat (rewrite ExtractFacts.string_of_app || cbn [string_of_list_ascii]).
      reflexivity.
    + unfold no_char. rewrite list_ascii_of_string_of_list_ascii. intros Hin.
      apply in_app_or in Hin. destruct Hin as [Hin|Hin]; [| exact (Hnp Hin)].
      exact (ExtractFacts.white_not_in _ _ Hopen Hw1 Hin).
    + unfold no_char. rewrite list_ascii_of_string_of_list_ascii. intros Hin.
      apply in_app_or in Hin. destruct Hin as [Hin|Hin]; [exact (Hnq Hin) |].
      exact (ExtractFacts.white_not_in _ _ Hclose Hw2 Hin).
    + rewrite Hs. cbn [string_of_list_ascii]. rewrite ExtractFacts.string_of_app.
      reflexivity.
  - intros (pre & mid & post & Hc & Hnp & Hnq & ->).
    assert (HL' : ws1 ++ (T ++ ws2)
                  = list_ascii_of_string pre
                    ++ "{"%char :: (list_ascii_of_string mid
                                    ++ "}"%char :: list_ascii_of_string post)).
    { rewrite <- HL. subst L. rewrite Hc, ExtractFacts.list_of_app.
      cbn [list_ascii_of_string]. rewrite ExtractFacts.list_of_app. reflexivity. }
    destruct (ExtractFacts.white_prefix _ _ _ _ _ Hw1 Hopen HL') as (p & Hpre & HT).
    assert (HT' : T ++ ws2
                  = (p ++ "{"%char :: list_ascii_of_string mid)
                    ++ "}"%char :: list_ascii_of_string post).
    { rewrite HT, <- app_assoc. reflexivity. }
    destruct (ExtractFacts.white_suffix _ _ _ _ _ Hw2 Hclose HT') as (q & Hpost & HT2).
    rewrite <- app_assoc in HT2. cbn [app] in HT2.
    assert (Ha : AiInsight.indexOf "{"%char T = Some (List.length p)).
    { apply ExtractFacts.indexOf_spec. exists p, (list_ascii_of_string mid ++ "}"%char :: q).
      split; [exact HT2 |]. split; [| reflexivity].
      intros Hin. apply Hnp. unfold no_char in *. rewrite Hpre.
      apply in_or_app. right. exact Hin. }
    assert (Hb : AiInsight.lastIndexOf "}"%char T
                 = Some (List.length (p ++ "{"%char :: list_ascii_of_string mid))).
    { apply ExtractFacts.lastIndexOf_spec.
      exists (p ++ "{"%char :: list_ascii_of_string mid), q.
      split; [rewrite HT2, <- app_assoc; reflexivity |]. split; [| reflexivity].
      intros Hin. apply Hnq. rewrite Hpost. apply in_or_app. left. exact Hin. }
    rewrite Ha, Hb.
    assert (Hle : Nat.leb (List.length (p ++ "{"%char :: list_ascii_of_string mid))
                          (List.length p) = false).
    { apply Nat.leb_gt. rewrite length_app. cbn [List.length]. lia. }
    rewrite Hle. f_equal. rewrite HT2, ExtractFacts.slice_span.
    cbn [string_of_list_ascii]. rewrite ExtractFacts.string_of_app.
    rewrite string_of_list_ascii_of_string. reflexivity.
Qed.

Module ClientFacts.
Import AiInsight.

(** A call that resolves has passed every check on the way. *)
Lemma generate_resolved (JSON_parse : string -> option Json) (env : Env)
      (input : AIInsightInput) (output : AIInsightOutput) (m : string) :
  generateProductInsightExplanation JSON_parse env input = Ok (output, m) ->
  exists apiKey response data content,
    OPENAI_API_KEY env = Some apiKey
    /\ (10 <= String.length apiKey)%nat
    /\ fetch env input = Ok response
    /\ ok response = true
    /\ json response = Ok data
    /\ first_content data = Some content
    /\ content <> ""
    /\ parseAndValidate JSON_parse
         (match extractJsonFromContent content with Some s => s | None => content end)
         (if match ai_inventoryStatus input with
             | Some s => String.eqb s "OUT_OF_STOCK"
             | None => false
             end
          then Some "INVENTORY" else None)
       = Some output
    /\ m = match data with
           | Some d => match model d with Some x => x | None => OPENAI_MODEL end
           | None => OPENAI_MODEL
           end.
Proof.
  unfold generateProductInsightExplanation.
  destruct (OPENAI_API_KEY env) as [apiKey|]; [| discriminate].
  destruct (Jobs.truthy apiKey) eqn:Hkey; [| discriminate].
  destruct (Nat.ltb (String.length apiKey) 10) eqn:Hlen; [discriminate |].
  cbn [negb orb].
  destruct (fetch env input) as [response|e]; [| discriminate].
  destruct (ok response) eqn:Hok; cbn [negb].
  2:{ destruct (text response); discriminate. }
  destruct (json response) as [data|e] eqn:Hjson; [| discriminate].
  destruct (first_content data) as [content|] eqn:Hfc; [| discriminate].
  destruct (Jobs.truthy content) eqn:Hc; [| discriminate]. cbn [negb]. cbv zeta.
  destruct (parseAndValidate _ _ _) as [out|] eqn:Hp; [| discriminate].
  intros [= <- <-].
  exists apiKey, response, data, content.
  split; [reflexivity |]. split; [apply Nat.ltb_ge; exact Hlen |].
  split; [reflexivity |]. split; [exact Hok |]. split; [exact Hjson |].
  split; [exact Hfc |]. split; [exact (AiFacts.truthy_nonempty content Hc) |].
  split; [exact Hp | reflexivity].
Qed.

(** What a resolved call hands to [processJob]. *)
Lemma generate_valid_parts (JSON_parse : string -> option Json) (env : Env)
      (input : AIInsightInput) (output : AIInsightOutput) (m : string) :
  generateProductInsightExplanation JSON_parse env input = Ok (output, m) ->
  valid_output output
  /\ (ai_inventoryStatus input = Some "OUT_OF_STOCK" -> actionType output = "INVENTORY").
Proof.
  intros H.
  destruct (generate_resolved JSON_parse env input output m H)
    as (apiKey & response & data & content & _ & _ & _ & _ & _ & _ & _ & Hparse & _).
  destruct (AiFacts.parseAndValidate_valid JSON_parse _ _ output Hparse)
    as [Hvalid Hforced].
  split; [exact Hvalid |].
  intros Hout. rewrite Hout in Hforced. cbn in Hforced.
  exact (Hforced "INVENTORY" eq_refl eq_refl).
Qed.

End ClientFacts.

(** X18 (generateProductInsightExplanation, parseAndValidate,
    extractJsonFromContent).  Whatever the endpoint answers and whatever
    [JSON.parse] makes of it, a call that resolves was made with a key of
    at least 10 characters and resolves to an output with a summary that
    is not empty and at most 1000 long, an action type of
    [ACTION_TYPES] and at most 3 next steps; for a product whose
    inventory status is OUT_OF_STOCK the action type is INVENTORY,
    whatever the answer says; and the model is the one the answer names,
    or "gpt-4o-mini". *)
Theorem generate_output_valid
  (JSON_parse : string -> option AiInsight.Json) (env : AiInsight.Env)
  (input : AIInsightInput) (output : AIInsightOutput) (m : string) :
  AiInsight.generateProductInsightExplanation JSON_parse env input = Ok (output, m) ->
  valid_output output
  /\ (ai_inventoryStatus input = Some "OUT_OF_STOCK" -> actionType output = "INVENTORY")
  /\ (exists apiKey, AiInsight.OPENAI_API_KEY env = Some apiKey
                     /\ (10 <= String.length apiKey)%nat)
  /\ (forall response data,
        AiInsight.fetch env input = Ok response ->
        AiInsight.json response = Ok (Some data) ->
        m = match AiInsight.model data with
            | Some x => x
            | None => "gpt-4o-mini"
            end).
Proof.
  intros H.
  destruct (ClientFacts.generate_resolved JSON_parse env input output m H)
    as (apiKey & response & data & content & Hkey & Hlen & Hfetch & Hok & Hjson
        & Hcontent & Hne & Hparse & Hm).
  destruct (AiFacts.parseAndValidate_valid JSON_parse _ _ output Hparse)
    as [Hvalid Hforced].
  split; [exact Hvalid |]. split; [| split].
  - intros Hout. rewrite Hout in Hforced. cbn in Hforced.
    exact (Hforced "INVENTORY" eq_refl eq_refl).
  - exists apiKey. split; assumption.
  - intros response' data' Hfetch' Hjson'.
    rewrite Hfetch in Hfetch'. injection Hfetch' as <-.
    rewrite Hjson in Hjson'. injection Hjson' as ->.
    exact Hm.
Qed.

(** X18, at an input: the endpoint suggests new copy for a product that
    is out of stock. *)
Lemma generate_output_valid_witness :
  actionType
    {| summary := "Stale listing."; actionType := "INVENTORY";
       nextSteps := ["a"; "b"; "c"]; caveats := None |}
  = "INVENTORY".
Proof.
  exact (proj1 (proj2 (generate_output_valid (parse_as a_reply)
                         (env_answering "Here you go: {...}") out_of_stock_input
                         _ "gpt-4o-mini" eq_refl))
               eq_refl).
Defined.

Module StoredFacts.
Import Jobs.

Lemma explanation_nonempty (output : AIInsightOutput) :
  summary output <> "" -> explanation output <> "".
Proof.
  intros Hs. unfold explanation. cbn [filter].
  assert (Ht : truthy (summary output) = true).
  { unfold truthy. destruct (String.eqb (summary output) "") eqn:E; [| reflexivity].
    apply String.eqb_eq in E. contradiction. }
  rewrite Ht. destruct (summary output) as [|c s] eqn:Es; [contradiction |].
  cbn [String.concat]. destruct (filter truthy _); cbn; discriminate.
Qed.

End StoredFacts.

(** X19 (processJob, generateProductInsightExplanation).  With the
    client as the executor, [processJob] on a claimed Job (the Job and
    Insight rows exist, and so does the run when the Job has one)
    resolves whatever the endpoint answers, and leaves the Insight in
    one of three states: SUCCEEDED with no error, an explanation that is
    not empty and an action type of [ACTION_TYPES], which is INVENTORY
    when the Insight says OUT_OF_STOCK; QUEUED for a retry with no error;
    or FAILED with an error message of at most 500 characters. *)
Theorem processJob_stores_validated
  (JSON_parse : string -> option AiInsight.Json) (env : AiInsight.Env)
  (w : World) (jobId : Id) (insight : Jobs.InsightSnapshot)
  (shop productId : string) (runId : option Id) (j : InsightJob) (i : ProductInsight) :
  job_row w jobId = Some j ->
  insight_row w (Jobs.sn_id insight) = Some i ->
  (forall r, runId = Some r -> run_row w r <> None) ->
  let out := run (AiInsight.generateProductInsightExplanation JSON_parse env)
                 (Jobs.processJob jobId insight shop productId runId) w in
  result out = Ok tt
  /\ exists i',
       insight_row (final out) (Jobs.sn_id insight) = Some i'
       /\ match ins_aiStatus i' with
          | Some SUCCEEDED =>
              ins_aiError i' = None
              /\ (exists x, ins_aiExplanation i' = Some x /\ x <> "")
              /\ (exists a, ins_aiActionType i' = Some a
                            /\ In a AiInsight.ACTION_TYPES
                            /\ (Jobs.sn_inventoryStatus insight = Some "OUT_OF_STOCK" ->
                                a = "INVENTORY"))
          | Some QUEUED => ins_aiError i' = None
          | Some FAILED =>
              exists message, ins_aiError i' = Some message
                              /\ (String.length message <= 500)%nat
          | _ => False
          end.
Proof.
  intros Hj Hi Hrun out. subst out.
  set (ai := AiInsight.generateProductInsightExplanation JSON_parse env).
  destruct (ai (Jobs.ai_input insight (clock w))) as [[output m]|e] eqn:Hai.
  - pose proof (SuccessFacts.processJob_success_run ai w jobId insight shop productId
                  runId j i output m Hj Hi Hai) as Hp.
    cbv zeta in Hp.
    pose proof (SuccessFacts.success_world_insight w jobId (Jobs.sn_id insight)
                  output m i Hi) as Hins.
    destruct (ClientFacts.generate_valid_parts JSON_parse env _ output m Hai)
      as (Hvalid & Hforce).
    assert (Hstate :
      ins_aiError (insight_apply (Jobs.generated output m (clock w)) i) = None
      /\ (exists x, ins_aiExplanation (insight_apply (Jobs.generated output m (clock w)) i)
                    = Some x /\ x <> "")
      /\ (exists a, ins_aiActionType (insight_apply (Jobs.generated output m (clock w)) i)
                    = Some a
                    /\ In a AiInsight.ACTION_TYPES
                    /\ (Jobs.sn_inventoryStatus insight = Some "OUT_OF_STOCK" ->
                        a = "INVENTORY"))).
    { split; [reflexivity |]. split.
      - eexists. split; [reflexivity |].
        apply StoredFacts.explanation_nonempty. apply Hvalid.
      - eexists. split; [reflexivity |]. split; [apply Hvalid | exact Hforce]. }
    destruct runId as [r|].
    + destruct (run_row w r) as [rn|] eqn:Hrn; [| exfalso; exact (Hrun r eq_refl Hrn)].
      rewrite Hp. unfold result, final; cbn [fst snd]. split; [reflexivity |].
      eexists. split; [exact Hins | exact Hstate].
    + rewrite Hp. unfold result, final; cbn [fst snd]. split; [reflexivity |].
      eexists. split; [exact Hins | exact Hstate].
  - pose proof (JobsFacts.failure_world_insight w jobId (Jobs.sn_id insight)
                  (job_attempts j) e i Hi) as Hins.
    assert (Hstate :
      match ins_aiStatus
              (insight_apply
                 (Jobs.mirror (if job_attempts j <? Jobs.MAX_ATTEMPTS then QUEUED else FAILED)
                    (if job_attempts j <? Jobs.MAX_ATTEMPTS then None
                     else Some (Jobs.slice500 (Jobs.message_of e)))) i) with
      | Some SUCCEEDED => False
      | Some QUEUED =>
          ins_aiError
            (insight_apply
               (Jobs.mirror (if job_attempts j <? Jobs.MAX_ATTEMPTS then QUEUED else FAILED)
                  (if job_attempts j <? Jobs.MAX_ATTEMPTS then None
                   else Some (Jobs.slice500 (Jobs.message_of e)))) i) = None
      | Some FAILED =>
          exists message,
            ins_aiError
              (insight_apply
                 (Jobs.mirror (if job_attempts j <? Jobs.MAX_ATTEMPTS then QUEUED else FAILED)
                    (if job_attempts j <? Jobs.MAX_ATTEMPTS then None
                     else Some (Jobs.slice500 (Jobs.message_of e)))) i) = Some message
            /\ (String.length message <= 500)%nat
      | _ => False
      end).
    { destruct (job_attempts j <? Jobs.MAX_ATTEMPTS); cbn; [reflexivity |].
      eexists. split; [reflexivity | apply JobsFacts.slice500_length]. }
    assert (Hgoal : forall wf,
      insight_row wf (Jobs.sn_id insight)
      = insight_row (failure_world w jobId (Jobs.sn_id insight) (job_attempts j) e)
                    (Jobs.sn_id insight) ->
      exists i',
        insight_row wf (Jobs.sn_id insight) = Some i'
        /\ match ins_aiStatus i' with
           | Some SUCCEEDED =>
               ins_aiError i' = None
               /\ (exists x, ins_aiExplanation i' = Some x /\ x <> "")
               /\ (exists a, ins_aiActionType i' = Some a
                             /\ In a AiInsight.ACTION_TYPES
                             /\ (Jobs.sn_inventoryStatus insight = Some "OUT_OF_STOCK" ->
                                 a = "INVENTORY"))
           | Some QUEUED => ins_aiError i' = None
           | Some FAILED =>
               exists message, ins_aiError i' = Some message
                               /\ (String.length message <= 500)%nat
           | _ => False
           end).
    { intros wf Hwf. eexists. split; [rewrite Hwf; exact Hins |].
      destruct (ins_aiStatus _) as [[| | |]|]; try exact Hstate; contradiction. }
    destruct (Z_lt_le_dec (job_attempts j) Jobs.MAX_ATTEMPTS) as [Hlt|Hge].
    + rewrite (JobsFacts.processJob_failure_retry ai w jobId insight shop productId runId
                 j i e Hj Hi Hai Hlt).
      unfold result, final; cbn [fst snd]. split; [reflexivity |].
      apply Hgoal. reflexivity.
    + destruct runId as [r|].
      * destruct (run_row w r) as [rn|] eqn:Hrn; [| exfalso; exact (Hrun r eq_refl Hrn)].
        rewrite (JobsFacts.processJob_failure_final_run ai w jobId insight shop productId
                   r rn j i e Hj Hi Hrn Hai Hge).
        unfold result, final; cbn [fst snd]. split; [reflexivity |].
        apply Hgoal. reflexivity.
      * rewrite (JobsFacts.processJob_failure_final ai w jobId insight shop productId
                   j i e Hj Hi Hai Hge).
        unfold result, final; cbn [fst snd]. split; [reflexivity |].
        apply Hgoal. reflexivity.
Qed.

(** X19, at a world: the claimed Job of run 5, with an endpoint that
    answers. *)
Lemma processJob_stores_validated_witness :
  result (run (AiInsight.generateProductInsightExplanation (parse_as a_reply)
                 (env_answering "{}"))
              (Jobs.processJob 1 (Jobs.snapshot (an_insight 3 "p1")) shop_a "p1"
                               (Some 5%nat))
              claimed_world)
  = Ok tt.
Proof.
  refine (proj1 (processJob_stores_validated (parse_as a_reply) (env_answering "{}")
                   claimed_world 1 (Jobs.snapshot (an_insight 3 "p1")) shop_a "p1"
                   (Some 5%nat) (a_job 1 "p1" (Some 5%nat) RUNNING 1 10)
                   (an_insight 3 "p1") eq_refl eq_refl _)).
  intros r Hr. injection Hr as <-. discriminate.
Defined.

(** ** Rows that are gone *)

Module GoneFacts.
Import Prisma Jobs.

(** The pair of updates fails as a whole when either row is gone. *)
Lemma update_pair_gone (iid : Id) (nd : InsightData) (jid : Id) (jd : JobData) (w : World) :
  insight_row w iid = None \/ job_row w jid = None ->
  transaction [void (insight_update iid nd); void (job_update jid jd)] w
  = (Err not_found, w).
Proof.
  unfold insight_row, job_row, transaction, sequence, void, insight_update, job_update.
  destruct (find_key ins_id iid (productInsight (db w))) as [i|] eqn:Hi.
  - intros [H|H]; [discriminate H |].
    cbn [with_insights db insightJob]. rewrite H. reflexivity.
  - intros _. reflexivity.
Qed.

End GoneFacts.

(** X20 (processJob).  When the Insight row or the Job row that
    [processJob] was given is gone (the shop was purged after the claim,
    say), the call rejects with the store's not-found error whatever the
    executor answers, and writes nothing: the failed transaction of the
    catch block is not caught. *)
Theorem processJob_rows_gone
  (ai : AIInsightInput -> AiResult) (w : World) (jobId : Id)
  (insight : Jobs.InsightSnapshot) (shop productId : string) (runId : option Id) :
  insight_row w (Jobs.sn_id insight) = None \/ job_row w jobId = None ->
  let out := run ai (Jobs.processJob jobId insight shop productId runId) w in
  result out = Err not_found
  /\ final out = w.
Proof.
  intros Hgone out. subst out.
  assert (Htx : forall nd jd,
            Prisma.transaction [Prisma.void (Prisma.insight_update (Jobs.sn_id insight) nd);
                                Prisma.void (Prisma.job_update jobId jd)] w
            = (Err not_found, w))
    by (intros nd jd; apply GoneFacts.update_pair_gone, Hgone).
  unfold Jobs.processJob. cbn.
  destruct (ai (Jobs.ai_input insight (clock w))) as [[output m]|e]; cbn.
  - rewrite Htx. cbn. rewrite PrismaFacts.job_findUnique_eq. cbn.
    rewrite Htx. cbn. split; reflexivity.
  - rewrite PrismaFacts.job_findUnique_eq. cbn.
    rewrite Htx. cbn. split; reflexivity.
Qed.

(** X20, at a world: the Job was claimed and the shop then purged. *)
Lemma processJob_rows_gone_witness :
  final (run ai_up
             (Jobs.processJob 1 (Jobs.snapshot (an_insight 3 "p1")) shop_a "p1"
                              (Some 5%nat))
             (purged shop_a claimed_world))
  = purged shop_a claimed_world.
Proof.
  refine (proj2 (processJob_rows_gone ai_up (purged shop_a claimed_world) 1
                   (Jobs.snapshot (an_insight 3 "p1")) shop_a "p1" (Some 5%nat) _)).
  left. reflexivity.
Defined.

(** ** The loop of the worker *)

(** X21 (main of the worker, tick, updateRunCompletion).  A turn of the
    worker's loop never rejects, whatever the executor and the store
    answer: an error of the tick or of the reconciliation is caught.
    The counter of empty polls is 0 after a turn that did work, one
    higher after a turn that found nothing, and unchanged after a turn
    whose tick threw. *)
Theorem turn_never_rejects (ai : AIInsightInput -> AiResult) (c : Z) (w : World) :
  exists c', result (run ai (WorkerLoop.turn c) w) = Ok c'
             /\ match result (run ai Worker.tick w) with
                | Ok true => c' = 0
                | Ok false => c' = c + 1
                | Err _ => c' = c
                end.
Proof.
  unfold WorkerLoop.turn.
  rewrite RunFacts.result_try_catch, RunFacts.result_bind.
  destruct (result (run ai Worker.tick w)) as [[|]|e].
  - exists 0. split; reflexivity.
  - cbv zeta.
    destruct ((Z.rem (c + 1) 5 =? 0) && (0 <? c + 1)).
    + rewrite RunFacts.result_try_catch, RunFacts.result_bind.
      exists (c + 1).
      destruct (result (run ai Worker.updateRunCompletion _)); split; reflexivity.
    + exists (c + 1). split; reflexivity.
  - exists c. split; reflexivity.
Qed.

Module LoopFacts.
Import Prisma Jobs.

Lemma nothing_queued_idle (w : World) :
  nothing_queued w ->
  forall j, In j (insightJob (db w)) -> eligible (clock w) j = false.
Proof.
  intros H j Hj. unfold eligible.
  destruct (job_status j) eqn:E; try reflexivity.
  exfalso. exact (H j Hj E).
Qed.

(** A turn on a store with nothing QUEUED. *)
Lemma turn_idle_run ai (c : Z) (w : World) :
  nothing_queued w ->
  run ai (WorkerLoop.turn c) w
  = if (Z.rem (c + 1) 5 =? 0) && (0 <? c + 1)
    then (match result (run ai Worker.updateRunCompletion w) with
          | Ok _ => Ok (c + 1) | Err _ => Ok (c + 1) end,
          final (run ai Worker.updateRunCompletion w),
          (Call InsightJobM FindFirst, w) :: trace (run ai Worker.updateRunCompletion w))
    else (Ok (c + 1), w, [(Call InsightJobM FindFirst, w)]).
Proof.
  intros Hq. unfold WorkerLoop.turn.
  rewrite RunFacts.run_try_catch, RunFacts.run_bind.
  unfold Worker.tick at 1. rewrite RunFacts.run_bind.
  rewrite (TickFacts.claimNextJob_idle_run ai w (nothing_queued_idle w Hq)).
  cbn [run]. cbv zeta.
  destruct ((Z.rem (c + 1) 5 =? 0) && (0 <? c + 1)); [| reflexivity].
  rewrite RunFacts.run_try_catch, RunFacts.run_bind.
  unfold result, final, trace.
  destruct (run ai Worker.updateRunCompletion w) as [[[u|e] w1] tr]; cbn;
    rewrite ?app_nil_r; reflexivity.
Qed.

Lemma advance_advance (a b : Z) (w : World) :
  advance a (advance b w) = advance (b + a) w.
Proof. unfold advance. cbn. f_equal. lia. Qed.

Lemma advance_zero (w : World) : advance 0 w = w.
Proof. destruct w as [t n d]. unfold advance. cbn. rewrite Z.add_0_r. reflexivity. Qed.

Lemma polls_app ai (n m : nat) :
  forall c w,
  polls ai (n + m) c w = polls ai m (fst (polls ai n c w)) (snd (polls ai n c w)).
Proof.
  induction n as [|n IH]; intros c w; [reflexivity |].
  cbn [Nat.add polls]. apply IH.
Qed.

(** Turns that find nothing and are not the fifth of their kind only
    let time pass. *)
Lemma polls_idle ai (n : nat) :
  forall (c : Z) (w : World),
  nothing_queued w -> 0 <= c -> c + Z.of_nat n <= 4 ->
  polls ai n c w
  = (c + Z.of_nat n, advance (Z.of_nat n * WorkerLoop.POLL_INTERVAL_MS) w).
Proof.
  induction n as [|n IH]; intros c w Hq Hc Hle.
  - cbn [polls]. rewrite Z.add_0_r. cbn. rewrite advance_zero. reflexivity.
  - cbn [polls]. rewrite (turn_idle_run ai c w Hq).
    assert (E : (Z.rem (c + 1) 5 =? 0) && (0 <? c + 1) = false).
    { apply Bool.andb_false_iff. left. apply Z.eqb_neq.
      rewrite Z.rem_small by lia. lia. }
    rewrite E. unfold result, final; cbn [fst snd].
    rewrite IH; [| intros j Hj; exact (Hq j Hj) | lia | lia].
    rewrite advance_advance. f_equal; [lia |]. f_equal. lia.
Qed.

End LoopFacts.

(** X22 (main of the worker, tick, updateRunCompletion).  On a store
    with no QUEUED Job and unique run identities, the worker's loop,
    started with its counter at 0 and pausing [POLL_INTERVAL_MS] after
    each turn, writes nothing in its first four turns and reconciles the
    runs in the fifth: a RUNNING run without QUEUED or RUNNING child is
    marked COMPLETED then, four pauses after the first empty poll, and
    no Job is changed. *)
Theorem worker_reconciles_on_fifth_idle_poll
  (ai : AIInsightInput -> AiResult) (w : World) :
  nothing_queued w ->
  NoDup (map run_id (runT (db w))) ->
  (forall n, (n <= 4)%nat ->
     polls ai n 0 w
     = (Z.of_nat n, advance (Z.of_nat n * WorkerLoop.POLL_INTERVAL_MS) w))
  /\ fst (polls ai 5 0 w) = 5
  /\ runT (db (snd (polls ai 5 0 w)))
     = map (reconciled (advance (4 * WorkerLoop.POLL_INTERVAL_MS) w)) (runT (db w))
  /\ insightJob (db (snd (polls ai 5 0 w))) = insightJob (db w).
Proof.
  intros Hq Hnd.
  assert (Hfour : forall n, (n <= 4)%nat ->
            polls ai n 0 w
            = (Z.of_nat n, advance (Z.of_nat n * WorkerLoop.POLL_INTERVAL_MS) w)).
  { intros n Hn. rewrite (LoopFacts.polls_idle ai n 0 w Hq); [reflexivity | lia | lia]. }
  split; [exact Hfour |].
  change 5%nat with (4 + 1)%nat. rewrite LoopFacts.polls_app.
  rewrite (Hfour 4%nat) by lia. cbn [fst snd].
  change (Z.of_nat 4) with 4.
  set (w4 := advance (4 * WorkerLoop.POLL_INTERVAL_MS) w).
  assert (Hq4 : nothing_queued w4) by (intros j Hj; exact (Hq j Hj)).
  assert (Hnd4 : NoDup (map run_id (runT (db w4)))) by exact Hnd.
  destruct (Reconciliation.updateRunCompletion_run ai w4 Hnd4) as (Hres & Hjobs & _ & Hruns).
  cbn [polls]. rewrite (LoopFacts.turn_idle_run ai 4 w4 Hq4).
  change ((Z.rem (4 + 1) 5 =? 0) && (0 <? 4 + 1)) with true. cbv iota.
  rewrite Hres. unfold result, final; cbn [fst snd].
  split; [reflexivity |]. split.
  - unfold final in Hruns. exact Hruns.
  - unfold final in Hjobs. exact Hjobs.
Qed.

(** X22, at a world: the only Job of run 5 has succeeded. *)
Lemma worker_reconciles_on_fifth_idle_poll_witness :
  fst (polls ai_up 5 0
             (a_world [a_job 1 "p1" (Some 5%nat) SUCCEEDED 1 10] [an_insight 3 "p1"]
                      [a_run 5 1]))
  = 5.
Proof.
  refine (proj1 (proj2 (worker_reconciles_on_fifth_idle_poll ai_up
                          (a_world [a_job 1 "p1" (Some 5%nat) SUCCEEDED 1 10]
                                   [an_insight 3 "p1"] [a_run 5 1]) _ _))).
  - intros j [<-|[]]. discriminate.
  - repeat constructor. intros [].
Defined.

(** ** Requests served one at a time *)

Module Thinning.
Import Prisma Jobs.

Section Thins.
Variable P : InsightJob -> InsightJob -> Prop.
Hypothesis P_refl : forall j, P j j.
Hypothesis P_trans : forall a b c, P a b -> P b c -> P a c.

Lemma thins_refl (l : list InsightJob) : thins P l l.
Proof. induction l; constructor; auto. Qed.

Lemma thins_trans (l1 l2 l3 : list InsightJob) :
  thins P l1 l2 -> thins P l2 l3 -> thins P l1 l3.
Proof.
  intros H. revert l3. induction H as [|j j' l l' Hj H IH|j l l' H IH]; intros l3 H3.
  - exact H3.
  - inversion H3 as [|? j'' ? l3' Hj' H3'|? ? ? H3']; subst.
    + apply thins_keep; [exact (P_trans _ _ _ Hj Hj') | exact (IH _ H3')].
    + apply thins_drop. exact (IH _ H3').
  - apply thins_drop. exact (IH _ H3).
Qed.

Lemma thins_map (g : InsightJob -> InsightJob) (l : list InsightJob) :
  (forall j, P j (g j)) -> thins P l (map g l).
Proof. intros Hg. induction l; cbn; constructor; auto. Qed.

Lemma thins_filter (p : InsightJob -> bool) (l : list InsightJob) :
  thins P l (filter p l).
Proof.
  induction l as [|j l IH]; cbn; [constructor |].
  destruct (p j); [apply thins_keep; auto | apply thins_drop; exact IH].
Qed.

Lemma thinned_refl (w : World) : thinned P w w.
Proof. split; [lia | apply thins_refl]. Qed.

Lemma thinned_trans (a b c : World) : thinned P a b -> thinned P b c -> thinned P a c.
Proof.
  intros [Hn H] [Hn' H']. split; [lia | exact (thins_trans _ _ _ H H')].
Qed.

Lemma thinned_same (w w' : World) :
  insightJob (db w') = insightJob (db w) -> (nextId w <= nextId w')%nat ->
  thinned P w w'.
Proof. intros Hj Hn. split; [exact Hn | rewrite Hj; apply thins_refl]. Qed.

End Thins.

Lemma thins_weaken (P Q : InsightJob -> InsightJob -> Prop) (l l' : list InsightJob) :
  (forall j j', In j l -> P j j' -> Q j j') -> thins P l l' -> thins Q l l'.
Proof.
  intros HPQ H. induction H as [|j j' l l' Hj H IH|j l l' H IH].
  - constructor.
  - apply thins_keep; [apply HPQ; [left; reflexivity | exact Hj] |].
    apply IH. intros x x' Hx. apply HPQ. right. exact Hx.
  - apply thins_drop. apply IH. intros x x' Hx. apply HPQ. right. exact Hx.
Qed.

Lemma same_key_refl (j : InsightJob) : same_key j j.
Proof. repeat split. Qed.

Lemma same_key_trans (a b c : InsightJob) : same_key a b -> same_key b c -> same_key a c.
Proof. unfold same_key. intuition congruence. Qed.

Lemma calm_refl (j : InsightJob) : calm j j.
Proof. split; [apply same_key_refl | auto]. Qed.

Lemma calm_trans (a b c : InsightJob) : calm a b -> calm b c -> calm a c.
Proof.
  intros [K1 A1] [K2 A2]. split; [exact (same_key_trans _ _ _ K1 K2) | auto].
Qed.

Lemma only_row_refl (id : Id) (j : InsightJob) : only_row id j j.
Proof. split; [apply same_key_refl | auto]. Qed.

Lemma only_row_trans (id : Id) (a b c : InsightJob) :
  only_row id a b -> only_row id b c -> only_row id a c.
Proof.
  intros [K1 A1] [K2 A2]. split; [exact (same_key_trans _ _ _ K1 K2) |].
  intros Hne. rewrite <- (A1 Hne). apply A2.
  destruct K1 as [Hid _]. rewrite (A1 Hne). exact Hne.
Qed.

(** Rows of a thinned table come from rows of the table. *)
Lemma thins_In (P : InsightJob -> InsightJob -> Prop) (l l' : list InsightJob) (j' : InsightJob) :
  thins P l l' -> In j' l' -> exists j, In j l /\ P j j'.
Proof.
  intros H. induction H as [|j x l l' Hj H IH|j l l' H IH]; intros Hin.
  - destruct Hin.
  - destruct Hin as [<-|Hin].
    + exists j. split; [left; reflexivity | exact Hj].
    + destruct (IH Hin) as (y & Hy & Hp). exists y. split; [right; exact Hy | exact Hp].
  - destruct (IH Hin) as (y & Hy & Hp). exists y. split; [right; exact Hy | exact Hp].
Qed.

Lemma thins_NoDup (l l' : list InsightJob) :
  thins calm l l' -> NoDup (map job_id l) -> NoDup (map job_id l').
Proof.
  intros H. induction H as [|j j' l l' Hj H IH|j l l' H IH]; cbn; intros Hnd.
  - constructor.
  - inversion Hnd as [|? ? Hnot Hnd']; subst. constructor; [| exact (IH Hnd')].
    intros Hin. apply in_map_iff in Hin. destruct Hin as (x' & Hid & Hx').
    destruct (thins_In calm l l' x' H Hx') as (x & Hx & [[Hk _] _]).
    apply Hnot. apply in_map_iff. exists x. split; [| exact Hx].
    destruct Hj as [[Hj _] _]. congruence.
  - inversion Hnd; subst. auto.
Qed.

Lemma calm_active (shop productId : string) (j j' : InsightJob) :
  calm j j' -> is_active_for shop productId j' = true ->
  is_active_for shop productId j = true.
Proof.
  intros [(_ & Hs & Hp) Ha]. unfold is_active_for. rewrite Hs, Hp.
  intros H. apply andb_prop in H. destruct H as [H1 H2].
  rewrite H1, (Ha H2). reflexivity.
Qed.

Lemma thins_count (shop productId : string) (l l' : list InsightJob) :
  thins calm l l' ->
  (List.length (filter (is_active_for shop productId) l')
   <= List.length (filter (is_active_for shop productId) l))%nat.
Proof.
  intros H. induction H as [|j j' l l' Hj H IH|j l l' H IH]; cbn.
  - lia.
  - destruct (is_active_for shop productId j') eqn:E.
    + rewrite (calm_active shop productId j j' Hj E). cbn. lia.
    + destruct (is_active_for shop productId j); cbn; lia.
  - destruct (is_active_for shop productId j); cbn; lia.
Qed.

(** A store that thins calmly keeps the invariant. *)
Lemma one_active_thinned (w w' : World) :
  thinned calm w w' -> one_active w -> one_active w'.
Proof.
  intros [Hn H] (Hnd & Hlt & Hone). split; [exact (thins_NoDup _ _ H Hnd) |]. split.
  - intros j' Hj'. destruct (thins_In calm _ _ j' H Hj') as (j & Hj & [[Hid _] _]).
    rewrite Hid. specialize (Hlt j Hj). lia.
  - intros shop productId. specialize (Hone shop productId).
    pose proof (thins_count shop productId _ _ H). lia.
Qed.

(** Changing only rows that were active is calm. *)
Lemma thins_calm_then_row (id : Id) (l0 l1 l2 : list InsightJob) :
  (forall j, In j l0 -> job_id j = id -> in_active (job_status j) = true) ->
  thins calm l0 l1 -> thins (only_row id) l1 l2 -> thins calm l0 l2.
Proof.
  intros Hact H. revert l2. induction H as [|j j' l l' Hj H IH|j l l' H IH]; intros l2 H2.
  - inversion H2. constructor.
  - assert (Hrest : forall x, In x l -> job_id x = id -> in_active (job_status x) = true)
      by (intros x Hx; apply Hact; right; exact Hx).
    inversion H2 as [|? j'' ? l2' Hj' H2'|? ? ? H2']; subst.
    + apply thins_keep; [| exact (IH Hrest _ H2')].
      destruct Hj as [K A]. destruct Hj' as [K' A'].
      split; [exact (same_key_trans _ _ _ K K') |].
      destruct (Nat.eq_dec (job_id j) id) as [Hid|Hne].
      * intros _. apply Hact; [left; reflexivity | exact Hid].
      * assert (Hne' : job_id j' <> id) by (destruct K as [-> _]; exact Hne).
        rewrite (A' Hne'). exact A.
    + apply thins_drop. exact (IH Hrest _ H2').
  - apply thins_drop. apply IH; [| exact H2].
    intros x Hx. apply Hact. right. exact Hx.
Qed.

End Thinning.

Module Sequential.
Import Prisma Jobs History Thinning.

Section Run.
Variable G : World -> World -> Prop.
Hypothesis G_refl : forall w, G w w.
Hypothesis G_trans : forall a b c, G a b -> G b c -> G a c.

(** What every call keeps, the whole call keeps. *)
Lemma always_run (R : Type) (ai : AIInsightInput -> AiResult) (p : Proc R) :
  forall w, always G p -> G w (final (run ai p w)).
Proof.
  induction p as [a|e|g IH|X l s g IH|i g IH]; intros w H; cbn [run].
  - apply G_refl.
  - apply G_refl.
  - apply IH, H.
  - destruct H as [Hs Hg]. specialize (Hs w). destruct (s w) as [r w1]. cbn [snd] in Hs.
    specialize (IH r w1 (Hg r)). destruct (run ai (g r) w1) as [[res w2] tr].
    unfold final in *. cbn [fst snd] in *. exact (G_trans _ _ _ Hs IH).
  - specialize (IH (ai i) w (H (ai i))). destruct (run ai (g (ai i)) w) as [[res w2] tr].
    unfold final in *. cbn [fst snd] in *. exact IH.
Qed.

Lemma sequence_keeps (ss : list (Stmt unit)) :
  (forall s, In s ss -> forall w, G w (snd (s w))) ->
  forall w, G w (snd (sequence ss w)).
Proof.
  induction ss as [|s ss IH]; intros Hss w; cbn [sequence]; [apply G_refl |].
  pose proof (Hss s (or_introl eq_refl) w) as Hs.
  destruct (s w) as [[u|e] w1]; cbn [snd] in *; [| exact Hs].
  apply (G_trans _ _ _ Hs). apply IH. intros x Hx. apply Hss. right. exact Hx.
Qed.

Lemma transaction_keeps (ss : list (Stmt unit)) :
  (forall s, In s ss -> forall w, G w (snd (s w))) ->
  forall w, G w (snd (transaction ss w)).
Proof.
  intros Hss w. unfold transaction. pose proof (sequence_keeps ss Hss w) as H.
  destruct (sequence ss w) as [[u|e] w1]; cbn [snd] in *; [exact H | apply G_refl].
Qed.

End Run.

(** *** Calls that thin the Job table *)

Section Calls.
Variable P : InsightJob -> InsightJob -> Prop.
Hypothesis P_refl : forall j, P j j.

Lemma thinned_jobs_map (g : InsightJob -> InsightJob) (w : World) :
  (forall j, P j (g j)) -> thinned P w (with_jobs (map g) w).
Proof. intros Hg. split; [cbn; lia | cbn; apply thins_map, Hg]. Qed.

Lemma thinned_insight_update (id : Id) (d : InsightData) (w : World) :
  thinned P w (snd (insight_update id d w)).
Proof.
  unfold insight_update. destruct (find_key _ _ _); cbn [snd];
    apply thinned_same; auto; reflexivity.
Qed.

Lemma thinned_run_update (id : Id) (d : RunData) (w : World) :
  thinned P w (snd (run_update id d w)).
Proof.
  unfold run_update. destruct (find_key _ _ _); cbn [snd];
    apply thinned_same; auto; reflexivity.
Qed.

Lemma thinned_event_create (id topic shop : string) (w : World) :
  thinned P w (snd (event_create id topic shop w)).
Proof.
  unfold event_create. destruct (existsb _ _); cbn [snd];
    apply thinned_same; auto; cbn; lia.
Qed.

Lemma thinned_job_update (id : Id) (d : JobData) (w : World) :
  (forall j, job_id j = id -> P j (job_apply (clock w) d j)) ->
  thinned P w (snd (job_update id d w)).
Proof.
  intros Hd. unfold job_update.
  destruct (find_key _ _ _); cbn [snd]; [| apply thinned_refl, P_refl].
  apply thinned_jobs_map. intros x. destruct (Nat.eqb (job_id x) id) eqn:E.
  - apply Hd. apply Nat.eqb_eq. exact E.
  - apply P_refl.
Qed.

End Calls.

Lemma same_key_apply (t : Time) (d : JobData) (j : InsightJob) :
  same_key j (job_apply t d j).
Proof. repeat split. Qed.

Lemma calm_settles (t : Time) (d : JobData) (j : InsightJob) :
  settles d -> calm j (job_apply t d j).
Proof.
  intros Hd. split; [apply same_key_apply |]. unfold settles in Hd. cbn.
  destruct (jd_status d) as [[| | |]|]; cbn; try contradiction; auto; discriminate.
Qed.

Lemma calm_job_update (id : Id) (d : JobData) (w : World) :
  settles d -> thinned calm w (snd (job_update id d w)).
Proof.
  intros Hd. apply (thinned_job_update calm calm_refl). intros j _.
  apply calm_settles, Hd.
Qed.

Lemma only_row_job_update (id : Id) (d : JobData) (w : World) :
  thinned (only_row id) w (snd (job_update id d w)).
Proof.
  unfold job_update.
  destruct (find_key _ _ _); cbn [snd]; [| apply thinned_refl, only_row_refl].
  apply (thinned_jobs_map (only_row id)). intros x.
  destruct (Nat.eqb (job_id x) id) eqn:E.
  - split; [apply same_key_apply |]. apply Nat.eqb_eq in E. intros Hne. contradiction.
  - apply only_row_refl.
Qed.

(** The conditional update of a claim touches QUEUED rows only. *)
Lemma calm_fence (c : InsightJob) (t : Time) (w : World) :
  thinned calm w (snd (job_updateMany (fence c) (claimed t) w)).
Proof.
  unfold job_updateMany. cbn [snd]. apply (thinned_jobs_map calm). intros x.
  destruct (fence c x) eqn:E; [| apply calm_refl].
  split; [apply same_key_apply |]. intros _.
  unfold fence in E. apply andb_prop in E. destruct E as [E _].
  apply andb_prop in E. destruct E as [_ E].
  destruct (job_status x); (reflexivity || discriminate).
Qed.

Lemma calm_clear_run (j : InsightJob) : calm j (job_clear_run j).
Proof. split; [repeat split | auto]. Qed.

Lemma calm_purge (shop : string) (w : World) :
  thinned calm w (snd (Webhook.purge_shop shop w)).
Proof.
  unfold Webhook.purge_shop.
  apply (transaction_keeps (thinned calm) (thinned_refl calm calm_refl)
           (thinned_trans calm calm_trans)).
  intros s [<-|[<-|[<-|[<-|[]]]]] w0; rewrite snd_void.
  - unfold job_deleteMany. cbn [snd]. split; [cbn; lia |]. cbn.
    apply thins_filter, calm_refl.
  - unfold run_deleteMany. cbn [snd]. split; [cbn; lia |]. cbn.
    apply thins_map. intros j. destruct (refers_to_deleted _ _ j);
      [apply calm_clear_run | apply calm_refl].
  - unfold insight_deleteMany. cbn [snd]. apply thinned_same; auto using calm_refl.
  - unfold session_deleteMany. cbn [snd]. apply thinned_same; auto using calm_refl.
Qed.

End Sequential.

Module Calm.
Import Prisma Jobs History Thinning Sequential.

Ltac calm_call :=
  first [ apply calm_fence
        | apply calm_job_update; exact I
        | apply (thinned_insight_update calm calm_refl)
        | apply (thinned_run_update calm calm_refl)
        | apply (thinned_event_create calm calm_refl)
        | apply calm_purge
        | apply (thinned_refl calm calm_refl) ].

Ltac calm_walk :=
  repeat first
    [ exact I
    | apply always_new_Date
    | apply always_await; [intros ?w; calm_call]
    | apply always_bind; [| intros ?a]
    | apply always_try_catch; [| intros ?e]
    | match goal with
      | |- always _ (match ?x with _ => _ end) => destruct x
      end ].

Lemma calm_claimNextJob : always (thinned calm) claimNextJob.
Proof.
  unfold claimNextJob, select_and_claim, claim_candidate, after_transaction,
    load_insight, fail_without_insight, return_claimed.
  calm_walk.
Qed.

Lemma calm_updateRunCompletion_loop (runs : list Run) :
  always (thinned calm) (Worker.updateRunCompletion_loop runs).
Proof.
  induction runs as [|r rest IH]; cbn [Worker.updateRunCompletion_loop]; [exact I |].
  apply always_bind; [apply always_await; intros w; calm_call | intros pending].
  apply always_bind; [| intros u; exact IH].
  destruct (Nat.eqb pending 0); [| exact I].
  apply always_bind; [apply always_new_Date | intros t].
  apply always_bind; [apply always_await; intros w; calm_call | intros x; exact I].
Qed.

Lemma calm_updateRunCompletion : always (thinned calm) Worker.updateRunCompletion.
Proof.
  unfold Worker.updateRunCompletion.
  apply always_bind; [apply always_await; intros w; calm_call | intros runs].
  apply calm_updateRunCompletion_loop.
Qed.

Lemma calm_uninstall (request : Webhook.Request) :
  always (thinned calm) (Webhook.action request).
Proof.
  unfold Webhook.action, Webhook.authenticate_and_purge, Webhook.record_and_purge,
    Webhook.purge_and_acknowledge, Webhook.authenticate_webhook.
  cbv zeta. calm_walk.
Qed.

(** [processJob] writes to the row of its Job only. *)
Lemma calm_processJob (jobId : Id) (insight : InsightSnapshot)
      (shop productId : string) (runId : option Id) :
  always (thinned (only_row jobId)) (processJob jobId insight shop productId runId).
Proof.
  assert (Hpair : forall nd jd w,
            thinned (only_row jobId) w
              (snd (transaction [void (insight_update (sn_id insight) nd);
                                 void (job_update jobId jd)] w))).
  { intros nd jd w.
    apply (transaction_keeps (thinned (only_row jobId))
             (thinned_refl _ (only_row_refl jobId))
             (thinned_trans _ (only_row_trans jobId))).
    intros s [<-|[<-|[]]] w0; rewrite snd_void.
    - apply (thinned_insight_update _ (only_row_refl jobId)).
    - apply only_row_job_update. }
  unfold processJob. cbv zeta.
  repeat first
    [ exact I
    | apply always_new_Date
    | apply always_generate
    | apply always_await;
      [intros ?w;
       first [ apply Hpair
             | apply (thinned_run_update _ (only_row_refl jobId))
             | apply (thinned_refl _ (only_row_refl jobId)) ]]
    | apply always_bind; [| intros ?a]
    | apply always_try_catch; [| intros ?e]
    | match goal with
      | |- always _ (match ?x with _ => _ end) => destruct x
      end ].
Qed.

(** A claim returns the identity of a row that was QUEUED. *)
Lemma claimNextJob_returns_queued ai w job insight :
  result (run ai claimNextJob w) = Ok (Some (job, insight)) ->
  exists c, In c (insightJob (db w)) /\ job_id c = cj_id job /\ job_status c = QUEUED.
Proof.
  unfold claimNextJob. cbn. unfold job_findFirst_orderBy_createdAt. cbn.
  destruct (oldest _) as [c|] eqn:Hc; cbn; [| discriminate].
  pose proof (ClaimFacts.oldest_In _ _ Hc) as Hin.
  apply filter_In in Hin. destruct Hin as [Hin Hel].
  assert (Hq : job_status c = QUEUED).
  { unfold eligible in Hel. apply andb_prop in Hel.
    destruct Hel as [Hs _]. destruct (job_status c); (reflexivity || discriminate). }
  unfold job_updateMany. cbn.
  destruct (Nat.eqb _ 0); cbn; [discriminate |].
  unfold insight_findUnique. cbn.
  destruct (find _ (productInsight _)) as [i|]; cbn.
  - destruct (insight_update _ _ _) as [[i'|e] w1]; cbn; [| discriminate].
    intros [= <- _]. exists c. auto.
  - destruct (job_update _ _ _) as [[j'|e] w1]; cbn; discriminate.
Qed.

(** A tick, run alone, makes no Job active. *)
Lemma tick_calm ai (w : World) :
  NoDup (map job_id (insightJob (db w))) ->
  thinned calm w (final (run ai Worker.tick w)).
Proof.
  intros Hnd. unfold Worker.tick. rewrite RunFacts.final_bind.
  pose proof (always_run (thinned calm) (thinned_refl calm calm_refl)
                (thinned_trans calm calm_trans) _ ai claimNextJob w calm_claimNextJob)
    as Hclaim.
  destruct (result (run ai claimNextJob w)) as [[[job insight]|]|e] eqn:Hres;
    [| exact Hclaim | exact Hclaim].
  rewrite RunFacts.final_bind.
  set (w1 := final (run ai claimNextJob w)) in *.
  pose proof (always_run (thinned (only_row (cj_id job)))
                (thinned_refl _ (only_row_refl _)) (thinned_trans _ (only_row_trans _))
                _ ai _ w1
                (calm_processJob (cj_id job) insight (cj_shop job) (cj_productId job)
                                   (cj_runId job))) as Hproc.
  assert (Hfinal : thinned calm w
            (final (run ai (processJob (cj_id job) insight (cj_shop job)
                                       (cj_productId job) (cj_runId job)) w1))).
  { destruct Hclaim as [Hn1 H1]. destruct Hproc as [Hn2 H2]. split; [lia |].
    apply (thins_calm_then_row (cj_id job) (insightJob (db w)) (insightJob (db w1)));
      [| exact H1 | exact H2].
    destruct (claimNextJob_returns_queued ai w job insight Hres) as (c & Hc & Hid & Hq).
    intros j Hj Hjid.
    rewrite (ClaimsInv.same_id_same_row _ j c Hnd Hj Hc) by congruence.
    rewrite Hq. reflexivity. }
  destruct (result (run ai (processJob _ _ _ _ _) w1)); exact Hfinal.
Qed.

End Calm.

Module OneActive.
Import Prisma Jobs History Thinning Sequential.

Lemma one_active_ext (w w' : World) :
  insightJob (db w') = insightJob (db w) -> nextId w' = nextId w ->
  one_active w -> one_active w'.
Proof. unfold one_active. intros -> ->. auto. Qed.

Lemma filter_nil_none (A : Type) (p : A -> bool) (l : list A) :
  (forall x, In x l -> p x = false) -> filter p l = [].
Proof.
  induction l as [|a l IH]; intros H; [reflexivity |]. cbn.
  rewrite (H a (or_introl eq_refl)). apply IH. intros x Hx. apply H. right. exact Hx.
Qed.

Lemma find_none_filter (A : Type) (p : A -> bool) (l : list A) :
  find p l = None -> filter p l = [].
Proof. intros H. apply filter_nil_none. intros x Hx. exact (find_none _ _ H x Hx). Qed.

(** A Job appended for a product that has none active. *)
Lemma one_active_append (w : World) (shop productId : string) (runId : option Id) :
  one_active w ->
  filter (is_active_for shop productId) (insightJob (db w)) = [] ->
  one_active (bump_id (with_jobs (fun l => l ++ [new_job w shop productId runId]) w)).
Proof.
  intros (Hnd & Hlt & Hone) Hnone. unfold one_active. cbn [bump_id with_jobs db insightJob nextId].
  split; [| split].
  - rewrite map_app. cbn [map new_job job_id]. apply NoDup_snoc; [exact Hnd |].
    intros Hin. apply in_map_iff in Hin. destruct Hin as (j & Hid & Hj).
    specialize (Hlt j Hj). lia.
  - intros j Hj. apply in_app_or in Hj. destruct Hj as [Hj|[<-|[]]].
    + specialize (Hlt j Hj). lia.
    + cbn. lia.
  - intros s p. rewrite filter_app, length_app. cbn [filter].
    destruct (is_active_for s p (new_job w shop productId runId)) eqn:E.
    + unfold is_active_for in E. cbn [new_job job_shop job_productId job_status] in E.
      apply andb_prop in E. destruct E as [E _]. apply andb_prop in E.
      destruct E as [Es Ep]. apply String.eqb_eq in Es, Ep. subst s p.
      rewrite Hnone. cbn. lia.
    + specialize (Hone s p). cbn [List.length]. lia.
Qed.

Lemma run_await (A : Type) (ai : AIInsightInput -> AiResult) (l : Label) (s : Stmt A)
      (w : World) :
  result (run ai (await l s) w) = fst (s w) /\ final (run ai (await l s) w) = snd (s w).
Proof.
  unfold await. cbn [run]. destruct (s w) as [[a|e] w1]; cbn; split; reflexivity.
Qed.

(** From [insightJob.create] on. *)
Lemma created_one_active ai (shop productId : string) (runId : option Id)
      (cont : InsightJob -> Proc (option Id)) (w : World) :
  (forall job, always (thinned calm) (cont job)) ->
  one_active w ->
  filter (is_active_for shop productId) (insightJob (db w)) = [] ->
  one_active
    (final (run ai (job <- await (Call InsightJobM Create)
                                 (job_create shop productId runId QUEUED) ;;
                    cont job) w)).
Proof.
  intros Hcont Hone Hnone. rewrite RunFacts.final_bind.
  destruct (run_await _ ai (Call InsightJobM Create)
              (job_create shop productId runId QUEUED) w) as [-> ->].
  assert (Hok : forall job,
            one_active (final (run ai (cont job)
              (bump_id (with_jobs (fun l => l ++ [new_job w shop productId runId]) w))))).
  { intros job. apply (one_active_thinned _ _
      (always_run (thinned calm) (thinned_refl calm calm_refl)
         (thinned_trans calm calm_trans) _ ai (cont job) _ (Hcont job))).
    apply one_active_append; assumption. }
  unfold job_create. fold (new_job w shop productId runId).
  destruct runId as [r|]; [destruct (find_key run_id r (runT (db w))) |];
    cbn [fst snd]; first [apply Hok | exact Hone].
Qed.

Lemma short_list_same (A : Type) (l : list A) (x y : A) :
  (List.length l <= 1)%nat -> In x l -> In y l -> x = y.
Proof.
  destruct l as [|a [|b l]]; cbn; intros Hlen Hx Hy; [destruct Hx | | lia].
  destruct Hx as [<-|[]], Hy as [<-|[]]. reflexivity.
Qed.

(** Superseding the active Job of a product leaves the product with
    none. *)
Lemma superseded_clears (w : World) (shop productId : string) (e : InsightJob) :
  one_active w ->
  find (is_active_for shop productId) (insightJob (db w)) = Some e ->
  job_update (job_id e) superseded w
  = (Ok (job_apply (clock w) superseded e),
     with_jobs (update_key job_id (job_id e) (job_apply (clock w) superseded)) w)
  /\ filter (is_active_for shop productId)
            (update_key job_id (job_id e) (job_apply (clock w) superseded)
                        (insightJob (db w))) = [].
Proof.
  intros (Hnd & _ & Hone) He. apply find_some in He. destruct He as [Hin Hact].
  split.
  - apply PrismaFacts.job_update_found. unfold job_row.
    exact (ClaimFacts.find_key_NoDup _ _ Hnd Hin).
  - apply filter_nil_none. intros x' Hx'. unfold update_key in Hx'.
    apply in_map_iff in Hx'. destruct Hx' as (x & <- & Hx).
    destruct (Nat.eqb (job_id x) (job_id e)) eqn:E.
    + unfold is_active_for. cbn. rewrite !Bool.andb_false_r. reflexivity.
    + destruct (is_active_for shop productId x) eqn:Hxa; [| reflexivity].
      exfalso. apply Nat.eqb_neq in E. apply E. f_equal.
      apply (short_list_same _ (filter (is_active_for shop productId) (insightJob (db w))));
        [apply Hone | apply filter_In; auto | apply filter_In; auto].
Qed.

Lemma always_mirror (shop productId : string) (job : InsightJob) :
  always (thinned calm)
    (insight <- await (Call ProductInsightM FindUnique)
                      (insight_findUnique shop productId) ;;
     match insight with
     | Some i => await (Call ProductInsightM Update)
                       (insight_update (ins_id i) (mirror QUEUED None)) ;; Ret tt
     | None => Ret tt
     end ;;
     Ret (Some (job_id job))).
Proof. Calm.calm_walk. Qed.

(** [enqueueInsightJob], run alone, keeps the invariant. *)
Lemma enqueueInsightJob_one_active ai (shop productId : string) (runId : option Id)
      (force : bool) (w : World) :
  one_active w ->
  one_active (final (run ai (enqueueInsightJob shop productId runId force) w)).
Proof.
  intros Hone. unfold enqueueInsightJob. rewrite RunFacts.final_bind.
  destruct (run_await _ ai (Call InsightJobM FindFirst)
              (job_findFirst (is_active_for shop productId)) w) as [-> ->].
  unfold job_findFirst. cbn [fst snd].
  destruct (find (is_active_for shop productId) (insightJob (db w))) as [e|] eqn:He;
    [destruct force |]; cbv iota.
  - destruct (superseded_clears w shop productId e Hone He) as [Hupd Hnone].
    destruct (run_await _ ai (Call InsightJobM Update)
                (job_update (job_id e) superseded) w) as [Hr Hf].
    rewrite Hupd in Hr, Hf. cbn [fst snd] in Hr, Hf.
    assert (Hrun : result (run ai (await (Call InsightJobM Update)
                                         (job_update (job_id e) superseded) ;; Ret tt) w)
                   = Ok tt
                   /\ final (run ai (await (Call InsightJobM Update)
                                           (job_update (job_id e) superseded) ;; Ret tt) w)
                      = with_jobs (update_key job_id (job_id e)
                                              (job_apply (clock w) superseded)) w).
    { rewrite RunFacts.result_bind, RunFacts.final_bind, Hr, Hf. split; reflexivity. }
    destruct Hrun as [Hres Hfin].
    rewrite RunFacts.final_bind, Hres, Hfin.
    apply (created_one_active ai shop productId runId
             (fun job => _) _ (always_mirror shop productId)).
    + apply (one_active_thinned w).
      * pose proof (calm_job_update (job_id e) superseded w I) as H.
        rewrite Hupd in H. exact H.
      * exact Hone.
    + exact Hnone.
  - exact Hone.
  - rewrite RunFacts.final_bind. cbn [run result final fst snd].
    apply (created_one_active ai shop productId runId
             (fun job => _) _ (always_mirror shop productId)).
    + exact Hone.
    + apply find_none_filter. exact He.
Qed.

Lemma enqueueBatch_loop_one_active ai (shop : string) (runId : Id)
      (productIds : list string) :
  forall enqueued w,
  one_active w ->
  one_active (final (run ai (enqueueBatch_loop enqueued shop productIds runId) w)).
Proof.
  induction productIds as [|p rest IH]; intros enqueued w Hone; [exact Hone |].
  cbn [enqueueBatch_loop]. rewrite RunFacts.final_bind.
  pose proof (enqueueInsightJob_one_active ai shop p (Some runId) false w Hone) as H1.
  destruct (result (run ai (enqueueInsightJob shop p (Some runId) false) w));
    [apply IH; exact H1 | exact H1].
Qed.

Lemma action_one_active ai (shop : string) (formData : Insights.FormData) (w : World) :
  one_active w ->
  one_active (final (run ai (Insights.action shop formData) w)).
Proof.
  intros Hone. unfold Insights.action. cbv zeta.
  destruct (Insights.intent_is formData "batch").
  - set (productIds := match Insights.fd_productIds formData with
                       | Some raw => _
                       | None => []
                       end).
    destruct (Nat.eqb (List.length productIds) 0); [exact Hone |].
    rewrite RunFacts.final_bind.
    destruct (run_await _ ai (Call RunM Create)
                (run_create shop RUN_RUNNING (Z.of_nat (List.length productIds))) w)
      as [-> ->].
    unfold run_create. cbn [fst snd run_id].
    set (w1 := bump_id _).
    assert (H1 : one_active w1).
    { apply (one_active_thinned w); [| exact Hone].
      apply (thinned_same calm calm_refl); [reflexivity | cbn; lia]. }
    rewrite RunFacts.final_bind. unfold enqueueBatch.
    pose proof (enqueueBatch_loop_one_active ai shop (nextId w) productIds 0 w1 H1) as H2.
    destruct (result (run ai (enqueueBatch_loop 0 shop productIds (nextId w)) w1));
      exact H2.
  - destruct (Insights.fd_productId formData) as [productId|]; [| exact Hone].
    destruct (_ || _); [exact Hone |].
    rewrite RunFacts.final_bind.
    destruct (run_await _ ai (Call ProductInsightM FindUnique)
                (insight_findUnique shop productId) w) as [-> ->].
    unfold insight_findUnique. cbn [fst snd].
    destruct (find _ (productInsight (db w))); [| exact Hone].
    rewrite RunFacts.final_bind.
    pose proof (enqueueInsightJob_one_active ai shop productId None
                  (Insights.intent_is formData "regenerate") w Hone) as H1.
    destruct (result (run ai (enqueueInsightJob shop productId None
                                (Insights.intent_is formData "regenerate")) w))
      as [[id|]|e]; exact H1.
Qed.

End OneActive.

(** X23 (action of app.insights, enqueueInsightJob, enqueueBatch,
    claimNextJob, processJob, tick, updateRunCompletion, action of the
    uninstall webhook).  When form actions, worker ticks, reconciliation
    passes and uninstall deliveries are served one at a time, each to
    its end before the next starts, with any time passing in between,
    and whatever the executor answers: if no product of a shop has two
    Jobs that are QUEUED or RUNNING (and Job identities are unique and
    below the identity supply), this stays so. *)
Theorem one_active_job_per_product
  (ai : AIInsightInput -> AiResult) (requests : list Served) (w : World) :
  one_active w -> one_active (serve ai requests w).
Proof.
  revert w. induction requests as [|[t|request|d] rest IH]; intros w Hone; cbn [serve].
  - exact Hone.
  - apply IH. destruct t as [shop formData| |]; cbn [task].
    + rewrite RunFacts.final_bind.
      pose proof (OneActive.action_one_active ai shop formData w Hone) as H.
      destruct (result (run ai (Insights.action shop formData) w)); exact H.
    + rewrite RunFacts.final_bind.
      assert (H : one_active (final (run ai Worker.tick w))).
      { apply (Thinning.one_active_thinned w); [| exact Hone].
        apply Calm.tick_calm. apply Hone. }
      destruct (result (run ai Worker.tick w)); exact H.
    + apply (Thinning.one_active_thinned w); [| exact Hone].
      apply (Sequential.always_run (thinned calm)
               (Thinning.thinned_refl calm Thinning.calm_refl)
               (Thinning.thinned_trans calm Thinning.calm_trans)).
      apply Calm.calm_updateRunCompletion.
  - apply IH. apply (Thinning.one_active_thinned w); [| exact Hone].
    apply (Sequential.always_run (thinned calm)
             (Thinning.thinned_refl calm Thinning.calm_refl)
             (Thinning.thinned_trans calm Thinning.calm_trans)).
    apply Calm.calm_uninstall.
  - apply IH. destruct (0 <=? d); [| exact Hone].
    apply (OneActive.one_active_ext w); [reflexivity | reflexivity | exact Hone].
Qed.

(** X23, at a world: product "p1" has a queued Job; it is regenerated,
    the worker ticks, a batch names it again, two seconds pass and the
    runs are reconciled. *)
Lemma one_active_job_per_product_witness :
  one_active
    (serve ai_up
       [Request (FormAction shop_a (generate_form "regenerate" "p1"));
        Request WorkerTick;
        Request (FormAction shop_a (batch_form "p1,p2"));
        Wait 2000;
        Request Reconcile]
       (a_world [a_job 1 "p1" None QUEUED 0 10] [an_insight 3 "p1"] [])).
Proof.
  apply one_active_job_per_product. split; [| split].
  - repeat constructor. intros [].
  - intros j [<-|[]]. cbn. lia.
  - intros shop productId. cbn [a_world db insightJob filter].
    destruct (Jobs.is_active_for shop productId _); cbn; lia.
Defined.
